(* ===== verification/_CoqProject ===== *)
-Q . S2P
Prelude.v
Data.v
Attempt.v
Timing.v
Numbers.v
Parameters.v
CacheFiles.v
CacheCollections.v
CachePersons.v
CollectionsCorrect.v
CacheNodes.v
ScenariosCorrect.v
SurveyCorrect.v
NodesCorrect.v
RoutingResult.v
ConnectionSet.v
ConnectionCache.v
TransitData.v
Interleaving.v
CacheSchedules.v
SchedulesCorrect.v
CacheFetcher.v
Calculator.v
FloatBounds.v
GeoFilters.v
StartUp.v
Demo.v
RequestDemo.v
ForwardCalculation.v
ForwardCorrect.v
ResetCorrect.v
ForwardJourney.v
ReverseCalculation.v
OptimizeJourney.v
OptimizeCorrect.v
JourneyAccounts.v
ReverseCorrect.v
ReverseJourney.v
Calculation.v
CalculationCorrect.v
BothWays.v
QuerySetup.v
QueryCorrect.v
AccessibilityCorrect.v
Combinations.v
Alternatives.v
AlternativesCorrect.v
QueryTotal.v
ResultToV2.v
OdTripsRouting.v
OdTripsCorrect.v
SurveyReport.v
HttpServer.v
ServerCorrect.v
ServerTransparent.v
SurveyQuery.v
CacheCorrect.v
FiltersCorrect.v
FilterDemo.v
CacheLoad.v
StartUpCorrect.v
ServerDemo.v
SurveyDemo.v
CacheDemo.v
StartUpDemo.v
