(* ===== verification/Prelude.v ===== *)
(** * trRouting: a verification development of the transit routing server

    trRouting answers two questions on a public transit timetable: how to go from an
    origin to a destination ([RouteParameters]), and which stops can be reached from,
    or lead to, a place ([AccessibilityParameters]). It is a Connection Scan
    Algorithm: the timetable is the list of all connections (a vehicle from one stop
    to the next), sorted once by departure time and once by arrival time, and a query
    is one scan of one list, or a scan forward and a scan back.

    A request comes over HTTP: its fields are parsed into parameters, a calculator made
    for the request answers the query, or searches alternatives with further queries
    that exclude lines, and the result becomes a JSON document.

    The program starts from its arguments ([main]): it reads the timetable from the files
    of a cache, chooses how stops near a point are found (the distance as the crow flies,
    or a map service), and listens. [odTripsRouting] answers a whole survey of trips and
    reports the demand on each line and path; no request reaches it today.

    ** The parts, and the files that model them

    - Prelude: machine integers ([int], [short], the rounding of [float]), the monad
      [calc] of a computation that may throw, the loops [for_each] and [for_loop]
      (with [break]), vector and map accesses that fail, a stable sort, and the
      tactics and hints the other files share.
    - Data (include/*.hpp): nodes, lines, paths, trips, connections, scenarios,
      parameters, journey steps, with their comparison operators and setters. The
      exceptions of the program are the type [exn]; [Undefined] stands for behaviour
      that the language leaves undefined, [BadOptionalAccess] and [OutOfRange] for the
      exceptions of [optional::value] and of [at].
    - RoutingResult (include/routing_result.hpp and the loops shared by
      forward_journey.cpp and reverse_journey.cpp): the results; following the
      journey steps from a node ([unwind]); the sums over a journey
      ([journey_result]); the visitors of routing_result_visitor.hpp.
    - Timing (calculation_time.cpp): the timer of a calculator, with its assertions.
    - Numbers: [std::stoi] and [std::stod] as the parameters use them. What a
      platform does with a subnormal number is the class [Platform].
    - Parameters (parameters/*.cpp, include/parameters.hpp): the parsing of a request.
      The functions of Boost are the class [Boost], with laws.
    - Attempt: the monad of a fetcher, whose container keeps what it holds when an
      exception leaves; [attempt] is [try] with a handler.
    - CacheFiles (src/cache_fetcher.cpp, include/capnp): the names of the files and the
      messages they hold, with the fields that are read. Opening a file and decoding its
      message is the class [CacheFiles].
    - CacheCollections (agencies, services, lines, paths, scenarios and data sources
      _cache_fetcher.cpp, modes_initialization.cpp), CachePersons (persons and od_trips
      _cache_fetcher.cpp), CacheNodes (nodes_cache_fetcher.cpp), CacheSchedules
      (trips_and_connections_cache_fetcher.cpp): the fetchers, from messages to ordered
      maps, with their exceptions and codes. CacheFetcher makes of them the instance of
      [DataFetcher] that the program uses.
    - ConnectionSet (src/connection_set.cpp): the two sorted lists with the cached
      position of each hour.
    - ConnectionCache (src/connection_cache.cpp): the two caches of the connection
      sets of scenarios, as instances of a class with laws.
    - TransitData (src/transit_data.cpp): loading the data, the two sorts, the
      vectors of connections of each trip, the connections of a scenario. The data
      fetchers are the class [DataFetcher].
    - Interleaving: threads that ask for the connections of scenarios at the same time, as
      a step relation over the cache they share.
    - Calculator (connection_scan_algorithm/include/calculator.hpp,
      src/initializations.cpp, src/resets.cpp, src/calculator.cpp): the state of a
      calculator and the reset before a query. The geographic filter is the class
      [GeoFilter].
    - GeoFilters (geofilter.cpp, euclideangeofilter.cpp, osrmgeofilter.cpp): its two
      instances, in the arithmetic of [float] and [double] ([SpecFloat], 24 and 53 bits).
      The cosine is the class [Libm], the map service the class [OsrmService]. FloatBounds
      has the bounds of rounding that their theorems use.
    - StartUp (program_options.cpp, and [main] of transit_routing_http_server.cpp): the
      options and the start. The command line of Boost is the class [CommandLine].
    - Demo: a timetable of four stops on which the theorems are instantiated.
    - ForwardCalculation, ReverseCalculation (forward_calculation.cpp,
      reverse_calculation.cpp): the scans, both functions of each file.
    - ForwardJourney, ReverseJourney (forward_journey.cpp, reverse_journey.cpp): from
      the state of a scan to a result.
    - OptimizeJourney (optimize_journey.cpp): the removal of the detours of a journey.
    - Calculation (calculator.cpp): the calculations of a query, made of the above.
    - Combinations (include/combinations.hpp), Alternatives (alternatives_routing.cpp):
      the search of alternatives.
    - ResultToV2 (result_to_v2.cpp, result_to_v2_summary.cpp,
      result_to_v2_accessibility.cpp): the documents. The library of JSON is the class
      [JsonLibrary], with laws.
    - OdTripsRouting (od_trips_routing.cpp, legacyV1_parameters.cpp): the report of a
      survey. [std::shuffle] is the class [Shuffle].
    - HttpServer (transit_routing_http_server.cpp): the handlers of the requests, from
      the fields of the query string to the text of the response and the cache they
      leave, and the update of the data.
    - ForwardCorrect, ResetCorrect, ReverseCorrect, OptimizeCorrect, JourneyAccounts,
      CalculationCorrect: the theorems on the components of a calculation; those on the
      results are in ForwardJourney and ReverseJourney.
    - BothWays, QuerySetup, QueryCorrect, AccessibilityCorrect, QueryTotal: the theorems
      on whole queries. BothWays says what the scan back finds of the journeys of the
      forward scan, QuerySetup what each scan finds in the calculator, from the data.
    - AlternativesCorrect, ServerCorrect, ServerTransparent: the theorems on alternatives
      and on the server; RequestDemo and ServerDemo: implementations of [Boost] and
      [JsonLibrary] with their laws, and requests to the server of Demo.
    - CollectionsCorrect, ScenariosCorrect, SurveyCorrect, NodesCorrect, SchedulesCorrect,
      CacheCorrect: the theorems on each fetcher; CacheLoad: on the start from a cache;
      FiltersCorrect, StartUpCorrect: on the filters and on the program; OdTripsCorrect,
      SurveyReport, SurveyQuery: on the profiles and on the report of a survey. CacheDemo, FilterDemo,
      StartUpDemo and SurveyDemo: a cache, a map service, a command line and a survey on
      which they are instantiated.

    A method of [Calculator] that changes fields takes the calculator and returns it;
    the out parameters of a method are part of its result. Objects are compared by
    [uid] or [uuid] as their operators do. References to nodes inside nodes, a cycle
    in the program, are [uid]s here.

    ** What the theorems show

    - The position caches skip no connection of a query, up to one hour that is out
      of bounds ([forward_scan_complete], [forward_hour_32_undefined]).
    - The sorts hold every connection once, and the vectors of a trip follow it
      ([generate_connections_sorted], [trip_vectors_in_sequence]); the filter of a
      scenario and the transparency of its caches. Threads that share a cache, in any
      order of their accesses, return what each returns alone, and all of them return
      ([interleaved_threads]).
    - The fetchers: for files without mistakes, the elements, footpaths, trips and
      connections are those of the files ([getNodes_footpaths],
      [getSchedules_connections]); with mistakes, what is kept ([survey_read]) and which
      code is returned ([collections_read]; for the survey it is always [0],
      [survey_codes_ignore_mistakes]). A cache without mistakes gives data on which
      everything else holds ([cache_loads_healthy]).
    - The filters: a footpath for each near stop, in order, with the whole part of its
      distance and of its time, and no conversion of a [float] to [int] that is undefined
      ([euclidean_footpaths]); with the map service, the footpaths of the table,
      or an exception when a value that is needed is [null]
      ([osrm_footpaths_of_table]). The first keeps the law that the reset asks of a
      filter, the second when the service finds a walk to every stop ([walks_found]).
    - The scans: the abstract specification is the inductive predicate [reaches]
      (forward) or [departs] (reverse): where a traveller can be, and when, by the
      timetable. The invariants [Sound] and [Complete] give earliest arrivals and
      latest departures, and that no access is out of bounds (before 32:00), with the
      early exits of the loops. With a limit on the first wait, as by default, what the
      forward scan finds is real and no later than any journey whose connections are
      within the limit ([within_first_wait]); without one it is the earliest; and the places where the code falls short of it (the limit on the
      first wait, waiting times of more than 32,767 seconds, the access step that a
      later departure does not replace).
    - The results: the accessible nodes are those with a journey within the limit,
      each with its earliest arrival (or its departure) and its transfers; the result
      of a route is made of pieces of the rides of a connected journey of the timetable,
      in the order of time, and its totals add up ([reverse_journey_result],
      [balanced]), up to a second or a metre that markers of [-1] put in.
    - The reset fills the calculator from the footpaths of the two ends
      ([end_filled]), which is what the scans assume, or names the end without access.
    - The removal of detours ends, within the fuel [optimize_fuel] (one round for each
      stop that a ride can lose and each node that can be ignored), and keeps the ends
      of the journey; two updates leave a journey that does not hold together.

    - Whole queries: a route by departure time, without a limit on the first wait and
      with one waiting time for all connections, arrives when no journey arrives before
      ([calculateSingle_earliest]), one by arrival time is in time and leaves within
      twice the largest waiting time of the latest departure
      ([calculateSingle_by_arrival]); accessibility maps list what they are to list
      ([calculateAllNodes_forward], [calculateAllNodes_reverse]), up to the limit on the
      first wait and to margins of the waiting times.
    - The parsing of a request: the parameters are in range or an error is named that
      is there, and a request written from parameters is read back.
    - Alternatives: the generator gives the sublists of a size; the search ends within
      200 rounds with at most 50 routes with different lines, and fails only where a
      calculation of the search fails ([alternatives_bounded]); each route answers a
      query of its own and avoids the lines it excludes.
    - Documents: the summary counts the boardings of each line, which is the number of
      routes with the line when none boards it twice.
    - The server: what an update request does, and that a healthy server answers every
      sequence of requests ([every_request_answered]): no handler ends in an unhandled
      exception, undefined behaviour or a loop without end. The scope is that of the
      program: a time of the trip before 32:00, a minimal waiting time that a [short]
      holds, and walks of less than 65,536 seconds, which keeps the square of the distance
      in range; [healthy] says what is asked of the data and of the footpaths. Each answer
      is that to the request alone, whatever was answered before and with either cache
      ([answers_independent_of_cache]).
    - The program: from the arguments and the files of the cache to the answers
      ([program_answers]); the fetchers, the filters, the options and the handlers are
      the definitions of the files above, and only Boost, the decoding of messages, the
      JSON library, the platform and the map service are parameters.
    - The survey: the profiles are, for each line, segment and hour, the sums over the legs
      that are there, in the order of the trips ([demand_profiles]: the sums are of
      [float]s, so the order counts). A healthy server reports a survey
      ([survey_answered]): each trip is an ordinary query, with the footpaths and the
      departure that it declares, so what is proved of queries holds of it, and what one
      calculator keeps from trip to trip is without effect. The trips have footpaths at
      both ends (without them a sum of the code overflows), surveys are of less than 2^24
      trips, a count that [float] holds, and the vectors of demand have 29 hours, which
      bounds the departures.

    Loops over lists are structural. The loops that follow journey steps have one unit
    of fuel per entry of the table ([unwind_fuel]); a journey of a scan goes back (or
    forward) in time at each step, so the fuel is enough ([chain_exists]). The search
    of alternatives has one unit for each calculation it may make ([search_loop]), the
    generator of combinations one for each element of a combination.

    ** What is not modelled

    The vendored HTTP library (client_http.hpp, server_http.hpp and what they include)
    and its sockets; the unfinished second algorithm (trip_based_algorithm), which is not
    built; the fetchers of households and places, which are not compiled; the log. The
    calculations leave out the timer, whose assertions hold for a clock that does not go
    back ([durations_since]). Boost, the JSON library, the decoding of Cap'n Proto
    messages, the map service, the cosine of the platform and the engine of
    [std::shuffle] are classes, with the laws that the theorems use.

    An update of the data takes no lock: with several threads it runs while others read
    what it clears, which is a data race and has no behaviour to model; updates and
    requests follow each other here, and only calculations interleave. After an exception
    of a calculation the model leaves the calculator as the reset made it: what the scan
    wrote since is not read again ([od_calculation_reads]). A connection set in the cache refers to
    connections that an update of the data destroys; sets are values here. Sums of
    times are not wrapped at 32 bits; what is cast to [short] is. The order of an
    [unordered_map] is that of the list given. *)

From Stdlib Require Import ZArith Lia Sorted Permutation.
From stdpp Require Import base list gmap strings sorting.

#[global] Set Default Goal Selector "!".

Declare Scope tr_scope.
Delimit Scope tr_scope with tr.

(** ** Machine integers *)

Section Integers.
Local Open Scope Z_scope.

(** [constexpr int MAX_INT {std::numeric_limits<int>::max()}]. *)
Definition MAX_INT : Z := 2147483647.

Definition MIN_INT : Z := -2147483648.

(** A value a C++ [int] can hold. *)
Definition in_int (z : Z) : Prop := MIN_INT <= z <= MAX_INT.

(** The implicit conversion of an [int] to a [short]: modulo [2^16]. *)
Definition to_short (z : Z) : Z := (z + 32768) mod 65536 - 32768.

(** The conversion [(float) z] of an [int], as the integer the binary32 result
    denotes: 24 significant bits, ties to even. *)
Definition float_of_int (z : Z) : Z :=
  if Z.abs z <=? 16777216 then z
  else
    let a := Z.abs z in
    let k := Z.log2 a - 23 in
    let q := Z.shiftr a k in
    let r := a - Z.shiftl q k in
    let half := Z.shiftl 1 (k - 1) in
    let q' := if (half <? r) || ((half =? r) && Z.odd q) then q + 1 else q in
    Z.sgn z * Z.shiftl q' k.

Lemma to_short_id z : -32768 <= z < 32768 -> to_short z = z.
Proof. intros H. unfold to_short. rewrite Z.mod_small; lia. Qed.

Lemma to_short_range z : -32768 <= to_short z < 32768.
Proof.
  unfold to_short. pose proof (Z.mod_pos_bound (z + 32768) 65536). lia.
Qed.

Lemma float_of_int_id z : Z.abs z <= 16777216 -> float_of_int z = z.
Proof. intros H. unfold float_of_int. destruct (Z.leb_spec (Z.abs z) 16777216); lia. Qed.
End Integers.

(** ** Errors: exceptions and undefined behaviour as values *)

(** The [result] of code that may throw: a value or an error. *)
Inductive result (E A : Type) : Type :=
| Ok (a : A)
| Throw (e : E).
Arguments Ok {E A} a.
Arguments Throw {E A} e.

#[global] Instance result_ret {E} : MRet (result E) := fun A a => Ok a.
#[global] Instance result_bind {E} : MBind (result E) := fun A B f m =>
  match m with
  | Ok a => f a
  | Throw e => Throw e
  end.
#[global] Instance result_fmap {E} : FMap (result E) := fun A B f m =>
  match m with
  | Ok a => Ok (f a)
  | Throw e => Throw e
  end.

Lemma bind_Ok_inv {E A B} (m : result E A) (f : A -> result E B) b :
  (m ≫= f) = Ok b -> exists a, m = Ok a /\ f a = Ok b.
Proof. destruct m; cbn; [eauto | discriminate]. Qed.

Lemma bind_Ok {E A B} (m : result E A) (f : A -> result E B) a :
  m = Ok a -> (m ≫= f) = f a.
Proof. intros ->. reflexivity. Qed.

(** Destruct every monadic bind and every [Ok = Ok] of the context. *)
Ltac inv_ok :=
  repeat match goal with
  | H : (_ ≫= _) = Ok _ |- _ =>
      let a := fresh "a" in let H1 := fresh "Hb" in
      apply bind_Ok_inv in H; destruct H as (a & H1 & H); cbv beta in H
  | H : Ok _ = Ok _ |- _ => injection H as H; try subst
  | H : Throw _ = Ok _ |- _ => discriminate H
  | H : mret _ = Ok _ |- _ => unfold mret, result_ret in H
  end.

(** ** Loops *)

(** How the body of a loop ends: with the next iteration, or with [break]. *)
Inductive ctl (S : Type) : Type :=
| Next (s : S)
| Break (s : S).
Arguments Next {S} s.
Arguments Break {S} s.

Definition ctl_state {S} (r : ctl S) : S :=
  match r with Next s => s | Break s => s end.

(** [for (auto & x : l) body]: the body may [break], and it may throw. *)
Fixpoint for_loop {E A S} (body : A -> S -> result E (ctl S)) (l : list A) (s : S) : result E S :=
  match l with
  | [] => Ok s
  | x :: l' =>
      r ← body x s;
      match r with
      | Next s' => for_loop body l' s'
      | Break s' => Ok s'
      end
  end.

(** [for (auto & x : l) body], for a body with no [break]. *)
Fixpoint for_each {E A S} (body : A -> S -> result E S) (l : list A) (s : S) : result E S :=
  match l with
  | [] => Ok s
  | x :: l' => s' ← body x s; for_each body l' s'
  end.

Section Loops.
Context {E A S : Type}.
Implicit Types (body : A -> S -> result E (ctl S)) (step : A -> S -> result E S).

(** Invariant rule of [for_loop]: the state on leaving the loop satisfies the
    invariant of the whole list, or the exit condition of a [break]. *)
Lemma for_loop_inv body (I : list A -> S -> Prop) (Q : S -> Prop) l :
  (forall pre x post s r, l = pre ++ x :: post -> I pre s -> body x s = Ok r ->
     match r with Next s' => I (pre ++ [x]) s' | Break s' => Q s' end) ->
  (forall s, I l s -> Q s) ->
  forall s s', I [] s -> for_loop body l s = Ok s' -> Q s'.
Proof.
  intros Hstep Hend.
  enough (forall post pre s s', l = pre ++ post -> I pre s ->
            for_loop body post s = Ok s' -> Q s') as H.
  { intros s s' H0. by apply (H l []). }
  induction post as [|x post IH]; intros pre s s' Hl HI Hrun; cbn in Hrun.
  - inv_ok. apply Hend. by rewrite app_nil_r.
  - inv_ok. specialize (Hstep pre x post s _ Hl HI Hb).
    destruct a as [s1|s1]; inv_ok; [|done].
    eapply (IH (pre ++ [x])); [|done..]. by rewrite <- app_assoc.
Qed.

(** The loop returns when its body does, under an invariant. *)
Lemma for_loop_ok body (I : list A -> S -> Prop) l :
  (forall pre x post s, l = pre ++ x :: post -> I pre s ->
     exists r, body x s = Ok r /\
       match r with Next s' => I (pre ++ [x]) s' | Break _ => True end) ->
  forall s, I [] s -> exists s', for_loop body l s = Ok s'.
Proof.
  intros Hstep.
  enough (forall post pre s, l = pre ++ post -> I pre s ->
            exists s', for_loop body post s = Ok s') as H.
  { intros s H0. by apply (H l []). }
  induction post as [|x post IH]; intros pre s Hl HI; cbn.
  - eauto.
  - destruct (Hstep pre x post s Hl HI) as (r & -> & Hr). cbn.
    destruct r as [s1|s1]; [|eauto].
    apply (IH (pre ++ [x])); [|done]. by rewrite <- app_assoc.
Qed.

Lemma for_each_inv step (I : list A -> S -> Prop) l :
  (forall pre x post s s', l = pre ++ x :: post -> I pre s -> step x s = Ok s' ->
     I (pre ++ [x]) s') ->
  forall s s', I [] s -> for_each step l s = Ok s' -> I l s'.
Proof.
  intros Hstep.
  enough (forall post pre s s', l = pre ++ post -> I pre s ->
            for_each step post s = Ok s' -> I l s') as H.
  { intros s s' H0. by apply (H l []). }
  induction post as [|x post IH]; intros pre s s' Hl HI Hrun; cbn in Hrun.
  - inv_ok. by rewrite app_nil_r.
  - inv_ok. eapply (IH (pre ++ [x])); [|eauto..]. by rewrite <- app_assoc.
Qed.

Lemma for_each_ok step (I : list A -> S -> Prop) l :
  (forall pre x post s, l = pre ++ x :: post -> I pre s ->
     exists s', step x s = Ok s' /\ I (pre ++ [x]) s') ->
  forall s, I [] s -> exists s', for_each step l s = Ok s' /\ I l s'.
Proof.
  intros Hstep.
  enough (forall post pre s, l = pre ++ post -> I pre s ->
            exists s', for_each step post s = Ok s' /\ I l s') as H.
  { intros s H0. by apply (H l []). }
  induction post as [|x post IH]; intros pre s Hl HI; cbn.
  - rewrite app_nil_r in Hl. subst. eauto.
  - destruct (Hstep pre x post s Hl HI) as (s1 & -> & H1). cbn.
    apply (IH (pre ++ [x])); [|done]. by rewrite <- app_assoc.
Qed.

Lemma for_each_app step l1 l2 s :
  for_each step (l1 ++ l2) s = for_each step l1 s ≫= for_each step l2.
Proof.
  revert s. induction l1 as [|x l1 IH]; intros s; cbn; [done|].
  destruct (step x s); cbn; [apply IH | done].
Qed.
End Loops.

(** ** Sorting *)

(** [std::stable_sort] with a comparator: insertion keeps the order of the
    elements the comparator does not distinguish. *)
Section StableSort.
Context {A : Type} (lt : A -> A -> bool).

Fixpoint sorted_insert (x : A) (l : list A) : list A :=
  match l with
  | [] => [x]
  | y :: l' => if lt y x then y :: sorted_insert x l' else x :: l
  end.

Definition stable_sort (l : list A) : list A := foldr sorted_insert [] l.

(** What [std::stable_sort] asks of its comparator: a strict weak ordering. *)
Class StrictWeakOrder : Prop := {
  swo_irrefl x : lt x x = false;
  swo_trans x y z : lt x y = true -> lt y z = true -> lt x z = true;
  swo_incomp x y z : lt x y = false -> lt y z = false -> lt x z = false
}.

Definition not_after (x y : A) : Prop := lt y x = false.

Lemma sorted_insert_perm x l : sorted_insert x l ≡ₚ x :: l.
Proof.
  induction l as [|y l IH]; cbn; [done|].
  destruct (lt y x); [|done]. rewrite IH. constructor.
Qed.

Lemma stable_sort_perm l : stable_sort l ≡ₚ l.
Proof.
  induction l as [|x l IH]; cbn; [done|]. by rewrite sorted_insert_perm, IH.
Qed.

Context `{!StrictWeakOrder}.

Lemma swo_asym x y : lt x y = true -> lt y x = false.
Proof.
  intros Hlt. destruct (lt y x) eqn:E; [|done].
  pose proof (swo_trans x y x Hlt E) as Hx. by rewrite swo_irrefl in Hx.
Qed.

#[export] Instance not_after_trans : Transitive not_after.
Proof. intros x y z Hxy Hyz. red. eapply swo_incomp; [exact Hyz | exact Hxy]. Qed.

Lemma sorted_insert_sorted x l :
  StronglySorted not_after l -> StronglySorted not_after (sorted_insert x l).
Proof.
  induction 1 as [|y l Hl IH Hy]; cbn.
  - repeat constructor.
  - destruct (lt y x) eqn:E.
    + constructor; [done|]. rewrite Forall_forall. intros z Hz.
      rewrite sorted_insert_perm in Hz. apply elem_of_cons in Hz as [-> | Hz].
      * red. by apply swo_asym.
      * rewrite Forall_forall in Hy. auto.
    + constructor; [by constructor|]. constructor; [done|].
      rewrite Forall_forall in Hy |- *. intros z Hz. by transitivity y; [|auto].
Qed.

Lemma stable_sort_sorted l : StronglySorted not_after (stable_sort l).
Proof.
  induction l as [|x l IH]; cbn; [constructor | by apply sorted_insert_sorted].
Qed.

(** A sorted list is left as it is. *)
Lemma stable_sort_id l : StronglySorted not_after l -> stable_sort l = l.
Proof.
  induction 1 as [|x l Hl IH Hx]; [done|].
  change (stable_sort (x :: l)) with (sorted_insert x (stable_sort l)). rewrite IH.
  destruct l as [|y l]; cbn; [done|]. inversion Hx as [|? ? Hxy]; subst.
  unfold not_after in Hxy. by rewrite Hxy.
Qed.

Lemma sorted_insert_head x l :
  Forall (fun y => lt y x = false) l -> sorted_insert x l = x :: l.
Proof. destruct 1 as [|y l Hy]; cbn; [done|]. by rewrite Hy. Qed.

Lemma sorted_insert_last x l :
  Forall (fun y => lt y x = true) l -> sorted_insert x l = l ++ [x].
Proof. induction 1 as [|y l Hy _ IH]; cbn; [done|]. by rewrite Hy, IH. Qed.

(** A list in strictly decreasing order is reversed. *)
Lemma stable_sort_rev l :
  StronglySorted (fun x y => lt y x = true) l -> stable_sort l = rev l.
Proof.
  induction 1 as [|x l Hl IH Hx]; [done|].
  change (stable_sort (x :: l)) with (sorted_insert x (stable_sort l)).
  rewrite IH. cbn [rev]. apply sorted_insert_last.
  rewrite Forall_forall in Hx |- *. intros y Hy. apply Hx.
  by apply list_elem_of_In, in_rev, list_elem_of_In.
Qed.

(** Sorting commutes with taking the elements that satisfy a property: their
    relative order depends on them alone. *)
Lemma stable_sort_filter (P : A -> Prop) `{!forall x, Decision (P x)} l :
  filter P (stable_sort l) = stable_sort (filter P l).
Proof.
  assert (forall x m, StronglySorted not_after m ->
    filter P (sorted_insert x m) =
    if decide (P x) then sorted_insert x (filter P m) else filter P m) as Hins.
  { intros x m. induction 1 as [|y m Hm IH Hy]; cbn [sorted_insert].
    - rewrite filter_cons. by case_decide.
    - destruct (lt y x) eqn:E.
      + rewrite !filter_cons, IH. case_decide; case_decide; cbn; [by rewrite E | done..].
      + rewrite filter_cons. case_decide; [|done]. symmetry. apply sorted_insert_head.
        rewrite Forall_forall in Hy |- *. intros z Hz.
        apply list_elem_of_filter in Hz as [_ Hz]. apply elem_of_cons in Hz as [-> | Hz]; [done|].
        specialize (Hy z Hz). unfold not_after in Hy. eapply swo_incomp; eauto. }
  induction l as [|x l IH]; [done|].
  change (stable_sort (x :: l)) with (sorted_insert x (stable_sort l)).
  rewrite Hins by apply stable_sort_sorted. rewrite filter_cons, IH. by case_decide.
Qed.
End StableSort.
Arguments StrictWeakOrder {A} lt.

(** ** Lists *)

Section Lists.
Context {A : Type}.
Implicit Types l : list A.

Lemma StronglySorted_filter (R : relation A) (P : A -> Prop) `{!forall x, Decision (P x)} l :
  StronglySorted R l -> StronglySorted R (filter P l).
Proof.
  induction 1 as [|x l Hl IH Hx]; [constructor|]. rewrite filter_cons.
  case_decide; [|done]. constructor; [done|].
  rewrite Forall_forall in Hx |- *. intros y Hy. apply Hx.
  by apply list_elem_of_filter in Hy as [_ Hy].
Qed.

Lemma StronglySorted_app_inv (R : relation A) l1 l2 :
  StronglySorted R (l1 ++ l2) -> StronglySorted R l1 /\ StronglySorted R l2 /\
  (forall x y, x ∈ l1 -> y ∈ l2 -> R x y).
Proof.
  induction l1 as [|x l1 IH]; cbn; intros H.
  - split_and!; [constructor | done | set_solver].
  - inversion H as [|? ? Hl Hx]; subst. destruct (IH Hl) as (H1 & H2 & H3).
    rewrite Forall_app in Hx. destruct Hx as [Hx1 Hx2]. split_and!; [by constructor | done |].
    intros y z Hy Hz. apply elem_of_cons in Hy as [-> | Hy]; [|by apply H3].
    rewrite Forall_forall in Hx2. auto.
Qed.

Lemma filter_all (P : A -> Prop) `{!forall x, Decision (P x)} l : Forall P l -> filter P l = l.
Proof.
  induction 1 as [|x l Hx _ IH]; [done|]. by rewrite filter_cons_True, IH.
Qed.

Lemma filter_none (P : A -> Prop) `{!forall x, Decision (P x)} l :
  Forall (fun x => ~ P x) l -> filter P l = [].
Proof.
  induction 1 as [|x l Hx _ IH]; [done|]. by rewrite filter_cons_False.
Qed.
End Lists.

Lemma StronglySorted_fmap {A B} (R : relation B) (f : A -> B) l :
  StronglySorted (fun x y => R (f x) (f y)) l -> StronglySorted R (f <$> l).
Proof. induction 1 as [|x l Hl IH Hx]; cbn; constructor; [done|]. by apply Forall_fmap. Qed.

(** A list of distinct numbers below [n] has at most [n] elements. *)
Lemma NoDup_bounded_length (l : list nat) n :
  NoDup l -> Forall (fun i => i < n) l -> length l <= n.
Proof.
  intros Hnd Hall. rewrite <- (length_seq n 0).
  apply NoDup_incl_length; [by apply NoDup_ListNoDup|].
  intros i Hi. apply in_seq. rewrite Forall_forall in Hall.
  specialize (Hall i ltac:(by apply list_elem_of_In)). lia.
Qed.

(** A key of distinct values tells the elements of a list apart. *)
Lemma NoDup_fmap_inj {A B} (g : A -> B) l x y :
  NoDup (g <$> l) -> x ∈ l -> y ∈ l -> g x = g y -> x = y.
Proof.
  intros Hnd Hx Hy Heq. apply list_elem_of_lookup in Hx as [i Hi], Hy as [j Hj].
  assert (i = j) as ->; [|congruence].
  eapply (NoDup_lookup _ i j (g x) Hnd); rewrite list_lookup_fmap; [by rewrite Hi|by rewrite Hj, Heq].
Qed.
