(* ===== verification/Data.v ===== *)
(** * The data model of the transit network and of a query

    The classes of [include/*.hpp] and of [journey_step.hpp] as records, with the
    fields the server computes with. A C++ reference to a constant object
    ([const Trip &], [const Node &]) is the object itself; the two cyclic
    references are cut as follows.
    - A [NodeTimeDistance] refers to its node by [Node::uid], the number the
      code compares nodes by ([Node::operator==]).
    - The vectors [Trip::forwardConnections] and [Trip::reverseConnections], which
      lead from a trip back to its connections, are a table of the transit data
      keyed by [Trip::uid] (see [TransitData.v]).
    A [boost::uuids::uuid] is its 128-bit number, which the code only compares;
    a coordinate ([double]) is a [spec_float], and so is an expansion factor ([float]).
    A [boost::gregorian::date] is its day number, or [None] for [not_a_date_time]. *)

From Stdlib Require Import ZArith Lia.
From Corelib Require Import SpecFloat.
From stdpp Require Import base list gmap strings.
From S2P Require Import Prelude.

Local Open Scope Z_scope.

(** [boost::uuids::uuid]. *)
Abbreviation uuid := N.

(** [Node::uid_t], [Trip::uid_t], [Line::uid_t]: local ids counted from 1. *)
Abbreviation uid := nat.

(** [Point] of [point.hpp]. *)
Record Point := mkPoint { latitude : spec_float; longitude : spec_float }.

(** [Mode] of [mode.hpp]. *)
Record Mode := mkMode {
  mode_shortname : string;
  mode_name : string;
  mode_gtfsId : Z;
  mode_extendedGtfsId : Z
}.

Definition TRANSFERABLE : string := "transferable".

Definition isTransferable (m : Mode) : bool := String.eqb TRANSFERABLE (mode_shortname m).

Definition mode_eqb (a b : Mode) : bool := String.eqb (mode_shortname a) (mode_shortname b).

(** [Agency] of [agency.hpp]. *)
Record Agency := mkAgency {
  agency_uuid : uuid;
  agency_acronym : string;
  agency_name : string;
  agency_internalId : string;
  agency_simulationUuid : uuid
}.

Definition agency_eqb (a b : Agency) : bool := N.eqb (agency_uuid a) (agency_uuid b).

(** [boost::gregorian::date]. *)
Abbreviation date := (option N).

(** [Service] of [service.hpp]. *)
Record Service := mkService {
  service_uuid : uuid;
  service_name : string;
  service_internalId : string;
  service_simulationUuid : uuid;
  service_monday : Z;
  service_tuesday : Z;
  service_wednesday : Z;
  service_thursday : Z;
  service_friday : Z;
  service_saturday : Z;
  service_sunday : Z;
  service_onlyDates : list date;
  service_exceptDates : list date;
  service_startDate : date;
  service_endDate : date
}.

Definition service_eqb (a b : Service) : bool := N.eqb (service_uuid a) (service_uuid b).

(** [Line] of [line.hpp]; its order and equality compare the uid. *)
Record Line := mkLine {
  line_uuid : uuid;
  line_agency : Agency;
  line_mode : Mode;
  line_shortname : string;
  line_longname : string;
  line_internalId : string;
  line_allowSameLineTransfers : Z;
  line_uid : uid
}.

Definition line_eqb (a b : Line) : bool := Nat.eqb (line_uid a) (line_uid b).
Definition line_ltb (a b : Line) : bool := Nat.ltb (line_uid a) (line_uid b).

(** [NodeTimeDistance] of [node.hpp]. *)
Record NodeTimeDistance := mkNTD {
  ntd_node : uid;
  ntd_time : Z;
  ntd_distance : Z
}.

(** [Node] of [node.hpp]. *)
Record Node := mkNode {
  node_uuid : uuid;
  node_id : Z;
  node_code : string;
  node_name : string;
  node_internalId : string;
  node_uid : uid;
  node_point : Point;
  transferableNodes : list NodeTimeDistance;
  reverseTransferableNodes : list NodeTimeDistance
}.

(** [Node::operator==]: nodes are compared by their local uid only. *)
Definition node_eqb (a b : Node) : bool := Nat.eqb (node_uid a) (node_uid b).

(** [Path] of [path.hpp], without the back references to its trips. *)
Record Path := mkPath {
  path_uuid : uuid;
  path_line : Line;
  path_direction : string;
  path_internalId : string;
  path_nodesRef : list Node;
  segmentsTravelTimeSeconds : list Z;
  segmentsDistanceMeters : list Z
}.

(** [Trip] of [trip.hpp], without its vectors of connections. *)
Record Trip := mkTrip {
  trip_uuid : uuid;
  trip_agency : Agency;
  trip_line : Line;
  trip_path : Path;
  trip_mode : Mode;
  trip_service : Service;
  trip_allowSameLineTransfers : Z;
  trip_totalCapacity : Z;
  trip_seatedCapacity : Z;
  trip_uid : uid
}.

(** [Connection] of [connection.hpp]. *)
Record Connection := mkConnection {
  getDepartureNode : Node;
  getArrivalNode : Node;
  getDepartureTime : Z;
  getArrivalTime : Z;
  getTrip : Trip;
  canBoard : bool;
  canUnboard : bool;
  getSequenceInTrip : Z;
  canTransferSameLine : bool;
  getMinWaitingTime : Z
}.

(** [Connection::getMinWaitingTimeOrDefault]: the parameter is a [short], to
    which its callers pass the [int] of the query parameters. *)
Definition getMinWaitingTimeOrDefault (c : Connection) (defaultMinWaitingTime : Z) : Z :=
  if getMinWaitingTime c >=? 0 then getMinWaitingTime c else to_short defaultMinWaitingTime.

(** [TripQueryData] of [trip.hpp]: what a query knows of a trip. *)
Record TripQueryData := mkTripQueryData {
  usable : bool;
  enterConnection : option Connection;
  enterConnectionTransferTravelTime : Z;
  exitConnection : option Connection;
  exitConnectionTransferTravelTime : Z
}.

Definition TripQueryData_default : TripQueryData :=
  mkTripQueryData false None MAX_INT None MAX_INT.

(** [JourneyStep] of [journey_step.hpp]. *)
Record JourneyStep := mkJourneyStep {
  getFinalEnterConnection : option Connection;
  getFinalExitConnection : option Connection;
  getFinalTrip : option Trip;
  getTransferTravelTime : Z;
  isSameNodeTransfer : bool;
  getTransferDistance : Z
}.

Definition JourneyStep_default : JourneyStep := mkJourneyStep None None None (-1) false (-1).

Definition hasConnections (j : JourneyStep) : bool :=
  bool_decide (is_Some (getFinalEnterConnection j)) &&
  bool_decide (is_Some (getFinalExitConnection j)).

Definition setFinalEnterConnection (c : Connection) (j : JourneyStep) : JourneyStep :=
  mkJourneyStep (Some c) (getFinalExitConnection j) (getFinalTrip j)
    (getTransferTravelTime j) (isSameNodeTransfer j) (getTransferDistance j).

Definition setFinalExitConnection (c : Connection) (j : JourneyStep) : JourneyStep :=
  mkJourneyStep (getFinalEnterConnection j) (Some c) (getFinalTrip j)
    (getTransferTravelTime j) (isSameNodeTransfer j) (getTransferDistance j).

Definition setTransferTimeDistance (time distance : Z) (j : JourneyStep) : JourneyStep :=
  mkJourneyStep (getFinalEnterConnection j) (getFinalExitConnection j) (getFinalTrip j)
    time (isSameNodeTransfer j) distance.

Definition copyTransferTimeDistance (other j : JourneyStep) : JourneyStep :=
  setTransferTimeDistance (getTransferTravelTime other) (getTransferDistance other) j.

(** [Scenario] of [scenario.hpp]. *)
Record Scenario := mkScenario {
  scenario_uuid : uuid;
  scenario_name : string;
  scenario_simulationUuid : uuid;
  servicesList : list Service;
  scenario_onlyModes : list Mode;
  scenario_onlyLines : list Line;
  scenario_onlyAgencies : list Agency;
  scenario_onlyNodes : list Node;
  scenario_exceptModes : list Mode;
  scenario_exceptLines : list Line;
  scenario_exceptAgencies : list Agency;
  scenario_exceptNodes : list Node
}.

(** [CommonParameters] of [parameters.hpp]. *)
Record CommonParameters := mkCommonParameters {
  getScenario : Scenario;
  getTimeOfTrip : Z;
  getMinWaitingTimeSeconds : Z;
  getMaxTotalTravelTimeSeconds : Z;
  getMaxAccessWalkingTravelTimeSeconds : Z;
  getMaxEgressWalkingTravelTimeSeconds : Z;
  getMaxTransferWalkingTravelTimeSeconds : Z;
  getMaxFirstWaitingTimeSeconds : Z;
  getOnlyServices : list Service;
  getOnlyLines : list Line;
  getOnlyAgencies : list Agency;
  getOnlyModes : list Mode;
  getOnlyNodes : list Node;
  getExceptServices : list Service;
  getExceptLines : list Line;
  getExceptAgencies : list Agency;
  getExceptModes : list Mode;
  getExceptNodes : list Node;
  isForwardCalculation : bool
}.

(** The public constructor [CommonParameters(scenario, ...)]. *)
Definition CommonParameters_new (scenario : Scenario)
    (timeOfTrip minWaitingTime maxTotalTime maxAccessTime maxEgressTime maxTransferTime
     maxFirstWaitingTime : Z) (forward : bool) : CommonParameters :=
  mkCommonParameters scenario timeOfTrip minWaitingTime maxTotalTime maxAccessTime
    maxEgressTime maxTransferTime maxFirstWaitingTime [] [] [] [] [] [] [] [] [] [] forward.

(** [RouteParameters] and [AccessibilityParameters] extend [CommonParameters]. *)
Record RouteParameters := mkRouteParameters {
  route_common : CommonParameters;
  getOrigin : Point;
  getDestination : Point;
  isWithAlternatives : bool
}.

Record AccessibilityParameters := mkAccessibilityParameters {
  access_common : CommonParameters;
  getPlace : Point
}.

(** [DataSource] of [data_source.hpp]. *)
Record DataSource := mkDataSource {
  ds_uuid : uuid;
  ds_shortname : string;
  ds_name : string;
  ds_type : string
}.

(** [Person] of [person.hpp]. *)
Record Person := mkPerson {
  person_uuid : uuid;
  person_id : Z;
  person_dataSource : DataSource;
  person_expansionFactor : spec_float;
  person_age : Z;
  person_drivingLicenseOwner : Z;
  person_transitPassOwner : Z;
  person_ageGroup : string;
  person_gender : string;
  person_occupation : string;
  person_internalId : string
}.

(** [OdTrip] of [od_trip.hpp]. *)
Record OdTrip := mkOdTrip {
  od_uuid : uuid;
  od_id : Z;
  od_internalId : string;
  od_dataSource : DataSource;
  od_person : option Person;
  od_departureTimeSeconds : Z;
  od_arrivalTimeSeconds : Z;
  od_walkingTravelTimeSeconds : Z;
  od_cyclingTravelTimeSeconds : Z;
  od_drivingTravelTimeSeconds : Z;
  od_expansionFactor : spec_float;
  od_mode : string;
  od_originActivity : string;
  od_destinationActivity : string;
  originNodes : list NodeTimeDistance;
  destinationNodes : list NodeTimeDistance;
  od_origin : Point;
  od_destination : Point
}.

(** [NoRoutingReason] of [routing_result.hpp]. *)
Inductive NoRoutingReason :=
| NO_ROUTING_FOUND
| NO_ACCESS_AT_ORIGIN
| NO_ACCESS_AT_DESTINATION
| NO_SERVICE_FROM_ORIGIN
| NO_SERVICE_TO_DESTINATION
| NO_ACCESS_AT_ORIGIN_AND_DESTINATION.

(** How a computation fails: a [NoRoutingFoundException], [std::out_of_range]
    from an [.at()], [std::bad_optional_access] from a [.value()], a [kj::Exception]
    from the reading of a message, another [std::exception], a failed [assert], or undefined behaviour (an unchecked access out of bounds, a read of
    an uninitialised field). [OutOfFuel] stands for a [while] loop that is still
    running when the fuel of its model is spent. *)
Inductive exn :=
| NoRoutingFound (reason : NoRoutingReason)
| OutOfRange
| BadOptionalAccess
| KjException
| StdException
| AssertionFailed
| Undefined
| OutOfFuel.

(** Exceptions a healthy server never raises. *)
Definition is_fault (e : exn) : bool :=
  match e with NoRoutingFound _ => false | _ => true end.

Abbreviation calc := (result exn).

(** ** Access to containers *)

(** [v.at(i)] on a vector. *)
Definition vec_at {A} (l : list A) (i : nat) : calc A :=
  match l !! i with Some a => Ok a | None => Throw OutOfRange end.

(** [v.at(i) = x]. *)
Definition vec_at_set {A} (i : nat) (x : A) (l : list A) : calc (list A) :=
  match l !! i with Some _ => Ok (<[i := x]> l) | None => Throw OutOfRange end.

(** [v[i]]: undefined out of range. *)
Definition vec_get {A} (l : list A) (i : nat) : calc A :=
  match l !! i with Some a => Ok a | None => Throw Undefined end.

(** [v[i] = x]. *)
Definition vec_set {A} (i : nat) (x : A) (l : list A) : calc (list A) :=
  match l !! i with Some _ => Ok (<[i := x]> l) | None => Throw Undefined end.

(** [m.at(k)] on an [unordered_map]. *)
Definition map_at {A} (m : gmap uid A) (k : uid) : calc A :=
  match m !! k with Some a => Ok a | None => Throw OutOfRange end.

(** [m.emplace(k, x)]: an existing entry is kept. *)
Definition map_emplace {A} (k : uid) (x : A) (m : gmap uid A) : gmap uid A :=
  match m !! k with Some _ => m | None => <[k := x]> m end.

(** [o.value()] on an optional. *)
Definition opt_value {A} (o : option A) : calc A :=
  match o with Some a => Ok a | None => Throw BadOptionalAccess end.

(** [std::find(l.begin(), l.end(), x) != l.end()]. *)
Definition std_find {A} (eqb : A -> A -> bool) (x : A) (l : list A) : bool :=
  existsb (fun y => eqb y x) l.

(** ** Lemmas *)

Section Access.
Context {A : Type}.

Lemma vec_at_Ok (l : list A) i a : vec_at l i = Ok a <-> l !! i = Some a.
Proof. unfold vec_at. destruct (l !! i); split; congruence. Qed.

Lemma vec_get_Ok (l : list A) i a : vec_get l i = Ok a <-> l !! i = Some a.
Proof. unfold vec_get. destruct (l !! i); split; congruence. Qed.

Lemma vec_set_Ok (l l' : list A) i x :
  vec_set i x l = Ok l' <-> (i < length l)%nat /\ l' = <[i := x]> l.
Proof.
  unfold vec_set. destruct (l !! i) eqn:E.
  - apply lookup_lt_Some in E. split; [intros [= <-]; auto | intros [_ ->]; done].
  - apply lookup_ge_None in E. split; [done | lia].
Qed.

Lemma vec_at_set_Ok (l l' : list A) i x :
  vec_at_set i x l = Ok l' <-> (i < length l)%nat /\ l' = <[i := x]> l.
Proof.
  unfold vec_at_set. destruct (l !! i) eqn:E.
  - apply lookup_lt_Some in E. split; [intros [= <-]; auto | intros [_ ->]; done].
  - apply lookup_ge_None in E. split; [done | lia].
Qed.

Lemma map_at_Ok (m : gmap uid A) k a : map_at m k = Ok a <-> m !! k = Some a.
Proof. unfold map_at. destruct (m !! k); split; congruence. Qed.

Lemma opt_value_Ok (o : option A) a : opt_value o = Ok a <-> o = Some a.
Proof. unfold opt_value. destruct o; split; congruence. Qed.
End Access.

Create HintDb tr.
#[export] Hint Rewrite @vec_at_Ok @vec_get_Ok @vec_set_Ok @vec_at_set_Ok @map_at_Ok @opt_value_Ok : tr.

(** Invert a computation that returned, down to its container accesses. *)
Ltac inv_calc :=
  repeat (inv_ok; autorewrite with tr in *; simplify_eq/=; destruct_and?).

Lemma node_eqb_spec a b : reflect (node_uid a = node_uid b) (node_eqb a b).
Proof. apply Nat.eqb_spec. Qed.

Lemma hasConnections_spec j :
  hasConnections j = true <->
  exists e x, getFinalEnterConnection j = Some e /\ getFinalExitConnection j = Some x.
Proof.
  unfold hasConnections. rewrite andb_true_iff, !bool_decide_eq_true.
  split; [intros [[e ?] [x ?]]; eauto | intros (e & x & -> & ->); eauto].
Qed.

Lemma getMinWaitingTimeOrDefault_short c d :
  -32768 <= d < 32768 ->
  getMinWaitingTimeOrDefault c d = if getMinWaitingTime c >=? 0 then getMinWaitingTime c else d.
Proof. intros H. unfold getMinWaitingTimeOrDefault. by rewrite to_short_id. Qed.

Lemma getMinWaitingTimeOrDefault_nonneg c d :
  0 <= d < 32768 -> 0 <= getMinWaitingTimeOrDefault c d.
Proof.
  intros H. rewrite getMinWaitingTimeOrDefault_short by lia.
  destruct (Z.geb_spec (getMinWaitingTime c) 0); lia.
Qed.
