(* ===== verification/Attempt.v ===== *)
(** * Computations that change a state and may throw

    The fetchers and the updates of the data change containers in place: when an
    exception leaves a function, what the function did so far stays done. An [attempt]
    returns the state besides its value or its exception. *)

From Stdlib Require Import ZArith Lia.
From stdpp Require Import base list.
From S2P Require Import Prelude.
From S2P Require Import Data.

(** A computation on a state [S] that ends with an [A] or an exception. *)
Definition attempt (S A : Type) : Type := S -> calc A * S.

#[global] Instance attempt_ret {S} : MRet (attempt S) := fun A a s => (Ok a, s).
#[global] Instance attempt_bind {S} : MBind (attempt S) := fun A B f m s =>
  match m s with
  | (Ok a, s') => f a s'
  | (Throw e, s') => (Throw e, s')
  end.

Lemma attempt_bind_eval {S A B} (m : attempt S A) (f : A -> attempt S B) s :
  (m ≫= f) s = match m s with (Ok a, s') => f a s' | (Throw e, s') => (Throw e, s') end.
Proof. reflexivity. Qed.

Definition get {S} : attempt S S := fun s => (Ok s, s).
Definition modify {S} (f : S -> S) : attempt S () := fun s => (Ok (), f s).
Definition throw {S A} (e : exn) : attempt S A := fun s => (Throw e, s).

(** A computation that does not touch the state. *)
Definition lift {S A} (r : calc A) : attempt S A := fun s => (r, s).

(** [for (auto & x : l) body], for a body with no [break]. *)
Fixpoint each {S A} (body : A -> attempt S ()) (l : list A) : attempt S () :=
  match l with
  | [] => mret ()
  | x :: l' => body x ≫= fun _ => each body l'
  end.

(** What [catch (...)] catches: exceptions, and not undefined behaviour. *)
Definition catchable (e : exn) : bool :=
  match e with Undefined | OutOfFuel | AssertionFailed => false | _ => true end.

(** [try { m } catch ...]: the handler says what the exceptions it catches lead to. *)
Definition try_catch {S A} (m : attempt S A) (handler : exn -> option (attempt S A)) : attempt S A := fun s =>
  match m s with
  | (Throw e, s') => match handler e with Some h => h s' | None => (Throw e, s') end
  | r => r
  end.

(** A computation on a part of the state. *)
Definition zoom {S T A} (get_part : T -> S) (set_part : S -> T -> T) (m : attempt S A) : attempt T A := fun t =>
  let '(r, s) := m (get_part t) in (r, set_part s t).

(** ** Lemmas *)

Section Attempts.
Context {S : Type}.
Implicit Types s : S.

(** [m], from [s], returns [a] and leaves [s']. *)
Definition returns {A} (m : attempt S A) s (a : A) s' : Prop := m s = (Ok a, s').

Lemma returns_ret {A} (a : A) s : returns (mret a) s a s.
Proof. reflexivity. Qed.

Lemma returns_bind {A B} (m : attempt S A) (f : A -> attempt S B) s a s1 b s2 :
  returns m s a s1 -> returns (f a) s1 b s2 -> returns (m ≫= f) s b s2.
Proof. unfold returns, mbind, attempt_bind. by intros -> ->. Qed.

Lemma returns_bind_inv {A B} (m : attempt S A) (f : A -> attempt S B) s b s2 :
  returns (m ≫= f) s b s2 -> exists a s1, returns m s a s1 /\ returns (f a) s1 b s2.
Proof.
  unfold returns, mbind, attempt_bind. destruct (m s) as [[a|e] s1]; [eauto|discriminate].
Qed.

Lemma returns_lift {A} (r : calc A) s a s' : returns (lift r) s a s' <-> r = Ok a /\ s' = s.
Proof. unfold returns, lift. split; [intros [= -> ->]; done|intros [-> ->]; done]. Qed.

Lemma returns_modify (f : S -> S) s a s' : returns (modify f) s a s' <-> s' = f s.
Proof. unfold returns, modify. destruct a. split; [intros [= ->]; done|intros ->; done]. Qed.

Lemma returns_get s a s' : returns get s a s' <-> a = s /\ s' = s.
Proof. unfold returns, get. split; [intros [= <- <-]; done|intros [-> ->]; done]. Qed.

Lemma modify_ok (f : S -> S) s : returns (modify f) s () (f s).
Proof. reflexivity. Qed.

Lemma get_ok s : returns get s s s.
Proof. reflexivity. Qed.

Lemma lift_ok {A} (r : calc A) a s : r = Ok a -> returns (lift r) s a s.
Proof. intros ->. reflexivity. Qed.

(** A loop returns when its body does, under an invariant of the elements done. *)
Lemma each_returns {A} (body : A -> attempt S ()) (I : list A -> S -> Prop) l :
  (forall pre x post s, l = pre ++ x :: post -> I pre s ->
     exists s', returns (body x) s () s' /\ I (pre ++ [x]) s') ->
  forall s, I [] s -> exists s', returns (each body l) s () s' /\ I l s'.
Proof.
  intros Hstep.
  enough (forall post pre s, l = pre ++ post -> I pre s ->
            exists s', returns (each body post) s () s' /\ I l s') as H.
  { intros s H0. by apply (H l []). }
  induction post as [|x post IH]; intros pre s Hl HI.
  - rewrite app_nil_r in Hl. subst. eauto using returns_ret.
  - destruct (Hstep pre x post s Hl HI) as (s1 & Hs1 & HI1).
    destruct (IH (pre ++ [x]) s1) as (s' & Hs' & HI'); [by rewrite <- app_assoc|done|].
    exists s'. split; [|done]. exact (returns_bind _ _ _ _ _ _ _ Hs1 Hs').
Qed.

(** The invariant rule for a loop that is known to return. *)
Lemma each_inv {A} (body : A -> attempt S ()) (I : list A -> S -> Prop) l :
  (forall pre x post s s', l = pre ++ x :: post -> I pre s -> returns (body x) s () s' -> I (pre ++ [x]) s') ->
  forall s s', I [] s -> returns (each body l) s () s' -> I l s'.
Proof.
  intros Hstep.
  enough (forall post pre s s', l = pre ++ post -> I pre s -> returns (each body post) s () s' -> I l s') as H.
  { intros s s' H0. by apply (H l []). }
  induction post as [|x post IH]; intros pre s s' Hl HI Hrun.
  - rewrite app_nil_r in Hl. subst. by injection Hrun as <-.
  - apply returns_bind_inv in Hrun as ([] & s1 & Hs1 & Hrun).
    apply (IH (pre ++ [x]) s1); [by rewrite <- app_assoc|eauto|done].
Qed.

(** A loop that reads nothing but its elements is a fold. *)
Lemma each_fold {A} (body : A -> attempt S ()) (f : S -> A -> S) l s :
  (forall x s, x ∈ l -> body x s = (Ok (), f s x)) -> each body l s = (Ok (), foldl f s l).
Proof.
  revert s. induction l as [|x l IH]; intros s Hbody; [reflexivity|].
  cbn. unfold mbind, attempt_bind. rewrite Hbody by left. apply IH. intros y s' Hy. apply Hbody. by right.
Qed.

Lemma each_app {A} (body : A -> attempt S ()) l1 l2 s :
  each body (l1 ++ l2) s = (each body l1 ≫= fun _ => each body l2) s.
Proof.
  revert s. induction l1 as [|x l1 IH]; intros s; [reflexivity|].
  cbn. unfold mbind, attempt_bind. destruct (body x s) as [[[]|e] s1]; [|reflexivity]. apply IH.
Qed.

(** Nested loops are one loop on the list of all elements. *)
Lemma each_flat_map {A B} (body : B -> attempt S ()) (g : A -> list B) l s :
  each body (flat_map g l) s = each (fun x => each body (g x)) l s.
Proof.
  revert s. induction l as [|x l IH]; intros s; [reflexivity|].
  cbn [flat_map]. rewrite each_app. cbn. unfold mbind, attempt_bind.
  destruct (each body (g x) s) as [[[]|e] s1]; [apply IH|reflexivity].
Qed.
End Attempts.

#[export] Hint Resolve returns_ret modify_ok get_ok lift_ok : tr.

(** Run the first part of an attempt by a lemma. *)
Ltac run_by H := eapply returns_bind; [solve [eapply H; eauto with tr | eauto with tr]|].

(** Invert an attempt that returned. *)
Ltac inv_attempt :=
  repeat match goal with
  | H : returns (_ ≫= _) _ _ _ |- _ =>
      let a := fresh "a" in let s := fresh "s" in let H1 := fresh "Hb" in
      apply returns_bind_inv in H; destruct H as (a & s & H1 & H); cbv beta in H
  | H : returns (lift _) _ _ _ |- _ => apply returns_lift in H; destruct H as [H ?]; simplify_eq
  | H : returns (modify _) _ _ _ |- _ => apply returns_modify in H; simplify_eq
  | H : returns get _ _ _ |- _ => apply returns_get in H; destruct H as [? ?]; simplify_eq
  | H : returns (mret _) _ _ _ |- _ => injection H as ? ?; simplify_eq
  | H : returns (throw _) _ _ _ |- _ => discriminate H
  end.

(** ** Loops that a [return] leaves *)

(** [for (auto & x : l) body], where the body may [return] from the function. *)
Fixpoint each_return {S A R} (body : A -> attempt S (option R)) (l : list A) : attempt S (option R) :=
  match l with
  | [] => mret None
  | x :: l' =>
      r ← body x;
      match r with Some _ => mret r | None => each_return body l' end
  end.

Section Returns.
Context {S R : Type}.

Lemma each_return_app {A} (body : A -> attempt S (option R)) l1 l2 s :
  each_return body (l1 ++ l2) s =
  (r ← each_return body l1; match r with Some _ => mret r | None => each_return body l2 end) s.
Proof.
  revert s. induction l1 as [|x l1 IH]; intros s; [reflexivity|].
  cbn. unfold mbind, attempt_bind. destruct (body x s) as [[[r|]|e] s1]; [reflexivity| |reflexivity].
  apply IH.
Qed.

Lemma each_return_flat_map {A B} (body : B -> attempt S (option R)) (g : A -> list B) l s :
  each_return body (flat_map g l) s = each_return (fun x => each_return body (g x)) l s.
Proof.
  revert s. induction l as [|x l IH]; intros s; [reflexivity|].
  cbn [flat_map]. rewrite each_return_app. cbn. unfold mbind, attempt_bind.
  destruct (each_return body (g x) s) as [[[r|]|e] s1]; [reflexivity|apply IH|reflexivity].
Qed.

(** The loop comes to its end when every body does, under an invariant. *)
Lemma each_return_none {A} (body : A -> attempt S (option R)) (I : list A -> S -> Prop) l :
  (forall pre x post s, l = pre ++ x :: post -> I pre s ->
     exists s', returns (body x) s None s' /\ I (pre ++ [x]) s') ->
  forall s, I [] s -> exists s', returns (each_return body l) s None s' /\ I l s'.
Proof.
  intros Hstep.
  enough (forall post pre s, l = pre ++ post -> I pre s ->
            exists s', returns (each_return body post) s None s' /\ I l s') as H.
  { intros s H0. by apply (H l []). }
  induction post as [|x post IH]; intros pre s Hl HI.
  - rewrite app_nil_r in Hl. subst. eauto using returns_ret.
  - destruct (Hstep pre x post s Hl HI) as (s1 & Hs1 & HI1).
    destruct (IH (pre ++ [x]) s1) as (s' & Hs' & HI'); [by rewrite <- app_assoc|done|].
    exists s'. split; [|done]. exact (returns_bind _ _ _ _ _ _ _ Hs1 Hs').
Qed.

Lemma each_return_inv {A} (body : A -> attempt S (option R)) (I : list A -> S -> Prop) l :
  (forall pre x post s s', l = pre ++ x :: post -> I pre s -> returns (body x) s None s' -> I (pre ++ [x]) s') ->
  forall s s', I [] s -> returns (each_return body l) s None s' -> I l s'.
Proof.
  intros Hstep.
  enough (forall post pre s s', l = pre ++ post -> I pre s -> returns (each_return body post) s None s' -> I l s') as H.
  { intros s s' H0. by apply (H l []). }
  induction post as [|x post IH]; intros pre s s' Hl HI Hrun.
  - rewrite app_nil_r in Hl. subst. by injection Hrun as <-.
  - cbn in Hrun. apply returns_bind_inv in Hrun as ([r|] & s1 & Hs1 & Hrun); [discriminate|].
    apply (IH (pre ++ [x]) s1); [by rewrite <- app_assoc|eauto|done].
Qed.
(** What holds of every value returned by the body holds of that of the loop. *)
Lemma each_return_some {A} (body : A -> attempt S (option R)) (P : R -> Prop) l s r s' :
  (forall x s r s', returns (body x) s (Some r) s' -> P r) -> returns (each_return body l) s (Some r) s' -> P r.
Proof.
  intros Hbody. revert s. induction l as [|x l IH]; intros s Hrun; [discriminate|].
  cbn in Hrun. apply returns_bind_inv in Hrun as ([r1|] & s1 & Hs1 & Hrun); [|eauto].
  injection Hrun as -> _. eauto.
Qed.
End Returns.
