(* ===== verification/Timing.v ===== *)
(** * The timer of the calculations

    [calculation_time.cpp]. The time is that of the system clock, in microseconds, and is
    an argument of the methods that read it. The durations go to the log only, but they
    are guarded by assertions: a clock that is set back between the construction of a
    calculator and the end of its calculation ends the program. The calculations of the
    other files leave the timer out, and hold for a clock that does not go back. *)

From Stdlib Require Import ZArith Lia.
From stdpp Require Import base list.
From S2P Require Import Prelude.
From S2P Require Import Data.

Local Open Scope Z_scope.

Record CalculationTime := mkCalculationTime {
  startEpoch : Z;
  startStepEpoch : Z;
  endEpoch : Z;
  endStepEpoch : Z;
  calculationEpoch : Z
}.

Definition CalculationTime_new : CalculationTime := mkCalculationTime 0 0 0 0 0.

(** [getEpoch], at the time [now]. *)
Definition getEpoch (now : Z) (t : CalculationTime) : Z * CalculationTime :=
  (now, mkCalculationTime (startEpoch t) (startStepEpoch t) (endEpoch t) (endStepEpoch t) now).

Definition start (now : Z) (t : CalculationTime) : CalculationTime :=
  let '(epoch, t) := getEpoch now t in
  mkCalculationTime epoch (startStepEpoch t) (endEpoch t) (endStepEpoch t) (calculationEpoch t).

Definition stop (now : Z) (t : CalculationTime) : CalculationTime :=
  let '(epoch, t) := getEpoch now t in
  mkCalculationTime (startEpoch t) (startStepEpoch t) epoch (endStepEpoch t) (calculationEpoch t).

Definition startStep (now : Z) (t : CalculationTime) : CalculationTime :=
  let '(epoch, t) := getEpoch now t in
  mkCalculationTime (startEpoch t) epoch (endEpoch t) (endStepEpoch t) (calculationEpoch t).

Definition stopStep (now : Z) (t : CalculationTime) : CalculationTime :=
  let '(epoch, t) := getEpoch now t in
  mkCalculationTime (startEpoch t) (startStepEpoch t) (endEpoch t) epoch (calculationEpoch t).

(** The four assertions on two times, and their difference. *)
Definition duration (from to : Z) : calc Z :=
  if negb (from =? 0) && negb (to =? 0) && (from >=? 0) && (to >=? 0) && (to >=? from)
  then Ok (to - from) else Throw AssertionFailed.

Definition getDurationMicroseconds (t : CalculationTime) : calc Z := duration (startEpoch t) (endEpoch t).

Definition getDurationMicrosecondsNoStop (now : Z) (t : CalculationTime) : calc (Z * CalculationTime) :=
  let '(actualEpoch, t) := getEpoch now t in
  d ← duration (startEpoch t) actualEpoch;
  Ok (d, t).

Definition getStepDurationMicroseconds (t : CalculationTime) : calc Z := duration (startStepEpoch t) (endStepEpoch t).

(** ** What the assertions ask of the clock *)

Lemma duration_ok from to : duration from to = Ok (to - from) <-> 0 < from <= to.
Proof.
  unfold duration. destruct (Z.eqb_spec from 0), (Z.eqb_spec to 0), (Z.geb_spec from 0), (Z.geb_spec to 0), (Z.geb_spec to from);
    cbn; (split; [try done; lia|intros; try reflexivity; lia]).
Qed.

(** The durations read one after the other. *)
Fixpoint durations (l : list Z) (t : CalculationTime) : calc (list Z) :=
  match l with
  | [] => Ok []
  | now :: l' =>
      '(d, t') ← getDurationMicrosecondsNoStop now t;
      ds ← durations l' t';
      Ok (d :: ds)
  end.

(** From its construction on, the timer gives the time since then at each reading,
    exactly when no reading is before it. *)
Lemma durations_since t0 l t : 0 < t0 ->
  durations l (start t0 t) = Ok ((fun now => now - t0) <$> l) <-> Forall (fun now => t0 <= now) l.
Proof.
  intros Ht0. assert (startEpoch (start t0 t) = t0) as Hstart by done. revert Hstart. generalize (start t0 t) as u. clear t.
  induction l as [|now l IH]; intros u Hu; [done|]. cbn [durations fmap list_fmap]. rewrite Forall_cons.
  unfold getDurationMicrosecondsNoStop. cbn [getEpoch fst snd startEpoch]. rewrite Hu.
  pose proof (duration_ok t0 now) as Hd. specialize (IH (snd (getEpoch now u)) Hu). cbn [snd getEpoch] in IH. rewrite Hu in IH.
  split.
  - intros H. destruct (duration t0 now) as [d|e] eqn:Hdur; [|done]. cbn [mbind result_bind] in H.
    apply bind_Ok_inv in H as (ds & Hds & H). injection H as -> ->.
    split; [destruct Hd as [Hd _]; specialize (Hd eq_refl); lia|exact (proj1 IH Hds)].
  - intros [Hle Hl]. rewrite (proj2 Hd) by lia. cbn [mbind result_bind]. by rewrite (proj2 IH Hl).
Qed.
