(* ===== verification/Numbers.v ===== *)
(** * Numbers in text

    [std::stoi] and [std::stod] of the C++ library, as the parsing of the parameters
    of a request uses them: leading white space and a sign are skipped, the longest
    prefix that is a number is read, what follows is ignored. [std::stod] rounds to
    the nearest binary64; whether a number below the smallest normal one is reported
    as out of range is left open by the standard, and is the class [Platform]. *)

From Stdlib Require Import ZArith Lia Ascii.
From Corelib Require Import SpecFloat.
From stdpp Require Import base list strings pretty.
From S2P Require Import Prelude.

Local Open Scope Z_scope.

(** [std::invalid_argument] and [std::out_of_range]. *)
Inductive std_exn := StdInvalidArgument | StdOutOfRange.

(** ** Characters *)

(** [isspace] in the locale C. *)
Definition is_space (a : ascii) : bool :=
  let n := N_of_ascii a in (n =? 32)%N || ((9 <=? n)%N && (n <=? 13)%N).

(** [tolower] in the locale C. *)
Definition to_lower (a : ascii) : ascii :=
  let n := N_of_ascii a in
  if (65 <=? n)%N && (n <=? 90)%N then ascii_of_N (n + 32) else a.

Definition decimal_digit (a : ascii) : option N :=
  let n := N_of_ascii a in
  if (48 <=? n)%N && (n <=? 57)%N then Some (n - 48)%N else None.

Definition hex_digit (a : ascii) : option N :=
  let n := N_of_ascii (to_lower a) in
  if (97 <=? n)%N && (n <=? 102)%N then Some (n - 87)%N else decimal_digit a.

Fixpoint skip_space (s : string) : string :=
  match s with
  | String a s' => if is_space a then skip_space s' else s
  | EmptyString => s
  end.

(** An optional sign: whether it is negative, and what follows it. *)
Definition take_sign (s : string) : bool * string :=
  match s with
  | String "-" s' => (true, s')
  | String "+" s' => (false, s')
  | _ => (false, s)
  end.

(** The digits [s] starts with, appended to those of [value]: their value, how many
    they are, and the rest. *)
Fixpoint take_digits (digit : ascii -> option N) (base : N) (s : string) (value : N) (count : nat)
    : N * nat * string :=
  match s with
  | String a s' =>
      match digit a with
      | Some d => take_digits digit base s' (base * value + d) (S count)
      | None => (value, count, s)
      end
  | EmptyString => (value, count, s)
  end.

Definition signed (negative : bool) (n : N) : Z := if negative then - Z.of_N n else Z.of_N n.

(** ** [std::stoi] *)

Definition stoi (s : string) : result std_exn Z :=
  let '(negative, digits) := take_sign (skip_space s) in
  let '(value, count, _) := take_digits decimal_digit 10 digits 0 0 in
  let z := signed negative value in
  if (count =? 0)%nat then Throw StdInvalidArgument
  else if (MIN_INT <=? z) && (z <=? MAX_INT) then Ok z
  else Throw StdOutOfRange.

(** ** [std::stod] *)

(** Whether [strtod] sets [errno] to [ERANGE] for a number that is not zero and whose
    value is not above the smallest normal one; the standard leaves it open. *)
Class Platform := strtod_underflow : string -> bool.

(** A prefix, whatever the case. *)
Fixpoint has_prefix (prefix s : string) : bool :=
  match prefix, s with
  | EmptyString, _ => true
  | String a prefix', String b s' => Ascii.eqb a (to_lower b) && has_prefix prefix' s'
  | _, _ => false
  end.

(** Digits with an optional point: their value without the point, how many follow the
    point, and the rest; nothing when there is no digit. *)
Definition take_mantissa (digit : ascii -> option N) (base : N) (s : string)
    : option (N * nat * string) :=
  let '(m, n, s1) := take_digits digit base s 0 0 in
  let '(m', k, s2) :=
    match s1 with
    | String "." s1' => take_digits digit base s1' m 0
    | _ => (m, 0%nat, s1)
    end in
  if (n + k =? 0)%nat then None else Some (m', k, s2).

(** An optional exponent, 0 when there is none. *)
Definition take_exponent (marker : ascii) (s : string) : Z :=
  match s with
  | String a s1 =>
      if Ascii.eqb marker (to_lower a) then
        let '(negative, s2) := take_sign s1 in
        let '(e, _, _) := take_digits decimal_digit 10 s2 0 0 in
        signed negative e
      else 0
  | EmptyString => 0
  end.

(** The binary64 nearest to [m * 10^e]. *)
Definition round_decimal (negative : bool) (m : N) (e : Z) : spec_float :=
  match m with
  | N0 => S754_zero negative
  | Npos m' =>
      if e >=? 0 then
        binary_normalize 53 1024 (signed negative (m * 10 ^ Z.to_N e)) 0 negative
      else
        SFdiv 53 1024 (S754_finite negative m' 0)
          (S754_finite false (Z.to_pos (10 ^ (- e))) 0)
  end.

(** The binary64 nearest to [m * 2^e]. *)
Definition round_binary (negative : bool) (m : N) (e : Z) : spec_float :=
  match m with
  | N0 => S754_zero negative
  | Npos _ => binary_normalize 53 1024 (signed negative m) e negative
  end.

(** What [strtod] reads after the sign: the number, and whether it is not zero. *)
Definition read_double (negative : bool) (s : string) : option (spec_float * bool) :=
  let decimal :=
    '(m, k, rest) ← take_mantissa decimal_digit 10 s;
    Some (round_decimal negative m (take_exponent "e" rest - Z.of_nat k), negb (m =? 0)%N) in
  if has_prefix "inf" s then Some (S754_infinity negative, false)
  else if has_prefix "nan" s then Some (S754_nan, false)
  else if has_prefix "0x" s then
    match take_mantissa hex_digit 16 (String.substring 2 (String.length s) s) with
    | Some (m, k, rest) =>
        Some (round_binary negative m (take_exponent "p" rest - 4 * Z.of_nat k), negb (m =? 0)%N)
    | None => decimal
    end
  else decimal.

(** The smallest normal binary64. *)
Definition smallest_normal : spec_float := S754_finite false 4503599627370496 (-1074).

Definition is_infinity (f : spec_float) : bool :=
  match f with S754_infinity _ => true | _ => false end.

(** [errno == ERANGE] after reading the number [f]. *)
Definition range_error `{!Platform} (s : string) (f : spec_float) (nonzero : bool) : bool :=
  nonzero && (is_infinity f || (SFleb (SFabs f) smallest_normal && strtod_underflow s)).

Definition stod `{!Platform} (s : string) : result std_exn spec_float :=
  let '(negative, body) := take_sign (skip_space s) in
  match read_double negative body with
  | None => Throw StdInvalidArgument
  | Some (f, nonzero) => if range_error s f nonzero then Throw StdOutOfRange else Ok f
  end.

(** ** Reading back what [std::to_string] prints *)

Lemma take_printed_digit x s value count :
  (x < 10)%N ->
  take_digits decimal_digit 10 (String (pretty_N_char x) s) value count =
  take_digits decimal_digit 10 s (10 * value + x) (S count).
Proof.
  intros Hx.
  assert (x = 0 \/ x = 1 \/ x = 2 \/ x = 3 \/ x = 4 \/ x = 5 \/ x = 6 \/ x = 7 \/ x = 8 \/ x = 9)%N
    as Hcase by lia.
  destruct_or!; subst; reflexivity.
Qed.

Lemma take_printed_digits x s : exists count,
  take_digits decimal_digit 10 (pretty_N_go x s) 0 0 = take_digits decimal_digit 10 s x count /\
  ((0 < x)%N -> count <> 0%nat).
Proof.
  revert s. induction (N.lt_wf_0 x) as [x _ IH]. intros s.
  assert (x = 0 \/ 0 < x)%N as [->|Hx] by lia.
  - exists 0%nat. split; [reflexivity|lia].
  - rewrite pretty_N_go_step by done.
    destruct (IH (x / 10)%N ltac:(apply N.div_lt; lia) (String (pretty_N_char (x mod 10)) s))
      as (count & -> & _).
    exists (S count). split; [|done].
    rewrite take_printed_digit by (apply N.mod_lt; done).
    f_equal. pose proof (N.div_mod x 10). lia.
Qed.

Lemma take_printed_N (n : N) : exists count,
  take_digits decimal_digit 10 (pretty n) 0 0 = (n, count, EmptyString) /\ count <> 0%nat.
Proof.
  unfold pretty, pretty_N. case_decide as Hn.
  - subst. exists 1%nat. split; [reflexivity|done].
  - destruct (take_printed_digits n "") as (count & -> & Hcount). exists count.
    split; [reflexivity|apply Hcount; lia].
Qed.

Lemma printed_first x s : (0 < x)%N ->
  exists d s', (d < 10)%N /\ pretty_N_go x s = String (pretty_N_char d) s'.
Proof.
  revert s. induction (N.lt_wf_0 x) as [x _ IH]. intros s Hx.
  rewrite pretty_N_go_step by done.
  destruct (N.eq_0_gt_0_cases (x / 10)) as [->|Hdiv].
  - exists (x mod 10)%N, s. split; [apply N.mod_lt; done|reflexivity].
  - apply IH; [apply N.div_lt; lia|exact Hdiv].
Qed.

(** A printed number starts with a digit: no white space and no sign. *)
Lemma printed_unsigned (n : N) : take_sign (skip_space (pretty n)) = (false, pretty n).
Proof.
  unfold pretty, pretty_N. case_decide as Hn; [reflexivity|].
  destruct (printed_first n "") as (d & s' & Hd & ->); [lia|].
  assert (d = 0 \/ d = 1 \/ d = 2 \/ d = 3 \/ d = 4 \/ d = 5 \/ d = 6 \/ d = 7 \/ d = 8 \/ d = 9)%N
    as Hcase by lia.
  destruct_or!; subst; reflexivity.
Qed.

(** [std::stoi] reads back what [std::to_string] prints of an [int]. *)
Lemma stoi_printed (z : Z) : in_int z -> stoi (pretty z) = Ok z.
Proof.
  unfold in_int, MIN_INT, MAX_INT. intros Hz.
  assert (forall negative n, z = signed negative n ->
    (let '(value, count, _) := take_digits decimal_digit 10 (pretty n) 0 0 in
     if (count =? 0)%nat then Throw StdInvalidArgument
     else if (MIN_INT <=? signed negative value) && (signed negative value <=? MAX_INT)
     then Ok (signed negative value) else Throw StdOutOfRange) = Ok z) as Hread.
  { intros negative n ->. destruct (take_printed_N n) as (count & -> & Hcount).
    destruct (Nat.eqb_spec count 0); [done|]. unfold MIN_INT, MAX_INT.
    destruct (Z.leb_spec (-2147483648) (signed negative n)),
      (Z.leb_spec (signed negative n) 2147483647); simpl; [reflexivity|lia..]. }
  unfold stoi. destruct z as [|x|x].
  - reflexivity.
  - change (pretty (Zpos x)) with (pretty (Npos x)).
    rewrite printed_unsigned. exact (Hread false (Npos x) eq_refl).
  - change (take_sign (skip_space (pretty (Zneg x)))) with (true, pretty (Npos x)).
    exact (Hread true (Npos x) eq_refl).
Qed.

(** A string that holds no digit after its white space and sign is not a number. *)
Lemma stoi_invalid s :
  (let '(_, count, _) := take_digits decimal_digit 10 (take_sign (skip_space s)).2 0 0 in
   count = 0%nat) -> stoi s = Throw StdInvalidArgument.
Proof.
  unfold stoi. destruct (take_sign (skip_space s)) as [negative digits]. simpl.
  destruct (take_digits _ _ _ _ _) as [[value count] rest]. intros ->. reflexivity.
Qed.

Lemma stoi_in_int s z : stoi s = Ok z -> in_int z.
Proof.
  unfold stoi. destruct (take_sign (skip_space s)) as [negative digits].
  destruct (take_digits _ _ _ _ _) as [[value count] rest].
  destruct (count =? 0)%nat; [done|].
  destruct (Z.leb_spec MIN_INT (signed negative value)),
    (Z.leb_spec (signed negative value) MAX_INT); simpl; try done.
  intros [= <-]. split; assumption.
Qed.
