(* ===== verification/Parameters.v ===== *)
(** * The parameters of a request

    [common_parameters.cpp], [route_parameters.cpp] and [accessibility_parameters.cpp]:
    the pairs of a query string become [RouteParameters] or [AccessibilityParameters],
    or a [ParameterException]. The scenarios, a [std::map] by uuid in the program, are
    a [gmap]; the functions of Boost the code calls are the class [Boost]. *)

From Stdlib Require Import ZArith Lia Ascii.
From Corelib Require Import SpecFloat.
From stdpp Require Import base list gmap strings pretty.
From S2P Require Import Prelude.
From S2P Require Import Data.
From S2P Require Import Numbers.

Local Open Scope Z_scope.

(** [ParameterException::Type]. *)
Inductive ParameterException :=
| MISSING_SCENARIO
| MISSING_ORIGIN
| MISSING_DESTINATION
| MISSING_TIME_OF_TRIP
| MISSING_PLACE
| EMPTY_SCENARIO
| INVALID_SCENARIO
| INVALID_ORIGIN
| INVALID_DESTINATION
| INVALID_PLACE
| INVALID_NUMERICAL_DATA.

Definition DEFAULT_MIN_WAITING_TIME : Z := 3 * 60.
Definition DEFAULT_MAX_TOTAL_TIME : Z := MAX_INT.
Definition DEFAULT_MAX_ACCESS_TRAVEL_TIME : Z := 20 * 60.
Definition DEFAULT_MAX_EGRESS_TRAVEL_TIME : Z := 20 * 60.
Definition DEFAULT_MAX_TRANSFER_TRAVEL_TIME : Z := 20 * 60.
Definition DEFAULT_FIRST_WAITING_TIME : Z := 30 * 60.

(** The functions of Boost: [split(result, s, is_any_of(separators))], the
    [string_generator] of uuids, [None] when it throws a [std::runtime_error], and
    [uuids::to_string]. *)
Class Boost := {
  split : string -> string -> list string;
  string_generator : string -> option uuid;
  uuid_to_string : uuid -> string
}.

(** What the code relies on: tokens without a separator, joined by it, are split again,
    and the text of a uuid is read back. *)
Fixpoint join (separator : ascii) (tokens : list string) : string :=
  match tokens with
  | [] => EmptyString
  | [t] => t
  | t :: tokens' => t +:+ String separator (join separator tokens')
  end.

Fixpoint has_char (a : ascii) (s : string) : bool :=
  match s with
  | EmptyString => false
  | String b s' => Ascii.eqb a b || has_char a s'
  end.

Class BoostLaws `{!Boost} : Prop := {
  split_join separator tokens :
    tokens <> [] -> Forall (fun t => has_char separator t = false) tokens ->
    split (String separator EmptyString) (join separator tokens) = tokens;
  string_generator_to_string (u : uuid) :
    (u < 2 ^ 128)%N -> string_generator (uuid_to_string u) = Some u
}.

(** [catch (...)] that throws another exception. *)
Definition catch_all {E E' A} (r : result E A) (e : E') : result E' A :=
  match r with Ok a => Ok a | Throw _ => Throw e end.

(** [CommonParameters::getIntegerValue]. *)
Definition getIntegerValue (strValue : string) : result ParameterException Z :=
  catch_all (stoi strValue) INVALID_NUMERICAL_DATA.

(** The copy constructor of [CommonParameters]: [exceptServices] is left out of it. *)
Definition CommonParameters_copy (p : CommonParameters) : CommonParameters :=
  mkCommonParameters (getScenario p) (getTimeOfTrip p) (getMinWaitingTimeSeconds p)
    (getMaxTotalTravelTimeSeconds p) (getMaxAccessWalkingTravelTimeSeconds p)
    (getMaxEgressWalkingTravelTimeSeconds p) (getMaxTransferWalkingTravelTimeSeconds p)
    (getMaxFirstWaitingTimeSeconds p) (getOnlyServices p) (getOnlyLines p) (getOnlyAgencies p)
    (getOnlyModes p) (getOnlyNodes p) [] (getExceptLines p) (getExceptAgencies p)
    (getExceptModes p) (getExceptNodes p) (isForwardCalculation p).

(** The constructors of [RouteParameters] and [AccessibilityParameters] from common
    parameters, which they copy. *)
Definition RouteParameters_new (orig dest : Point) (alt : bool) (common : CommonParameters)
    : RouteParameters :=
  mkRouteParameters (CommonParameters_copy common) orig dest alt.

Definition AccessibilityParameters_new (place : Point) (common : CommonParameters)
    : AccessibilityParameters :=
  mkAccessibilityParameters (CommonParameters_copy common) place.

Section Parsing.
Context `{!Platform, !Boost}.
Implicit Types (scenarios : gmap uuid Scenario) (parameters : list (string * string)).

(** The local variables of [createCommonParameter]. *)
Record Fields := mkFields {
  f_scenario : option Scenario;
  f_timeOfTrip : Z;
  f_minWaitingTimeSeconds : Z;
  f_maxTotalTravelTimeSeconds : Z;
  f_maxAccessWalkingTravelTimeSeconds : Z;
  f_maxEgressWalkingTravelTimeSeconds : Z;
  f_maxTransferWalkingTravelTimeSeconds : Z;
  f_maxFirstWaitingTimeSeconds : Z;
  f_forwardCalculation : bool
}.

Definition Fields_default : Fields :=
  mkFields None (-1) DEFAULT_MIN_WAITING_TIME DEFAULT_MAX_TOTAL_TIME
    DEFAULT_MAX_ACCESS_TRAVEL_TIME DEFAULT_MAX_EGRESS_TRAVEL_TIME
    DEFAULT_MAX_TRANSFER_TRAVEL_TIME DEFAULT_FIRST_WAITING_TIME true.

(** The value below which a field takes its default, and that default. *)
Definition at_least_zero (fallback v : Z) : Z := if v <? 0 then fallback else v.
Definition positive_or (fallback v : Z) : Z := if v <=? 0 then fallback else v.

(** One parameter of [createCommonParameter]. *)
Definition common_parameter scenarios (parameterWithValue : string * string) (f : Fields)
    : result ParameterException Fields :=
  let '(name, value) := parameterWithValue in
  let 'mkFields scenario time wait total access egress transfer first forward := f in
  if String.eqb name "time_of_trip" then
    v ← getIntegerValue value;
    Ok (mkFields scenario (at_least_zero (-1) v) wait total access egress transfer first forward)
  else if String.eqb name "time_type" then
    Ok (mkFields scenario time wait total access egress transfer first
          (if String.eqb value "1" then false else forward))
  else if String.eqb name "scenario_id" then
    match string_generator value with
    | None => Throw INVALID_SCENARIO
    | Some scenarioUuid =>
        match scenarios !! scenarioUuid with
        | Some s => Ok (mkFields (Some s) time wait total access egress transfer first forward)
        | None => Throw INVALID_SCENARIO
        end
    end
  else if String.eqb name "min_waiting_time" then
    v ← getIntegerValue value;
    Ok (mkFields scenario time (at_least_zero 0 v) total access egress transfer first forward)
  else if String.eqb name "max_travel_time" then
    v ← getIntegerValue value;
    Ok (mkFields scenario time wait (positive_or MAX_INT v) access egress transfer first forward)
  else if String.eqb name "max_access_travel_time" then
    v ← getIntegerValue value;
    Ok (mkFields scenario time wait total (positive_or MAX_INT v) egress transfer first forward)
  else if String.eqb name "max_egress_travel_time" then
    v ← getIntegerValue value;
    Ok (mkFields scenario time wait total access (positive_or MAX_INT v) transfer first forward)
  else if String.eqb name "max_transfer_travel_time" then
    v ← getIntegerValue value;
    Ok (mkFields scenario time wait total access egress (positive_or MAX_INT v) first forward)
  else if String.eqb name "max_first_waiting_time" then
    v ← getIntegerValue value;
    Ok (mkFields scenario time wait total access egress transfer (positive_or (-1) v) forward)
  else Ok f.

(** [createCommonParameter]. *)
Definition createCommonParameter parameters scenarios : result ParameterException CommonParameters :=
  f ← for_each (common_parameter scenarios) parameters Fields_default;
  match f_scenario f with
  | None => Throw MISSING_SCENARIO
  | Some scenario =>
      if (length (servicesList scenario) =? 0)%nat then Throw EMPTY_SCENARIO
      else if f_timeOfTrip f <? 0 then Throw MISSING_TIME_OF_TRIP
      else
        Ok (CommonParameters_new scenario (f_timeOfTrip f) (f_minWaitingTimeSeconds f)
              (f_maxTotalTravelTimeSeconds f) (f_maxAccessWalkingTravelTimeSeconds f)
              (f_maxEgressWalkingTravelTimeSeconds f) (f_maxTransferWalkingTravelTimeSeconds f)
              (f_maxFirstWaitingTimeSeconds f) (f_forwardCalculation f))
  end.

(** The block that reads a point, longitude first; every exception in it is caught. *)
Definition parse_point (value : string) (invalid : ParameterException)
    : result ParameterException Point :=
  match split "," value with
  | [longitude; latitude] =>
      lat ← catch_all (stod latitude) invalid;
      lon ← catch_all (stod longitude) invalid;
      Ok (mkPoint lat lon)
  | _ => Throw invalid
  end.

(** One parameter of [createRouteODParameter]: origin, destination, alternatives. *)
Definition route_parameter (parameterWithValue : string * string)
    (st : option Point * option Point * bool)
    : result ParameterException (option Point * option Point * bool) :=
  let '(name, value) := parameterWithValue in
  let '(origin, destination, alternatives) := st in
  if String.eqb name "origin" then
    point ← parse_point value INVALID_ORIGIN;
    Ok (Some point, destination, alternatives)
  else if String.eqb name "destination" then
    point ← parse_point value INVALID_DESTINATION;
    Ok (origin, Some point, alternatives)
  else if String.eqb name "alternatives" then
    Ok (origin, destination,
        if String.eqb value "true" || String.eqb value "1" then true else alternatives)
  else Ok st.

(** [createRouteODParameter]. *)
Definition createRouteODParameter parameters scenarios : result ParameterException RouteParameters :=
  '(origin, destination, alternatives) ← for_each route_parameter parameters (None, None, false);
  match origin, destination with
  | None, _ => Throw MISSING_ORIGIN
  | _, None => Throw MISSING_DESTINATION
  | Some o, Some d =>
      common ← createCommonParameter parameters scenarios;
      Ok (RouteParameters_new o d alternatives common)
  end.

(** One parameter of [createAccessibilityParameter]. *)
Definition place_parameter (parameterWithValue : string * string) (place : option Point)
    : result ParameterException (option Point) :=
  let '(name, value) := parameterWithValue in
  if String.eqb name "place" then
    point ← parse_point value INVALID_PLACE;
    Ok (Some point)
  else Ok place.

(** [createAccessibilityParameter]. *)
Definition createAccessibilityParameter parameters scenarios
    : result ParameterException AccessibilityParameters :=
  place ← for_each place_parameter parameters None;
  match place with
  | None => Throw MISSING_PLACE
  | Some point =>
      common ← createCommonParameter parameters scenarios;
      Ok (AccessibilityParameters_new point common)
  end.
(** ** What the loops over the parameters compute *)

(** The last value given to a name. *)
Fixpoint last_of (name : string) (l : list (string * string)) : option string :=
  match l with
  | [] => None
  | (n, v) :: l' =>
      match last_of name l' with
      | Some w => Some w
      | None => if String.eqb n name then Some v else None
      end
  end.

Definition given (name value : string) (l : list (string * string)) : bool :=
  existsb (fun nv => String.eqb nv.1 name && String.eqb nv.2 value) l.

(** The first error of a list of parameters. *)
Fixpoint first_error (error : string * string -> option ParameterException)
    (l : list (string * string)) : option ParameterException :=
  match l with
  | [] => None
  | nv :: l' => match error nv with Some e => Some e | None => first_error error l' end
  end.

Lemma last_of_snoc name l n v :
  last_of name (l ++ [(n, v)]) = if String.eqb n name then Some v else last_of name l.
Proof.
  induction l as [|[m w] l IH]; simpl; [reflexivity|]. rewrite IH.
  destruct (String.eqb n name); [reflexivity|]. destruct (last_of name l); reflexivity.
Qed.

Lemma given_snoc name value l n v :
  given name value (l ++ [(n, v)]) = given name value l || (String.eqb n name && String.eqb v value).
Proof. unfold given. rewrite existsb_app. simpl. rewrite orb_false_r. reflexivity. Qed.

Lemma first_error_snoc error l nv :
  first_error error (l ++ [nv]) =
  match first_error error l with Some e => Some e | None => error nv end.
Proof.
  induction l as [|mw l IH]; simpl; [destruct (error nv); reflexivity|].
  destruct (error mw); [reflexivity|exact IH].
Qed.

Lemma last_of_elem name l v : last_of name l = Some v -> (name, v) ∈ l.
Proof.
  induction l as [|[m w] l IH]; simpl; [done|].
  destruct (last_of name l).
  - intros [= ->]. right. apply IH. reflexivity.
  - destruct (String.eqb_spec m name) as [->|]; [|done]. intros [= ->]. left.
Qed.

Lemma last_of_none name l v : last_of name l = None -> (name, v) ∉ l.
Proof.
  induction l as [|[m w] l IH]; simpl; [intros _ Hin; inversion Hin|].
  destruct (last_of name l); [done|]. destruct (String.eqb_spec m name); [done|].
  intros _ Hin. apply elem_of_cons in Hin as [[= -> ->]|Hin]; [done|]. exact (IH eq_refl Hin).
Qed.

(** With one value for each name, the order of the parameters does not matter. *)
Lemma last_of_unique name l v :
  NoDup l.*1 -> (name, v) ∈ l -> last_of name l = Some v.
Proof.
  intros Hnd Hin. destruct (last_of name l) as [w|] eqn:Hlast.
  - apply last_of_elem in Hlast. f_equal.
    exact (f_equal snd (NoDup_fmap_inj fst l (name, w) (name, v) Hnd Hlast Hin eq_refl)).
  - contradiction (last_of_none name l v Hlast).
Qed.

Lemma first_error_elem error l e :
  first_error error l = Some e -> exists nv, nv ∈ l /\ error nv = Some e.
Proof.
  induction l as [|nv l IH]; simpl; [done|]. destruct (error nv) eqn:He.
  - intros [= ->]. exists nv. split; [left|exact He].
  - intros Hl. destruct (IH Hl) as (mw & Hmw & Hemw). exists mw. split; [right|]; assumption.
Qed.

Lemma first_error_none error l :
  first_error error l = None <-> Forall (fun nv => error nv = None) l.
Proof.
  induction l as [|nv l IH]; simpl; [split; constructor|]. rewrite Forall_cons, <- IH.
  destruct (error nv); naive_solver.
Qed.

(** A loop whose step follows a function of the parameters seen. *)
Lemma parameters_loop {S} (step : string * string -> S -> result ParameterException S)
    (error : string * string -> option ParameterException)
    (value : list (string * string) -> S) l :
  (forall seen nv, step nv (value seen) =
     match error nv with Some e => Throw e | None => Ok (value (seen ++ [nv])) end) ->
  for_each step l (value []) =
  match first_error error l with Some e => Throw e | None => Ok (value l) end.
Proof.
  intros Hstep. induction l as [|nv l IH] using rev_ind; [reflexivity|].
  rewrite for_each_app, IH, first_error_snoc. destruct (first_error error l); [reflexivity|].
  simpl. rewrite Hstep. destruct (error nv); reflexivity.
Qed.

(** ** The common parameters *)

Section Common.
Context scenarios.

Definition integer_names : list string :=
  ["time_of_trip"; "min_waiting_time"; "max_travel_time"; "max_access_travel_time";
   "max_egress_travel_time"; "max_transfer_travel_time"; "max_first_waiting_time"]%string.

Definition find_scenario (value : string) : option Scenario :=
  scenarioUuid ← string_generator value; scenarios !! scenarioUuid.

Definition common_error (nv : string * string) : option ParameterException :=
  if bool_decide (nv.1 ∈ integer_names) then
    match stoi nv.2 with Ok _ => None | Throw _ => Some INVALID_NUMERICAL_DATA end
  else if String.eqb nv.1 "scenario_id" then
    match find_scenario nv.2 with Some _ => None | None => Some INVALID_SCENARIO end
  else None.

(** The integer of a parameter, after [adjust]; [missing] when it is not given. *)
Definition integer_of (name : string) (missing : Z) (adjust : Z -> Z) (l : list (string * string)) : Z :=
  match last_of name l with
  | None => missing
  | Some v => match stoi v with Ok z => adjust z | Throw _ => missing end
  end.

Definition fields_of (l : list (string * string)) : Fields :=
  mkFields (v ← last_of "scenario_id" l; find_scenario v)
    (integer_of "time_of_trip" (-1) (at_least_zero (-1)) l)
    (integer_of "min_waiting_time" DEFAULT_MIN_WAITING_TIME (at_least_zero 0) l)
    (integer_of "max_travel_time" DEFAULT_MAX_TOTAL_TIME (positive_or MAX_INT) l)
    (integer_of "max_access_travel_time" DEFAULT_MAX_ACCESS_TRAVEL_TIME (positive_or MAX_INT) l)
    (integer_of "max_egress_travel_time" DEFAULT_MAX_EGRESS_TRAVEL_TIME (positive_or MAX_INT) l)
    (integer_of "max_transfer_travel_time" DEFAULT_MAX_TRANSFER_TRAVEL_TIME (positive_or MAX_INT) l)
    (integer_of "max_first_waiting_time" DEFAULT_FIRST_WAITING_TIME (positive_or (-1)) l)
    (negb (given "time_type" "1" l)).

Lemma integer_of_snoc name missing adjust l n v :
  integer_of name missing adjust (l ++ [(n, v)]) =
  if String.eqb n name
  then match stoi v with Ok z => adjust z | Throw _ => missing end
  else integer_of name missing adjust l.
Proof. unfold integer_of. rewrite last_of_snoc. destruct (String.eqb n name); reflexivity. Qed.

Lemma common_parameter_step seen nv :
  common_parameter scenarios nv (fields_of seen) =
  match common_error nv with Some e => Throw e | None => Ok (fields_of (seen ++ [nv])) end.
Proof.
  destruct nv as [n v]. unfold common_parameter, fields_of. cbn iota.
  rewrite !integer_of_snoc, last_of_snoc, given_snoc. unfold common_error, find_scenario. cbn [fst snd].
  repeat match goal with
  | |- (if String.eqb n ?s then mbind _ _ else _) = _ =>
      destruct (String.eqb_spec n s) as [->|];
      [unfold getIntegerValue, catch_all; destruct (stoi v); cbn; rewrite ?orb_false_r; reflexivity|]
  | |- (if String.eqb n "time_type" then _ else _) = _ =>
      destruct (String.eqb_spec n "time_type") as [->|];
      [cbn; destruct (String.eqb v "1"), (given "time_type" "1" seen); reflexivity|]
  | |- (if String.eqb n "scenario_id" then _ else _) = _ =>
      destruct (String.eqb_spec n "scenario_id") as [->|];
      [cbn; destruct (string_generator v) as [u|]; [cbn; destruct (scenarios !! u)|]; cbn; rewrite ?orb_false_r; reflexivity|]
  end.
  assert (n ∉ integer_names) as Hn
    by (unfold integer_names; rewrite !not_elem_of_cons; repeat split; try assumption; apply not_elem_of_nil).
  rewrite bool_decide_eq_false_2 by exact Hn. rewrite orb_false_r. reflexivity.
Qed.

Lemma common_loop l :
  for_each (common_parameter scenarios) l Fields_default =
  match first_error common_error l with Some e => Throw e | None => Ok (fields_of l) end.
Proof. apply (parameters_loop _ _ fields_of). exact common_parameter_step. Qed.
End Common.

(** ** The points *)

Definition point_of (value : string) : option Point :=
  match parse_point value INVALID_PLACE with Ok point => Some point | Throw _ => None end.

Lemma parse_point_of value invalid :
  parse_point value invalid = match point_of value with Some point => Ok point | None => Throw invalid end.
Proof.
  unfold point_of, parse_point. destruct (split "," value) as [|lon [|lat [|]]]; try reflexivity.
  destruct (stod lat), (stod lon); reflexivity.
Qed.

(** The error of a parameter that is a point under the name [name]. *)
Definition point_error (name : string) (invalid : ParameterException) (nv : string * string)
    : option ParameterException :=
  if String.eqb nv.1 name then
    match point_of nv.2 with Some _ => None | None => Some invalid end
  else None.

Definition route_error (nv : string * string) : option ParameterException :=
  match point_error "origin" INVALID_ORIGIN nv with
  | Some e => Some e
  | None => point_error "destination" INVALID_DESTINATION nv
  end.

Definition last_point (name : string) (l : list (string * string)) : option Point :=
  v ← last_of name l; point_of v.

Definition alternatives_of (l : list (string * string)) : bool :=
  given "alternatives" "true" l || given "alternatives" "1" l.

Lemma route_loop l :
  for_each route_parameter l (None, None, false) =
  match first_error route_error l with
  | Some e => Throw e
  | None => Ok (last_point "origin" l, last_point "destination" l, alternatives_of l)
  end.
Proof.
  apply (parameters_loop _ _
    (fun l => (last_point "origin" l, last_point "destination" l, alternatives_of l))).
  intros seen [n v]. unfold route_parameter, last_point, alternatives_of. cbn iota.
  rewrite !last_of_snoc, !given_snoc, !parse_point_of. unfold route_error, point_error. cbn [fst snd].
  destruct (String.eqb_spec n "origin") as [->|].
  { destruct (point_of v) as [pt|] eqn:Hpt; cbn; rewrite ?Hpt, ?orb_false_r; reflexivity. }
  destruct (String.eqb_spec n "destination") as [->|].
  { destruct (point_of v) as [pt|] eqn:Hpt; cbn; rewrite ?Hpt, ?orb_false_r; reflexivity. }
  destruct (String.eqb_spec n "alternatives") as [->|]; cbn; rewrite ?orb_false_r; [|reflexivity].
  destruct (String.eqb v "true"), (String.eqb v "1"),
    (given "alternatives" "true" seen), (given "alternatives" "1" seen); reflexivity.
Qed.

Lemma place_loop l :
  for_each place_parameter l None =
  match first_error (point_error "place" INVALID_PLACE) l with
  | Some e => Throw e
  | None => Ok (last_point "place" l)
  end.
Proof.
  apply (parameters_loop _ _ (last_point "place")).
  intros seen [n v]. unfold place_parameter, last_point. cbn iota.
  rewrite last_of_snoc, parse_point_of. unfold point_error. cbn [fst snd].
  destruct (String.eqb n "place"); [|reflexivity].
  destruct (point_of v) as [pt|] eqn:Hpt; cbn; rewrite ?Hpt; reflexivity.
Qed.

(** ** What parsed parameters satisfy *)

Section Typing.
Context scenarios.

(** The ranges of the common parameters: the scenario is one of the server and has
    services, times are [int]s with the markers the calculations expect. *)
Record common_in_range (p : CommonParameters) : Prop := {
  cr_scenario : exists u, scenarios !! u = Some (getScenario p);
  cr_services : servicesList (getScenario p) <> [];
  cr_time : 0 <= getTimeOfTrip p <= MAX_INT;
  cr_wait : 0 <= getMinWaitingTimeSeconds p <= MAX_INT;
  cr_total : 0 < getMaxTotalTravelTimeSeconds p <= MAX_INT;
  cr_access : 0 < getMaxAccessWalkingTravelTimeSeconds p <= MAX_INT;
  cr_egress : 0 < getMaxEgressWalkingTravelTimeSeconds p <= MAX_INT;
  cr_transfer : 0 < getMaxTransferWalkingTravelTimeSeconds p <= MAX_INT;
  cr_first : getMaxFirstWaitingTimeSeconds p = -1 \/ 0 < getMaxFirstWaitingTimeSeconds p <= MAX_INT;
  cr_filters : p = CommonParameters_new (getScenario p) (getTimeOfTrip p)
    (getMinWaitingTimeSeconds p) (getMaxTotalTravelTimeSeconds p)
    (getMaxAccessWalkingTravelTimeSeconds p) (getMaxEgressWalkingTravelTimeSeconds p)
    (getMaxTransferWalkingTravelTimeSeconds p) (getMaxFirstWaitingTimeSeconds p)
    (isForwardCalculation p)
}.

(** The reason behind each error of the common parameters. *)
Definition common_reason (l : list (string * string)) (e : ParameterException) : Prop :=
  match e with
  | INVALID_NUMERICAL_DATA =>
      exists n v, (n, v) ∈ l /\ n ∈ integer_names /\ forall z, stoi v <> Ok z
  | INVALID_SCENARIO =>
      exists v, ("scenario_id"%string, v) ∈ l /\ find_scenario scenarios v = None
  | MISSING_SCENARIO => forall v, ("scenario_id"%string, v) ∉ l
  | EMPTY_SCENARIO =>
      exists v s, ("scenario_id"%string, v) ∈ l /\ find_scenario scenarios v = Some s /\ servicesList s = []
  | MISSING_TIME_OF_TRIP =>
      forall v z, last_of "time_of_trip" l = Some v -> stoi v = Ok z -> z < 0
  | _ => False
  end.

Lemma integer_of_range name missing adjust l (P : Z -> Prop) :
  P missing -> (forall z, in_int z -> P (adjust z)) -> P (integer_of name missing adjust l).
Proof.
  intros Hm Ha. unfold integer_of. destruct (last_of name l) as [v|]; [|exact Hm].
  destruct (stoi v) as [z|] eqn:Hz; [|exact Hm]. apply Ha. exact (stoi_in_int v z Hz).
Qed.

Lemma positive_or_range (fallback z : Z) :
  in_int z -> positive_or fallback z = fallback \/ 0 < positive_or fallback z <= MAX_INT.
Proof. unfold in_int, positive_or. destruct (Z.leb_spec z 0); lia. Qed.

Lemma positive_integer name missing l :
  0 < missing <= MAX_INT -> 0 < integer_of name missing (positive_or MAX_INT) l <= MAX_INT.
Proof.
  intros Hm. apply (integer_of_range _ _ _ _ (fun z => 0 < z <= MAX_INT)); [exact Hm|].
  intros z Hz. destruct (positive_or_range MAX_INT z Hz) as [->|]; [unfold MAX_INT; lia|assumption].
Qed.

(** The parameters that [createCommonParameter] builds from its local variables. *)
Definition common_of (s : Scenario) (f : Fields) : CommonParameters :=
  CommonParameters_new s (f_timeOfTrip f) (f_minWaitingTimeSeconds f)
    (f_maxTotalTravelTimeSeconds f) (f_maxAccessWalkingTravelTimeSeconds f)
    (f_maxEgressWalkingTravelTimeSeconds f) (f_maxTransferWalkingTravelTimeSeconds f)
    (f_maxFirstWaitingTimeSeconds f) (f_forwardCalculation f).

Lemma fields_in_range l u s :
  scenarios !! u = Some s -> servicesList s <> [] -> 0 <= f_timeOfTrip (fields_of scenarios l) ->
  common_in_range (common_of s (fields_of scenarios l)).
Proof.
  intros Hu Hserv Ht.
  split; cbn; try (apply positive_integer; unfold DEFAULT_MAX_TOTAL_TIME, DEFAULT_MAX_ACCESS_TRAVEL_TIME,
    DEFAULT_MAX_EGRESS_TRAVEL_TIME, DEFAULT_MAX_TRANSFER_TRAVEL_TIME, MAX_INT; lia).
  - exists u. exact Hu.
  - exact Hserv.
  - split; [exact Ht|]. apply (integer_of_range _ _ _ _ (fun z => z <= MAX_INT)); [done|].
    intros z [_ Hz]. unfold at_least_zero. destruct (Z.ltb_spec z 0); [done|exact Hz].
  - apply (integer_of_range _ _ _ _ (fun z => 0 <= z <= MAX_INT)); [done|].
    intros z [_ Hz]. unfold at_least_zero. destruct (Z.ltb_spec z 0); [done|lia].
  - apply (integer_of_range _ _ _ _ (fun z => z = -1 \/ 0 < z <= MAX_INT)); [right; done|].
    intros z Hz. apply (positive_or_range (-1) z Hz).
  - reflexivity.
Qed.

Lemma common_error_reason l e : first_error (common_error scenarios) l = Some e -> common_reason l e.
Proof.
  intros Hfirst. apply first_error_elem in Hfirst as ([n v] & Hin & He).
  unfold common_error in He. cbn in He. case_bool_decide as Hint.
  - destruct (stoi v) eqn:Hv; [done|]. injection He as <-. exists n, v. rewrite Hv. done.
  - destruct (String.eqb_spec n "scenario_id") as [->|]; [|done].
    destruct (find_scenario scenarios v) eqn:Hv; [done|]. injection He as <-. exists v. done.
Qed.

(** Without an error, the scenario is that of the last parameter that gives one. *)
Lemma scenario_of_fields l :
  first_error (common_error scenarios) l = None ->
  match f_scenario (fields_of scenarios l) with
  | Some s => exists v, ("scenario_id"%string, v) ∈ l /\ find_scenario scenarios v = Some s
  | None => forall v, ("scenario_id"%string, v) ∉ l
  end.
Proof.
  intros Hfirst. cbn. destruct (last_of "scenario_id" l) as [v|] eqn:Hlast; cbn;
    [|exact (fun v => last_of_none _ _ v Hlast)].
  apply last_of_elem in Hlast. apply first_error_none in Hfirst. rewrite Forall_forall in Hfirst.
  specialize (Hfirst _ Hlast). unfold common_error in Hfirst. cbn in Hfirst.
  destruct (find_scenario scenarios v) as [s|] eqn:Hs; [|done]. exists v. done.
Qed.

Lemma createCommonParameter_spec l :
  match createCommonParameter l scenarios with
  | Ok p => common_in_range p
  | Throw e => common_reason l e
  end.
Proof.
  unfold createCommonParameter. rewrite common_loop.
  destruct (first_error (common_error scenarios) l) as [e|] eqn:Hfirst; cbn [mbind result_bind];
    [exact (common_error_reason l e Hfirst)|].
  pose proof (scenario_of_fields l Hfirst) as Hscenario.
  destruct (f_scenario (fields_of scenarios l)) as [s|]; [|exact Hscenario].
  destruct Hscenario as (v & Hin & Hs).
  destruct (Nat.eqb_spec (length (servicesList s)) 0) as [Hserv|Hserv].
  { exists v, s. apply nil_length_inv in Hserv. done. }
  destruct (Z.ltb_spec (f_timeOfTrip (fields_of scenarios l)) 0) as [Ht|Ht].
  { intros w z Hw Hz. revert Ht. cbn. unfold integer_of, at_least_zero. rewrite Hw, Hz.
    destruct (Z.ltb_spec z 0); lia. }
  unfold find_scenario in Hs. destruct (string_generator v) as [u|]; [|done].
  apply (fields_in_range l u s Hs); [|exact Ht]. intros Hnil. rewrite Hnil in Hserv. done.
Qed.

(** The copy of parameters without filters is the same parameters. *)
Lemma common_copy p : common_in_range p -> CommonParameters_copy p = p.
Proof. intros Hp. rewrite (cr_filters p Hp). reflexivity. Qed.
End Typing.

Lemma last_point_none name invalid l :
  first_error (point_error name invalid) l = None -> last_point name l = None ->
  forall v, (name, v) ∉ l.
Proof.
  intros Hfirst Hlast. unfold last_point in Hlast.
  destruct (last_of name l) as [w|] eqn:Hw; [|exact (fun v => last_of_none _ _ v Hw)].
  cbn in Hlast. apply last_of_elem in Hw. apply first_error_none in Hfirst.
  rewrite Forall_forall in Hfirst. specialize (Hfirst _ Hw). unfold point_error in Hfirst.
  cbn in Hfirst. rewrite String.eqb_refl, Hlast in Hfirst. done.
Qed.

Lemma point_error_reason name invalid nv e :
  point_error name invalid nv = Some e -> e = invalid /\ nv.1 = name /\ point_of nv.2 = None.
Proof.
  unfold point_error. destruct (String.eqb_spec nv.1 name); [|done].
  destruct (point_of nv.2); [done|]. intros [= <-]. done.
Qed.

Lemma route_error_none l :
  first_error route_error l = None ->
  first_error (point_error "origin" INVALID_ORIGIN) l = None /\
  first_error (point_error "destination" INVALID_DESTINATION) l = None.
Proof.
  rewrite !first_error_none, !Forall_forall. unfold route_error. intros Hnone.
  split; intros nv Hnv; specialize (Hnone nv Hnv);
    destruct (point_error "origin" INVALID_ORIGIN nv); congruence.
Qed.

(** The reason behind each error of a route request. *)
Definition route_reason scenarios (l : list (string * string)) (e : ParameterException) : Prop :=
  match e with
  | MISSING_ORIGIN => forall v, ("origin"%string, v) ∉ l
  | MISSING_DESTINATION => forall v, ("destination"%string, v) ∉ l
  | INVALID_ORIGIN => exists v, ("origin"%string, v) ∈ l /\ point_of v = None
  | INVALID_DESTINATION => exists v, ("destination"%string, v) ∈ l /\ point_of v = None
  | _ => common_reason scenarios l e
  end.

(** The reason behind each error of an accessibility request. *)
Definition place_reason scenarios (l : list (string * string)) (e : ParameterException) : Prop :=
  match e with
  | MISSING_PLACE => forall v, ("place"%string, v) ∉ l
  | INVALID_PLACE => exists v, ("place"%string, v) ∈ l /\ point_of v = None
  | _ => common_reason scenarios l e
  end.

Lemma common_route_reason scenarios l e : common_reason scenarios l e -> route_reason scenarios l e.
Proof. destruct e; simpl; done. Qed.

Lemma common_place_reason scenarios l e : common_reason scenarios l e -> place_reason scenarios l e.
Proof. destruct e; simpl; done. Qed.

Lemma route_parameters_typed l scenarios :
  match createRouteODParameter l scenarios with
  | Ok r => common_in_range scenarios (route_common r) /\
      last_point "origin" l = Some (getOrigin r) /\
      last_point "destination" l = Some (getDestination r) /\ isWithAlternatives r = alternatives_of l
  | Throw e => route_reason scenarios l e
  end.
Proof.
  unfold createRouteODParameter. rewrite route_loop.
  destruct (first_error route_error l) as [e|] eqn:Hfirst; cbn [mbind result_bind].
  { apply first_error_elem in Hfirst as ([n v] & Hin & He). unfold route_error in He.
    destruct (point_error "origin" INVALID_ORIGIN (n, v)) as [e'|] eqn:Ho; [injection He as ->; rename Ho into He|];
      apply point_error_reason in He as (-> & Hn & Hv); cbn in Hn, Hv; subst n; exists v; done. }
  destruct (route_error_none l Hfirst) as [Ho Hd].
  destruct (last_point "origin" l) as [o|] eqn:Hlo; [|exact (last_point_none _ _ l Ho Hlo)].
  destruct (last_point "destination" l) as [d|] eqn:Hld; [|exact (last_point_none _ _ l Hd Hld)].
  pose proof (createCommonParameter_spec scenarios l) as Hcommon.
  destruct (createCommonParameter l scenarios) as [p|e]; cbn [mbind result_bind];
    [|exact (common_route_reason _ _ _ Hcommon)].
  unfold RouteParameters_new. rewrite (common_copy scenarios p Hcommon). done.
Qed.

Lemma place_parameters_typed l scenarios :
  match createAccessibilityParameter l scenarios with
  | Ok a => common_in_range scenarios (access_common a) /\ last_point "place" l = Some (getPlace a)
  | Throw e => place_reason scenarios l e
  end.
Proof.
  unfold createAccessibilityParameter. rewrite place_loop.
  destruct (first_error _ l) as [e|] eqn:Hfirst; cbn [mbind result_bind].
  { apply first_error_elem in Hfirst as ([n v] & Hin & He).
    apply point_error_reason in He as (-> & Hn & Hv). cbn in Hn, Hv. subst n. exists v. done. }
  destruct (last_point "place" l) as [pt|] eqn:Hl; [|exact (last_point_none _ _ l Hfirst Hl)].
  pose proof (createCommonParameter_spec scenarios l) as Hcommon.
  destruct (createCommonParameter l scenarios) as [p|e]; cbn [mbind result_bind];
    [|exact (common_place_reason _ _ _ Hcommon)].
  unfold AccessibilityParameters_new. rewrite (common_copy scenarios p Hcommon). done.
Qed.

(** C22: Parsing the parameters of a request either gives parameters in the ranges the
    calculations work with (a scenario of the server that has services, a time from
    midnight on, positive limits) with the points that were given last, or reports an
    error that is there: for every error, a parameter that is missing or that cannot
    be read. *)
Theorem request_parameters_typed l scenarios :
  match createRouteODParameter l scenarios with
  | Ok r => common_in_range scenarios (route_common r) /\
      last_point "origin" l = Some (getOrigin r) /\
      last_point "destination" l = Some (getDestination r) /\ isWithAlternatives r = alternatives_of l
  | Throw e => route_reason scenarios l e
  end /\
  match createAccessibilityParameter l scenarios with
  | Ok a => common_in_range scenarios (access_common a) /\ last_point "place" l = Some (getPlace a)
  | Throw e => place_reason scenarios l e
  end.
Proof. split; [apply route_parameters_typed|apply place_parameters_typed]. Qed.

(** ** Writing a request *)

Definition common_request (p : CommonParameters) : list (string * string) :=
  [("scenario_id", uuid_to_string (scenario_uuid (getScenario p)));
   ("time_of_trip", pretty (getTimeOfTrip p));
   ("time_type", if isForwardCalculation p then "0" else "1");
   ("min_waiting_time", pretty (getMinWaitingTimeSeconds p));
   ("max_travel_time", pretty (getMaxTotalTravelTimeSeconds p));
   ("max_access_travel_time", pretty (getMaxAccessWalkingTravelTimeSeconds p));
   ("max_egress_travel_time", pretty (getMaxEgressWalkingTravelTimeSeconds p));
   ("max_transfer_travel_time", pretty (getMaxTransferWalkingTravelTimeSeconds p));
   ("max_first_waiting_time", pretty (getMaxFirstWaitingTimeSeconds p))]%string.

(** A request for the route of [r], its points written as texts. *)
Definition route_request (r : RouteParameters) (origin destination : string) : list (string * string) :=
  [("origin", origin); ("destination", destination);
   ("alternatives", if isWithAlternatives r then "true" else "false")]%string ++
  common_request (route_common r).

Definition place_request (a : AccessibilityParameters) (place : string) : list (string * string) :=
  ("place"%string, place) :: common_request (access_common a).

(** A text of a point: two numbers that are read as its coordinates. *)
Definition text_of_point (point : Point) (text : string) : Prop :=
  exists lon lat, text = join "," [lon; lat] /\ has_char "," lon = false /\ has_char "," lat = false /\
    stod lon = Ok (longitude point) /\ stod lat = Ok (latitude point).

Section RoundTrip.
Context `{!BoostLaws} scenarios.

(** The scenarios are kept under their uuid. *)
Definition scenarios_keyed : Prop :=
  forall u s, scenarios !! u = Some s -> u = scenario_uuid s /\ (u < 2 ^ 128)%N.

Lemma text_of_point_of point text : text_of_point point text -> point_of text = Some point.
Proof.
  intros (lon & lat & -> & Hlon & Hlat & Hslon & Hslat). unfold point_of, parse_point.
  rewrite (split_join "," [lon; lat]) by (try done; repeat constructor; assumption).
  rewrite Hslon, Hslat. destruct point. reflexivity.
Qed.

Lemma integer_of_printed name (z : Z) missing adjust l :
  NoDup l.*1 -> (name, pretty z) ∈ l -> in_int z -> adjust z = z ->
  integer_of name missing adjust l = z.
Proof.
  intros Hnd Hin Hz Hadjust. unfold integer_of.
  rewrite (last_of_unique name l _ Hnd Hin), (stoi_printed z Hz). exact Hadjust.
Qed.

Lemma given_unique name value other l :
  NoDup l.*1 -> (name, other) ∈ l -> given name value l = String.eqb other value.
Proof.
  intros Hnd Hin. apply eq_true_iff_eq. unfold given. rewrite existsb_exists, String.eqb_eq.
  setoid_rewrite <- list_elem_of_In. split.
  - intros ([n v] & Hnv & Heq). apply andb_true_iff in Heq as [Hn Hv].
    apply String.eqb_eq in Hn, Hv. cbn in Hn, Hv. subst.
    exact (f_equal snd (NoDup_fmap_inj fst l (name, other) (name, value) Hnd Hin Hnv eq_refl)).
  - intros ->. exists (name, value). rewrite !String.eqb_refl. done.
Qed.

Lemma positive_or_id (fallback z : Z) : 0 < z -> positive_or fallback z = z.
Proof. unfold positive_or. destruct (Z.leb_spec z 0); lia. Qed.

(** One of the parameters of a request. *)
Ltac in_request Hin := apply Hin; repeat first [left|right].

(** The integer that one of them gives. *)
Ltac read_integer Hnd Hin :=
  apply integer_of_printed;
  [exact Hnd|in_request Hin|unfold in_int, MIN_INT, MAX_INT in *; lia
  |first [apply positive_or_id; lia|unfold at_least_zero; case_match; lia]].

Lemma common_request_fields l p :
  scenarios_keyed -> common_in_range scenarios p -> NoDup l.*1 -> common_request p ⊆ l ->
  fields_of scenarios l =
    mkFields (Some (getScenario p)) (getTimeOfTrip p) (getMinWaitingTimeSeconds p)
      (getMaxTotalTravelTimeSeconds p) (getMaxAccessWalkingTravelTimeSeconds p)
      (getMaxEgressWalkingTravelTimeSeconds p) (getMaxTransferWalkingTravelTimeSeconds p)
      (getMaxFirstWaitingTimeSeconds p) (isForwardCalculation p).
Proof.
  intros Hkeys [(u & Hu) _ Ht Hw Htot Ha He Htr Hf _] Hnd Hin.
  destruct (Hkeys u _ Hu) as [-> Hu128]. unfold fields_of. f_equal.
  - erewrite last_of_unique by (exact Hnd || (in_request Hin)). cbn.
    unfold find_scenario. rewrite string_generator_to_string by exact Hu128. exact Hu.
  - read_integer Hnd Hin.
  - read_integer Hnd Hin.
  - read_integer Hnd Hin.
  - read_integer Hnd Hin.
  - read_integer Hnd Hin.
  - read_integer Hnd Hin.
  - destruct Hf as [Hf|Hf].
    + unfold integer_of. erewrite last_of_unique by (exact Hnd || (in_request Hin)).
      rewrite Hf. reflexivity.
    + read_integer Hnd Hin.
  - erewrite given_unique by (exact Hnd || (in_request Hin)).
    destruct (isForwardCalculation p); reflexivity.
Qed.

Lemma common_request_valid p :
  scenarios_keyed -> common_in_range scenarios p ->
  Forall (fun nv => common_error scenarios nv = None) (common_request p).
Proof.
  intros Hkeys [(u & Hu) _ Ht Hw Htot Ha He Htr Hf _]. destruct (Hkeys u _ Hu) as [-> Hu128].
  unfold in_int, MIN_INT, MAX_INT in *.
  repeat (apply List.Forall_cons; [unfold common_error; cbn [fst snd]|]); [..|constructor];
    try (rewrite stoi_printed by (unfold in_int, MIN_INT, MAX_INT; lia); reflexivity).
  - change (match find_scenario scenarios (uuid_to_string (scenario_uuid (getScenario p))) with
            | Some _ => None | None => Some INVALID_SCENARIO end = None).
    unfold find_scenario. rewrite string_generator_to_string by exact Hu128. cbn. rewrite Hu. reflexivity.
  - reflexivity.
Qed.

Lemma common_request_read l p :
  scenarios_keyed -> common_in_range scenarios p -> NoDup l.*1 -> common_request p ⊆ l ->
  first_error (common_error scenarios) l = None -> createCommonParameter l scenarios = Ok p.
Proof.
  intros Hkeys Hp Hnd Hin Hfirst. unfold createCommonParameter.
  rewrite common_loop, Hfirst. cbn [mbind result_bind].
  rewrite (common_request_fields l p Hkeys Hp Hnd Hin). cbn.
  destruct (Nat.eqb_spec (length (servicesList (getScenario p))) 0) as [Hserv|_].
  { contradiction (cr_services _ p Hp (nil_length_inv _ Hserv)). }
  destruct (Z.ltb_spec (getTimeOfTrip p) 0); [pose proof (cr_time _ p Hp); lia|].
  f_equal. symmetry. exact (cr_filters _ p Hp).
Qed.

(** Parameters of other names are no matter to the common ones. *)
Lemma other_error n v : n ∉ "scenario_id"%string :: integer_names -> common_error scenarios (n, v) = None.
Proof.
  rewrite not_elem_of_cons. intros [Hid Hint]. unfold common_error. cbn.
  rewrite bool_decide_eq_false_2 by exact Hint. destruct (String.eqb_spec n "scenario_id"); done.
Qed.

(** What a request of distinct names without errors gives, in any order. *)
Lemma request_common l request p :
  scenarios_keyed -> common_in_range scenarios p ->
  l ≡ₚ request -> NoDup request.*1 -> common_request p ⊆ request ->
  (forall nv, nv ∈ request -> nv ∈ common_request p \/ nv.1 ∉ "scenario_id"%string :: integer_names) ->
  NoDup l.*1 /\ createCommonParameter l scenarios = Ok p.
Proof.
  intros Hkeys Hp Hl Hnd Hin Hother.
  assert (NoDup l.*1) as Hndl by (rewrite Hl; exact Hnd).
  split; [exact Hndl|]. apply common_request_read; try assumption.
  - intros nv Hnv. rewrite Hl. exact (Hin nv Hnv).
  - apply first_error_none. rewrite Hl. apply Forall_forall. intros [n v] Hnv.
    destruct (Hother (n, v) Hnv) as [Hc|Hn]; [|exact (other_error n v Hn)].
    pose proof (common_request_valid p Hkeys Hp) as Hvalid. rewrite Forall_forall in Hvalid.
    exact (Hvalid _ Hc).
Qed.

(** Decide a goal on the names of a request. *)
Ltac names := apply (bool_decide_eq_true_1 _); vm_compute; reflexivity.

Lemma route_request_read r origin destination l :
  scenarios_keyed -> common_in_range scenarios (route_common r) ->
  point_of origin = Some (getOrigin r) -> point_of destination = Some (getDestination r) ->
  l ≡ₚ route_request r origin destination -> createRouteODParameter l scenarios = Ok r.
Proof.
  intros Hkeys Hr Ho Hd Hl.
  destruct (request_common l (route_request r origin destination) (route_common r) Hkeys Hr Hl)
    as [Hnd Hcommon].
  { unfold route_request, common_request. cbn. names. }
  { intros nv Hnv. do 3 right. exact Hnv. }
  { intros nv Hnv. unfold route_request in Hnv. rewrite elem_of_app in Hnv.
    destruct Hnv as [Hnv|Hnv]; [right|left; exact Hnv].
    repeat (apply elem_of_cons in Hnv as [->|Hnv]; [names|]). inversion Hnv. }
  assert (forall nv, nv ∈ route_request r origin destination -> nv ∈ l) as Hin
    by (intros nv Hnv; rewrite Hl; exact Hnv).
  unfold createRouteODParameter. rewrite route_loop.
  rewrite (proj2 (first_error_none route_error l)).
  - unfold last_point, alternatives_of. cbn [mbind result_bind].
    erewrite !last_of_unique by (exact Hnd || in_request Hin).
    erewrite !given_unique by (exact Hnd || in_request Hin). cbn.
    rewrite Ho, Hd, Hcommon. cbn. unfold RouteParameters_new. rewrite (common_copy _ _ Hr).
    destruct r as [common o d alt]. destruct alt; reflexivity.
  - rewrite Hl. unfold route_request, common_request. cbn.
    repeat (apply List.Forall_cons; [|]); [..|constructor]; unfold route_error, point_error; cbn;
      rewrite ?Ho, ?Hd; reflexivity.
Qed.

Lemma place_request_read a place l :
  scenarios_keyed -> common_in_range scenarios (access_common a) ->
  point_of place = Some (getPlace a) ->
  l ≡ₚ place_request a place -> createAccessibilityParameter l scenarios = Ok a.
Proof.
  intros Hkeys Ha Hp Hl.
  destruct (request_common l (place_request a place) (access_common a) Hkeys Ha Hl) as [Hnd Hcommon].
  { unfold place_request, common_request. cbn. names. }
  { intros nv Hnv. right. exact Hnv. }
  { intros nv Hnv. apply elem_of_cons in Hnv as [->|Hnv]; [right; names|left; exact Hnv]. }
  assert (forall nv, nv ∈ place_request a place -> nv ∈ l) as Hin
    by (intros nv Hnv; rewrite Hl; exact Hnv).
  unfold createAccessibilityParameter. rewrite place_loop.
  rewrite (proj2 (first_error_none _ l)).
  - unfold last_point. cbn [mbind result_bind].
    erewrite last_of_unique by (exact Hnd || in_request Hin). cbn.
    rewrite Hp, Hcommon. cbn. unfold AccessibilityParameters_new. rewrite (common_copy _ _ Ha).
    destruct a. reflexivity.
  - rewrite Hl. unfold place_request, common_request.
    repeat (apply List.Forall_cons; [|]); [..|constructor]; unfold point_error; cbn;
      rewrite ?Hp; reflexivity.
Qed.

(** C23: Any parameters in range are read back from their request, in whatever order
    the parameters of the request come: a route request gives the route parameters
    it was written from, an accessibility request the accessibility parameters. *)
Theorem requests_read_back r a origin destination place l m :
  scenarios_keyed ->
  common_in_range scenarios (route_common r) -> common_in_range scenarios (access_common a) ->
  text_of_point (getOrigin r) origin -> text_of_point (getDestination r) destination ->
  text_of_point (getPlace a) place ->
  l ≡ₚ route_request r origin destination -> m ≡ₚ place_request a place ->
  createRouteODParameter l scenarios = Ok r /\ createAccessibilityParameter m scenarios = Ok a.
Proof.
  intros Hkeys Hr Ha Ho Hd Hp Hl Hm.
  apply text_of_point_of in Ho, Hd, Hp. split.
  - exact (route_request_read r origin destination l Hkeys Hr Ho Hd Hl).
  - exact (place_request_read a place m Hkeys Ha Hp Hm).
Qed.
End RoundTrip.
End Parsing.
