(* ===== verification/CacheFiles.v ===== *)
(** * The files of the cache

    The transit data are read from files of Cap'n Proto messages, one for each
    collection and one more for each node and each line. The messages are records with
    the fields of [include/capnp/*.capnp] that the fetchers read; opening a file and
    the generated accessors are the class [CacheFiles]. A [std::map] is the list of
    its values in the order of their keys. *)

From Stdlib Require Import ZArith Lia Sorted.
From Corelib Require Import SpecFloat.
From stdpp Require Import base list gmap strings pretty.
From S2P Require Import Prelude.
From S2P Require Import Data.
From S2P Require Import Attempt.
From S2P Require Import Numbers.
From S2P Require Import Parameters.

Local Open Scope Z_scope.

(** ** Maps ordered by a key of their values *)

(** [std::less] on the keys of the maps. *)
Class KeyOrder (K : Type) := key_ltb : K -> K -> bool.
#[export] Instance uuid_order : KeyOrder uuid := N.ltb.
#[export] Instance string_order : KeyOrder string := String.ltb.

Section Tree.
Context {K V : Type} `{!EqDecision K, !KeyOrder K} (key : V -> K).

Definition tree_find (k : K) (m : list V) : option V := List.find (fun v => bool_decide (key v = k)) m.

(** [m.count(k) != 0]. *)
Definition tree_count (k : K) (m : list V) : bool := bool_decide (is_Some (tree_find k m)).

(** [m.at(k)]. *)
Definition tree_at (k : K) (m : list V) : calc V :=
  match tree_find k m with Some v => Ok v | None => Throw OutOfRange end.

(** [m[key v] = v]. *)
Fixpoint tree_assign (v : V) (m : list V) : list V :=
  match m with
  | [] => [v]
  | w :: m' =>
      if key_ltb (key v) (key w) then v :: m
      else if decide (key v = key w) then v :: m'
      else w :: tree_assign v m'
  end.

(** [m.emplace(key v, v)]: an entry with the key is kept. *)
Definition tree_emplace (v : V) (m : list V) : list V :=
  if tree_count (key v) m then m else tree_assign v m.

(** A change of the entry at [k], in place. *)
Definition tree_alter (k : K) (f : V -> V) (m : list V) : list V :=
  (fun v => if decide (key v = k) then f v else v) <$> m.
End Tree.

(** ** Messages *)

(** What [open] and the reading of the root give: an [errno], or a message, which is
    absent if its reading throws a [kj::Exception]. In the same way an element of a
    list is absent if its reading throws. *)
Inductive opened (A : Type) : Type :=
| OpenFailed (errno : positive)
| Opened (root : option A).
Arguments OpenFailed {A} errno.
Arguments Opened {A} root.

Abbreviation reader_list A := (list (option A)).

(** [agencyCollection::Agency]. *)
Record cAgency := mk_cAgency {
  cAgency_uuid : string;
  cAgency_acronym : string;
  cAgency_name : string;
  cAgency_internalId : string;
  cAgency_simulationUuid : string
}.

(** [serviceCollection::Service]. *)
Record cService := mk_cService {
  cService_uuid : string;
  cService_name : string;
  cService_internalId : string;
  cService_monday : Z;
  cService_tuesday : Z;
  cService_wednesday : Z;
  cService_thursday : Z;
  cService_friday : Z;
  cService_saturday : Z;
  cService_sunday : Z;
  cService_startDate : string;
  cService_endDate : string;
  cService_onlyDates : list string;
  cService_exceptDates : list string;
  cService_simulationUuid : string
}.

(** [lineCollection::Line]. *)
Record cLine := mk_cLine {
  cLine_uuid : string;
  cLine_internalId : string;
  cLine_mode : string;
  cLine_agencyUuid : string;
  cLine_shortname : string;
  cLine_longname : string;
  cLine_allowSameLineTransfers : Z
}.

(** [pathCollection::Path]. *)
Record cPath := mk_cPath {
  cPath_uuid : string;
  cPath_internalId : string;
  cPath_direction : string;
  cPath_lineUuid : string;
  cPath_data : string;
  cPath_nodesUuids : list string
}.

(** [scenarioCollection::Scenario]. *)
Record cScenario := mk_cScenario {
  cScenario_uuid : string;
  cScenario_name : string;
  cScenario_servicesUuids : list string;
  cScenario_onlyLinesUuids : list string;
  cScenario_exceptLinesUuids : list string;
  cScenario_onlyAgenciesUuids : list string;
  cScenario_exceptAgenciesUuids : list string;
  cScenario_onlyNodesUuids : list string;
  cScenario_exceptNodesUuids : list string;
  cScenario_onlyModesShortnames : list string;
  cScenario_exceptModesShortnames : list string;
  cScenario_simulationUuid : string
}.

(** [dataSource::DataSource::Type], with the enumerants of later schemas. *)
Inductive cDataSourceType :=
| DataSource_NONE | DataSource_OTHER | DataSource_GTFS | DataSource_OD_TRIPS
| DataSource_TRANSIT_SMART_CARD_DATA | DataSource_TRANSIT_OPERATIONAL_DATA
| DataSource_TAXI_TRANSACTIONS | DataSource_CAR_SHARING_TRANSACTIONS
| DataSource_BIKE_SHARING_TRANSACTIONS | DataSource_GPS_TRACES
| DataSource_STREET_SEGMENT_SPEEDS | DataSource_ZONES | DataSource_OSM_DATA
| DataSource_PLACES | DataSource_UNKNOWN
| DataSource_unlisted (n : N).

(** [dataSource::DataSource]. *)
Record cDataSource := mk_cDataSource {
  cDataSource_uuid : string;
  cDataSource_type : cDataSourceType;
  cDataSource_name : string
}.

(** [person::Person::AgeGroup], [Gender] and [Occupation]. *)
Inductive cAgeGroup :=
| AgeGroup_NONE | AG0004 | AG0509 | AG1014 | AG1519 | AG2024 | AG2529 | AG3034 | AG3539 | AG4044
| AG4549 | AG5054 | AG5559 | AG6064 | AG6569 | AG7074 | AG7579 | AG8084 | AG8589 | AG9094 | AG95PLUS
| AgeGroup_UNKNOWN
| AgeGroup_unlisted (n : N).

Inductive cGender :=
| Gender_NONE | Gender_FEMALE | Gender_MALE | Gender_CUSTOM | Gender_UNKNOWN
| Gender_unlisted (n : N).

Inductive cOccupation :=
| Occupation_NONE | FULL_TIME_WORKER | PART_TIME_WORKER | FULL_TIME_STUDENT | PART_TIME_STUDENT
| WORKER_AND_STUDENT | RETIRED | AT_HOME | Occupation_OTHER | NON_APPLICABLE | Occupation_UNKNOWN
| Occupation_unlisted (n : N).

(** [person::Person]. *)
Record cPerson := mk_cPerson {
  cPerson_uuid : string;
  cPerson_dataSourceUuid : string;
  cPerson_id : Z;
  cPerson_expansionFactor : spec_float;
  cPerson_age : Z;
  cPerson_drivingLicenseOwner : Z;
  cPerson_transitPassOwner : Z;
  cPerson_ageGroup : cAgeGroup;
  cPerson_gender : cGender;
  cPerson_occupation : cOccupation;
  cPerson_internalId : string
}.

(** [odTrip::OdTrip::Mode] and [Activity]. *)
Inductive cOdTripMode :=
| Mode_NONE | WALKING | CYCLING | CAR_DRIVER | CAR_PASSENGER | MOTORCYCLE | TRANSIT | PARATRANSIT | TAXI
| SCHOOL_BUS | OTHER_BUS | INTERCITY_BUS | INTERCITY_TRAIN | PLANE | FERRY | PARK_AND_RIDE
| KISS_AND_RIDE | BIKE_AND_RIDE | MULTIMODAL_OTHER | Mode_OTHER | Mode_UNKNOWN
| Mode_unlisted (n : N).

Inductive cActivity :=
| Activity_NONE | HOME | WORK_USUAL | WORK_NON_USUAL | SCHOOL_USUAL | SCHOOL_NON_USUAL | SHOPPING
| LEISURE | SERVICE | SECONDARY_HOME | VISITING_FRIENDS | DROP_SOMEONE | FETCH_SOMEONE | RESTAURANT
| MEDICAL | WORSHIP | ON_THE_ROAD | Activity_OTHER | Activity_UNKNOWN
| Activity_unlisted (n : N).

(** [odTrip::OdTrip]. *)
Record cOdTrip := mk_cOdTrip {
  cOdTrip_uuid : string;
  cOdTrip_personUuid : string;
  cOdTrip_dataSourceUuid : string;
  cOdTrip_id : Z;
  cOdTrip_expansionFactor : spec_float;
  cOdTrip_departureTimeSeconds : Z;
  cOdTrip_arrivalTimeSeconds : Z;
  cOdTrip_walkingTravelTimeSeconds : Z;
  cOdTrip_cyclingTravelTimeSeconds : Z;
  cOdTrip_drivingTravelTimeSeconds : Z;
  cOdTrip_mode : cOdTripMode;
  cOdTrip_originActivity : cActivity;
  cOdTrip_destinationActivity : cActivity;
  cOdTrip_originLatitude : Z;
  cOdTrip_originLongitude : Z;
  cOdTrip_destinationLatitude : Z;
  cOdTrip_destinationLongitude : Z;
  originNodesUuids : list string;
  originNodesTravelTimes : list Z;
  originNodesDistances : list Z;
  destinationNodesUuids : list string;
  destinationNodesTravelTimes : list Z;
  destinationNodesDistances : list Z;
  cOdTrip_internalId : string
}.

(** [nodeCollection::Node]; the coordinates are in millionths of a degree. *)
Record cNode := mk_cNode {
  cNode_uuid : string;
  cNode_id : Z;
  cNode_internalId : string;
  cNode_code : string;
  cNode_name : string;
  cNode_latitude : Z;
  cNode_longitude : Z
}.

(** [node::Node]. *)
Record cNodeTransfers := mk_cNodeTransfers {
  transferableNodesUuids : list string;
  transferableNodesTravelTimes : list Z;
  transferableNodesDistances : list Z
}.

(** [line::Trip]. *)
Record cTrip := mk_cTrip {
  cTrip_uuid : string;
  cTrip_pathUuid : string;
  nodeArrivalTimesSeconds : list Z;
  nodeDepartureTimesSeconds : list Z;
  nodesCanBoard : list Z;
  nodesCanUnboard : list Z;
  cTrip_totalCapacity : Z;
  cTrip_seatedCapacity : Z
}.

(** [line::Period], [line::Schedule]. *)
Record cPeriod := mk_cPeriod { cPeriod_trips : reader_list cTrip }.

Record cSchedule := mk_cSchedule {
  cSchedule_serviceUuid : string;
  cSchedule_periods : reader_list cPeriod
}.

(** ** The files *)

(** The file at a path, as the reader of each kind of message finds it; a file of text;
    the JSON in the data of a path, if the text can be parsed, by its members
    [json["segments"][i][key]], if the value can be indexed so and converted to an
    [int], with [None] for [null]; and [boost::gregorian::from_string], if it does not
    throw. *)
Class CacheFiles := {
  agencies_file : string -> opened (reader_list cAgency);
  services_file : string -> opened (reader_list cService);
  lines_file : string -> opened (reader_list cLine);
  paths_file : string -> opened (reader_list cPath);
  scenarios_file : string -> opened (reader_list cScenario);
  dataSources_file : string -> opened (reader_list cDataSource);
  persons_file : string -> opened (reader_list cPerson);
  odTrips_file : string -> opened (reader_list cOdTrip);
  nodes_file : string -> opened (reader_list cNode);
  node_file : string -> opened cNodeTransfers;
  line_file : string -> opened (reader_list cSchedule);
  text_file : string -> option string;
  json_parse : string -> option (nat -> string -> option (option Z));
  date_from_string : string -> option N
}.

(** ** Reading *)

(** [this->cacheDirectoryPath] and the [customPath] of a call. *)
Section FilePath.
Context (cacheDirectoryPath customPath : string).

Definition getFilePath (cacheFilePath : string) : string :=
  let filePath := EmptyString in
  let filePath :=
    if negb (String.eqb cacheDirectoryPath "") then filePath +:+ cacheDirectoryPath +:+ "/" else filePath in
  if String.eqb customPath "" then filePath +:+ cacheFilePath
  else filePath +:+ customPath +:+ "/" +:+ cacheFilePath.
End FilePath.

(** [iCacheFile >> count] on the text of a file, for an [int] that is [1]: nothing is
    extracted from a text of spaces, [0] comes from a text that is not a number, and a
    number out of range is cut to the range. *)
Definition extract_count (text : string) : Z :=
  let rest := skip_space text in
  if String.eqb rest "" then 1
  else match stoi rest with
       | Ok z => z
       | Throw StdOutOfRange => if (take_sign rest).1 then MIN_INT else MAX_INT
       | Throw _ => 0
       end.

(** [getCacheFilesCount], given the text of the file if it opens. *)
Definition getCacheFilesCount (file : option string) : Z :=
  match file with Some text => extract_count text | None => 1 end.

Section Reading.
Context {S : Type}.

(** An access to a message. *)
Definition kj {A} (r : option A) : attempt S A :=
  match r with Some a => mret a | None => throw KjException end.

(** [list[i]] on a list of a message: unchecked. *)
Definition reader_get {A} (l : list A) (i : nat) : attempt S A := lift (vec_get l i).

Context `{!Boost}.

(** [uuidGenerator(text)] throws a [std::runtime_error]. *)
Definition uuidGenerator (text : string) : attempt S uuid :=
  match string_generator text with Some u => mret u | None => throw StdException end.

Definition uuidNilGenerator : uuid := 0%N.

(** [text.empty() ? uuidNilGenerator() : uuidGenerator(text)]. *)
Definition uuid_or_nil (text : string) : attempt S uuid :=
  if String.eqb text "" then mret uuidNilGenerator else uuidGenerator text.
End Reading.

(** [((double) z) / 1000000.0]. *)
Definition degrees (z : Z) : spec_float :=
  SFdiv 53 1024 (binary_normalize 53 1024 z 0 false) (binary_normalize 53 1024 1000000 0 false).

Definition EINVAL : Z := 22.
Definition EBADMSG : Z := 74.

(** [catch (const kj::Exception &) { ret = -EBADMSG; } catch (...) { ret = -EINVAL; }]. *)
Definition catch_all_codes {S} (e : exn) : option (attempt S Z) :=
  match e with
  | KjException => Some (mret (- EBADMSG))
  | _ => if catchable e then Some (mret (- EINVAL)) else None
  end.

(** What every fetcher of a collection does around the loop over its elements: it
    clears the container, opens the file and reads it with the exceptions caught. *)
Definition fetch_collection {S A} (clear : S -> S) (file : opened (reader_list A)) (body : A -> attempt S ())
    : attempt S Z :=
  _ ← modify clear;
  match file with
  | OpenFailed errno => mret (- Z.pos errno)
  | Opened root =>
      try_catch
        (capnpTCollection ← kj root;
         _ ← each (fun item => capnpT ← kj item; body capnpT) capnpTCollection;
         mret 0)
        catch_all_codes
  end.

(** ** Lemmas on the maps *)

Class KeyOrderLaws (K : Type) `{!KeyOrder K} : Prop := {
  key_irrefl (a : K) : key_ltb a a = false;
  key_trans (a b c : K) : key_ltb a b = true -> key_ltb b c = true -> key_ltb a c = true;
  key_total (a b : K) : key_ltb a b = false -> a <> b -> key_ltb b a = true
}.

#[export] Instance uuid_order_laws : KeyOrderLaws uuid.
Proof.
  split; unfold key_ltb, uuid_order; intros a.
  - apply N.ltb_irrefl.
  - intros b c. rewrite !N.ltb_lt. lia.
  - intros b. rewrite N.ltb_ge, N.ltb_lt. lia.
Qed.

Section TreeLemmas.
Context {K V : Type} `{!EqDecision K, !KeyOrder K, !KeyOrderLaws K} (key : V -> K).
Implicit Types m : list V.

(** A map is in the order of its keys. *)
Definition tree_sorted m : Prop := StronglySorted (fun v w => key_ltb (key v) (key w) = true) m.

Lemma tree_find_Some k m v : tree_find key k m = Some v -> v ∈ m /\ key v = k.
Proof using Type.
  intros H. apply find_some in H as [Hin Hk]. apply bool_decide_eq_true in Hk.
  by rewrite list_elem_of_In.
Qed.

Lemma tree_find_None k m : tree_find key k m = None <-> k ∉ (key <$> m).
Proof using Type.
  split.
  - intros H Hin. apply list_elem_of_fmap in Hin as (v & -> & Hv).
    apply list_elem_of_In in Hv. apply (find_none _ _ H) in Hv. by rewrite bool_decide_eq_false in Hv.
  - intros H. destruct (tree_find key k m) as [v|] eqn:Hv; [|done].
    apply tree_find_Some in Hv as [Hv <-]. destruct H. by apply list_elem_of_fmap_2.
Qed.

Lemma tree_find_is_Some k m : is_Some (tree_find key k m) <-> k ∈ (key <$> m).
Proof using Type.
  rewrite <- not_eq_None_Some, tree_find_None. split; [intros H; destruct (decide (k ∈ (key <$> m)))|]; tauto.
Qed.

Lemma tree_find_elem m v : NoDup (key <$> m) -> v ∈ m -> tree_find key (key v) m = Some v.
Proof using Type.
  intros Hnd Hv. destruct (tree_find key (key v) m) as [w|] eqn:Hw.
  - apply tree_find_Some in Hw as [Hw Heq]. f_equal. exact (NoDup_fmap_inj key m w v Hnd Hw Hv Heq).
  - apply tree_find_None in Hw. destruct Hw. by apply list_elem_of_fmap_2.
Qed.

Lemma tree_sorted_NoDup m : tree_sorted m -> NoDup (key <$> m).
Proof using KeyOrderLaws0.
  induction 1 as [|v m Hm IH Hv]; cbn; constructor; [|done].
  intros Hin. apply list_elem_of_fmap in Hin as (w & Heq & Hw).
  rewrite Forall_forall in Hv. specialize (Hv w Hw). rewrite Heq, key_irrefl in Hv. done.
Qed.

Lemma tree_assign_elem m v w :
  tree_sorted m -> w ∈ tree_assign key v m <-> w = v \/ (w ∈ m /\ key w <> key v).
Proof using KeyOrderLaws0.
  induction 1 as [|x m Hm IH Hx]; cbn.
  - rewrite list_elem_of_singleton. set_solver.
  - assert (forall y, y ∈ m -> key_ltb (key x) (key y) = true) as Hlt by (by rewrite Forall_forall in Hx).
    destruct (key_ltb (key v) (key x)) eqn:Hvx; [|case_decide as Heq].
    + rewrite elem_of_cons. split; [|tauto]. intros [->|Hw]; [tauto|]. right. split; [done|]. intros Heq.
      apply elem_of_cons in Hw as [->|Hw]; [by rewrite Heq, key_irrefl in Hvx|].
      specialize (Hlt w Hw). rewrite Heq in Hlt. pose proof (key_trans _ _ _ Hvx Hlt) as H. by rewrite key_irrefl in H.
    + rewrite !elem_of_cons. split.
      * intros [->|Hw]; [tauto|]. right. split; [tauto|]. intros Hk. specialize (Hlt w Hw).
        by rewrite Hk, Heq, key_irrefl in Hlt.
      * intros [->|[[->|Hw] Hk]]; [tauto|congruence|tauto].
    + rewrite !elem_of_cons, IH. split.
      * intros [->|[->|[Hw Hk]]]; [right; split; [tauto|congruence]|tauto|tauto].
      * tauto.
Qed.

Lemma tree_assign_in m v w : w ∈ tree_assign key v m -> w = v \/ w ∈ m.
Proof using Type.
  clear KeyOrderLaws0. induction m as [|x m IH]; cbn [tree_assign]; [set_solver|].
  destruct (key_ltb _ _); [set_solver|]. destruct (decide _); set_solver.
Qed.

Lemma tree_emplace_in m v w : w ∈ tree_emplace key v m -> w = v \/ w ∈ m.
Proof using Type. unfold tree_emplace. destruct (tree_count _ _ _); [auto|apply tree_assign_in]. Qed.

Lemma tree_assign_sorted m v : tree_sorted m -> tree_sorted (tree_assign key v m).
Proof using KeyOrderLaws0.
  induction 1 as [|x m Hm IH Hx]; cbn; [repeat constructor|].
  destruct (key_ltb (key v) (key x)) eqn:Hvx; [|case_decide as Heq].
  - constructor; [by constructor|]. constructor; [done|]. eapply Forall_impl; [exact Hx|].
    intros y Hy. exact (key_trans _ _ _ Hvx Hy).
  - constructor; [done|]. by rewrite Heq.
  - constructor; [done|]. rewrite Forall_forall. intros y Hy. apply tree_assign_elem in Hy as [->|[Hy _]]; [| |done].
    + by apply key_total.
    + rewrite Forall_forall in Hx. auto.
Qed.

Lemma tree_emplace_sorted m v : tree_sorted m -> tree_sorted (tree_emplace key v m).
Proof using KeyOrderLaws0. intros H. unfold tree_emplace. destruct (tree_count _ _ _); auto using tree_assign_sorted. Qed.

Lemma tree_count_true k m : tree_count key k m = true <-> k ∈ (key <$> m).
Proof using Type. unfold tree_count. by rewrite bool_decide_eq_true, tree_find_is_Some. Qed.

Lemma tree_emplace_elem m v w :
  tree_sorted m -> w ∈ tree_emplace key v m <-> w ∈ m \/ (w = v /\ key v ∉ (key <$> m)).
Proof using KeyOrderLaws0.
  intros Hm. unfold tree_emplace. destruct (tree_count key (key v) m) eqn:Hc.
  - apply tree_count_true in Hc. tauto.
  - apply not_true_iff_false in Hc. rewrite tree_count_true in Hc. rewrite tree_assign_elem by done.
    split; [tauto|]. intros [Hw|[-> _]]; [|tauto]. right. split; [done|]. intros Heq. destruct Hc.
    rewrite <- Heq. by apply list_elem_of_fmap_2.
Qed.

Lemma tree_assign_keys m v k : tree_sorted m -> k ∈ (key <$> tree_assign key v m) <-> k = key v \/ k ∈ (key <$> m).
Proof using KeyOrderLaws0.
  intros Hm. rewrite !list_elem_of_fmap. setoid_rewrite tree_assign_elem; [|done]. split.
  - intros (w & -> & [->|[Hw _]]); eauto.
  - intros [->|(w & -> & Hw)]; [eauto|]. destruct (decide (key w = key v)); eauto.
Qed.

Lemma tree_emplace_keys m v k : tree_sorted m -> k ∈ (key <$> tree_emplace key v m) <-> k = key v \/ k ∈ (key <$> m).
Proof using KeyOrderLaws0.
  intros Hm. unfold tree_emplace. destruct (tree_count key (key v) m) eqn:Hc; [|by apply tree_assign_keys].
  apply tree_count_true in Hc. set_solver.
Qed.

Lemma tree_emplace_fresh m v : key v ∉ (key <$> m) -> tree_emplace key v m ≡ₚ v :: m.
Proof using KeyOrderLaws0.
  intros Hv. unfold tree_emplace. destruct (tree_count key (key v) m) eqn:Hc; [by apply tree_count_true in Hc|].
  clear Hc. induction m as [|w m IH]; cbn; [done|]. destruct (key_ltb (key v) (key w)); [done|].
  case_decide as Heq; [cbn in Hv; rewrite Heq in Hv; set_solver|]. rewrite IH by set_solver. constructor.
Qed.

(** Changes in place that keep the keys. *)
Lemma tree_find_fmap (f : V -> V) k m :
  (forall v, key (f v) = key v) -> tree_find key k (f <$> m) = f <$> tree_find key k m.
Proof using Type.
  intros Hf. induction m as [|v m IH]; [done|]. cbn. rewrite Hf. case_bool_decide; [done|]. exact IH.
Qed.
End TreeLemmas.

(** ** Lemmas on the reading of a collection *)

Section Fetch.
Context {S A : Type} `{boost : Boost}.
Implicit Types (s : S) (items : list A) (body : A -> attempt S ()).

Lemma returns_kj {B} (r : option B) s b s' : returns (kj r) s b s' <-> r = Some b /\ s' = s.
Proof using Type. unfold returns, kj, throw, mret, attempt_ret. destruct r; naive_solver. Qed.

Lemma returns_uuidGenerator text s u s' : returns (uuidGenerator text) s u s' <-> string_generator text = Some u /\ s' = s.
Proof using Type.
  unfold returns, uuidGenerator, throw, mret, attempt_ret. destruct (string_generator text); naive_solver.
Qed.

Lemma each_present body items s :
  each (fun item => capnpT ← kj item; body capnpT) (Some <$> items) s = each body items s.
Proof using Type.
  revert s. induction items as [|x items IH]; intros s; [done|]. cbn. unfold mbind, attempt_bind. cbn.
  destruct (body x s) as [[[]|e] s1]; [apply IH|done].
Qed.

Lemma each_all_present body (l : reader_list A) s s' :
  returns (each (fun item => capnpT ← kj item; body capnpT) l) s () s' ->
  exists items, l = Some <$> items /\ returns (each body items) s () s'.
Proof using Type.
  revert s. induction l as [|item l IH]; intros s H.
  - exists []. done.
  - cbn in H. apply returns_bind_inv in H as ([] & s1 & Hs1 & H).
    apply returns_bind_inv in Hs1 as (x & s2 & Hx & Hs1). apply returns_kj in Hx as [-> ->].
    destruct (IH _ H) as (items & -> & Hitems). exists (x :: items). split; [done|].
    exact (returns_bind _ _ _ _ _ _ _ Hs1 Hitems).
Qed.

Lemma try_catch_returns {B} (m : attempt S B) handler s b s' :
  returns m s b s' -> returns (try_catch m handler) s b s'.
Proof using Type. unfold returns, try_catch. by intros ->. Qed.

Lemma try_catch_inv {B} (m : attempt S B) handler s b s' :
  returns (try_catch m handler) s b s' ->
  returns m s b s' \/ exists e h s1, m s = (Throw e, s1) /\ handler e = Some h /\ returns h s1 b s'.
Proof using Type.
  unfold returns, try_catch. destruct (m s) as [[a|e] s1]; [tauto|]. destruct (handler e) as [h|] eqn:Hh; [|discriminate].
  intros H. right. eauto 6.
Qed.

(** A collection is read to its end if and only if the code is [0]. *)
Lemma fetch_collection_ok clear file body items s s' :
  file = Opened (Some (Some <$> items)) -> returns (each body items) (clear s) () s' ->
  returns (fetch_collection clear file body) s 0 s'.
Proof using Type.
  intros -> Hbody. unfold fetch_collection. eapply returns_bind; [apply modify_ok|].
  apply try_catch_returns. eapply returns_bind; [by apply returns_kj|].
  eapply returns_bind; [unfold returns; rewrite each_present; exact Hbody|apply returns_ret].
Qed.

Lemma fetch_collection_inv clear file body s s' :
  returns (fetch_collection clear file body) s 0 s' ->
  exists items, file = Opened (Some (Some <$> items)) /\ returns (each body items) (clear s) () s'.
Proof using Type.
  intros H. unfold fetch_collection in H. apply returns_bind_inv in H as ([] & s1 & Hs1 & H).
  apply returns_modify in Hs1 as ->. destruct file as [errno|root]; [discriminate|].
  apply try_catch_inv in H as [H|(e & h & s1 & _ & He & H)].
  - apply returns_bind_inv in H as (l & s1 & Hl & H). apply returns_kj in Hl as [-> ->].
    apply returns_bind_inv in H as ([] & s2 & Hs2 & H). injection H as ->.
    apply each_all_present in Hs2 as (items & -> & Hitems). eauto.
  - unfold catch_all_codes in He. destruct e; cbn in He; simplify_eq; discriminate.
Qed.

(** The code is negative otherwise. *)
Lemma fetch_collection_code clear file body s ret s' :
  returns (fetch_collection clear file body) s ret s' -> ret <= 0.
Proof using Type.
  intros H. unfold fetch_collection in H. apply returns_bind_inv in H as ([] & s1 & Hs1 & H).
  destruct file as [errno|root]; [injection H as <- _; lia|].
  apply try_catch_inv in H as [H|(e & h & s2 & _ & He & H)].
  - apply returns_bind_inv in H as (l & s2 & Hl & H). apply returns_bind_inv in H as ([] & s3 & Hs3 & H).
    injection H as <- _. lia.
  - unfold catch_all_codes, EBADMSG, EINVAL in He. destruct e; cbn in He; simplify_eq; injection H as <- _; lia.
Qed.
End Fetch.
