(* ===== verification/CacheCollections.v ===== *)
(** * The fetchers of the collections

    [modes_initialization.cpp], [agencies_cache_fetcher.cpp],
    [services_cache_fetcher.cpp], [lines_cache_fetcher.cpp], [paths_cache_fetcher.cpp],
    [scenarios_cache_fetcher.cpp] and [data_sources_cache_fetcher.cpp]: each reads one
    file into a container. *)

From Stdlib Require Import ZArith Lia.
From stdpp Require Import base list gmap strings.
From S2P Require Import Prelude.
From S2P Require Import Data.
From S2P Require Import Attempt.
From S2P Require Import Parameters.
From S2P Require Import CacheFiles.

Local Open Scope Z_scope.

(** [getModes]. *)
Definition getModes : list Mode :=
  let emplace m modes := tree_emplace mode_shortname m modes in
  let modes := [] in
  let modes := emplace (mkMode "bus" "Bus" 3 700) modes in
  let modes := emplace (mkMode "rail" "Rail" 2 100) modes in
  let modes := emplace (mkMode "highSpeedRail" "High speed rail" 2 101) modes in
  let modes := emplace (mkMode "metro" "Subway/Metro" 1 400) modes in
  let modes := emplace (mkMode "monorail" "Monorail" 1 405) modes in
  let modes := emplace (mkMode "tram" "Tram/LRT" 0 900) modes in
  let modes := emplace (mkMode "tramTrain" "Tram Train" 0 900) modes in
  let modes := emplace (mkMode "water" "Ferry/Boat" 4 1000) modes in
  let modes := emplace (mkMode "gondola" "Gondola/Aerial tram" 6 1300) modes in
  let modes := emplace (mkMode "funicular" "Funicular" 7 1400) modes in
  let modes := emplace (mkMode "taxi" "Taxi/Cab/Minivan" 3 1500) modes in
  let modes := emplace (mkMode "cableCar" "Cable car" 5 1701) modes in
  let modes := emplace (mkMode "horse" "Horse carriage" 3 1702) modes in
  let modes := emplace (mkMode "other" "Other" 3 1700) modes in
  emplace (mkMode TRANSFERABLE "Transferable" (-1) (-1)) modes.

Section Collections.
Context `{!CacheFiles, !Boost} (cacheDirectoryPath customPath : string).

(** [getFilePath(cacheFileName, customPath) + ".capnpbin"]. *)
Definition cache_file (cacheFileName : string) : string :=
  getFilePath cacheDirectoryPath customPath cacheFileName +:+ ".capnpbin".

Definition clear {A} (_ : list A) : list A := [].

(** [getAgencies]. *)
Definition getAgencies : attempt (list Agency) Z :=
  fetch_collection clear (agencies_file (cache_file "agencies")) (fun capnpT =>
    uuid ← uuidGenerator (cAgency_uuid capnpT);
    simulationUuid ← uuid_or_nil (cAgency_simulationUuid capnpT);
    modify (tree_assign agency_uuid
      (mkAgency uuid (cAgency_acronym capnpT) (cAgency_name capnpT) (cAgency_internalId capnpT) simulationUuid))).

(** [boost::gregorian::from_string(date)] throws. *)
Definition read_date {S} (text : string) : attempt S date :=
  match date_from_string text with Some d => mret (Some d) | None => throw StdException end.

(** [if (date.length() > 0)]: a default date is [not_a_date_time]. *)
Definition read_optional_date {S} (text : string) : attempt S date :=
  if (0 <? String.length text)%nat then read_date text else mret None.

Fixpoint read_dates {S} (texts : list string) : attempt S (list date) :=
  match texts with
  | [] => mret []
  | text :: texts' => d ← read_date text; ds ← read_dates texts'; mret (d :: ds)
  end.

(** [getServices]. *)
Definition getServices : attempt (list Service) Z :=
  fetch_collection clear (services_file (cache_file "services")) (fun capnpT =>
    uuid ← uuidGenerator (cService_uuid capnpT);
    simulationUuid ← uuid_or_nil (cService_simulationUuid capnpT);
    startDate ← read_optional_date (cService_startDate capnpT);
    endDate ← read_optional_date (cService_endDate capnpT);
    onlyDates ← read_dates (cService_onlyDates capnpT);
    exceptDates ← read_dates (cService_exceptDates capnpT);
    modify (tree_assign service_uuid
      (mkService uuid (cService_name capnpT) (cService_internalId capnpT) simulationUuid
         (cService_monday capnpT) (cService_tuesday capnpT) (cService_wednesday capnpT)
         (cService_thursday capnpT) (cService_friday capnpT) (cService_saturday capnpT)
         (cService_sunday capnpT) onlyDates exceptDates startDate endDate))).

(** [getLines]: a line is constructed, and counted, before it is known to be new. *)
Definition getLines (agencies : list Agency) (modes : list Mode) : attempt (list Line * uid) Z :=
  fetch_collection (fun st => ([], st.2)) (lines_file (cache_file "lines")) (fun capnpT =>
    uuid ← uuidGenerator (cLine_uuid capnpT);
    agencyUuid ← uuidGenerator (cLine_agencyUuid capnpT);
    agency ← lift (tree_at agency_uuid agencyUuid agencies);
    mode ← lift (tree_at mode_shortname (cLine_mode capnpT) modes);
    modify (fun '(ts, global_uid) =>
      (tree_emplace line_uuid
         (mkLine uuid agency mode (cLine_shortname capnpT) (cLine_longname capnpT)
            (cLine_internalId capnpT) (cLine_allowSameLineTransfers capnpT) (S global_uid)) ts,
       S global_uid))).

(** [nodesRef.push_back(nodes.at(uuidGenerator(text)))] for the texts of a list. *)
Fixpoint refs_at {S V} (key : V -> uuid) (m : list V) (texts : list string) : attempt S (list V) :=
  match texts with
  | [] => mret []
  | text :: texts' =>
      u ← uuidGenerator text;
      v ← lift (tree_at key u m);
      vs ← refs_at key m texts';
      mret (v :: vs)
  end.

(** [nlohmann::json::parse(text)], and an access to it, throw. *)
Definition json {S A} (r : option A) : attempt S A :=
  match r with Some a => mret a | None => throw StdException end.

(** The values of a member of the segments that have it. *)
Fixpoint read_segments {S} (segment : nat -> string -> option (option Z)) (key : string) (indices : list nat)
    : attempt S (list Z) :=
  match indices with
  | [] => mret []
  | i :: indices' =>
      v ← json (segment i key);
      vs ← read_segments segment key indices';
      mret (match v with Some z => z :: vs | None => vs end)
  end.

(** [getPaths]: the two members of a segment are read in turn, which only tells which
    of two exceptions of the same kind is thrown. *)
Definition getPaths (lines : list Line) (nodes : list Node) : attempt (list Path) Z :=
  fetch_collection clear (paths_file (cache_file "paths")) (fun capnpT =>
    pathUuid ← uuidGenerator (cPath_uuid capnpT);
    nodesRef ← refs_at node_uuid nodes (cPath_nodesUuids capnpT);
    jsonData ← json (json_parse (cPath_data capnpT));
    distancesMeters ← read_segments jsonData "distanceMeters" (seq 0 (length nodesRef));
    travelTimesSeconds ← read_segments jsonData "travelTimeSeconds" (seq 0 (length nodesRef));
    lineUuid ← uuidGenerator (cPath_lineUuid capnpT);
    line ← lift (tree_at line_uuid lineUuid lines);
    modify (tree_emplace path_uuid
      (mkPath pathUuid line (cPath_direction capnpT) (cPath_internalId capnpT) nodesRef
         travelTimesSeconds distancesMeters))).

(** One assignment [ts[scenarioUuid].field = value] for each field of a scenario. *)
Definition set_scenario (f : Scenario -> Scenario) (scenarioUuid : uuid) : attempt (list Scenario) () :=
  modify (tree_alter scenario_uuid scenarioUuid f).

(** The values of a map with the keys of a list that it has, and of a map by shortname. *)
Fixpoint known_refs {S V} (key : V -> uuid) (m : list V) (texts : list string) : attempt S (list V) :=
  match texts with
  | [] => mret []
  | text :: texts' =>
      u ← uuidGenerator text;
      vs ← known_refs key m texts';
      mret (match tree_find key u m with Some v => v :: vs | None => vs end)
  end.

Definition known_modes (modes : list Mode) (shortnames : list string) : list Mode :=
  omap (fun shortname => tree_find mode_shortname shortname modes) shortnames.

(** [ts[scenarioUuid]] for a key that is not there: a scenario of zeros. *)
Definition Scenario_default (scenarioUuid : uuid) : Scenario :=
  mkScenario scenarioUuid "" 0 [] [] [] [] [] [] [] [] [].

(** The assignments to its fields. *)
Definition set_name (x : string) (t : Scenario) : Scenario :=
  mkScenario (scenario_uuid t) x (scenario_simulationUuid t) (servicesList t)
    (scenario_onlyModes t) (scenario_onlyLines t) (scenario_onlyAgencies t) (scenario_onlyNodes t)
    (scenario_exceptModes t) (scenario_exceptLines t) (scenario_exceptAgencies t) (scenario_exceptNodes t).

Definition set_simulationUuid (x : uuid) (t : Scenario) : Scenario :=
  mkScenario (scenario_uuid t) (scenario_name t) x (servicesList t)
    (scenario_onlyModes t) (scenario_onlyLines t) (scenario_onlyAgencies t) (scenario_onlyNodes t)
    (scenario_exceptModes t) (scenario_exceptLines t) (scenario_exceptAgencies t) (scenario_exceptNodes t).

Definition set_servicesList (x : list Service) (t : Scenario) : Scenario :=
  mkScenario (scenario_uuid t) (scenario_name t) (scenario_simulationUuid t) x
    (scenario_onlyModes t) (scenario_onlyLines t) (scenario_onlyAgencies t) (scenario_onlyNodes t)
    (scenario_exceptModes t) (scenario_exceptLines t) (scenario_exceptAgencies t) (scenario_exceptNodes t).

Definition set_onlyModes (x : list Mode) (t : Scenario) : Scenario :=
  mkScenario (scenario_uuid t) (scenario_name t) (scenario_simulationUuid t) (servicesList t)
    x (scenario_onlyLines t) (scenario_onlyAgencies t) (scenario_onlyNodes t)
    (scenario_exceptModes t) (scenario_exceptLines t) (scenario_exceptAgencies t) (scenario_exceptNodes t).

Definition set_onlyLines (x : list Line) (t : Scenario) : Scenario :=
  mkScenario (scenario_uuid t) (scenario_name t) (scenario_simulationUuid t) (servicesList t)
    (scenario_onlyModes t) x (scenario_onlyAgencies t) (scenario_onlyNodes t)
    (scenario_exceptModes t) (scenario_exceptLines t) (scenario_exceptAgencies t) (scenario_exceptNodes t).

Definition set_onlyAgencies (x : list Agency) (t : Scenario) : Scenario :=
  mkScenario (scenario_uuid t) (scenario_name t) (scenario_simulationUuid t) (servicesList t)
    (scenario_onlyModes t) (scenario_onlyLines t) x (scenario_onlyNodes t)
    (scenario_exceptModes t) (scenario_exceptLines t) (scenario_exceptAgencies t) (scenario_exceptNodes t).

Definition set_onlyNodes (x : list Node) (t : Scenario) : Scenario :=
  mkScenario (scenario_uuid t) (scenario_name t) (scenario_simulationUuid t) (servicesList t)
    (scenario_onlyModes t) (scenario_onlyLines t) (scenario_onlyAgencies t) x
    (scenario_exceptModes t) (scenario_exceptLines t) (scenario_exceptAgencies t) (scenario_exceptNodes t).

Definition set_exceptModes (x : list Mode) (t : Scenario) : Scenario :=
  mkScenario (scenario_uuid t) (scenario_name t) (scenario_simulationUuid t) (servicesList t)
    (scenario_onlyModes t) (scenario_onlyLines t) (scenario_onlyAgencies t) (scenario_onlyNodes t)
    x (scenario_exceptLines t) (scenario_exceptAgencies t) (scenario_exceptNodes t).

Definition set_exceptLines (x : list Line) (t : Scenario) : Scenario :=
  mkScenario (scenario_uuid t) (scenario_name t) (scenario_simulationUuid t) (servicesList t)
    (scenario_onlyModes t) (scenario_onlyLines t) (scenario_onlyAgencies t) (scenario_onlyNodes t)
    (scenario_exceptModes t) x (scenario_exceptAgencies t) (scenario_exceptNodes t).

Definition set_exceptAgencies (x : list Agency) (t : Scenario) : Scenario :=
  mkScenario (scenario_uuid t) (scenario_name t) (scenario_simulationUuid t) (servicesList t)
    (scenario_onlyModes t) (scenario_onlyLines t) (scenario_onlyAgencies t) (scenario_onlyNodes t)
    (scenario_exceptModes t) (scenario_exceptLines t) x (scenario_exceptNodes t).

Definition set_exceptNodes (x : list Node) (t : Scenario) : Scenario :=
  mkScenario (scenario_uuid t) (scenario_name t) (scenario_simulationUuid t) (servicesList t)
    (scenario_onlyModes t) (scenario_onlyLines t) (scenario_onlyAgencies t) (scenario_onlyNodes t)
    (scenario_exceptModes t) (scenario_exceptLines t) (scenario_exceptAgencies t) x.

(** [getScenarios]: a text that is no uuid stops the reading with the scenario it is
    in half filled; references that are not known are left out. *)
Definition getScenarios (services : list Service) (lines : list Line) (agencies : list Agency)
    (nodes : list Node) (modes : list Mode) : attempt (list Scenario) Z :=
  fetch_collection clear (scenarios_file (cache_file "scenarios")) (fun capnpT =>
    scenarioUuid ← uuidGenerator (cScenario_uuid capnpT);
    let set f := set_scenario f scenarioUuid in
    _ ← modify (tree_emplace scenario_uuid (Scenario_default scenarioUuid));
    _ ← set (set_name (cScenario_name capnpT));
    simulationUuid ← uuid_or_nil (cScenario_simulationUuid capnpT);
    _ ← set (set_simulationUuid simulationUuid);
    servicesList ← known_refs service_uuid services (cScenario_servicesUuids capnpT);
    _ ← set (set_servicesList servicesList);
    onlyLines ← known_refs line_uuid lines (cScenario_onlyLinesUuids capnpT);
    _ ← set (set_onlyLines onlyLines);
    onlyAgencies ← known_refs agency_uuid agencies (cScenario_onlyAgenciesUuids capnpT);
    _ ← set (set_onlyAgencies onlyAgencies);
    onlyNodes ← known_refs node_uuid nodes (cScenario_onlyNodesUuids capnpT);
    _ ← set (set_onlyNodes onlyNodes);
    _ ← set (set_onlyModes (known_modes modes (cScenario_onlyModesShortnames capnpT)));
    exceptLines ← known_refs line_uuid lines (cScenario_exceptLinesUuids capnpT);
    _ ← set (set_exceptLines exceptLines);
    exceptAgencies ← known_refs agency_uuid agencies (cScenario_exceptAgenciesUuids capnpT);
    _ ← set (set_exceptAgencies exceptAgencies);
    exceptNodes ← known_refs node_uuid nodes (cScenario_exceptNodesUuids capnpT);
    _ ← set (set_exceptNodes exceptNodes);
    set (set_exceptModes (known_modes modes (cScenario_exceptModesShortnames capnpT)))).

(** [getDataSources]: [t.shortname] is left empty. *)
Definition dataSourceType (type : cDataSourceType) : string :=
  match type with
  | DataSource_NONE => "none"
  | DataSource_OTHER => "other"
  | DataSource_GTFS => "gtfs"
  | DataSource_OD_TRIPS => "odTrips"
  | DataSource_TRANSIT_SMART_CARD_DATA => "transitSmartCardData"
  | DataSource_TRANSIT_OPERATIONAL_DATA => "transitOperationalData"
  | DataSource_TAXI_TRANSACTIONS => "taxiTransactions"
  | DataSource_CAR_SHARING_TRANSACTIONS => "carSharingTransactions"
  | DataSource_BIKE_SHARING_TRANSACTIONS => "bikeSharingTransactions"
  | DataSource_GPS_TRACES => "gpsTraces"
  | DataSource_STREET_SEGMENT_SPEEDS => "streetSegmentSpeeds"
  | DataSource_ZONES => "zones"
  | DataSource_OSM_DATA => "osmData"
  | DataSource_PLACES => "places"
  | DataSource_UNKNOWN => "unknown"
  | DataSource_unlisted _ => "unknown"
  end.

Definition getDataSources : attempt (list DataSource) Z :=
  fetch_collection clear (dataSources_file (cache_file "dataSources")) (fun capnpT =>
    uuid ← uuidGenerator (cDataSource_uuid capnpT);
    modify (tree_assign ds_uuid
      (mkDataSource uuid "" (cDataSource_name capnpT) (dataSourceType (cDataSource_type capnpT))))).
End Collections.
