(* ===== verification/CachePersons.v ===== *)
(** * The fetchers of the survey: persons and their trips

    [persons_cache_fetcher.cpp] and [od_trips_cache_fetcher.cpp]. Each data source has
    a directory with one file, or as many as a file beside it says; a file that cannot
    be read is left out, and so is the rest of one that breaks off. *)

From Stdlib Require Import ZArith Lia.
From Corelib Require Import SpecFloat.
From stdpp Require Import base list gmap strings pretty.
From S2P Require Import Prelude.
From S2P Require Import Data.
From S2P Require Import Attempt.
From S2P Require Import Parameters.
From S2P Require Import CacheFiles.
From S2P Require Import CacheCollections.

Local Open Scope Z_scope.

(** ** The names of enumerants

    An enumerant that is not in the list throws a [std::range_error]. *)

Definition getPersonAgeGroupStr (group : cAgeGroup) : calc string :=
  match group with
  | AgeGroup_NONE => Ok "none"
  | AG0004 => Ok "ag0004"
  | AG0509 => Ok "ag0509"
  | AG1014 => Ok "ag1014"
  | AG1519 => Ok "ag1519"
  | AG2024 => Ok "ag2024"
  | AG2529 => Ok "ag2529"
  | AG3034 => Ok "ag3034"
  | AG3539 => Ok "ag3539"
  | AG4044 => Ok "ag4044"
  | AG4549 => Ok "ag4549"
  | AG5054 => Ok "ag5054"
  | AG5559 => Ok "ag5559"
  | AG6064 => Ok "ag6064"
  | AG6569 => Ok "ag6569"
  | AG7074 => Ok "ag7074"
  | AG7579 => Ok "ag7579"
  | AG8084 => Ok "ag8084"
  | AG8589 => Ok "ag8589"
  | AG9094 => Ok "ag9094"
  | AG95PLUS => Ok "ag95plus"
  | AgeGroup_UNKNOWN => Ok "unknown"
  | AgeGroup_unlisted _ => Throw StdException
  end.

Definition getPersonGenderStr (gender : cGender) : calc string :=
  match gender with
  | Gender_NONE => Ok "none"
  | Gender_FEMALE => Ok "female"
  | Gender_MALE => Ok "male"
  | Gender_CUSTOM => Ok "custom"
  | Gender_UNKNOWN => Ok "unknown"
  | Gender_unlisted _ => Throw StdException
  end.

Definition getPersonOccupationStr (occupation : cOccupation) : calc string :=
  match occupation with
  | Occupation_NONE => Ok "none"
  | FULL_TIME_WORKER => Ok "fullTimeWorker"
  | PART_TIME_WORKER => Ok "partTimeWorker"
  | FULL_TIME_STUDENT => Ok "fullTimeStudent"
  | PART_TIME_STUDENT => Ok "partTimeStudent"
  | WORKER_AND_STUDENT => Ok "workerAndStudent"
  | RETIRED => Ok "retired"
  | AT_HOME => Ok "atHome"
  | Occupation_OTHER => Ok "other"
  | NON_APPLICABLE => Ok "nonApplicable"
  | Occupation_UNKNOWN => Ok "unknown"
  | Occupation_unlisted _ => Throw StdException
  end.

Definition getOdTripModeStr (mode : cOdTripMode) : calc string :=
  match mode with
  | Mode_NONE => Ok "none"
  | WALKING => Ok "walking"
  | CYCLING => Ok "cycling"
  | CAR_DRIVER => Ok "carDriver"
  | CAR_PASSENGER => Ok "carPassenger"
  | MOTORCYCLE => Ok "motorcycle"
  | TRANSIT => Ok "transit"
  | PARATRANSIT => Ok "paratransit"
  | TAXI => Ok "taxi"
  | SCHOOL_BUS => Ok "schoolBus"
  | OTHER_BUS => Ok "otherBus"
  | INTERCITY_BUS => Ok "intercityBus"
  | INTERCITY_TRAIN => Ok "intercityTrain"
  | PLANE => Ok "plane"
  | FERRY => Ok "ferry"
  | PARK_AND_RIDE => Ok "parkAndRide"
  | KISS_AND_RIDE => Ok "kissAndRide"
  | BIKE_AND_RIDE => Ok "bikeAndRide"
  | MULTIMODAL_OTHER => Ok "multimodalOther"
  | Mode_OTHER => Ok "other"
  | Mode_UNKNOWN => Ok "unknown"
  | Mode_unlisted _ => Throw StdException
  end.

Definition getOdTripActivityStr (activity : cActivity) : calc string :=
  match activity with
  | Activity_NONE => Ok "none"
  | HOME => Ok "home"
  | WORK_USUAL => Ok "workUsual"
  | WORK_NON_USUAL => Ok "workNonUsual"
  | SCHOOL_USUAL => Ok "schoolUsual"
  | SCHOOL_NON_USUAL => Ok "schoolNonUsual"
  | SHOPPING => Ok "shopping"
  | LEISURE => Ok "leisure"
  | SERVICE => Ok "service"
  | SECONDARY_HOME => Ok "secondaryHome"
  | VISITING_FRIENDS => Ok "visitingFriends"
  | DROP_SOMEONE => Ok "dropSomeone"
  | FETCH_SOMEONE => Ok "fetchSomeone"
  | RESTAURANT => Ok "restaurant"
  | MEDICAL => Ok "medical"
  | WORSHIP => Ok "worship"
  | ON_THE_ROAD => Ok "onTheRoad"
  | Activity_OTHER => Ok "other"
  | Activity_UNKNOWN => Ok "unknown"
  | Activity_unlisted _ => Throw StdException
  end.

(** ** Floating point *)

(** [-1.0] and [1.0] as a [float]. *)
Definition minus_one : spec_float := binary_normalize 24 128 (-1) 0 false.
Definition one : spec_float := binary_normalize 24 128 1 0 false.

(** [expansionFactor == -1.0 ? 1.0 : expansionFactor]; the comparison of the [float]
    promoted to [double] is that of the numbers. *)
Definition odTripExpansionFactor (f : spec_float) : spec_float :=
  if SFeqb f minus_one then one else f.

(** ** The files *)

Section Survey.
Context `{!CacheFiles, !Boost} (cacheDirectoryPath customPath : string).

(** The files of a data source: [name.capnpbin], or [name.capnpbin.i] if there are several. *)
Definition survey_files (cacheFileName : string) (dataSource : DataSource) : list string :=
  let dataSourceCacheFilePath :=
    "dataSources/" +:+ uuid_to_string (ds_uuid dataSource) +:+ "/" +:+ cacheFileName in
  let filesCount :=
    getCacheFilesCount
      (text_file (getFilePath cacheDirectoryPath customPath (dataSourceCacheFilePath +:+ ".capnpbin.count"))) in
  (fun i =>
     getFilePath cacheDirectoryPath customPath
       (dataSourceCacheFilePath +:+ ".capnpbin" +:+
        (if 1 <? filesCount then "." +:+ pretty (Z.of_nat i) else ""))) <$> seq 0 (Z.to_nat filesCount).

(** One file: what cannot be opened is skipped, what throws stops the file. *)
Definition survey_file {S A} (file : opened (reader_list A)) (body : A -> attempt S ()) : attempt S () :=
  match file with
  | OpenFailed _ => mret ()
  | Opened root =>
      try_catch
        (capnpTCollection ← kj root;
         each (fun item => capnpT ← kj item; body capnpT) capnpTCollection)
        (fun e => if catchable e then Some (mret ()) else None)
  end.

(** [getPersons]. *)
Definition getPersons (dataSources : list DataSource) : attempt (list Person) Z :=
  _ ← modify clear;
  _ ← each (fun dataSource =>
        each (fun filePath =>
          survey_file (persons_file filePath) (fun capnpT =>
            uuid ← uuidGenerator (cPerson_uuid capnpT);
            dataSourceUuid ← uuidGenerator (cPerson_dataSourceUuid capnpT);
            ds ← lift (tree_at ds_uuid dataSourceUuid dataSources);
            ageGroup ← lift (getPersonAgeGroupStr (cPerson_ageGroup capnpT));
            gender ← lift (getPersonGenderStr (cPerson_gender capnpT));
            occupation ← lift (getPersonOccupationStr (cPerson_occupation capnpT));
            modify (tree_emplace person_uuid
              (mkPerson uuid (cPerson_id capnpT) ds (cPerson_expansionFactor capnpT) (cPerson_age capnpT)
                 (cPerson_drivingLicenseOwner capnpT) (cPerson_transitPassOwner capnpT) ageGroup gender
                 occupation (cPerson_internalId capnpT)))))
          (survey_files "persons" dataSource)) dataSources;
  mret 0.

(** The nodes near one end of a trip, with [uuids[j]], [times[j]] and [distances[j]]. *)
Fixpoint read_footpaths {S} (nodes : list Node) (uuids : list string) (times distances : list Z) (j : nat)
    : attempt S (list NodeTimeDistance) :=
  match uuids with
  | [] => mret []
  | nodeUuid :: uuids' =>
      u ← uuidGenerator nodeUuid;
      node ← lift (tree_at node_uuid u nodes);
      time ← reader_get times j;
      distance ← reader_get distances j;
      footpaths ← read_footpaths nodes uuids' times distances (1 + j);
      mret (mkNTD (node_uid node) time distance :: footpaths)
  end.

(** [getOdTrips]: the container is not cleared. *)
Definition getOdTrips (dataSources : list DataSource) (persons : list Person) (nodes : list Node)
    : attempt (list OdTrip) Z :=
  _ ← each (fun dataSource =>
        each (fun filePath =>
          survey_file (odTrips_file filePath) (fun capnpT =>
            originNodes ← read_footpaths nodes (originNodesUuids capnpT) (originNodesTravelTimes capnpT)
              (originNodesDistances capnpT) 0;
            destinationNodes ← read_footpaths nodes (destinationNodesUuids capnpT)
              (destinationNodesTravelTimes capnpT) (destinationNodesDistances capnpT) 0;
            person ← (if (0 <? String.length (cOdTrip_personUuid capnpT))%nat then
                        u ← uuidGenerator (cOdTrip_personUuid capnpT);
                        p ← lift (tree_at person_uuid u persons);
                        mret (Some p)
                      else mret None);
            uuid ← uuidGenerator (cOdTrip_uuid capnpT);
            dataSourceUuid ← uuidGenerator (cOdTrip_dataSourceUuid capnpT);
            ds ← lift (tree_at ds_uuid dataSourceUuid dataSources);
            mode ← lift (getOdTripModeStr (cOdTrip_mode capnpT));
            originActivity ← lift (getOdTripActivityStr (cOdTrip_originActivity capnpT));
            destinationActivity ← lift (getOdTripActivityStr (cOdTrip_destinationActivity capnpT));
            modify (tree_emplace od_uuid
              (mkOdTrip uuid (cOdTrip_id capnpT) (cOdTrip_internalId capnpT) ds person
                 (cOdTrip_departureTimeSeconds capnpT) (cOdTrip_arrivalTimeSeconds capnpT)
                 (cOdTrip_walkingTravelTimeSeconds capnpT) (cOdTrip_cyclingTravelTimeSeconds capnpT)
                 (cOdTrip_drivingTravelTimeSeconds capnpT)
                 (odTripExpansionFactor (cOdTrip_expansionFactor capnpT)) mode originActivity
                 destinationActivity originNodes destinationNodes
                 (mkPoint (degrees (cOdTrip_originLatitude capnpT)) (degrees (cOdTrip_originLongitude capnpT)))
                 (mkPoint (degrees (cOdTrip_destinationLatitude capnpT))
                    (degrees (cOdTrip_destinationLongitude capnpT)))))))
          (survey_files "odTrips" dataSource)) dataSources;
  mret 0.
End Survey.
