(* ===== verification/CollectionsCorrect.v ===== *)
(** * What the fetchers of the collections read

    The reference is [collection_outcome]: the code of the first thing that is wrong,
    and the container with the elements before it. Then what a file without mistakes
    is read as. *)

From Stdlib Require Import ZArith Lia Sorted.
From stdpp Require Import base list gmap strings.
From S2P Require Import Prelude.
From S2P Require Import Data.
From S2P Require Import Attempt.
From S2P Require Import Parameters.
From S2P Require Import CacheFiles.
From S2P Require Import CacheCollections.

Local Open Scope Z_scope.

(** ** The reference *)

Section Outcome.
Context {S A : Type} (parse : A -> option (S -> S)).

(** The elements up to the first that throws. *)
Fixpoint read_all (l : reader_list A) (s : S) : calc Z * S :=
  match l with
  | [] => (Ok 0, s)
  | None :: _ => (Ok (- EBADMSG), s)
  | Some x :: l' =>
      match parse x with
      | Some f => read_all l' (f s)
      | None => (Ok (- EINVAL), s)
      end
  end.

Definition collection_outcome (clear : S -> S) (file : opened (reader_list A)) : attempt S Z := fun s =>
  match file with
  | OpenFailed errno => (Ok (- Z.pos errno), clear s)
  | Opened None => (Ok (- EBADMSG), clear s)
  | Opened (Some l) => read_all l (clear s)
  end.

(** A body that changes the container as its parser says, or throws. *)
Definition parsed_as (res : calc () * S) (r : option (S -> S)) (s : S) : Prop :=
  match r with
  | Some f => res = (Ok (), f s)
  | None => exists e, res = (Throw e, s) /\ e <> KjException /\ catchable e = true
  end.

Definition body_parses (body : A -> attempt S ()) : Prop := forall x s, parsed_as (body x s) (parse x) s.

Lemma fetch_collection_outcome clear file body s :
  body_parses body -> fetch_collection clear file body s = collection_outcome clear file s.
Proof.
  intros Hbody. unfold fetch_collection, collection_outcome, mbind, attempt_bind. cbn [modify].
  unfold modify. destruct file as [errno|[l|]]; [reflexivity| |reflexivity].
  unfold try_catch. generalize (clear s). clear s. intros s. cbn [kj].
  change (mret l : attempt S _) with (fun s : S => (@Ok exn _ l, s)). cbv beta iota.
  induction l as [|[x|] l IH] in s |- *; [reflexivity| |reflexivity].
  cbn [each read_all]. unfold mbind, attempt_bind. cbn. specialize (Hbody x s).
  unfold parsed_as in Hbody. destruct (parse x) as [f|].
  - rewrite Hbody. apply IH.
  - destruct Hbody as (e & -> & Hkj & Hcatch). destruct e; try discriminate; done.
Qed.
End Outcome.

Lemma read_all_zero {S A} (parse : A -> option (S -> S)) l s s' :
  read_all parse l s = (Ok 0, s') -> exists items, l = Some <$> items /\ Forall (fun x => is_Some (parse x)) items.
Proof.
  revert s. induction l as [|[x|] l IH]; intros s; cbn; [by exists []| |discriminate].
  destruct (parse x) as [f|] eqn:Hx; [|discriminate]. intros H. destruct (IH _ H) as (items & -> & Hitems).
  exists (x :: items). split; [done|]. constructor; [by rewrite Hx|done].
Qed.

Lemma read_all_inv {S A} (parse : A -> option (S -> S)) (I : S -> Prop) l s ret s' :
  (forall x f s, parse x = Some f -> I s -> I (f s)) -> read_all parse l s = (ret, s') -> I s -> I s'.
Proof.
  intros Hstep. revert s. induction l as [|[x|] l IH]; intros s; cbn; [by intros [= _ <-]| |by intros [= _ <-]].
  destruct (parse x) as [f|] eqn:Hx; [|by intros [= _ <-]]. intros Hrun HI. eauto.
Qed.

Section Collections.
Context `{files : CacheFiles, boost : Boost} (cacheDirectoryPath customPath : string).

(** The elements as what they do to the container. *)
Definition read_uuid_or_nil (text : string) : option uuid :=
  if String.eqb text "" then Some uuidNilGenerator else string_generator text.

Definition read_full_date (text : string) : option date := Some <$> date_from_string text.

Definition read_text_date (text : string) : option date :=
  if (0 <? String.length text)%nat then read_full_date text else Some None.

Definition parse_agency (c : cAgency) : option (list Agency -> list Agency) :=
  u ← string_generator (cAgency_uuid c);
  simulationUuid ← read_uuid_or_nil (cAgency_simulationUuid c);
  Some (tree_assign agency_uuid
          (mkAgency u (cAgency_acronym c) (cAgency_name c) (cAgency_internalId c) simulationUuid)).

Definition parse_service (c : cService) : option (list Service -> list Service) :=
  u ← string_generator (cService_uuid c);
  simulationUuid ← read_uuid_or_nil (cService_simulationUuid c);
  startDate ← read_text_date (cService_startDate c);
  endDate ← read_text_date (cService_endDate c);
  onlyDates ← mapM read_full_date (cService_onlyDates c);
  exceptDates ← mapM read_full_date (cService_exceptDates c);
  Some (tree_assign service_uuid
          (mkService u (cService_name c) (cService_internalId c) simulationUuid (cService_monday c)
             (cService_tuesday c) (cService_wednesday c) (cService_thursday c) (cService_friday c)
             (cService_saturday c) (cService_sunday c) onlyDates exceptDates
             startDate endDate)).

Definition parse_line (agencies : list Agency) (modes : list Mode) (c : cLine)
    : option (list Line * uid -> list Line * uid) :=
  u ← string_generator (cLine_uuid c);
  agencyUuid ← string_generator (cLine_agencyUuid c);
  agency ← tree_find agency_uuid agencyUuid agencies;
  mode ← tree_find mode_shortname (cLine_mode c) modes;
  Some (fun '(ts, n) =>
    (tree_emplace line_uuid
       (mkLine u agency mode (cLine_shortname c) (cLine_longname c) (cLine_internalId c)
          (cLine_allowSameLineTransfers c) (S n)) ts, S n)).

(** The value of a key of a map, by its text. *)
Definition find_text {V} (key : V -> uuid) (m : list V) (text : string) : option V :=
  u ← string_generator text; tree_find key u m.

Definition parse_path (lines : list Line) (nodes : list Node) (c : cPath) : option (list Path -> list Path) :=
  u ← string_generator (cPath_uuid c);
  nodesRef ← mapM (find_text node_uuid nodes) (cPath_nodesUuids c);
  segment ← json_parse (cPath_data c);
  distances ← omap id <$> mapM (fun i => segment i "distanceMeters") (seq 0 (length nodesRef));
  times ← omap id <$> mapM (fun i => segment i "travelTimeSeconds") (seq 0 (length nodesRef));
  lineUuid ← string_generator (cPath_lineUuid c);
  line ← tree_find line_uuid lineUuid lines;
  Some (tree_emplace path_uuid
          (mkPath u line (cPath_direction c) (cPath_internalId c) nodesRef times distances)).

Definition parse_dataSource (c : cDataSource) : option (list DataSource -> list DataSource) :=
  u ← string_generator (cDataSource_uuid c);
  Some (tree_assign ds_uuid (mkDataSource u "" (cDataSource_name c) (dataSourceType (cDataSource_type c)))).
End Collections.

(** ** The bodies parse *)

(** A part of a body that reads, without a change of the container. *)
Definition read_as {S A} (res : calc A * S) (r : option A) (s : S) : Prop :=
  match r with
  | Some a => res = (Ok a, s)
  | None => exists e, res = (Throw e, s) /\ e <> KjException /\ catchable e = true
  end.

Definition reads {S A} (m : attempt S A) (r : option A) : Prop := forall s, read_as (m s) r s.

Section Reads.
Context {S : Type} `{files : CacheFiles, boost : Boost}.

Lemma reads_ret {A} (a : A) : reads (S := S) (mret a) (Some a).
Proof. done. Qed.

Lemma reads_bind {A B} (m : attempt S A) r (f : A -> attempt S B) (g : A -> option B) :
  reads m r -> (forall a, reads (f a) (g a)) -> reads (m ≫= f) (r ≫= g).
Proof.
  intros Hm Hf s. specialize (Hm s). rewrite attempt_bind_eval. destruct r as [a|]; cbn in *.
  - rewrite Hm. apply Hf.
  - destruct Hm as (e & -> & He). eauto.
Qed.

Lemma parses_bind {A} (m : attempt S A) r (f : A -> attempt S ()) (g : A -> option (S -> S)) s :
  reads m r -> (forall a, parsed_as (f a s) (g a) s) -> parsed_as ((m ≫= f) s) (r ≫= g) s.
Proof.
  intros Hm Hf. specialize (Hm s). rewrite attempt_bind_eval. destruct r as [a|]; cbn in *.
  - rewrite Hm. apply Hf.
  - destruct Hm as (e & -> & He). eauto.
Qed.

Lemma reads_uuidGenerator text : reads (S := S) (uuidGenerator text) (string_generator text).
Proof. intros s. unfold read_as, uuidGenerator. destruct (string_generator text); [done|]. eexists. by split_and!. Qed.

Lemma reads_uuid_or_nil text : reads (S := S) (uuid_or_nil text) (read_uuid_or_nil text).
Proof. unfold uuid_or_nil, read_uuid_or_nil. destruct (String.eqb text ""); [done|apply reads_uuidGenerator]. Qed.

Lemma reads_date text : reads (S := S) (read_date text) (read_full_date text).
Proof. intros s. unfold read_as, read_date, read_full_date. destruct (date_from_string text); [done|]. eexists. by split_and!. Qed.

Lemma reads_optional_date text : reads (S := S) (read_optional_date text) (read_text_date text).
Proof. unfold read_optional_date, read_text_date. destruct (0 <? _)%nat; [apply reads_date|done]. Qed.

Lemma reads_tree_at {K V} `{!EqDecision K} (key : V -> K) k m :
  reads (S := S) (lift (tree_at key k m)) (tree_find key k m).
Proof. intros s. unfold read_as, tree_at, lift. destruct (tree_find key k m); [done|]. eexists. by split_and!. Qed.

Lemma reads_json {A} (r : option A) : reads (S := S) (json r) r.
Proof. intros s. destruct r; [done|]. eexists. by split_and!. Qed.

Lemma reads_dates texts : reads (S := S) (read_dates texts) (mapM read_full_date texts).
Proof.
  induction texts as [|text texts IH]; [done|]. cbn [read_dates].
  change (mapM read_full_date (text :: texts)) with
    (d ← read_full_date text; ds ← mapM read_full_date texts; Some (d :: ds)).
  apply reads_bind; [apply reads_date|]. intros d. apply reads_bind; [exact IH|]. intros ds. apply reads_ret.
Qed.

Lemma reads_refs_at {V} (key : V -> uuid) m texts :
  reads (S := S) (refs_at key m texts) (mapM (find_text key m) texts).
Proof.
  induction texts as [|text texts IH]; [done|]. cbn [refs_at].
  replace (mapM (find_text key m) (text :: texts)) with
    (u ← string_generator text; v ← tree_find key u m; vs ← mapM (find_text key m) texts; Some (v :: vs))
    by (cbn; unfold find_text; by destruct (string_generator text)).
  apply reads_bind; [apply reads_uuidGenerator|]. intros u.
  apply reads_bind; [apply reads_tree_at|]. intros v. apply reads_bind; [exact IH|]. intros vs. apply reads_ret.
Qed.

Lemma reads_segments (segment : nat -> string -> option (option Z)) key l :
  reads (S := S) (read_segments segment key l) (omap id <$> mapM (fun i => segment i key) l).
Proof.
  induction l as [|i l IH]; [done|]. cbn [read_segments mapM].
  replace (omap id <$> _) with
    (v ← segment i key; vs ← omap id <$> mapM (fun i => segment i key) l;
     Some (match v with Some z => z :: vs | None => vs end)).
  - apply reads_bind; [apply reads_json|]. intros v. apply reads_bind; [exact IH|]. intros vs. apply reads_ret.
  - destruct (segment i key) as [v|]; [|done]. cbn. destruct (mapM _ l); [|done]. by destruct v.
Qed.
End Reads.

Ltac parse_step :=
  first [apply reads_uuidGenerator | apply reads_uuid_or_nil | apply reads_optional_date | apply reads_dates
        | apply reads_tree_at | apply reads_json | apply reads_refs_at | apply reads_segments].

(** A body that parses part by part. *)
Ltac parse_body := repeat (eapply parses_bind; [parse_step | intros ?]).

Section Bodies.
Context `{files : CacheFiles, boost : Boost} (cacheDirectoryPath customPath : string).
Notation file name := (cache_file cacheDirectoryPath customPath name).

Lemma getAgencies_outcome s :
  getAgencies cacheDirectoryPath customPath s =
  collection_outcome parse_agency clear (agencies_file (file "agencies")) s.
Proof. apply fetch_collection_outcome. intros c s'. unfold parse_agency. parse_body. done. Qed.

Lemma getServices_outcome s :
  getServices cacheDirectoryPath customPath s =
  collection_outcome parse_service clear (services_file (file "services")) s.
Proof. apply fetch_collection_outcome. intros c s'. unfold parse_service. parse_body. done. Qed.

Lemma getLines_outcome agencies modes s :
  getLines cacheDirectoryPath customPath agencies modes s =
  collection_outcome (parse_line agencies modes) (fun st => ([], st.2)) (lines_file (file "lines")) s.
Proof. apply fetch_collection_outcome. intros c [ts n]. unfold parse_line. parse_body. done. Qed.

Lemma getPaths_outcome lines nodes s :
  getPaths cacheDirectoryPath customPath lines nodes s =
  collection_outcome (parse_path lines nodes) clear (paths_file (file "paths")) s.
Proof. apply fetch_collection_outcome. intros c s'. unfold parse_path. parse_body. done. Qed.

Lemma getDataSources_outcome s :
  getDataSources cacheDirectoryPath customPath s =
  collection_outcome parse_dataSource clear (dataSources_file (file "dataSources")) s.
Proof. apply fetch_collection_outcome. intros c s'. unfold parse_dataSource. parse_body. done. Qed.

(** C34: The fetchers of agencies, services, lines, paths and data sources do what
    their parsers say: a file that does not open gives the negated [errno] and an empty
    container; the first element that the message cannot give stops with [-EBADMSG],
    the first whose text is no uuid, no date or no JSON, or names an object that is not
    loaded, with [-EINVAL]; the container keeps the elements before it, the last one of
    equal keys for agencies, services and data sources, the first one for lines and
    paths; [0] is returned when all are read. *)
Theorem collections_read agencies modes lines nodes :
  let dir := cacheDirectoryPath in let custom := customPath in
  (forall s, getAgencies dir custom s = collection_outcome parse_agency clear (agencies_file (file "agencies")) s) /\
  (forall s, getServices dir custom s = collection_outcome parse_service clear (services_file (file "services")) s) /\
  (forall s, getLines dir custom agencies modes s =
     collection_outcome (parse_line agencies modes) (fun st => ([], st.2)) (lines_file (file "lines")) s) /\
  (forall s, getPaths dir custom lines nodes s =
     collection_outcome (parse_path lines nodes) clear (paths_file (file "paths")) s) /\
  (forall s, getDataSources dir custom s =
     collection_outcome parse_dataSource clear (dataSources_file (file "dataSources")) s).
Proof.
  split_and!; intros s;
    [apply getAgencies_outcome|apply getServices_outcome|apply getLines_outcome|apply getPaths_outcome
    |apply getDataSources_outcome].
Qed.
End Bodies.

(** ** Files without mistakes *)

(** What a file that is read to its end leaves in a map: the keys are those of its
    elements, and each value comes from one of them. *)
Section Loaded.
Context `{boost : Boost} {S A V : Type} (parse : A -> option (S -> S)).
Context (content : S -> list V) (key : V -> uuid) (text : A -> string) (made_of : A -> V -> Prop).

(** Whether the parser puts a value of the element in the map, new or for an old one. *)
Definition parser_stores : Prop := forall x f, parse x = Some f -> forall s, exists v,
  (content (f s) = tree_assign key v (content s) \/ content (f s) = tree_emplace key v (content s)) /\
  string_generator (text x) = Some (key v) /\ made_of x v.

Definition loaded (items : list A) (m : list V) : Prop :=
  tree_sorted key m /\
  (forall u, u ∈ (key <$> m) <-> exists x, x ∈ items /\ string_generator (text x) = Some u) /\
  (forall v, v ∈ m -> exists x, x ∈ items /\ string_generator (text x) = Some (key v) /\ made_of x v).

Lemma read_all_loaded items : parser_stores ->
  Forall (fun x => is_Some (parse x)) items -> forall before s, loaded before (content s) ->
  exists s', read_all parse (Some <$> items) s = (Ok 0, s') /\ loaded (before ++ items) (content s').
Proof using Type.
  intros Hstores. induction 1 as [|x items [f Hf] Hitems IH]; intros before s Hs.
  - exists s. by rewrite app_nil_r.
  - cbn [fmap list_fmap read_all]. rewrite Hf. destruct (Hstores x f Hf s) as (v & Hput & Htext & Hmade).
    destruct (IH (before ++ [x]) (f s)) as (s' & Hrun & Hload); [|by rewrite <- app_assoc in Hload; eauto].
    destruct Hs as (Hsorted & Hkeys & Hvalues). split_and!.
    + destruct Hput as [->| ->]; [by apply tree_assign_sorted|by apply tree_emplace_sorted].
    + intros u. setoid_rewrite elem_of_app. setoid_rewrite list_elem_of_singleton.
      transitivity (u = key v \/ u ∈ (key <$> content s));
        [destruct Hput as [->| ->]; [by apply tree_assign_keys|by apply tree_emplace_keys]|].
      rewrite Hkeys. split.
      * intros [->|(y & Hy & Hu)]; eauto.
      * intros (y & [Hy| ->] & Hu); [eauto|]. left. congruence.
    + intros w Hw. assert (w = v \/ w ∈ content s) as [->|Hold].
      { destruct Hput as [Hp|Hp]; rewrite Hp in Hw;
          [apply tree_assign_elem in Hw|apply tree_emplace_elem in Hw]; tauto. }
      * exists x. split_and!; [set_solver|done|done].
      * destruct (Hvalues w Hold) as (y & Hy & Hrest). exists y. split; [set_solver|done].
Qed.
End Loaded.
