(* ===== verification/CacheNodes.v ===== *)
(** * The fetcher of the nodes and their footpaths

    [nodes_cache_fetcher.cpp]: the collection of the nodes, then one file for each node
    with the footpaths that leave it, from which the footpaths back are made, then a
    sort of both lists that comes to nothing. A node refers to another by its uid; the
    nodes are changed in place, each at its key. *)

From Stdlib Require Import ZArith Lia.
From stdpp Require Import base list gmap strings.
From S2P Require Import Prelude.
From S2P Require Import Data.
From S2P Require Import Attempt.
From S2P Require Import Parameters.
From S2P Require Import CacheFiles.
From S2P Require Import CacheCollections.

Local Open Scope Z_scope.

(** The constructor [Node(uuid, id, code, name, internalId, point)]. *)
Definition Node_new (uuid : uuid) (id : Z) (code name internalId : string) (uid : uid) (point : Point) : Node :=
  mkNode uuid id code name internalId uid point [] [].

(** Changes of the two vectors of a node. *)
Definition set_transferable (l : list NodeTimeDistance) (n : Node) : Node :=
  mkNode (node_uuid n) (node_id n) (node_code n) (node_name n) (node_internalId n) (node_uid n) (node_point n)
    l (reverseTransferableNodes n).

Definition set_reverse (l : list NodeTimeDistance) (n : Node) : Node :=
  mkNode (node_uuid n) (node_id n) (node_code n) (node_name n) (node_internalId n) (node_uid n) (node_point n)
    (transferableNodes n) l.

Definition push_reverse (f : NodeTimeDistance) (n : Node) : Node :=
  set_reverse (reverseTransferableNodes n ++ [f]) n.

(** A change of the node at a key, in the map of the nodes that the fetcher fills. *)
Definition alter_node (u : uuid) (f : Node -> Node) : attempt (list Node * uid) () :=
  modify (fun st => (tree_alter node_uuid u f st.1, st.2)).

Section Nodes.
Context `{!CacheFiles, !Boost} (cacheDirectoryPath customPath : string).

(** One element of the collection. *)
Definition read_node (capnpT : cNode) : attempt (list Node * uid) () :=
  uuid ← uuidGenerator (cNode_uuid capnpT);
  modify (fun '(ts, global_uid) =>
    (tree_emplace node_uuid
       (Node_new uuid (cNode_id capnpT) (cNode_code capnpT) (cNode_name capnpT) (cNode_internalId capnpT)
          (S global_uid) (mkPoint (degrees (cNode_latitude capnpT)) (degrees (cNode_longitude capnpT)))) ts,
     S global_uid)).

(** The file of a node. *)
Definition node_path (u : uuid) : string :=
  cache_file cacheDirectoryPath customPath ("nodes/node_" +:+ uuid_to_string u).

(** The loop over [transferableNodesUuids], at index [j], for the node of uid [t]: the
    footpaths from it; the footpaths back are pushed to the other nodes on the way. *)
Fixpoint read_transferable (t : uid) (capnpT : cNodeTransfers) (uuids : list string) (j : nat)
    : attempt (list Node * uid) (list NodeTimeDistance) :=
  match uuids with
  | [] => mret []
  | nodeUuidStr :: uuids' =>
      nodeUuid ← uuidGenerator nodeUuidStr;
      st ← get;
      match tree_find node_uuid nodeUuid st.1 with
      | None => read_transferable t capnpT uuids' (1 + j)
      | Some node =>
          travelTime ← reader_get (transferableNodesTravelTimes capnpT) j;
          distance ← reader_get (transferableNodesDistances capnpT) j;
          _ ← alter_node nodeUuid (push_reverse (mkNTD t travelTime distance));
          rest ← read_transferable t capnpT uuids' (1 + j);
          mret (mkNTD (node_uid node) travelTime distance :: rest)
      end
  end.

(** The body of the second loop. Only a [kj::Exception] is caught. *)
Definition read_transfers (t : uuid) : attempt (list Node * uid) (option Z) :=
  match node_file (node_path t) with
  | OpenFailed _ => mret None
  | Opened root =>
      try_catch
        (capnpT ← kj root;
         st ← get;
         node ← lift (tree_at node_uuid t st.1);
         transferableNodes ← read_transferable (node_uid node) capnpT (transferableNodesUuids capnpT) 0;
         _ ← alter_node t (set_transferable transferableNodes);
         _ ← alter_node t (push_reverse (mkNTD (node_uid node) 0 0));
         mret None)
        (fun e => match e with KjException => Some (mret (Some (- EBADMSG))) | _ => None end)
  end.

(** The sorted indices are computed, and the elements are copied by their position. *)
Definition time_at (l : list NodeTimeDistance) (i : nat) : Z := default 0 (ntd_time <$> l !! i).

Definition sort_by_time (l : list NodeTimeDistance) : calc (list NodeTimeDistance) :=
  let sortedIdx := stable_sort (fun i1 i2 => time_at l i1 <? time_at l i2) (seq 0 (length l)) in
  mapM (vec_at l) (seq 0 (length sortedIdx)).

Definition sort_transfers (t : uuid) : attempt (list Node * uid) () :=
  st ← get;
  node ← lift (tree_at node_uuid t st.1);
  transferableNodesSorted ← lift (sort_by_time (transferableNodes node));
  _ ← alter_node t (set_transferable transferableNodesSorted);
  reverseTransferableNodesSorted ← lift (sort_by_time (reverseTransferableNodes node));
  alter_node t (set_reverse reverseTransferableNodesSorted).

(** [getNodes]. *)
Definition getNodes : attempt (list Node * uid) Z :=
  ret ← fetch_collection (fun st => ([], st.2)) (nodes_file (cache_file cacheDirectoryPath customPath "nodes"))
          read_node;
  if ret <? 0 then mret ret
  else
    st ← get;
    r ← each_return read_transfers (node_uuid <$> st.1);
    match r with
    | Some code => mret code
    | None =>
        try_catch (_ ← each sort_transfers (node_uuid <$> st.1); mret 0)
          (fun e => if catchable e then Some (mret (- EINVAL)) else None)
    end.
End Nodes.
