(* ===== verification/ScenariosCorrect.v ===== *)
(** * What the fetcher of the scenarios reads

    A scenario is put in the map with its uuid alone, and its fields are assigned one
    after the other: for texts that are uuids the sum of the assignments is one scenario. *)

From Stdlib Require Import ZArith Lia Sorted.
From stdpp Require Import base list gmap strings.
From S2P Require Import Prelude.
From S2P Require Import Data.
From S2P Require Import Attempt.
From S2P Require Import Parameters.
From S2P Require Import CacheFiles.
From S2P Require Import CacheCollections.
From S2P Require Import CollectionsCorrect.

Local Open Scope Z_scope.

(** ** Assignments in place *)

Section Tree.
Context {K V : Type} `{!EqDecision K, !KeyOrder K, !KeyOrderLaws K} (key : V -> K).
Implicit Types m : list V.

Lemma tree_alter_compose k (f g : V -> V) m :
  (forall v, key (g v) = key v) -> tree_alter key k f (tree_alter key k g m) = tree_alter key k (fun v => f (g v)) m.
Proof.
  intros Hg. unfold tree_alter. rewrite <- list_fmap_compose. apply list_fmap_ext. intros i v _. cbn.
  destruct (decide (key v = k)) as [Hk|Hk]; [by rewrite decide_True by (by rewrite Hg)|by rewrite decide_False].
Qed.

Lemma tree_alter_absent k (f : V -> V) m : k ∉ (key <$> m) -> tree_alter key k f m = m.
Proof.
  intros Hk. unfold tree_alter. rewrite <- (list_fmap_id m) at 2. apply list_fmap_ext. intros i v Hv.
  rewrite decide_False; [done|]. intros <-. apply Hk. apply list_elem_of_fmap. exists v.
  split; [done|]. by eapply list_elem_of_lookup_2.
Qed.

(** A new value, then all its fields: the assignment of a value. *)
Lemma tree_emplace_alter v0 v m : key v0 = key v -> tree_sorted key m ->
  tree_alter key (key v) (fun _ => v) (tree_emplace key v0 m) = tree_assign key v m.
Proof.
  intros H0. unfold tree_emplace. rewrite H0. destruct (tree_count key (key v) m) eqn:Hcount; cycle 1.
  - assert (key v ∉ (key <$> m)) as Hnew by (intros Hin; apply (tree_count_true key) in Hin; congruence).
    clear Hcount. induction m as [|w m IH]; intros Hm; cbn [tree_assign].
    { cbn. by rewrite decide_True. }
    rewrite H0. rewrite fmap_cons, not_elem_of_cons in Hnew. destruct Hnew as [Hne Hnew].
    destruct (key_ltb (key v) (key w)).
    + cbn. rewrite decide_True by done. f_equal. rewrite decide_False by done. f_equal. by apply tree_alter_absent.
    + rewrite !(decide_False (P := key v = key w)) by done. cbn. rewrite decide_False by done. f_equal.
      apply IH; [done|]. by inversion Hm.
  - apply (tree_count_true key) in Hcount. induction m as [|w m IH]; intros Hm; [by apply elem_of_nil in Hcount|].
    cbn [tree_assign]. inversion_clear Hm as [|? ? Hsorted Hw]. rewrite fmap_cons, elem_of_cons in Hcount.
    rewrite Forall_forall in Hw. destruct (key_ltb (key v) (key w)) eqn:Hlt.
    + destruct Hcount as [Heq|Hin]; [rewrite Heq, key_irrefl in Hlt; discriminate|].
      apply list_elem_of_fmap in Hin as (x & Hx & Hin). specialize (Hw x Hin). rewrite <- Hx in Hw.
      pose proof (key_trans _ _ _ Hlt Hw) as Hvv. rewrite key_irrefl in Hvv. discriminate.
    + cbn. destruct (decide (key v = key w)) as [Heq|Hne].
      * rewrite decide_True by done. f_equal. apply tree_alter_absent. intros Hin.
        apply list_elem_of_fmap in Hin as (x & Hx & Hin). specialize (Hw x Hin). rewrite <- Hx, Heq, key_irrefl in Hw.
        discriminate.
      * rewrite decide_False by done. f_equal. apply IH; [|done]. by destruct Hcount.
Qed.
End Tree.

(** ** Scenarios *)

Section Scenarios.
Context `{files : CacheFiles, boost : Boost} (cacheDirectoryPath customPath : string).
Context (services : list Service) (lines : list Line) (agencies : list Agency) (nodes : list Node) (modes : list Mode).

Notation is_uuid := (fun text => is_Some (string_generator text)).

(** Every text that is to be a uuid is one; the simulation may be left out. *)
Record scenario_texts_ok (c : cScenario) : Prop := {
  st_uuid : is_uuid (cScenario_uuid c);
  st_simulation : is_Some (read_uuid_or_nil (cScenario_simulationUuid c));
  st_services : Forall is_uuid (cScenario_servicesUuids c);
  st_onlyLines : Forall is_uuid (cScenario_onlyLinesUuids c);
  st_onlyAgencies : Forall is_uuid (cScenario_onlyAgenciesUuids c);
  st_onlyNodes : Forall is_uuid (cScenario_onlyNodesUuids c);
  st_exceptLines : Forall is_uuid (cScenario_exceptLinesUuids c);
  st_exceptAgencies : Forall is_uuid (cScenario_exceptAgenciesUuids c);
  st_exceptNodes : Forall is_uuid (cScenario_exceptNodesUuids c)
}.

Definition text_uuid (text : string) : uuid := default uuidNilGenerator (string_generator text).

(** The objects that are loaded among those a list names. *)
Definition found {V} (key : V -> uuid) (m : list V) (texts : list string) : list V := omap (find_text key m) texts.

Definition scenario_of (c : cScenario) : Scenario :=
  mkScenario (text_uuid (cScenario_uuid c)) (cScenario_name c)
    (default uuidNilGenerator (read_uuid_or_nil (cScenario_simulationUuid c)))
    (found service_uuid services (cScenario_servicesUuids c))
    (known_modes modes (cScenario_onlyModesShortnames c))
    (found line_uuid lines (cScenario_onlyLinesUuids c))
    (found agency_uuid agencies (cScenario_onlyAgenciesUuids c))
    (found node_uuid nodes (cScenario_onlyNodesUuids c))
    (known_modes modes (cScenario_exceptModesShortnames c))
    (found line_uuid lines (cScenario_exceptLinesUuids c))
    (found agency_uuid agencies (cScenario_exceptAgenciesUuids c))
    (found node_uuid nodes (cScenario_exceptNodesUuids c)).

Lemma known_refs_found {S V} (key : V -> uuid) m texts : Forall is_uuid texts ->
  forall s : S, returns (known_refs key m texts) s (found key m texts) s.
Proof.
  induction 1 as [|text texts [u Hu] _ IH]; intros s; [done|]. cbn [known_refs].
  eapply returns_bind; [apply returns_uuidGenerator; by split|]. eapply returns_bind; [apply IH|].
  unfold found. cbn. unfold find_text. rewrite Hu. cbn. by destruct (tree_find key u m).
Qed.

Lemma simulation_found {S} text : is_Some (read_uuid_or_nil text) ->
  forall s : S, returns (uuid_or_nil text) s (default uuidNilGenerator (read_uuid_or_nil text)) s.
Proof. intros [u Hu] s. pose proof (reads_uuid_or_nil text s) as H. by rewrite Hu in *. Qed.

Lemma getScenarios_run items s :
  scenarios_file (cache_file cacheDirectoryPath customPath "scenarios") = Opened (Some (Some <$> items)) ->
  Forall scenario_texts_ok items ->
  returns (getScenarios cacheDirectoryPath customPath services lines agencies nodes modes) s 0
    (foldl (fun m c => tree_assign scenario_uuid (scenario_of c) m) [] items).
Proof.
  intros Hfile Hok. rewrite Forall_forall in Hok. unfold getScenarios. eapply fetch_collection_ok; [exact Hfile|].
  match goal with |- returns (each ?body _) _ _ _ =>
    destruct (each_returns body (fun done m => tree_sorted scenario_uuid m /\
      m = foldl (fun m c => tree_assign scenario_uuid (scenario_of c) m) [] done) items) with (s := @nil Scenario)
      as (s' & Hrun & _ & Hs') end; [|split; [constructor|done]|].
  - intros pre c post m Hitems [Hm Hfold].  exists (tree_assign scenario_uuid (scenario_of c) m).
    split; cycle 1.
    { split; [by apply tree_assign_sorted|]. by rewrite foldl_app, Hfold. }
    destruct (Hok c) as [[u Hu] Hsim Hse Hol Hoa Hon Hel Hea Hen]; [rewrite Hitems; set_solver|].
    eapply returns_bind; [apply returns_uuidGenerator; by split|]. cbv zeta.
    eapply returns_bind; [apply modify_ok|].
    eapply returns_bind; [apply modify_ok|]. eapply returns_bind; [by apply simulation_found|].
    eapply returns_bind; [apply modify_ok|]. eapply returns_bind; [by apply known_refs_found|].
    eapply returns_bind; [apply modify_ok|]. eapply returns_bind; [by apply known_refs_found|].
    eapply returns_bind; [apply modify_ok|]. eapply returns_bind; [by apply known_refs_found|].
    eapply returns_bind; [apply modify_ok|]. eapply returns_bind; [by apply known_refs_found|].
    eapply returns_bind; [apply modify_ok|]. eapply returns_bind; [apply modify_ok|].
    eapply returns_bind; [by apply known_refs_found|].
    eapply returns_bind; [apply modify_ok|]. eapply returns_bind; [by apply known_refs_found|].
    eapply returns_bind; [apply modify_ok|]. eapply returns_bind; [by apply known_refs_found|].
    eapply returns_bind; [apply modify_ok|]. apply returns_modify.
    rewrite !tree_alter_compose by done. symmetry.
    assert (scenario_uuid (scenario_of c) = u) as Hkey by (cbn; unfold text_uuid; by rewrite Hu).
    rewrite <- ?Hfold, <- (tree_emplace_alter scenario_uuid (Scenario_default u) (scenario_of c) m) by (by rewrite ?Hkey).
    rewrite Hkey. unfold tree_alter. apply list_fmap_ext. intros i v _.
    destruct (decide (scenario_uuid v = u)) as [Hv|]; [|done]. destruct v. cbn in Hv |- *. subst. unfold scenario_of.
    unfold text_uuid at 1. by rewrite Hu.
  - by rewrite <- Hs'.
Qed.
End Scenarios.
