(* ===== verification/SurveyCorrect.v ===== *)
(** * What the fetchers of the survey read

    The reference of a file is [survey_outcome]: the elements up to the first mistake,
    and nothing of a file that does not open. The code is [0] whatever the files are
    ([survey_codes_ignore_mistakes]). *)

From Stdlib Require Import ZArith Lia.
From stdpp Require Import base list gmap strings.
From S2P Require Import Prelude.
From S2P Require Import Data.
From S2P Require Import Attempt.
From S2P Require Import Parameters.
From S2P Require Import CacheFiles.
From S2P Require Import CacheCollections.
From S2P Require Import CachePersons.
From S2P Require Import CollectionsCorrect.

Local Open Scope Z_scope.

(** ** The reference *)

Definition survey_outcome {S A} (parse : A -> option (S -> S)) (file : opened (reader_list A)) (s : S) : S :=
  match file with Opened (Some l) => (read_all parse l s).2 | _ => s end.

Section Reference.
Context `{files : CacheFiles, boost : Boost}.

Definition exn_free {A} (r : calc A) : option A := match r with Ok a => Some a | Throw _ => None end.

Definition parse_person (dataSources : list DataSource) (c : cPerson) : option (list Person -> list Person) :=
  u ← string_generator (cPerson_uuid c);
  ds ← find_text ds_uuid dataSources (cPerson_dataSourceUuid c);
  ageGroup ← exn_free (getPersonAgeGroupStr (cPerson_ageGroup c));
  gender ← exn_free (getPersonGenderStr (cPerson_gender c));
  occupation ← exn_free (getPersonOccupationStr (cPerson_occupation c));
  Some (tree_emplace person_uuid
          (mkPerson u (cPerson_id c) ds (cPerson_expansionFactor c) (cPerson_age c)
             (cPerson_drivingLicenseOwner c) (cPerson_transitPassOwner c) ageGroup gender
             occupation (cPerson_internalId c))).

(** The entry [k] of the lists of nodes near an end of a trip. *)
Definition survey_footpath (nodes : list Node) (times distances : list Z) (k : nat) (text : string)
    : option NodeTimeDistance :=
  node ← find_text node_uuid nodes text;
  time ← times !! k;
  distance ← distances !! k;
  Some (mkNTD (node_uid node) time distance).

Definition survey_footpaths (nodes : list Node) (uuids : list string) (times distances : list Z)
    : option (list NodeTimeDistance) :=
  mapM id (imap (survey_footpath nodes times distances) uuids).

Definition survey_person (persons : list Person) (text : string) : option (option Person) :=
  if (0 <? String.length text)%nat then Some <$> find_text person_uuid persons text else Some None.

Definition parse_odTrip (dataSources : list DataSource) (persons : list Person) (nodes : list Node) (c : cOdTrip)
    : option (list OdTrip -> list OdTrip) :=
  originNodes ← survey_footpaths nodes (originNodesUuids c) (originNodesTravelTimes c) (originNodesDistances c);
  destinationNodes ← survey_footpaths nodes (destinationNodesUuids c) (destinationNodesTravelTimes c)
    (destinationNodesDistances c);
  person ← survey_person persons (cOdTrip_personUuid c);
  u ← string_generator (cOdTrip_uuid c);
  ds ← find_text ds_uuid dataSources (cOdTrip_dataSourceUuid c);
  mode ← exn_free (getOdTripModeStr (cOdTrip_mode c));
  originActivity ← exn_free (getOdTripActivityStr (cOdTrip_originActivity c));
  destinationActivity ← exn_free (getOdTripActivityStr (cOdTrip_destinationActivity c));
  Some (tree_emplace od_uuid
          (mkOdTrip u (cOdTrip_id c) (cOdTrip_internalId c) ds person (cOdTrip_departureTimeSeconds c)
             (cOdTrip_arrivalTimeSeconds c) (cOdTrip_walkingTravelTimeSeconds c)
             (cOdTrip_cyclingTravelTimeSeconds c) (cOdTrip_drivingTravelTimeSeconds c)
             (odTripExpansionFactor (cOdTrip_expansionFactor c)) mode originActivity destinationActivity
             originNodes destinationNodes
             (mkPoint (degrees (cOdTrip_originLatitude c)) (degrees (cOdTrip_originLongitude c)))
             (mkPoint (degrees (cOdTrip_destinationLatitude c)) (degrees (cOdTrip_destinationLongitude c))))).
End Reference.

(** As many times and distances as nodes. *)
Record odTrip_lists_ok (c : cOdTrip) : Prop := {
  ol_origin_times : (length (originNodesUuids c) <= length (originNodesTravelTimes c))%nat;
  ol_origin_distances : (length (originNodesUuids c) <= length (originNodesDistances c))%nat;
  ol_destination_times : (length (destinationNodesUuids c) <= length (destinationNodesTravelTimes c))%nat;
  ol_destination_distances : (length (destinationNodesUuids c) <= length (destinationNodesDistances c))%nat
}.

(** [file] has the element [x]. *)
Definition in_file {A} (x : A) (file : opened (reader_list A)) : Prop :=
  match file with Opened (Some l) => Some x ∈ l | _ => False end.

(** ** The bodies parse *)

Section Survey.
Context `{files : CacheFiles, boost : Boost} (cacheDirectoryPath customPath : string).

Lemma reads_find_text {S V B} (key : V -> uuid) m text (f : V -> attempt S B) g :
  (forall v, reads (f v) (g v)) ->
  reads (u ← uuidGenerator text; v ← lift (tree_at key u m); f v) (v ← find_text key m text; g v).
Proof.
  intros Hf. unfold find_text. destruct (string_generator text) as [u|] eqn:Hu; cbn.
  - intros s. unfold uuidGenerator. rewrite Hu. rewrite attempt_bind_eval. cbn.
    apply (reads_bind _ _ _ _ (reads_tree_at key u m) Hf s).
  - intros s. unfold uuidGenerator. rewrite Hu. eexists. by split_and!.
Qed.

Lemma parses_find_text {S V} (key : V -> uuid) m text (f : V -> attempt S ()) g s :
  (forall v, parsed_as (f v s) (g v) s) ->
  parsed_as ((u ← uuidGenerator text; v ← lift (tree_at key u m); f v) s) (v ← find_text key m text; g v) s.
Proof.
  intros Hf. unfold find_text. destruct (string_generator text) as [u|] eqn:Hu; cbn.
  - unfold uuidGenerator. rewrite Hu. rewrite attempt_bind_eval. cbn.
    apply (parses_bind _ _ _ _ s (reads_tree_at key u m) Hf).
  - unfold uuidGenerator. rewrite Hu. eexists. by split_and!.
Qed.

Lemma reads_enum {S E} (name : E -> calc string) e :
  (exists text, name e = Ok text) \/ name e = Throw StdException ->
  reads (S := S) (lift (name e)) (exn_free (name e)).
Proof. intros [[text ->]| ->] s; [done|]. eexists. by split_and!. Qed.

Lemma reads_get {S} (l : list Z) k : (k < length l)%nat -> reads (S := S) (reader_get l k) (l !! k).
Proof. intros [x Hx]%lookup_lt_is_Some_2 s. unfold reader_get, vec_get, lift. by rewrite Hx. Qed.

Lemma reads_footpaths {S} nodes uuids times distances : forall j,
  (j + length uuids <= length times)%nat -> (j + length uuids <= length distances)%nat ->
  reads (S := S) (read_footpaths nodes uuids times distances j)
    (mapM id (imap (fun k => survey_footpath nodes times distances (j + k)) uuids)).
Proof.
  induction uuids as [|text uuids IH]; intros j Ht Hd; [apply reads_ret|]. cbn [read_footpaths length] in *.
  replace (mapM id (imap _ (text :: uuids))) with
    (node ← find_text node_uuid nodes text; time ← times !! j; distance ← distances !! j;
     footpaths ← mapM id (imap (fun k => survey_footpath nodes times distances (1 + j + k)) uuids);
     Some (mkNTD (node_uid node) time distance :: footpaths)).
  - apply reads_find_text. intros node. apply reads_bind; [apply reads_get; lia|]. intros time.
    apply reads_bind; [apply reads_get; lia|]. intros distance. apply reads_bind; [apply IH; lia|].
    intros footpaths. apply reads_ret.
  - rewrite imap_cons, Nat.add_0_r.
    rewrite (imap_ext ((fun k => survey_footpath nodes times distances (j + k)) ∘ Datatypes.S)
               (fun k => survey_footpath nodes times distances (1 + j + k)) uuids)
      by (intros k x _; cbn; by rewrite Nat.add_succ_r).
    match goal with |- _ = mapM id (?o :: ?l) => change (mapM id (o :: l)) with (x ← o; xs ← mapM id l; Some (x :: xs)) end.
    generalize (mapM id (imap (fun k => survey_footpath nodes times distances (1 + j + k)) uuids)). intros r.
    unfold survey_footpath. destruct (find_text node_uuid nodes text); [|done]. cbn.
    destruct (times !! j); [|done]. cbn. by destruct (distances !! j).
Qed.

Lemma reads_person {S} persons text :
  reads (S := S)
    (if (0 <? String.length text)%nat then
       u ← uuidGenerator text; p ← lift (tree_at person_uuid u persons); mret (Some p)
     else mret None) (survey_person persons text).
Proof.
  unfold survey_person. destruct (0 <? _)%nat; [|apply reads_ret].
  replace (Some <$> find_text person_uuid persons text) with
    (p ← find_text person_uuid persons text; Some (Some p)) by by destruct (find_text _ _ _).
  apply reads_find_text. intros p. apply reads_ret.
Qed.

(** ** The files *)

Lemma survey_file_outcome {S A} parse (file : opened (reader_list A)) (body : A -> attempt S ()) s :
  (forall x s, in_file x file -> parsed_as (body x s) (parse x) s) ->
  survey_file file body s = (Ok (), survey_outcome parse file s).
Proof.
  intros Hbody. destruct file as [errno|[l|]]; [done| |done]. cbn in Hbody. unfold survey_file, survey_outcome, try_catch.
  change ((capnpTCollection ← kj (Some l); each (fun item => capnpT ← kj item; body capnpT) capnpTCollection) s)
    with (each (fun item => capnpT ← kj item; body capnpT) l s).
  induction l as [|[x|] l IH] in s, Hbody |- *; [done| |done].
  cbn [each read_all]. rewrite attempt_bind_eval.
  change ((capnpT ← kj (Some x); body capnpT) s) with (body x s).
  pose proof (Hbody x s (list_elem_of_here _ _)) as Hx. unfold parsed_as in Hx. destruct (parse x) as [f|].
  - rewrite Hx. apply IH. intros y s' Hy. apply Hbody. by constructor.
  - destruct Hx as (e & -> & _ & Hcatch). by rewrite Hcatch.
Qed.

Lemma survey_run {S A} parse (open : string -> opened (reader_list A)) (body : A -> attempt S ())
    (names : DataSource -> list string) dataSources s :
  (forall x path s, in_file x (open path) -> parsed_as (body x s) (parse x) s) ->
  each (fun dataSource => each (fun filePath => survey_file (open filePath) body) (names dataSource)) dataSources s =
  (Ok (), foldl (fun s path => survey_outcome parse (open path) s) s (flat_map names dataSources)).
Proof.
  intros Hbody.
  rewrite <- (each_flat_map (S := S) (fun filePath => survey_file (open filePath) body) names dataSources s).
  apply each_fold. intros path s' _. apply survey_file_outcome. eauto.
Qed.

Lemma person_parsed dataSources c s :
  parsed_as
    ((uuid ← uuidGenerator (cPerson_uuid c);
      dataSourceUuid ← uuidGenerator (cPerson_dataSourceUuid c);
      ds ← lift (tree_at ds_uuid dataSourceUuid dataSources);
      ageGroup ← lift (getPersonAgeGroupStr (cPerson_ageGroup c));
      gender ← lift (getPersonGenderStr (cPerson_gender c));
      occupation ← lift (getPersonOccupationStr (cPerson_occupation c));
      modify (tree_emplace person_uuid
        (mkPerson uuid (cPerson_id c) ds (cPerson_expansionFactor c) (cPerson_age c)
           (cPerson_drivingLicenseOwner c) (cPerson_transitPassOwner c) ageGroup gender
           occupation (cPerson_internalId c)))) s) (parse_person dataSources c) s.
Proof.
  unfold parse_person. eapply parses_bind; [apply reads_uuidGenerator|]. intros u.
  apply parses_find_text. intros ds. repeat (eapply parses_bind; [apply reads_enum|intros ?]); [..|done].
  - destruct (cPerson_ageGroup c); cbn; eauto.
  - destruct (cPerson_gender c); cbn; eauto.
  - destruct (cPerson_occupation c); cbn; eauto.
Qed.

Lemma getPersons_outcome dataSources s :
  getPersons cacheDirectoryPath customPath dataSources s =
  (Ok 0, foldl (fun s path => survey_outcome (parse_person dataSources) (persons_file path) s) []
           (flat_map (survey_files cacheDirectoryPath customPath "persons") dataSources)).
Proof.
  unfold getPersons. rewrite attempt_bind_eval. cbn [modify]. unfold modify. rewrite attempt_bind_eval.
  erewrite survey_run; [reflexivity|]. intros x path s' _. apply person_parsed.
Qed.

Lemma getOdTrips_outcome dataSources persons nodes s :
  (forall c path, in_file c (odTrips_file path) -> odTrip_lists_ok c) ->
  getOdTrips cacheDirectoryPath customPath dataSources persons nodes s =
  (Ok 0, foldl (fun s path => survey_outcome (parse_odTrip dataSources persons nodes) (odTrips_file path) s) s
           (flat_map (survey_files cacheDirectoryPath customPath "odTrips") dataSources)).
Proof.
  intros Hlists. unfold getOdTrips. rewrite attempt_bind_eval.
  erewrite survey_run; [reflexivity|]. intros c path s' Hc. destruct (Hlists c path Hc). unfold parse_odTrip.
  eapply parses_bind; [by apply (reads_footpaths _ _ _ _ 0)|]. intros originNodes.
  eapply parses_bind; [by apply (reads_footpaths _ _ _ _ 0)|]. intros destinationNodes.
  eapply parses_bind; [apply reads_person|]. intros person.
  eapply parses_bind; [apply reads_uuidGenerator|]. intros u. apply parses_find_text. intros ds.
  repeat (eapply parses_bind; [apply reads_enum|intros ?]); [..|done].
  - destruct (cOdTrip_mode c); cbn; eauto.
  - destruct (cOdTrip_originActivity c); cbn; eauto.
  - destruct (cOdTrip_destinationActivity c); cbn; eauto.
Qed.

(** A file without mistakes: it opens, its elements are there, and each of them parses. *)
Definition file_sound {S A} (parse : A -> option (S -> S)) (file : opened (reader_list A)) : Prop :=
  match file with
  | Opened (Some l) => Forall (fun x => exists c, x = Some c /\ is_Some (parse c)) l
  | _ => False
  end.

(** Of a file without mistakes every element is read. *)
Lemma survey_outcome_sound {S A} (parse : A -> option (S -> S)) l s :
  file_sound parse (Opened (Some l)) ->
  survey_outcome parse (Opened (Some l)) s =
    foldl (fun s x => from_option (fun f => f s) s (x ≫= parse)) s l.
Proof.
  intros Hall. cbn in *. induction Hall as [|x l (c & -> & [f Hf]) _ IH] in s |- *; [done|].
  cbn. rewrite Hf. apply IH.
Qed.

(** Whatever the mistakes, the code is [0], although [data_fetcher.hpp] announces
    negative codes for them. *)
Lemma survey_codes_ignore_mistakes dataSources persons nodes s s' :
  (getPersons cacheDirectoryPath customPath dataSources s).1 = Ok 0 /\
  ((forall c path, in_file c (odTrips_file path) -> odTrip_lists_ok c) ->
   (getOdTrips cacheDirectoryPath customPath dataSources persons nodes s').1 = Ok 0).
Proof.
  split; [by rewrite getPersons_outcome|]. intros Hlists. by rewrite getOdTrips_outcome.
Qed.

(** C35: The contents that the fetchers of the survey read. From every cache [getPersons]
    returns, and leaves the persons of its files in place of the old ones; [getOdTrips]
    returns when the lists of times and distances of each trip are as long as its list
    of nodes, and adds the trips of its files to those it is given. Of a file that does
    not open nothing is read; of one with a mistake (a text that is no uuid, an object
    that is not loaded, an enumerant that is not known) what comes before the mistake;
    of one without mistakes every element; and the files after it are read. When no
    file has a mistake, the code is [0]. *)
Theorem survey_read dataSources persons nodes :
  (forall s, exists code,
     getPersons cacheDirectoryPath customPath dataSources s =
       (Ok code, foldl (fun s path => survey_outcome (parse_person dataSources) (persons_file path) s) []
                   (flat_map (survey_files cacheDirectoryPath customPath "persons") dataSources)) /\
     (Forall (fun path => file_sound (parse_person dataSources) (persons_file path))
        (flat_map (survey_files cacheDirectoryPath customPath "persons") dataSources) -> code = 0)) /\
  ((forall c path, in_file c (odTrips_file path) -> odTrip_lists_ok c) ->
   forall s, exists code,
     getOdTrips cacheDirectoryPath customPath dataSources persons nodes s =
       (Ok code, foldl (fun s path => survey_outcome (parse_odTrip dataSources persons nodes) (odTrips_file path) s) s
                   (flat_map (survey_files cacheDirectoryPath customPath "odTrips") dataSources)) /\
     (Forall (fun path => file_sound (parse_odTrip dataSources persons nodes) (odTrips_file path))
        (flat_map (survey_files cacheDirectoryPath customPath "odTrips") dataSources) -> code = 0)) /\
  (forall l s, file_sound (parse_person dataSources) (Opened (Some l)) ->
     survey_outcome (parse_person dataSources) (Opened (Some l)) s =
       foldl (fun s x => from_option (fun f => f s) s (x ≫= parse_person dataSources)) s l) /\
  (forall l s, file_sound (parse_odTrip dataSources persons nodes) (Opened (Some l)) ->
     survey_outcome (parse_odTrip dataSources persons nodes) (Opened (Some l)) s =
       foldl (fun s x => from_option (fun f => f s) s (x ≫= parse_odTrip dataSources persons nodes)) s l).
Proof.
  split_and!; [| |intros l s; apply survey_outcome_sound..].
  - intros s. exists 0. split; [apply getPersons_outcome|done].
  - intros Hlists s. exists 0. split; [by apply getOdTrips_outcome|done].
Qed.
End Survey.
