(* ===== verification/NodesCorrect.v ===== *)
(** * What the fetcher of the nodes reads

    The footpaths of a node are those of its file, in the order of the file, and the
    footpaths back are their inverse and one from the node to itself. *)

From Stdlib Require Import ZArith Lia Sorted.
From stdpp Require Import base list gmap strings.
From S2P Require Import Prelude.
From S2P Require Import Data.
From S2P Require Import Attempt.
From S2P Require Import Parameters.
From S2P Require Import CacheFiles.
From S2P Require Import CacheCollections.
From S2P Require Import CollectionsCorrect.
From S2P Require Import CacheNodes.

Local Open Scope Z_scope.

(** ** Nodes with their two lists *)

(** The nodes of a collection with the lists given for their uuids. *)
Definition with_lists (base : list Node) (out inn : uuid -> list NodeTimeDistance) : list Node :=
  (fun n => set_transferable (out (node_uuid n)) (set_reverse (inn (node_uuid n)) n)) <$> base.

Section Lists.
Implicit Types (base : list Node) (out inn : uuid -> list NodeTimeDistance).

Lemma with_lists_keys base out inn : node_uuid <$> with_lists base out inn = node_uuid <$> base.
Proof. unfold with_lists. rewrite <- list_fmap_compose. reflexivity. Qed.

Lemma with_lists_uids base out inn : node_uid <$> with_lists base out inn = node_uid <$> base.
Proof. unfold with_lists. rewrite <- list_fmap_compose. reflexivity. Qed.

Lemma with_lists_find base out inn v :
  tree_find node_uuid v (with_lists base out inn) =
  (fun n => set_transferable (out v) (set_reverse (inn v) n)) <$> tree_find node_uuid v base.
Proof.
  unfold with_lists. induction base as [|n base IH]; [done|]. cbn. case_bool_decide as Hv; [by rewrite Hv|exact IH].
Qed.

Lemma with_lists_ext base out inn out' inn' :
  (forall v, v ∈ (node_uuid <$> base) -> out v = out' v /\ inn v = inn' v) ->
  with_lists base out inn = with_lists base out' inn'.
Proof.
  intros H. unfold with_lists. apply list_fmap_ext. intros i n Hn. apply list_elem_of_lookup_2 in Hn.
  destruct (H (node_uuid n)) as [-> ->]; [by apply list_elem_of_fmap_2|done].
Qed.

Lemma alter_push base out inn u f :
  tree_alter node_uuid u (push_reverse f) (with_lists base out inn) =
  with_lists base out (fun v => inn v ++ if decide (v = u) then [f] else []).
Proof.
  unfold tree_alter, with_lists. rewrite <- list_fmap_compose. apply list_fmap_ext. intros i n _. cbn.
  case_decide; [done|]. by rewrite app_nil_r.
Qed.

Lemma alter_set base out inn u l :
  tree_alter node_uuid u (set_transferable l) (with_lists base out inn) =
  with_lists base (fun v => if decide (v = u) then l else out v) inn.
Proof.
  unfold tree_alter, with_lists. rewrite <- list_fmap_compose. apply list_fmap_ext. intros i n _. cbn.
  by case_decide.
Qed.

Lemma tree_alter_id (m : list Node) u f n :
  NoDup (node_uuid <$> m) -> tree_find node_uuid u m = Some n -> f n = n -> tree_alter node_uuid u f m = m.
Proof.
  intros Hnd Hfind Hf. unfold tree_alter. rewrite <- (list_fmap_id m) at 2. apply list_fmap_ext.
  intros i n' Hn'. apply list_elem_of_lookup_2 in Hn'. case_decide as Hu; [|done].
  pose proof (tree_find_elem node_uuid m n' Hnd Hn') as H. rewrite Hu, Hfind in H. injection H as <-. exact Hf.
Qed.
End Lists.

(** ** The sort *)

Lemma mapM_vec_at {A} (l : list A) : mapM (vec_at l) (seq 0 (length l)) = Ok l.
Proof.
  enough (forall post pre, l = pre ++ post -> mapM (vec_at l) (seq (length pre) (length post)) = Ok post) as H
    by exact (H l [] eq_refl).
  induction post as [|x post IH]; intros pre ->; [done|].
  change (mapM (vec_at (pre ++ x :: post)) (seq (length pre) (length (x :: post)))) with
    (y ← vec_at (pre ++ x :: post) (length pre);
     ys ← mapM (vec_at (pre ++ x :: post)) (seq (S (length pre)) (length post)); Ok (y :: ys)).
  assert (vec_at (pre ++ x :: post) (length pre) = Ok x) as -> by (apply vec_at_Ok; by rewrite list_lookup_middle).
  cbn [mbind result_bind].
  specialize (IH (pre ++ [x])). rewrite length_app, Nat.add_1_r, <- app_assoc in IH. by rewrite IH.
Qed.

(** The copy by positions undoes the sort. *)
Lemma sort_by_time_id l : sort_by_time l = Ok l.
Proof.
  unfold sort_by_time. rewrite (Permutation_length (stable_sort_perm _ _)), length_seq. apply mapM_vec_at.
Qed.

Lemma sort_transfers_id (m : list Node) c u :
  NoDup (node_uuid <$> m) -> u ∈ (node_uuid <$> m) -> sort_transfers u (m, c) = (Ok (), (m, c)).
Proof.
  intros Hnd Hu. apply tree_find_is_Some in Hu as [n Hn]. unfold sort_transfers.
  rewrite attempt_bind_eval. cbn [get fst]. rewrite attempt_bind_eval. unfold lift, tree_at. rewrite Hn.
  rewrite !sort_by_time_id. rewrite attempt_bind_eval. unfold alter_node.
  assert (set_transferable (transferableNodes n) n = n) as Hf by (by destruct n).
  assert (set_reverse (reverseTransferableNodes n) n = n) as Hr by (by destruct n).
  unfold mbind, attempt_bind, modify. cbn [fst snd].
  rewrite (tree_alter_id m u _ n) by done. by rewrite (tree_alter_id m u _ n).
Qed.

Lemma sort_all_id (m : list Node) c : NoDup (node_uuid <$> m) ->
  each sort_transfers (node_uuid <$> m) (m, c) = (Ok (), (m, c)).
Proof.
  intros Hnd. enough (forall l, Forall (fun u => u ∈ (node_uuid <$> m)) l -> each sort_transfers l (m, c) = (Ok (), (m, c))) as H.
  { apply H. rewrite Forall_forall. done. }
  induction 1 as [|u l Hu Hl IH]; [done|]. cbn [each]. rewrite attempt_bind_eval, sort_transfers_id by done. exact IH.
Qed.

(** ** The files of the nodes *)

Section Files.
Context `{files : CacheFiles, boost : Boost} (cacheDirectoryPath customPath : string).
Notation node_path := (node_path cacheDirectoryPath customPath).

(** The entry [j] of a file of footpaths, if it names a node that is loaded. *)
Definition entry_at (base : list Node) (c : cNodeTransfers) (j : nat) : option (uuid * Z * Z) :=
  text ← transferableNodesUuids c !! j;
  v ← string_generator text;
  time ← transferableNodesTravelTimes c !! j;
  distance ← transferableNodesDistances c !! j;
  if tree_count node_uuid v base then Some (v, time, distance) else None.

Definition entries (base : list Node) (c : cNodeTransfers) : list (uuid * Z * Z) :=
  omap (entry_at base c) (seq 0 (length (transferableNodesUuids c))).

(** The message of a node, if there is one. *)
Definition message_of (u : uuid) : option cNodeTransfers :=
  match node_file (node_path u) with Opened root => root | OpenFailed _ => None end.

Definition uid_of (base : list Node) (v : uuid) : uid := default 0%nat (node_uid <$> tree_find node_uuid v base).

Definition footpath_of (base : list Node) (e : uuid * Z * Z) : NodeTimeDistance :=
  mkNTD (uid_of base e.1.1) e.1.2 e.2.

(** The footpaths back to [v] from the entries of the file of [u]. *)
Definition footpaths_back (base : list Node) (u : uuid) (es : list (uuid * Z * Z)) (v : uuid) : list NodeTimeDistance :=
  (fun e => mkNTD (uid_of base u) e.1.2 e.2) <$> filter (fun e => e.1.1 = v) es.

(** The lists of a node when the files of the nodes [done] are read. *)
Definition out_after (base : list Node) (read : list uuid) (v : uuid) : list NodeTimeDistance :=
  if decide (v ∈ read) then
    match message_of v with Some c => footpath_of base <$> entries base c | None => [] end
  else [].

Definition back_from (base : list Node) (v u : uuid) : list NodeTimeDistance :=
  match message_of u with
  | Some c => footpaths_back base u (entries base c) v ++ if decide (v = u) then [mkNTD (uid_of base u) 0 0] else []
  | None => []
  end.

Definition inn_after (base : list Node) (read : list uuid) (v : uuid) : list NodeTimeDistance :=
  flat_map (back_from base v) read.

(** What a file needs to be read without an exception. *)
Record transfers_ok (c : cNodeTransfers) : Prop := {
  tf_texts : Forall (fun text => is_Some (string_generator text)) (transferableNodesUuids c);
  tf_times : (length (transferableNodesUuids c) <= length (transferableNodesTravelTimes c))%nat;
  tf_distances : (length (transferableNodesUuids c) <= length (transferableNodesDistances c))%nat
}.

Lemma returns_reader_get {S B} (l : list B) i (s : S) b s' :
  returns (reader_get l i) s b s' <-> l !! i = Some b /\ s' = s.
Proof using Type. unfold reader_get. by rewrite returns_lift, vec_get_Ok. Qed.

(** One entry and the rest: what the loop over the entries does to the lists. *)
Lemma read_transferable_run base cnt c u n : tree_find node_uuid u base = Some n ->
  forall rest j out inn L st',
  drop j (transferableNodesUuids c) = rest ->
  returns (read_transferable (node_uid n) c rest j) (with_lists base out inn, cnt) L st' ->
  let es := omap (entry_at base c) (seq j (length rest)) in
  L = footpath_of base <$> es /\
  st' = (with_lists base out (fun v => inn v ++ footpaths_back base u es v), cnt).
Proof using Type.
  intros Hn. induction rest as [|text rest IH]; intros j out inn L st' Hdrop Hrun.
  - injection Hrun as <- <-. cbn. split; [done|]. f_equal. apply with_lists_ext. intros v _. by rewrite app_nil_r.
  - assert (transferableNodesUuids c !! j = Some text) as Hj
      by (rewrite <- (Nat.add_0_r j), <- lookup_drop, Hdrop; reflexivity).
    assert (drop (S j) (transferableNodesUuids c) = rest) as Hdrop'
      by (rewrite <- Nat.add_1_r, <- drop_drop, Hdrop; reflexivity).
    cbn [read_transferable] in Hrun. apply returns_bind_inv in Hrun as (v & s1 & Hv & Hrun).
    apply returns_uuidGenerator in Hv as [Hv ->].
    apply returns_bind_inv in Hrun as (st1 & s2 & Hst & Hrun). apply returns_get in Hst as [-> ->].
    cbn [fst] in Hrun. rewrite with_lists_find in Hrun. cbn zeta.
    assert (omap (entry_at base c) (seq j (length (text :: rest))) =
            match entry_at base c j with
            | Some e => e :: omap (entry_at base c) (seq (S j) (length rest))
            | None => omap (entry_at base c) (seq (S j) (length rest))
            end) as -> by reflexivity.
    destruct (tree_find node_uuid v base) as [node|] eqn:Hnode; cbn [fmap option_fmap option_map] in Hrun.
    + apply returns_bind_inv in Hrun as (t & s3 & Ht & Hrun). apply returns_reader_get in Ht as [Ht ->].
      apply returns_bind_inv in Hrun as (d & s4 & Hd & Hrun). apply returns_reader_get in Hd as [Hd ->].
      assert (entry_at base c j = Some (v, t, d)) as ->.
      { unfold entry_at, tree_count. rewrite Hj. cbn. rewrite Hv. cbn. rewrite Ht. cbn. rewrite Hd. cbn.
        by rewrite Hnode. }
      apply returns_bind_inv in Hrun as ([] & s5 & Hmod & Hrun). apply returns_modify in Hmod as ->.
      cbn [fst snd] in Hrun. rewrite alter_push in Hrun.
      apply returns_bind_inv in Hrun as (L' & s6 & Hrest & Hrun). injection Hrun as <- <-.
      destruct (IH (S j) _ _ _ _ Hdrop' Hrest) as [-> ->]. cbn [node_uid set_transferable set_reverse]. split.
      * cbn. unfold footpath_of at 2, uid_of. cbn. by rewrite Hnode.
      * f_equal. apply with_lists_ext. intros w _. split; [done|]. unfold footpaths_back. rewrite filter_cons. cbn [fst snd]. rewrite <- app_assoc. f_equal.
        assert (uid_of base u = node_uid n) as -> by (unfold uid_of; by rewrite Hn).
        case_decide as Hw; case_decide as Hw'; [done|congruence..|done].
    + assert (entry_at base c j = None) as ->.
      { unfold entry_at, tree_count. rewrite Hj. cbn. rewrite Hv. cbn.
        destruct (transferableNodesTravelTimes c !! j); [|done]. cbn.
        destruct (transferableNodesDistances c !! j); [|done]. cbn. by rewrite Hnode. }
      apply (IH (S j)); done.
Qed.

Lemma read_transferable_ok base cnt c n : transfers_ok c ->
  forall rest j out inn, drop j (transferableNodesUuids c) = rest ->
  exists L st', returns (read_transferable n c rest j) (with_lists base out inn, cnt) L st'.
Proof using Type.
  intros [Htexts Htimes Hdists]. induction rest as [|text rest IH]; intros j out inn Hdrop.
  - eexists _, _. apply returns_ret.
  - assert (transferableNodesUuids c !! j = Some text) as Hj
      by (rewrite <- (Nat.add_0_r j), <- lookup_drop, Hdrop; reflexivity).
    assert (drop (S j) (transferableNodesUuids c) = rest) as Hdrop'
      by (rewrite <- Nat.add_1_r, <- drop_drop, Hdrop; reflexivity).
    pose proof (lookup_lt_Some _ _ _ Hj) as Hlt. rewrite Forall_forall in Htexts.
    destruct (Htexts text (list_elem_of_lookup_2 _ _ _ Hj)) as [v Hv].
    destruct (lookup_lt_is_Some_2 (transferableNodesTravelTimes c) j) as [t Ht]; [lia|].
    destruct (lookup_lt_is_Some_2 (transferableNodesDistances c) j) as [d Hd]; [lia|].
    cbn [read_transferable]. destruct (tree_find node_uuid v (with_lists base out inn)) as [node|] eqn:Hnode.
    + destruct (IH (S j) out (fun w => inn w ++ if decide (w = v) then [mkNTD n t d] else []) Hdrop') as (L & st' & Hrun).
      eexists _, st'. eapply returns_bind; [by apply returns_uuidGenerator|]. eapply returns_bind; [apply get_ok|].
      cbn [fst]. rewrite Hnode. eapply returns_bind; [by apply returns_reader_get|].
      eapply returns_bind; [by apply returns_reader_get|]. eapply returns_bind; [apply modify_ok|].
      cbn [fst snd]. rewrite alter_push. eapply returns_bind; [exact Hrun|apply returns_ret].
    + destruct (IH (S j) out inn Hdrop') as (L & st' & Hrun). exists L, st'.
      eapply returns_bind; [by apply returns_uuidGenerator|]. eapply returns_bind; [apply get_ok|].
      cbn [fst]. rewrite Hnode. exact Hrun.
Qed.

(** ** The loop over the nodes *)

Lemma read_transfers_run base cnt read u st' :
  u ∈ (node_uuid <$> base) -> u ∉ read ->
  returns (read_transfers cacheDirectoryPath customPath u)
    (with_lists base (out_after base read) (inn_after base read), cnt) None st' ->
  st' = (with_lists base (out_after base (read ++ [u])) (inn_after base (read ++ [u])), cnt).
Proof using Type.
  intros Hu Hread Hrun. apply tree_find_is_Some in Hu as [n Hn].
  assert (forall v, inn_after base (read ++ [u]) v = inn_after base read v ++ back_from base v u) as Hinn.
  { intros v. unfold inn_after. rewrite flat_map_app. cbn. by rewrite app_nil_r. }
  assert (forall v, v <> u -> out_after base (read ++ [u]) v = out_after base read v) as Hout.
  { intros v Hv. unfold out_after. case_decide; case_decide; [done|set_solver..|done]. }
  unfold read_transfers in Hrun. destruct (node_file (node_path u)) as [errno|root] eqn:Hfile.
  - injection Hrun as <-. f_equal. apply with_lists_ext. intros v _. rewrite Hinn.
    assert (message_of u = None) as Hm by (unfold message_of; by rewrite Hfile). split.
    + destruct (decide (v = u)) as [->|Hv]; [|by rewrite Hout]. unfold out_after. rewrite Hm. by do 2 case_decide.
    + unfold back_from. by rewrite Hm, app_nil_r.
  - apply try_catch_inv in Hrun as [Hrun|(e & h & s1 & _ & He & Hrun)];
      [|destruct e; cbn in He; simplify_eq; discriminate].
    apply returns_bind_inv in Hrun as (c & s1 & Hc & Hrun). apply returns_kj in Hc as [-> ->].
    assert (message_of u = Some c) as Hm by (unfold message_of; by rewrite Hfile).
    apply returns_bind_inv in Hrun as (st & s2 & Hst & Hrun). apply returns_get in Hst as [-> ->].
    apply returns_bind_inv in Hrun as (node & s3 & Hnode & Hrun). apply returns_lift in Hnode as [Hnode ->].
    cbn [fst] in Hnode. unfold tree_at in Hnode. rewrite with_lists_find, Hn in Hnode. injection Hnode as <-.
    apply returns_bind_inv in Hrun as (L & s4 & HL & Hrun).
    destruct (read_transferable_run base cnt c u n Hn _ 0%nat _ _ _ _ eq_refl HL) as [-> ->].
    apply returns_bind_inv in Hrun as ([] & s5 & Hmod & Hrun). apply returns_modify in Hmod as ->.
    apply returns_bind_inv in Hrun as ([] & s6 & Hmod & Hrun). apply returns_modify in Hmod as ->.
    injection Hrun as <-. cbn [fst snd]. rewrite alter_set, alter_push. f_equal. apply with_lists_ext. intros v _.
    fold (entries base c). rewrite Hinn. split.
    + case_decide as Hv; [|by rewrite Hout]. subst v. unfold out_after. rewrite Hm. case_decide; [done|set_solver].
    + unfold back_from. rewrite Hm, app_assoc. cbn. unfold uid_of. by rewrite Hn.
Qed.

Lemma read_transfers_ok base cnt out inn u :
  u ∈ (node_uuid <$> base) ->
  match node_file (node_path u) with
  | OpenFailed _ => True
  | Opened root => exists c, root = Some c /\ transfers_ok c
  end ->
  exists st', returns (read_transfers cacheDirectoryPath customPath u) (with_lists base out inn, cnt) None st'.
Proof using Type.
  intros Hu Hfile. apply tree_find_is_Some in Hu as [n Hn]. unfold read_transfers.
  destruct (node_file (node_path u)) as [errno|root]; [eexists; apply returns_ret|].
  destruct Hfile as (c & -> & Hok).
  destruct (read_transferable_ok base cnt c (node_uid n) Hok _ 0%nat out inn eq_refl) as (L & [m k] & HL).
  eexists. apply try_catch_returns. eapply returns_bind; [by apply returns_kj|].
  eapply returns_bind; [apply get_ok|]. eapply returns_bind.
  { apply lift_ok. unfold tree_at. cbn [fst]. rewrite with_lists_find, Hn. reflexivity. }
  eapply returns_bind; [exact HL|]. eapply returns_bind; [apply modify_ok|].
  eapply returns_bind; [apply modify_ok|]. apply returns_ret.
Qed.

(** The nodes of the collection, before their footpaths are read: those of the file, in
    the order of their uuids, with the uids after [before]. *)
Record base_ok (before : uid) (base : list Node) (cnt : uid) : Prop := {
  bs_sorted : tree_sorted node_uuid base;
  bs_uids : NoDup (node_uid <$> base);
  bs_range : Forall (fun n => before < node_uid n <= cnt)%nat base;
  bs_le : (before <= cnt)%nat;
  bs_lists : Forall (fun n => transferableNodes n = [] /\ reverseTransferableNodes n = []) base
}.

Definition parse_node (c : cNode) : option (list Node * uid -> list Node * uid) :=
  u ← string_generator (cNode_uuid c);
  Some (fun '(ts, n) =>
    (tree_emplace node_uuid
       (Node_new u (cNode_id c) (cNode_code c) (cNode_name c) (cNode_internalId c) (S n)
          (mkPoint (degrees (cNode_latitude c)) (degrees (cNode_longitude c)))) ts, S n)).

Definition nodes_clear (st : list Node * uid) : list Node * uid := ([], st.2).

Lemma nodes_outcome st :
  fetch_collection nodes_clear (nodes_file (cache_file cacheDirectoryPath customPath "nodes")) read_node st =
  collection_outcome parse_node nodes_clear (nodes_file (cache_file cacheDirectoryPath customPath "nodes")) st.
Proof using Type. apply fetch_collection_outcome. intros c [ts n]. unfold parse_node. parse_body. done. Qed.

Lemma base_ok_nil cnt : base_ok cnt [] cnt.
Proof using Type. split; [constructor|constructor|constructor|done|constructor]. Qed.

Lemma base_ok_step before c f base cnt :
  parse_node c = Some f -> base_ok before base cnt -> base_ok before (f (base, cnt)).1 (f (base, cnt)).2.
Proof using Type.
  unfold parse_node. destruct (string_generator (cNode_uuid c)) as [u|]; [|discriminate]. intros [= <-].
  intros [Hsorted Huids Hrange Hle Hlists]. cbn [fst snd]. set (n := Node_new u _ _ _ _ _ _).
  assert (tree_emplace node_uuid n base = base \/ tree_emplace node_uuid n base ≡ₚ n :: base) as Hcase.
  { unfold tree_emplace at 1. destruct (tree_count node_uuid (node_uuid n) base) eqn:Hc; [by left|right].
    apply tree_emplace_fresh. intros Hin. apply tree_count_true in Hin. congruence. }
  split; [by apply tree_emplace_sorted| | |lia|].
  - destruct Hcase as [->|Hperm]; [done|]. rewrite Hperm. cbn. constructor; [|done].
    intros Hin. apply list_elem_of_fmap in Hin as (m & Hm & Hin). rewrite Forall_forall in Hrange.
    specialize (Hrange m Hin). lia.
  - assert (Forall (fun m => before < node_uid m <= S cnt)%nat base) as Hb
      by (eapply Forall_impl; [exact Hrange|]; cbn; lia).
    destruct Hcase as [->|Hperm]; [done|]. rewrite Hperm. constructor; [cbn; lia|done].
  - destruct Hcase as [->|Hperm]; [done|]. rewrite Hperm. by constructor.
Qed.

Lemma with_lists_nil before base cnt :
  base_ok before base cnt -> with_lists base (out_after base []) (inn_after base []) = base.
Proof using Type.
  intros H. transitivity (id <$> base); [|apply list_fmap_id]. unfold with_lists. apply list_fmap_ext.
  intros i n Hn. apply list_elem_of_lookup_2 in Hn. pose proof (bs_lists _ _ _ H) as Hl. rewrite Forall_forall in Hl.
  destruct (Hl n Hn) as [Ht Hr]. unfold out_after, inn_after. case_decide as Hin; [by apply not_elem_of_nil in Hin|].
  destruct n; cbn in *; by subst.
Qed.

(** The nodes with the footpaths of all files. *)
Definition with_footpaths (base : list Node) : list Node :=
  let keys := node_uuid <$> base in with_lists base (out_after base keys) (inn_after base keys).

Lemma read_nodes_inv st st' :
  returns (fetch_collection nodes_clear (nodes_file (cache_file cacheDirectoryPath customPath "nodes")) read_node) st 0 st' ->
  base_ok st.2 st'.1 st'.2.
Proof using Type.
  unfold returns. rewrite nodes_outcome. unfold collection_outcome.
  destruct (nodes_file _) as [errno|[l|]]; [discriminate| |discriminate]. intros Hrun.
  apply (read_all_inv _ (fun s => base_ok st.2 s.1 s.2)) in Hrun; [done| |apply base_ok_nil].
  intros c f [base cnt] Hf Hok. by apply (base_ok_step st.2 c f base cnt).
Qed.

Lemma read_transfers_code u s code s' :
  returns (read_transfers cacheDirectoryPath customPath u) s (Some code) s' -> code = - EBADMSG.
Proof using Type.
  unfold read_transfers. destruct (node_file (node_path u)) as [errno|root]; [discriminate|]. intros Hrun.
  apply try_catch_inv in Hrun as [Hrun|(e & h & s4 & _ & He & Hrun)].
  - repeat (apply returns_bind_inv in Hrun as (? & ? & _ & Hrun)). discriminate.
  - destruct e; cbn in He; simplify_eq. by injection Hrun as <- _.
Qed.

(** The loop over the nodes, from the nodes of the collection. *)
Lemma read_loop_inv before base cnt s' : base_ok before base cnt ->
  returns (each_return (read_transfers cacheDirectoryPath customPath) (node_uuid <$> base)) (base, cnt) None s' ->
  s' = (with_footpaths base, cnt).
Proof using Type.
  intros Hbase Hloop. pose proof (tree_sorted_NoDup _ _ (bs_sorted _ _ _ Hbase)) as Hnd.
  apply (each_return_inv _ (fun read s => s = (with_lists base (out_after base read) (inn_after base read), cnt))) in Hloop;
    [done| |by rewrite (with_lists_nil _ _ _ Hbase)].
  intros pre u post s s1 Hl -> Hbody. apply read_transfers_run; [rewrite Hl; set_solver| |done].
  rewrite Hl in Hnd. apply NoDup_app in Hnd as (_ & Hnd & _). intros Hu. apply (Hnd u Hu). set_solver.
Qed.

Lemma read_loop_ok before base cnt : base_ok before base cnt ->
  Forall (fun u => match node_file (node_path u) with
                   | OpenFailed _ => True
                   | Opened root => exists c, root = Some c /\ transfers_ok c
                   end) (node_uuid <$> base) ->
  returns (each_return (read_transfers cacheDirectoryPath customPath) (node_uuid <$> base)) (base, cnt) None
    (with_footpaths base, cnt).
Proof using Type.
  intros Hbase Hfiles. pose proof (tree_sorted_NoDup _ _ (bs_sorted _ _ _ Hbase)) as Hnd.
  destruct (each_return_none (read_transfers cacheDirectoryPath customPath)
    (fun read s => s = (with_lists base (out_after base read) (inn_after base read), cnt)) (node_uuid <$> base))
    with (s := (base, cnt)) as (s' & Hrun & ->); [|by rewrite (with_lists_nil _ _ _ Hbase)|exact Hrun].
  intros pre u post s Hl ->. rewrite Forall_forall in Hfiles.
  assert (u ∈ (node_uuid <$> base)) as Hu by (rewrite Hl; set_solver).
  destruct (read_transfers_ok base cnt (out_after base pre) (inn_after base pre) u Hu (Hfiles u Hu)) as (s1 & Hs1).
  exists s1. split; [exact Hs1|]. apply read_transfers_run; [exact Hu| |exact Hs1].
  rewrite Hl in Hnd. apply NoDup_app in Hnd as (_ & Hnd & _). intros Hin. apply (Hnd u Hin). set_solver.
Qed.

Lemma sort_footpaths before base cnt : base_ok before base cnt ->
  each sort_transfers (node_uuid <$> base) (with_footpaths base, cnt) = (Ok (), (with_footpaths base, cnt)).
Proof using Type.
  intros Hbase. pose proof (tree_sorted_NoDup _ _ (bs_sorted _ _ _ Hbase)) as Hnd.
  assert (node_uuid <$> with_footpaths base = node_uuid <$> base) as Hkeys by apply with_lists_keys.
  rewrite <- Hkeys. apply sort_all_id. by rewrite Hkeys.
Qed.

Lemma getNodes_run st nodes cnt :
  returns (getNodes cacheDirectoryPath customPath) st 0 (nodes, cnt) ->
  exists base, base_ok st.2 base cnt /\ nodes = with_footpaths base /\
    returns (fetch_collection nodes_clear (nodes_file (cache_file cacheDirectoryPath customPath "nodes")) read_node)
      st 0 (base, cnt).
Proof using Type.
  intros Hrun. unfold getNodes in Hrun. apply returns_bind_inv in Hrun as (ret & [base c] & Hfetch & Hrun).
  change (fun st : list Node * uid => ([], st.2)) with nodes_clear in Hfetch.
  destruct (Z.ltb_spec ret 0) as [Hret|Hret]; [injection Hrun as -> _ _; lia|].
  pose proof (fetch_collection_code _ _ _ _ _ _ Hfetch). assert (ret = 0) as -> by lia.
  pose proof (read_nodes_inv _ _ Hfetch) as Hbase. cbn [fst snd] in Hbase.
  apply returns_bind_inv in Hrun as (st1 & s1 & Hst & Hrun). apply returns_get in Hst as [-> ->]. cbn [fst] in Hrun.
  apply returns_bind_inv in Hrun as (r & s2 & Hloop & Hrun). destruct r as [code|].
  { injection Hrun as -> ->. apply (each_return_some _ _ _ _ _ _ read_transfers_code) in Hloop. discriminate. }
  rewrite (read_loop_inv _ _ _ _ Hbase Hloop) in Hrun.
  unfold returns, try_catch in Hrun. rewrite attempt_bind_eval, (sort_footpaths _ _ _ Hbase) in Hrun.
  injection Hrun as <- <-. eauto.
Qed.

Lemma getNodes_ok st base cnt :
  returns (fetch_collection nodes_clear (nodes_file (cache_file cacheDirectoryPath customPath "nodes")) read_node)
    st 0 (base, cnt) ->
  Forall (fun u => match node_file (node_path u) with
                   | OpenFailed _ => True
                   | Opened root => exists c, root = Some c /\ transfers_ok c
                   end) (node_uuid <$> base) ->
  returns (getNodes cacheDirectoryPath customPath) st 0 (with_footpaths base, cnt).
Proof using Type.
  intros Hfetch Hfiles. pose proof (read_nodes_inv _ _ Hfetch) as Hbase. cbn [fst snd] in Hbase.
  eapply returns_bind; [exact Hfetch|]. cbn. eapply returns_bind; [apply get_ok|].
  eapply returns_bind; [exact (read_loop_ok _ _ _ Hbase Hfiles)|]. cbn [fst].
  unfold returns, try_catch. rewrite attempt_bind_eval, (sort_footpaths _ _ _ Hbase). reflexivity.
Qed.

(** ** The footpaths *)

(** The file of the node [m] lists the node [n]. *)
Definition lists_transfer (m n : uuid) (time distance : Z) : Prop :=
  exists c j text, message_of m = Some c /\ transferableNodesUuids c !! j = Some text /\
    string_generator text = Some n /\ transferableNodesTravelTimes c !! j = Some time /\
    transferableNodesDistances c !! j = Some distance.

Lemma entry_at_Some base c j v t d :
  entry_at base c j = Some (v, t, d) <->
  v ∈ (node_uuid <$> base) /\ exists text, transferableNodesUuids c !! j = Some text /\
    string_generator text = Some v /\ transferableNodesTravelTimes c !! j = Some t /\
    transferableNodesDistances c !! j = Some d.
Proof using Type.
  unfold entry_at. rewrite <- tree_count_true. split.
  - intros H. destruct (transferableNodesUuids c !! j) as [text|] eqn:Htext; [|discriminate]. cbn in H.
    destruct (string_generator text) as [v'|] eqn:Hv; [|discriminate]. cbn in H.
    destruct (transferableNodesTravelTimes c !! j) as [t'|]; [|discriminate]. cbn in H.
    destruct (transferableNodesDistances c !! j) as [d'|]; [|discriminate]. cbn in H.
    destruct (tree_count node_uuid v' base) eqn:Hc; [|discriminate]. injection H as -> -> ->. eauto 6.
  - intros (Hc & text & Htext & Hv & Ht & Hd). rewrite Htext. cbn. rewrite Hv. cbn. rewrite Ht. cbn. rewrite Hd. cbn.
    by rewrite Hc.
Qed.

Lemma entries_elem base c e :
  e ∈ entries base c <-> exists j, entry_at base c j = Some e.
Proof using Type.
  unfold entries. rewrite list_elem_of_omap. split; [intros (j & _ & Hj); eauto|]. intros (j & Hj). exists j. split; [|done].
  destruct e as [[v t] d]. apply entry_at_Some in Hj as Hj'. destruct Hj' as (_ & text & Htext & _).
  apply lookup_lt_Some in Htext. apply elem_of_seq. lia.
Qed.

Lemma uid_of_elem before base cnt n : base_ok before base cnt -> n ∈ base -> uid_of base (node_uuid n) = node_uid n.
Proof using Type.
  intros Hbase Hn. unfold uid_of. rewrite (tree_find_elem node_uuid base n); [done| |done].
  exact (tree_sorted_NoDup _ _ (bs_sorted _ _ _ Hbase)).
Qed.

Lemma lists_entry base m c v t d : message_of m = Some c ->
  (v, t, d) ∈ entries base c <-> v ∈ (node_uuid <$> base) /\ lists_transfer m v t d.
Proof using Type.
  intros Hc. rewrite entries_elem. setoid_rewrite entry_at_Some. split.
  - intros (j & Hv & text & H). split; [done|]. exists c, j, text. done.
  - intros (Hv & c' & j & text & Hc' & H). assert (c' = c) as -> by congruence. eauto.
Qed.

Section Footpaths.
Context (before : uid) (base : list Node) (cnt : uid) (Hbase : base_ok before base cnt).
Notation nodes := (with_footpaths base).

(** A node of the result and the node of the collection it comes from. *)
Lemma with_footpaths_elem n :
  n ∈ nodes <-> exists b, b ∈ base /\
    n = set_transferable (out_after base (node_uuid <$> base) (node_uuid b))
          (set_reverse (inn_after base (node_uuid <$> base) (node_uuid b)) b).
Proof using Type. unfold with_footpaths, with_lists. rewrite list_elem_of_fmap. naive_solver. Qed.

(** A key of the collection is that of a node of the result. *)
Lemma node_of_key v : v ∈ (node_uuid <$> base) ->
  exists n, n ∈ nodes /\ node_uuid n = v /\ uid_of base v = node_uid n.
Proof using Hbase.
  intros Hv. apply list_elem_of_fmap in Hv as (b & -> & Hb). eexists. split.
  - apply with_footpaths_elem. eauto.
  - split; [done|]. exact (uid_of_elem _ _ _ _ Hbase Hb).
Qed.

Lemma key_of_node n : n ∈ nodes -> node_uuid n ∈ (node_uuid <$> base) /\ uid_of base (node_uuid n) = node_uid n.
Proof using Hbase.
  intros Hn. apply with_footpaths_elem in Hn as (b & Hb & ->). cbn. split; [by apply list_elem_of_fmap_2|].
  exact (uid_of_elem _ _ _ _ Hbase Hb).
Qed.

Lemma transferable_elem m f : m ∈ nodes ->
  f ∈ transferableNodes m <->
  exists n, n ∈ nodes /\ ntd_node f = node_uid n /\
    lists_transfer (node_uuid m) (node_uuid n) (ntd_time f) (ntd_distance f).
Proof using Hbase.
  intros Hm. apply with_footpaths_elem in Hm as (b & Hb & ->). cbn. unfold out_after.
  rewrite decide_True by (by apply list_elem_of_fmap_2). split.
  - destruct (message_of (node_uuid b)) as [c|] eqn:Hc; [|by intros ?%not_elem_of_nil].
    intros Hf. apply list_elem_of_fmap in Hf as ([[v t] d] & -> & He).
    apply (lists_entry base _ _ _ _ _ Hc) in He as [Hv Hlist].
    destruct (node_of_key v Hv) as (n & Hn & <- & Huid). exists n. done.
  - intros (n & Hn & Huid & Hlist). pose proof Hlist as (c & j & text & Hc & _). rewrite Hc.
    apply list_elem_of_fmap. exists (node_uuid n, ntd_time f, ntd_distance f).
    destruct (key_of_node n Hn) as [Hkey Hn']. split.
    + unfold footpath_of. cbn. rewrite Hn', <- Huid. by destruct f.
    + apply (lists_entry base _ _ _ _ _ Hc). done.
Qed.

Lemma reverse_elem n f : n ∈ nodes ->
  f ∈ reverseTransferableNodes n <->
  (exists m, m ∈ nodes /\ ntd_node f = node_uid m /\
     lists_transfer (node_uuid m) (node_uuid n) (ntd_time f) (ntd_distance f)) \/
  (f = mkNTD (node_uid n) 0 0 /\ is_Some (message_of (node_uuid n))).
Proof using Hbase.
  intros Hn. destruct (key_of_node n Hn) as [Hkey Huid].
  apply with_footpaths_elem in Hn as (b & Hb & ->). cbn in *. unfold inn_after.
  rewrite list_elem_of_In, in_flat_map. setoid_rewrite <- list_elem_of_In. unfold back_from, footpaths_back. split.
  - intros (u & Hu & Hf). destruct (message_of u) as [c|] eqn:Hc; [|by apply not_elem_of_nil in Hf].
    apply elem_of_app in Hf as [Hf|Hf].
    + left. apply list_elem_of_fmap in Hf as ([[v t] d] & -> & He). apply list_elem_of_filter in He as [Hv He].
      cbn in Hv. subst v. apply (lists_entry base _ _ _ _ _ Hc) in He as [_ Hlist].
      destruct (node_of_key u Hu) as (m & Hm & <- & Hm'). exists m. done.
    + right. case_decide as Hv; [|by apply not_elem_of_nil in Hf]. subst u.
      apply list_elem_of_singleton in Hf as ->. split; [by rewrite Huid|eauto].
  - intros [(m & Hm & Hf & Hlist)|[-> [c Hc]]].
    + destruct (key_of_node m Hm) as [Hm' Hmu]. exists (node_uuid m). split; [done|].
      pose proof Hlist as (c & j & text & Hc & _). rewrite Hc. apply elem_of_app. left. apply list_elem_of_fmap.
      exists (node_uuid b, ntd_time f, ntd_distance f). split.
      * cbn. rewrite Hmu, <- Hf. by destruct f.
      * apply list_elem_of_filter. split; [done|]. apply (lists_entry base _ _ _ _ _ Hc). done.
    + exists (node_uuid b). split; [done|]. rewrite Hc. apply elem_of_app. right. rewrite decide_True by done.
      rewrite Huid. by apply list_elem_of_singleton.
Qed.
End Footpaths.

(** C32: When [getNodes] returns [0], the nodes are in the order of their uuids with
    new uids, each its own; a footpath leaves a node if and only if the file of the node
    lists it, to a node that is loaded, with its time and its distance; the footpaths
    back are the inverse of these, and one of no time from each node with a file to
    itself, whether the file lists it or not. *)
Theorem getNodes_footpaths st nodes cnt :
  returns (getNodes cacheDirectoryPath customPath) st 0 (nodes, cnt) ->
  tree_sorted node_uuid nodes /\
  NoDup (node_uid <$> nodes) /\ Forall (fun n => st.2 < node_uid n <= cnt)%nat nodes /\
  (forall m f, m ∈ nodes ->
     f ∈ transferableNodes m <->
     exists n, n ∈ nodes /\ ntd_node f = node_uid n /\
       lists_transfer (node_uuid m) (node_uuid n) (ntd_time f) (ntd_distance f)) /\
  (forall n f, n ∈ nodes ->
     f ∈ reverseTransferableNodes n <->
     (exists m, m ∈ nodes /\ ntd_node f = node_uid m /\
        lists_transfer (node_uuid m) (node_uuid n) (ntd_time f) (ntd_distance f)) \/
     (f = mkNTD (node_uid n) 0 0 /\ is_Some (message_of (node_uuid n)))).
Proof.
  intros Hrun. apply getNodes_run in Hrun as (base & Hbase & -> & _). split_and!.
  - pose proof (bs_sorted _ _ _ Hbase) as Hsorted. unfold with_footpaths, with_lists.
    unfold tree_sorted in *. apply StronglySorted_fmap. exact Hsorted.
  - unfold with_footpaths. rewrite with_lists_uids. exact (bs_uids _ _ _ Hbase).
  - unfold with_footpaths, with_lists. apply Forall_fmap. exact (bs_range _ _ _ Hbase).
  - intros m f. apply (transferable_elem _ _ _ Hbase).
  - intros n f. apply (reverse_elem _ _ _ Hbase).
Qed.
End Files.
