(* ===== verification/RoutingResult.v ===== *)
(** * The results of a calculation

    The classes of [include/routing_result.hpp], and the loop that turns a journey
    (an access step, the rides, an egress step) into the steps and the totals of a
    [SingleCalculationResult]. [forwardJourneyStep] and [reverseJourneyStep] hold
    two copies of this loop; the differences are the arguments of [Journey]. *)

From Stdlib Require Import ZArith Lia.
From stdpp Require Import base list gmap strings.
From S2P Require Import Prelude.
From S2P Require Import Data.

Local Open Scope Z_scope.

(** [walking_step_type]. *)
Inductive walking_step_type := ACCESS | EGRESS | TRANSFER.

(** The hierarchy of [RoutingStep]. *)
Inductive RoutingStep :=
| BoardingStep (trip : Trip) (legSequenceInTrip stopSequenceInTrip : Z) (node : Node)
    (departureTime waitingTime : Z)
| UnboardingStep (trip : Trip) (legSequenceInTrip stopSequenceInTrip : Z) (node : Node)
    (arrivalTime inVehicleTime inVehicleDistanceMeters : Z)
| WalkingStep (walkingType : walking_step_type)
    (travelTime distanceMeters departureTime arrivalTime readyToBoardAt : Z).

(** [Leg]: the trip and the indexes of its first and last connections. *)
Record Leg := mkLeg { leg_tripOf : Trip; leg_start : Z; leg_end : Z }.

(** [SingleCalculationResult]. *)
Record SingleCalculationResult := mkSingleCalculationResult {
  res_departureTime : Z;
  res_arrivalTime : Z;
  res_totalTravelTime : Z;
  res_totalDistance : Z;
  res_totalInVehicleTime : Z;
  res_totalInVehicleDistance : Z;
  res_totalNonTransitTravelTime : Z;
  res_totalNonTransitDistance : Z;
  res_numberOfBoardings : Z;
  res_numberOfTransfers : Z;
  res_transferWalkingTime : Z;
  res_transferWalkingDistance : Z;
  res_accessTravelTime : Z;
  res_accessDistance : Z;
  res_egressTravelTime : Z;
  res_egressDistance : Z;
  res_transferWaitingTime : Z;
  res_firstWaitingTime : Z;
  res_totalWaitingTime : Z;
  res_steps : list RoutingStep;
  res_legs : list Leg
}.

(** [AccessibleNodes] and [AllNodesResult]. *)
Record AccessibleNodes := mkAccessibleNodes {
  an_node : Node;
  an_arrivalTime : Z;
  an_totalTravelTime : Z;
  an_numberOfTransfers : Z
}.

Record AllNodesResult := mkAllNodesResult {
  all_nodes : list AccessibleNodes;
  numberOfReachableNodes : Z;
  totalNodeCount : Z
}.

(** [AlternativesResult]. *)
Record AlternativesResult := mkAlternativesResult {
  totalAlternativesCalculated : Z;
  alternatives : list SingleCalculationResult
}.

(** ** Visitors *)

(** A [StepVisitor<T>] keeps a state of type [S] from one step to the next. *)
Record StepVisitor (S T : Type) := mkStepVisitor {
  visitBoardingStep : Trip -> Z -> Z -> Node -> Z -> Z -> S -> S;
  visitUnboardingStep : Trip -> Z -> Z -> Node -> Z -> Z -> Z -> S -> S;
  visitWalkingStep : walking_step_type -> Z -> Z -> Z -> Z -> Z -> S -> S;
  step_getResult : S -> T
}.
Arguments mkStepVisitor {S T}.
Arguments visitBoardingStep {S T}.
Arguments visitUnboardingStep {S T}.
Arguments visitWalkingStep {S T}.
Arguments step_getResult {S T}.

(** [RoutingStep::accept]: what the visitor returns, and its state. *)
Definition step_accept {S T} (visitor : StepVisitor S T) (step : RoutingStep) (s : S) : T * S :=
  let s' :=
    match step with
    | BoardingStep trip leg stop node departureTime waitingTime =>
        visitBoardingStep visitor trip leg stop node departureTime waitingTime s
    | UnboardingStep trip leg stop node arrivalTime inVehicleTime distance =>
        visitUnboardingStep visitor trip leg stop node arrivalTime inVehicleTime distance s
    | WalkingStep walkingType travelTime distance departureTime arrivalTime ready =>
        visitWalkingStep visitor walkingType travelTime distance departureTime arrivalTime ready s
    end in
  (step_getResult visitor s', s').

(** The hierarchy of [RoutingResult], and its visitors. *)
Inductive RoutingResult :=
| SINGLE_CALCULATION (result : SingleCalculationResult)
| ALTERNATIVES (result : AlternativesResult)
| ALL_NODES (result : AllNodesResult).

Record ResultVisitor (S T : Type) := mkResultVisitor {
  visitSingleCalculationResult : SingleCalculationResult -> S -> S;
  visitAlternativesResult : AlternativesResult -> S -> S;
  visitAllNodesResult : AllNodesResult -> S -> S;
  getResult : S -> T
}.
Arguments mkResultVisitor {S T}.
Arguments visitSingleCalculationResult {S T}.
Arguments visitAlternativesResult {S T}.
Arguments visitAllNodesResult {S T}.
Arguments getResult {S T}.

(** [RoutingResult::accept]. *)
Definition result_accept {S T} (visitor : ResultVisitor S T) (result : RoutingResult) (s : S) : T * S :=
  let s' :=
    match result with
    | SINGLE_CALCULATION r => visitSingleCalculationResult visitor r s
    | ALTERNATIVES r => visitAlternativesResult visitor r s
    | ALL_NODES r => visitAllNodesResult visitor r s
    end in
  (getResult visitor s', s').

(** The trips that the steps board, in order. *)
Definition boarded_trips (l : list RoutingStep) : list Trip :=
  omap (fun step => match step with BoardingStep trip _ _ _ _ _ => Some trip | _ => None end) l.

Lemma boarded_app l1 l2 : boarded_trips (l1 ++ l2) = boarded_trips l1 ++ boarded_trips l2.
Proof. apply omap_app. Qed.

(** ** Following the journey steps back *)

(** [while (step.hasConnections()) { visit(step); last = next; step = table.at(last.uid); }]:
    the four functions that recreate a journey hold this loop, with a [visit] each.
    The result is what was visited and the last node, if any. *)
Section Unwind.
Context {A : Type} (next : Connection -> Connection -> uid) (table : list JourneyStep)
  (visit : JourneyStep -> A -> calc A).

Fixpoint unwind (fuel : nat) (j : JourneyStep) (acc : A) (last : option uid) : calc (A * option uid) :=
  match getFinalEnterConnection j, getFinalExitConnection j with
  | Some enter, Some exit =>
      match fuel with
      | O => Throw OutOfFuel
      | S fuel' =>
          acc' ← visit j acc;
          j' ← vec_at table (next enter exit);
          unwind fuel' j' acc' (Some (next enter exit))
      end
  | _, _ => Ok (acc, last)
  end.

(** One round for each entry of the table, and one for the step it starts with. *)
Definition unwind_fuel : nat := S (length table).

(** The step that follows [j], if [j] is a ride. *)
Definition follows (j : JourneyStep) (n : uid) : Prop :=
  exists e x, getFinalEnterConnection j = Some e /\ getFinalExitConnection j = Some x /\ n = next e x.

(** The steps a loop that starts at [j] visits, and the last node it leaves. *)
Inductive chain : JourneyStep -> list JourneyStep -> option uid -> Prop :=
| chain_end j : hasConnections j = false -> chain j [] None
| chain_ride j j' n path last :
    follows j n -> table !! n = Some j' -> chain j' path last ->
    chain j (j :: path) (Some (default n last)).

Lemma follows_dec j : hasConnections j = false \/ exists n, follows j n.
Proof.
  destruct (hasConnections j) eqn:E; [right|by left].
  apply hasConnections_spec in E as (e & x & He & Hx). exists (next e x), e, x. done.
Qed.

Lemma unwind_chain j path last :
  chain j path last -> forall fuel acc last0, (length path <= fuel)%nat ->
  unwind fuel j acc last0 =
    acc' ← for_each visit path acc;
    Ok (acc', match last with Some n => Some n | None => last0 end).
Proof.
  induction 1 as [j Hj | j j' n path last (e & x & He & Hx & ->) Hn _ IH]; intros fuel acc last0 Hf.
  - unfold hasConnections in Hj. destruct fuel; cbn;
      destruct (getFinalEnterConnection j), (getFinalExitConnection j); cbn in Hj; done.
  - destruct fuel as [|fuel]; cbn in Hf; [lia|]. cbn [unwind for_each]. rewrite He, Hx.
    destruct (visit j acc) as [acc'|]; [|done]. cbn. unfold vec_at. rewrite Hn. cbn.
    rewrite IH by lia. destruct (for_each visit path acc'); [|done]. cbn. by destruct last.
Qed.

(** If every ride leads to an entry of lower rank, no entry is met twice and the
    loop ends within its fuel. *)
Section Ends.
Context (rank : uid -> Z) (P : JourneyStep -> Prop)
  (Hclosed : forall j n, P j -> follows j n -> exists j', table !! n = Some j' /\ P j')
  (Hrank : forall m j n, table !! m = Some j -> P j -> follows j n -> rank n < rank m).

Lemma chain_from_entry k : forall seen n j,
  (length table <= k + length seen)%nat -> table !! n = Some j -> P j -> NoDup (n :: seen) ->
  Forall (fun m => (m < length table)%nat) seen -> Forall (fun m => rank n < rank m) seen ->
  exists path last, chain j path last /\ (length path + length seen < length table)%nat.
Proof.
  induction k as [|k IH]; intros seen n j Hk Hn Hj Hnd Hb Hr;
    (assert (length (n :: seen) <= length table)%nat as Hlt
      by (apply NoDup_bounded_length; [done|]; constructor; [by apply lookup_lt_Some in Hn|done]));
    cbn in Hk, Hlt; [lia|].
  destruct (follows_dec j) as [Hend | [n' Hf]].
  - exists [], None. split; [by constructor | cbn; lia].
  - destruct (Hclosed j n' Hj Hf) as (j' & Hn' & Hj'). pose proof (Hrank n j n' Hn Hj Hf).
    destruct (IH (n :: seen) n' j') as (path & last & Hc & Hlen); [cbn; lia|done|done| | | |].
    + constructor; [|done]. intros [->|Hin]%elem_of_cons; [lia|].
      rewrite Forall_forall in Hr. specialize (Hr _ Hin). lia.
    + constructor; [by apply lookup_lt_Some in Hn|done].
    + constructor; [done|]. eapply Forall_impl; [exact Hr|]. cbn. lia.
    + exists (j :: path), (Some (default n' last)). split; [by econstructor | cbn in *; lia].
Qed.

Lemma chain_exists j :
  P j -> exists path last, chain j path last /\ (length path <= unwind_fuel)%nat.
Proof.
  intros Hj. unfold unwind_fuel. destruct (follows_dec j) as [Hend | [n Hf]].
  - exists [], None. split; [by constructor | cbn; lia].
  - destruct (Hclosed j n Hj Hf) as (j' & Hn & Hj').
    destruct (chain_from_entry (length table) [] n j') as (path & last & Hc & Hlen);
      [cbn; lia|done|done|by repeat constructor; set_solver|constructor|constructor|].
    exists (j :: path), (Some (default n last)). split; [by econstructor | cbn in *; lia].
Qed.
End Ends.

Lemma chain_last j path last :
  chain j path last -> path <> [] ->
  exists n j', last = Some n /\ table !! n = Some j' /\ hasConnections j' = false.
Proof.
  induction 1 as [|j j' n path last Hf Hn Hc IH]; [done|]. intros _.
  destruct Hc as [j' Hj'|j' j'' n' path last Hf' Hn' Hc]; [by exists n, j'|].
  destruct IH as (m & j0 & Hm & ?); [done|]. exists m, j0. cbn. split; [congruence|done].
Qed.

Lemma chain_all (Q : JourneyStep -> Prop) j path last :
  (forall j n j', Q j -> follows j n -> table !! n = Some j' -> Q j') ->
  Q j -> chain j path last -> Forall (fun s => Q s /\ hasConnections s = true) path.
Proof.
  intros Hq Hj Hc. induction Hc as [|j j' n path last Hf Hn _ IH]; [constructor|].
  constructor; [|eauto]. split; [done|]. destruct Hf as (e & x & He & Hx & _).
  apply hasConnections_spec. eauto.
Qed.
End Unwind.

(** ** The loop over a journey *)

(** The local variables that live from one journey step to the next. *)
Record Totals := mkTotals {
  totalInVehicleTime : Z;
  totalWalkingTime : Z;
  totalWaitingTime : Z;
  totalTransferWalkingTime : Z;
  totalTransferWaitingTime : Z;
  totalDistance : Z;
  totalInVehicleDistance : Z;
  totalWalkingDistance : Z;
  totalTransferDistance : Z;
  transferArrivalTime : Z;
  arrivalTime : Z;
  numberOfTransfers : Z;
  accessWalkingTime : Z;
  accessDistance : Z;
  accessWaitingTime : Z;
  egressWalkingTime : Z;
  egressDistance : Z;
  minimizedDepartureTime : Z;
  steps : list RoutingStep;
  legs : list Leg
}.

(** Their initial values; both distances of transfers start at [-1] and at 0 as written. *)
Definition Totals_init : Totals :=
  mkTotals 0 0 0 0 0 0 0 0 (-1) (-1) (-1) (-1) (-1) 0 (-1) (-1) 0 (-1) [] [].

(** [for (seqI = boardingSequence - 1; seqI < unboardingSequence; seqI++)
    inVehicleDistance += segmentsDistanceMeters[seqI];] *)
Fixpoint sum_segments (distances : list Z) (seqI : Z) (n : nat) (acc : Z) : calc Z :=
  match n with
  | O => Ok acc
  | S n' =>
      if seqI <? 0 then Throw Undefined
      else d ← vec_get distances (Z.to_nat seqI); sum_segments distances (seqI + 1) n' (acc + d)
  end.

(** [boardingSequence - 1 .. unboardingSequence - 1], if the path has distances;
    the test compares with a [size_t], so a negative index is out of range. *)
Definition ride_distance (distances : list Z) (boardingSequence unboardingSequence : Z)
    : calc (option Z) :=
  if (0 <=? unboardingSequence - 1) && (unboardingSequence - 1 <? Z.of_nat (length distances)) then
    d ← sum_segments distances (boardingSequence - 1)
          (Z.to_nat (unboardingSequence - (boardingSequence - 1))) 0;
    Ok (Some d)
  else Ok None.

Section Journey.
(** [forward] tells [forwardJourneyStep] from [reverseJourneyStep], and
    [startTime] is [departureTimeSeconds], or [bestDepartureTime]. *)
Context (forward : bool) (startTime minWaitingTimeSeconds : Z) (journey : list JourneyStep).

(** [getMinWaitingTimeOrDefault] of the enter connection of [journey[i+1]], if any. *)
Definition next_wait (i : nat) : Z :=
  match journey !! S i with
  | Some next =>
      match getFinalEnterConnection next with
      | Some e => getMinWaitingTimeOrDefault e minWaitingTimeSeconds
      | None => 0
      end
  | None => 0
  end.

(** The branch [if (journeyStep.hasConnections())]: a ride. *)
Definition ride_step (i : nat) (j : JourneyStep) (enter exit : Connection) (t : Totals) : calc Totals :=
  trip ← opt_value (getFinalTrip j);
  let transferTime := getTransferTravelTime j in
  let distance := getTransferDistance j in
  let departureTime := getDepartureTime enter in
  let arrival := getArrivalTime exit in
  let boardingSequence := getSequenceInTrip enter in
  let unboardingSequence := getSequenceInTrip exit in
  let inVehicleTime := arrival - departureTime in
  let waitingTime := departureTime - transferArrivalTime t in
  let transferArrival := arrival + transferTime in
  let transferReady := transferArrival + next_wait i in
  let transferable := isTransferable (line_mode (trip_line trip)) in
  dist ← ride_distance (segmentsDistanceMeters (trip_path trip)) boardingSequence unboardingSequence;
  let inVehicleDistance := default (-1) dist in
  let total := match dist with Some d => totalDistance t + d | None => -1 end in
  let onFoot (base extra : Z) :=
    match dist with Some _ => if transferable then base + extra else base | None => base end in
  let inVehicle :=
    match dist with
    | Some d => if transferable then totalInVehicleDistance t else totalInVehicleDistance t + d
    | None => -1
    end in
  let first := (i =? 1)%nat in
  let minimized :=
    if forward && first then
      departureTime - accessWalkingTime t - getMinWaitingTimeOrDefault enter minWaitingTimeSeconds
    else minimizedDepartureTime t in
  let last := negb (i <? length journey - 2)%nat in
  Ok (mkTotals
    (totalInVehicleTime t + inVehicleTime)
    (onFoot (totalWalkingTime t) inVehicleTime + (if last then 0 else transferTime))
    (totalWaitingTime t + waitingTime)
    (onFoot (totalTransferWalkingTime t) inVehicleTime + (if last then 0 else transferTime))
    (if first then totalTransferWaitingTime t else totalTransferWaitingTime t + waitingTime)
    (if negb last && negb (total =? -1) then total + distance else total)
    inVehicle
    (onFoot (totalWalkingDistance t) inVehicleDistance + (if last then 0 else distance))
    (onFoot (totalTransferDistance t) inVehicleDistance + (if last then 0 else distance))
    transferArrival
    arrival
    (if transferable then numberOfTransfers t else numberOfTransfers t + 1)
    (accessWalkingTime t)
    (accessDistance t)
    (if first then waitingTime else accessWaitingTime t)
    (egressWalkingTime t)
    (egressDistance t)
    minimized
    (steps t ++
       [BoardingStep trip boardingSequence boardingSequence (getDepartureNode enter)
          (if forward then minimized else departureTime) waitingTime;
        UnboardingStep trip unboardingSequence (unboardingSequence + 1) (getArrivalNode exit)
          arrival inVehicleTime inVehicleDistance] ++
       (if last then []
        else [WalkingStep TRANSFER transferTime distance arrival transferArrival transferReady]))
    (legs t ++ [mkLeg trip (boardingSequence - 1) (unboardingSequence - 1)])).

(** The branch [else]: access, or egress. *)
Definition walk_step (i : nat) (j : JourneyStep) (t : Totals) : Totals :=
  let transferTime := getTransferTravelTime j in
  let distance := getTransferDistance j in
  let total := if negb (totalDistance t =? -1) then totalDistance t + distance else totalDistance t in
  let walkingDistance := totalWalkingDistance t + distance in
  if (i =? 0)%nat then
    let transferArrival := startTime + transferTime in
    mkTotals (totalInVehicleTime t) (totalWalkingTime t + transferTime) (totalWaitingTime t)
      (totalTransferWalkingTime t) (totalTransferWaitingTime t) total (totalInVehicleDistance t)
      walkingDistance (totalTransferDistance t) transferArrival (arrivalTime t)
      (numberOfTransfers t) transferTime distance (accessWaitingTime t) (egressWalkingTime t)
      (egressDistance t) (minimizedDepartureTime t)
      (steps t ++ [WalkingStep ACCESS transferTime distance startTime transferArrival
                     (transferArrival + next_wait i)])
      (legs t)
  else
    let transferArrival := arrivalTime t + transferTime in
    mkTotals (totalInVehicleTime t) (totalWalkingTime t + transferTime) (totalWaitingTime t)
      (totalTransferWalkingTime t) (totalTransferWaitingTime t) total (totalInVehicleDistance t)
      walkingDistance (totalTransferDistance t) transferArrival transferArrival
      (numberOfTransfers t) (accessWalkingTime t) (accessDistance t) (accessWaitingTime t)
      transferTime distance (minimizedDepartureTime t)
      (steps t ++ [WalkingStep EGRESS transferTime distance (arrivalTime t) transferArrival (-1)])
      (legs t).

Definition journey_step (i : nat) (j : JourneyStep) (t : Totals) : calc Totals :=
  match getFinalEnterConnection j, getFinalExitConnection j with
  | Some enter, Some exit => ride_step i j enter exit t
  | _, _ => Ok (walk_step i j t)
  end.

(** [for (auto & journeyStep : journey) { ...; i++; }] *)
Definition journey_totals : calc Totals :=
  for_each (fun '(i, j) t => journey_step i j t) (zip (seq 0 (length journey)) journey) Totals_init.

(** The assignments to the fields of the result. *)
Definition journey_result : calc SingleCalculationResult :=
  t ← journey_totals;
  let departureTime := if forward then minimizedDepartureTime t else startTime in
  Ok (mkSingleCalculationResult
        departureTime
        (arrivalTime t)
        (arrivalTime t - departureTime)
        (totalDistance t)
        (totalInVehicleTime t)
        (totalInVehicleDistance t)
        (totalWalkingTime t)
        (totalWalkingDistance t)
        (numberOfTransfers t + 1)
        (if numberOfTransfers t =? -1 then 0 else numberOfTransfers t)
        (totalTransferWalkingTime t)
        (totalTransferDistance t)
        (accessWalkingTime t)
        (accessDistance t)
        (egressWalkingTime t)
        (egressDistance t)
        (totalTransferWaitingTime t)
        (accessWaitingTime t)
        (totalWaitingTime t)
        (steps t)
        (legs t)).
End Journey.
