(* ===== verification/ConnectionSet.v ===== *)
(** * The connection set of a scenario and its cache of starting points by hour

    [connection_set.hpp] and [connection_set.cpp]. A [const_iterator] into a vector
    of connections is its position, [cend()] the length of the vector. The two
    [while] loops of [generateConnectionsIteratorCache] run on fuel; [forward_fill_exit]
    and [reverse_fill_exit] show that the fuel given is enough for their exit
    conditions to hold. *)

From Stdlib Require Import ZArith Lia Sorted.
From stdpp Require Import base list gmap strings.
From S2P Require Import Prelude.
From S2P Require Import Data.

Local Open Scope Z_scope.

Definition CONNECTION_ITERATOR_CACHE_BEGIN_HOUR : Z := 0.
Definition CONNECTION_ITERATOR_CACHE_END_HOUR : Z := 32.

(** [ConnectionSet] of [connection_set.hpp]. *)
Record ConnectionSet := mkConnectionSet {
  getTrips : list Trip;
  getForwardConnections : list Connection;
  getReverseConnections : list Connection;
  forwardConnectionsBeginIteratorCache : list nat;
  reverseConnectionsBeginIteratorCache : list nat
}.

(** [while (dep >= currentHour * 3600) { cache.push_back(ite); currentHour++; }] *)
Fixpoint forward_fill (fuel : nat) (dep : Z) (ite : nat) (currentHour : Z) (cache : list nat)
    : Z * list nat :=
  match fuel with
  | O => (currentHour, cache)
  | S fuel' =>
      if dep >=? currentHour * 3600
      then forward_fill fuel' dep ite (currentHour + 1) (cache ++ [ite])
      else (currentHour, cache)
  end.

Definition forward_fuel (dep currentHour : Z) : nat := Z.to_nat (dep / 3600 + 1 - currentHour).

(** The loop over the forward connections. *)
Fixpoint forward_scan (l : list Connection) (ite : nat) (currentHour : Z) (cache : list nat)
    : Z * list nat :=
  match l with
  | [] => (currentHour, cache)
  | c :: l' =>
      let dep := getDepartureTime c in
      let '(hour', cache') := forward_fill (forward_fuel dep currentHour) dep ite currentHour cache in
      forward_scan l' (S ite) hour' cache'
  end.

(** The rest of the forward cache, up to the last hour, is [cend()]. *)
Definition generateForwardCache (forwardConnections : list Connection) : list nat :=
  let '(currentHour, cache) :=
    forward_scan forwardConnections 0 CONNECTION_ITERATOR_CACHE_BEGIN_HOUR [] in
  cache ++ replicate (Z.to_nat (CONNECTION_ITERATOR_CACHE_END_HOUR - currentHour))
             (length forwardConnections).

(** [while (arr <= currentHour * 3600 && currentHour > 0) { cache.insert(begin, ite); currentHour--; }] *)
Fixpoint reverse_fill (fuel : nat) (arr : Z) (ite : nat) (currentHour : Z) (cache : list nat)
    : Z * list nat :=
  match fuel with
  | O => (currentHour, cache)
  | S fuel' =>
      if (arr <=? currentHour * 3600) && (currentHour >? CONNECTION_ITERATOR_CACHE_BEGIN_HOUR)
      then reverse_fill fuel' arr ite (currentHour - 1) (ite :: cache)
      else (currentHour, cache)
  end.

Definition reverse_fuel (currentHour : Z) : nat := Z.to_nat currentHour.

Fixpoint reverse_scan (l : list Connection) (ite : nat) (currentHour : Z) (cache : list nat)
    : Z * list nat :=
  match l with
  | [] => (currentHour, cache)
  | c :: l' =>
      let '(hour', cache') :=
        reverse_fill (reverse_fuel currentHour) (getArrivalTime c) ite currentHour cache in
      reverse_scan l' (S ite) hour' cache'
  end.

Definition generateReverseCache (reverseConnections : list Connection) : list nat :=
  let '(currentHour, cache) :=
    reverse_scan reverseConnections 0 (CONNECTION_ITERATOR_CACHE_END_HOUR - 1) [] in
  replicate (Z.to_nat (currentHour - CONNECTION_ITERATOR_CACHE_BEGIN_HOUR + 1))
    (length reverseConnections) ++ cache.

(** The constructor, with [generateConnectionsIteratorCache]. *)
Definition ConnectionSet_new (trips : list Trip) (fwd rev : list Connection) : ConnectionSet :=
  mkConnectionSet trips fwd rev (generateForwardCache fwd) (generateReverseCache rev).

Definition getForwardConnectionsBeginAtDepartureHour (cs : ConnectionSet) (hour : Z) : calc nat :=
  if (hour >? CONNECTION_ITERATOR_CACHE_END_HOUR) || (hour <? CONNECTION_ITERATOR_CACHE_BEGIN_HOUR)
  then Ok (length (getForwardConnections cs))
  else vec_get (forwardConnectionsBeginIteratorCache cs) (Z.to_nat hour).

Definition getReverseConnectionsBeginAtArrivalHour (cs : ConnectionSet) (hour : Z) : calc nat :=
  if hour <? CONNECTION_ITERATOR_CACHE_BEGIN_HOUR
  then Ok (length (getReverseConnections cs))
  else if hour >? CONNECTION_ITERATOR_CACHE_END_HOUR - 1
  then Ok 0%nat
  else vec_get (reverseConnectionsBeginIteratorCache cs) (Z.to_nat hour).

(** The vectors of a connection set are sorted as its comments say. *)
Definition forward_sorted (l : list Connection) : Prop :=
  StronglySorted (fun a b => getDepartureTime a <= getDepartureTime b) l.
Definition reverse_sorted (l : list Connection) : Prop :=
  StronglySorted (fun a b => getArrivalTime a >= getArrivalTime b) l.

(** Position [k] is the first of [l] whose element satisfies [P], or the end. *)
Definition first_at {A} (P : A -> Prop) (l : list A) (k : nat) : Prop :=
  Forall (fun x => ~ P x) (take k l) /\ (forall x, l !! k = Some x -> P x) /\ (k <= length l)%nat.

(** ** The loops *)

Lemma forward_fill_exit dep ite hour cache fuel hour' cache' :
  (forward_fuel dep hour <= fuel)%nat ->
  forward_fill fuel dep ite hour cache = (hour', cache') ->
  hour <= hour' /\ (hour < hour' -> (hour' - 1) * 3600 <= dep) /\ dep < hour' * 3600 /\
  cache' = cache ++ replicate (Z.to_nat (hour' - hour)) ite.
Proof.
  unfold forward_fuel. revert hour cache.
  induction fuel as [|fuel IH]; intros hour cache Hf H; cbn in H.
  - injection H as <- <-. rewrite Z.sub_diag, app_nil_r.
    pose proof (Z.mul_succ_div_gt dep 3600 ltac:(lia)). split_and!; [lia..|done].
  - destruct (Z.geb_spec dep (hour * 3600)).
    + apply IH in H as (H1 & H2 & H3 & ->); [|lia]. split_and!; [lia| |lia|].
      * destruct (decide (hour + 1 < hour')); [auto|]. intros _.
        replace hour' with (hour + 1) by lia. lia.
      * rewrite <- app_assoc. f_equal.
        by replace (Z.to_nat (hour' - hour)) with (S (Z.to_nat (hour' - (hour + 1)))) by lia.
    + injection H as <- <-. rewrite Z.sub_diag, app_nil_r. split_and!; [lia..|done].
Qed.

Lemma reverse_fill_exit arr ite hour cache fuel hour' cache' :
  0 <= hour -> (reverse_fuel hour <= fuel)%nat ->
  reverse_fill fuel arr ite hour cache = (hour', cache') ->
  0 <= hour' <= hour /\ (hour' < hour -> arr <= (hour' + 1) * 3600) /\
  (0 < hour' -> hour' * 3600 < arr) /\
  cache' = replicate (Z.to_nat (hour - hour')) ite ++ cache.
Proof.
  unfold reverse_fuel, CONNECTION_ITERATOR_CACHE_BEGIN_HOUR. revert hour cache.
  induction fuel as [|fuel IH]; intros hour cache Hh Hf H; cbn in H.
  - injection H as <- <-. rewrite Z.sub_diag. split_and!; [lia..|done].
  - unfold CONNECTION_ITERATOR_CACHE_BEGIN_HOUR in H.
    destruct (Z.leb_spec arr (hour * 3600)), (Z.gtb_spec hour 0); cbn in H;
      try (injection H as <- <-; rewrite Z.sub_diag; split_and!; [lia..|done]).
    apply IH in H as (Ha & Hb & Hc & ->); [|lia..]. split_and!; [lia|lia| |done|].
    + destruct (decide (hour' < hour - 1)); [auto|]. intros _.
      replace hour' with (hour - 1) by lia. lia.
    + replace (Z.to_nat (hour - hour')) with (Z.to_nat (hour - 1 - hour') + 1)%nat by lia.
      rewrite replicate_add, <- app_assoc. done.
Qed.

Lemma first_at_nil {A} (P : A -> Prop) l :
  Forall (fun x => ~ P x) l -> first_at P l (length l).
Proof.
  intros H. split_and!; [by rewrite firstn_all | | done].
  intros x Hx. apply lookup_lt_Some in Hx. lia.
Qed.

Lemma first_at_app {A} (P : A -> Prop) pre x post :
  Forall (fun y => ~ P y) pre -> P x -> first_at P (pre ++ x :: post) (length pre).
Proof.
  intros Hpre Hx. split_and!.
  - by rewrite take_app_length.
  - intros y. rewrite list_lookup_middle by done. by intros [= <-].
  - rewrite length_app. lia.
Qed.

(** Entry [h] of the forward cache is the first connection that leaves at or after hour [h]. *)
Definition departs_from (h : Z) (c : Connection) : Prop := h * 3600 <= getDepartureTime c.
Definition arrives_by (h : Z) (c : Connection) : Prop := getArrivalTime c <= h * 3600.

Lemma forward_scan_spec l :
  forall pre rest hour cache hour' cache',
  l = pre ++ rest -> 0 <= hour -> length cache = Z.to_nat hour ->
  (forall i k, cache !! i = Some k -> first_at (departs_from (Z.of_nat i)) l k) ->
  Forall (fun c => getDepartureTime c < hour * 3600) pre ->
  forward_scan rest (length pre) hour cache = (hour', cache') ->
  0 <= hour' /\ length cache' = Z.to_nat hour' /\
  (forall i k, cache' !! i = Some k -> first_at (departs_from (Z.of_nat i)) l k) /\
  Forall (fun c => getDepartureTime c < hour' * 3600) l.
Proof.
  intros pre rest. revert pre.
  induction rest as [|c rest IH]; intros pre hour cache hour' cache' Hl Hh Hlen Hc Hpre H; cbn in H.
  - injection H as <- <-. rewrite app_nil_r in Hl. by subst l.
  - destruct (forward_fill _ _ _ _ _) as [h1 c1] eqn:E.
    apply forward_fill_exit in E as (H1 & H2 & H3 & ->); [|done].
    replace (S (length pre)) with (length (pre ++ [c])) in H by (rewrite length_app; cbn; lia).
    eapply (IH (pre ++ [c])); [| | | | |exact H].
    + by rewrite <- app_assoc.
    + lia.
    + rewrite length_app, length_replicate. lia.
    + intros i k. rewrite lookup_app_Some. intros [Hk | [Hge Hk]]; [by apply Hc|].
      apply lookup_replicate in Hk as [-> Hk]. subst l. apply first_at_app.
      * eapply Forall_impl; [exact Hpre|]. unfold departs_from. intros x Hx. cbn in Hx. nia.
      * unfold departs_from. nia.
    + apply Forall_app. split; [|by repeat constructor].
      eapply Forall_impl; [exact Hpre|]. cbn. intros. nia.
Qed.

Lemma forward_scan_hour_le bound l ite hour cache hour' cache' :
  Forall (fun c => getDepartureTime c < bound * 3600) l -> hour <= bound ->
  forward_scan l ite hour cache = (hour', cache') -> hour' <= bound.
Proof.
  revert ite hour cache. induction l as [|c l IH]; intros ite hour cache Hall Hle H; cbn in H.
  - by injection H as <- <-.
  - inversion Hall as [|? ? Hc Hl]; subst.
    destruct (forward_fill _ _ _ _ _) as [h1 c1] eqn:E.
    apply forward_fill_exit in E as (Ha & Hb & _ & _); [|done].
    eapply IH; [done| |exact H]. destruct (decide (hour < h1)); [|lia].
    specialize (Hb ltac:(done)). nia.
Qed.

Lemma reverse_scan_spec l :
  forall pre rest hour cache hour' cache',
  l = pre ++ rest -> 0 <= hour <= 31 -> Z.of_nat (length cache) = 31 - hour ->
  (forall i k, cache !! i = Some k -> first_at (arrives_by (hour + 1 + Z.of_nat i)) l k) ->
  (0 < hour -> Forall (fun c => hour * 3600 < getArrivalTime c) pre) ->
  reverse_scan rest (length pre) hour cache = (hour', cache') ->
  0 <= hour' <= 31 /\ Z.of_nat (length cache') = 31 - hour' /\
  (forall i k, cache' !! i = Some k -> first_at (arrives_by (hour' + 1 + Z.of_nat i)) l k) /\
  (0 < hour' -> Forall (fun c => hour' * 3600 < getArrivalTime c) l).
Proof.
  intros pre rest. revert pre.
  induction rest as [|c rest IH]; intros pre hour cache hour' cache' Hl Hh Hlen Hc Hpre H; cbn in H.
  - injection H as <- <-. rewrite app_nil_r in Hl. by subst l.
  - destruct (reverse_fill _ _ _ _ _) as [h1 c1] eqn:E.
    apply reverse_fill_exit in E as (H1 & H2 & H3 & ->); [|lia|done].
    replace (S (length pre)) with (length (pre ++ [c])) in H by (rewrite length_app; cbn; lia).
    eapply (IH (pre ++ [c])); [| | | | |exact H].
    + by rewrite <- app_assoc.
    + lia.
    + rewrite length_app, length_replicate. lia.
    + intros i k. rewrite lookup_app_Some, length_replicate. intros [Hk | [Hge Hk]].
      * apply lookup_replicate in Hk as [-> Hk]. subst l. apply first_at_app.
        -- eapply Forall_impl; [apply Hpre; lia|]. unfold arrives_by. intros x Hx. cbn in Hx. nia.
        -- unfold arrives_by. nia.
      * specialize (Hc _ _ Hk).
        by replace (h1 + 1 + Z.of_nat i) with (hour + 1 + Z.of_nat (i - Z.to_nat (hour - h1))) by lia.
    + intros Hpos. apply Forall_app. split; [|by repeat constructor; auto].
      eapply Forall_impl; [apply Hpre; lia|]. cbn. intros. nia.
Qed.

Lemma generateForwardCache_spec l :
  (32 <= length (generateForwardCache l))%nat /\
  (forall i k, generateForwardCache l !! i = Some k -> first_at (departs_from (Z.of_nat i)) l k) /\
  (Forall (fun c => getDepartureTime c < 32 * 3600) l -> length (generateForwardCache l) = 32%nat).
Proof.
  unfold generateForwardCache, CONNECTION_ITERATOR_CACHE_END_HOUR,
    CONNECTION_ITERATOR_CACHE_BEGIN_HOUR.
  destruct (forward_scan l 0 0 []) as [hour cache] eqn:E. pose proof E as E'.
  apply (forward_scan_spec l []) in E as (H0 & Hlen & Hc & Hall); [|done|done|done| |done].
  2: { intros i k. by rewrite lookup_nil. }
  rewrite length_app, length_replicate. split_and!; [lia| |].
  - intros i k. rewrite lookup_app_Some. intros [Hk | [Hge Hk]]; [by apply Hc|].
    apply lookup_replicate in Hk as [-> Hk]. apply first_at_nil.
    eapply Forall_impl; [exact Hall|]. unfold departs_from. intros x Hx. cbn in Hx. nia.
  - intros Hl. enough (hour <= 32) by lia.
    eapply (forward_scan_hour_le 32 l 0 0); [done | done | exact E'].
Qed.

Lemma generateReverseCache_spec l :
  length (generateReverseCache l) = 32%nat /\
  generateReverseCache l !! 0%nat = Some (length l) /\
  (forall i k, (0 < i)%nat -> generateReverseCache l !! i = Some k ->
     first_at (arrives_by (Z.of_nat i)) l k).
Proof.
  unfold generateReverseCache, CONNECTION_ITERATOR_CACHE_END_HOUR,
    CONNECTION_ITERATOR_CACHE_BEGIN_HOUR.
  destruct (reverse_scan l 0 (32 - 1) []) as [hour cache] eqn:E.
  apply (reverse_scan_spec l []) in E as (H0 & Hlen & Hc & Hall); [|done|done|done| |done].
  2: { intros i k. by rewrite lookup_nil. }
  rewrite length_app, length_replicate. split_and!; [lia| |].
  - rewrite lookup_app_l by (rewrite length_replicate; lia). apply lookup_replicate. split; [done|lia].
  - intros i k Hi. rewrite lookup_app_Some, length_replicate. intros [Hk | [Hge Hk]].
    + apply lookup_replicate in Hk as [-> Hk]. apply first_at_nil.
      eapply Forall_impl; [apply Hall; lia|]. unfold arrives_by. intros x Hx. cbn in Hx. nia.
    + specialize (Hc _ _ Hk).
      by replace (Z.of_nat i) with (hour + 1 + Z.of_nat (i - Z.to_nat (hour - 0 + 1))) by lia.
Qed.

(** In a sorted list the suffix from the first position of an upward closed
    property is the sublist of the elements that satisfy it. *)
Lemma first_at_drop {A} (R : relation A) (P : A -> Prop) `{!forall x, Decision (P x)} l k :
  StronglySorted R l -> (forall x y, R x y -> P x -> P y) -> first_at P l k ->
  drop k l = filter P l.
Proof.
  intros Hs Hmono (Hbefore & Hat & Hle).
  rewrite <- (take_drop k l) at 2. rewrite filter_app.
  rewrite (filter_none P (take k l)) by done. rewrite app_nil_l.
  destruct (drop k l) as [|x rest] eqn:E; [done|].
  assert (l !! k = Some x) as Hx.
  { rewrite <- (Nat.add_0_r k), <- lookup_drop, E. done. }
  symmetry. apply filter_all. specialize (Hat x Hx).
  rewrite <- (take_drop k l), E in Hs.
  apply StronglySorted_app_inv in Hs as (_ & Hs & _).
  inversion Hs as [|? ? _ Hrest]; subst. constructor; [done|].
  eapply Forall_impl; [exact Hrest|]. eauto.
Qed.

#[export] Instance departs_from_dec h c : Decision (departs_from h c).
Proof. unfold departs_from. apply _. Defined.
#[export] Instance arrives_by_dec h c : Decision (arrives_by h c).
Proof. unfold arrives_by. apply _. Defined.

Section Positions.
Context (trips : list Trip) (fwd rev : list Connection).
Let cs := ConnectionSet_new trips fwd rev.

(** The start of the forward scan for an hour of the cache. *)
Lemma forward_position h :
  forward_sorted fwd -> 0 <= h < 32 ->
  exists k, getForwardConnectionsBeginAtDepartureHour cs h = Ok k /\
            drop k fwd = filter (departs_from h) fwd.
Proof.
  intros Hs Hh. unfold getForwardConnectionsBeginAtDepartureHour,
    CONNECTION_ITERATOR_CACHE_END_HOUR, CONNECTION_ITERATOR_CACHE_BEGIN_HOUR.
  destruct (Z.gtb_spec h 32), (Z.ltb_spec h 0); try lia. cbn.
  destruct (generateForwardCache_spec fwd) as (Hlen & Hc & _).
  destruct (lookup_lt_is_Some_2 (generateForwardCache fwd) (Z.to_nat h)) as [k Hk]; [lia|].
  exists k. split; [by apply vec_get_Ok|]. specialize (Hc _ _ Hk). rewrite Z2Nat.id in Hc by lia.
  eapply first_at_drop; [exact Hs| |exact Hc]. unfold departs_from. intros; lia.
Qed.

(** The start of the reverse scan for an hour of the cache. *)
Lemma reverse_position h :
  reverse_sorted rev -> 0 < h < 32 ->
  exists k, getReverseConnectionsBeginAtArrivalHour cs h = Ok k /\
            drop k rev = filter (arrives_by h) rev.
Proof.
  intros Hs Hh. unfold getReverseConnectionsBeginAtArrivalHour,
    CONNECTION_ITERATOR_CACHE_END_HOUR, CONNECTION_ITERATOR_CACHE_BEGIN_HOUR.
  destruct (Z.gtb_spec h (32 - 1)), (Z.ltb_spec h 0); try lia.
  destruct (generateReverseCache_spec rev) as (Hlen & _ & Hc).
  destruct (lookup_lt_is_Some_2 (generateReverseCache rev) (Z.to_nat h)) as [k Hk]; [lia|].
  exists k. split; [by apply vec_get_Ok|].
  specialize (Hc (Z.to_nat h) k ltac:(lia) Hk). rewrite Z2Nat.id in Hc by lia.
  eapply first_at_drop; [exact Hs| |exact Hc]. unfold arrives_by. intros; lia.
Qed.

(** From there the scan meets every connection that arrives by [arrivalTime]. *)
Lemma reverse_position_time arrivalTime :
  reverse_sorted rev -> 0 <= arrivalTime ->
  exists k, getReverseConnectionsBeginAtArrivalHour cs (arrivalTime ÷ 3600 + 1) = Ok k /\
    forall (P : Connection -> Prop) (Hdec : forall c, Decision (P c)),
      (forall c, P c -> getArrivalTime c <= arrivalTime) -> filter P (drop k rev) = filter P rev.
Proof.
  intros Hs Ht. rewrite Z.quot_div_nonneg by lia.
  pose proof (Z.div_mod arrivalTime 3600 ltac:(lia)).
  pose proof (Z.mod_pos_bound arrivalTime 3600 ltac:(lia)).
  assert (0 <= arrivalTime / 3600) by (apply Z.div_pos; lia).
  destruct (decide (arrivalTime / 3600 + 1 < 32)).
  - destruct (reverse_position (arrivalTime / 3600 + 1)) as (k & Hk & Hdrop); [done|lia|].
    exists k. split; [done|]. intros P ? HP. rewrite Hdrop. apply list_filter_filter_l.
    unfold arrives_by. intros c Hc%HP. lia.
  - exists 0%nat. split; [|done]. unfold getReverseConnectionsBeginAtArrivalHour,
      CONNECTION_ITERATOR_CACHE_END_HOUR, CONNECTION_ITERATOR_CACHE_BEGIN_HOUR.
    destruct (Z.ltb_spec (arrivalTime / 3600 + 1) 0), (Z.gtb_spec (arrivalTime / 3600 + 1) (32 - 1));
      by try lia.
Qed.
End Positions.

(** ** The cache loses no connection *)

Section Skipping.
Context (trips : list Trip) (fwd rev : list Connection).
Let cs := ConnectionSet_new trips fwd rev.

(** C1: For a departure time before 32:00, starting the forward scan at the cached
    position of its hour passes exactly the connections that leave at or after
    that time: none is skipped, whatever the offset [delay >= 0] of the filter. *)
Theorem forward_scan_complete departureTime delay :
  forward_sorted fwd -> 0 <= departureTime < 32 * 3600 -> 0 <= delay ->
  exists k,
    getForwardConnectionsBeginAtDepartureHour cs (departureTime ÷ 3600) = Ok k /\
    filter (fun c => departureTime + delay <= getDepartureTime c) (drop k fwd) =
    filter (fun c => departureTime + delay <= getDepartureTime c) fwd.
Proof.
  intros Hs Ht Hd. rewrite Z.quot_div_nonneg by lia.
  pose proof (Z.div_mod departureTime 3600 ltac:(lia)).
  pose proof (Z.mod_pos_bound departureTime 3600 ltac:(lia)).
  destruct (forward_position trips fwd rev (departureTime / 3600)) as (k & Hk & Hdrop); [done|lia|].
  exists k. split; [done|]. rewrite Hdrop. apply list_filter_filter_l.
  unfold departs_from. intros c Hc. lia.
Qed.

(** C2: For any arrival time, starting the reverse scan at the cached position of
    the following hour skips no connection that arrives by that time. *)
Theorem reverse_scan_complete arrivalTime margin :
  reverse_sorted rev -> 0 <= arrivalTime -> 0 <= margin ->
  exists k,
    getReverseConnectionsBeginAtArrivalHour cs (arrivalTime ÷ 3600 + 1) = Ok k /\
    filter (fun c => getArrivalTime c <= arrivalTime - margin) (drop k rev) =
    filter (fun c => getArrivalTime c <= arrivalTime - margin) rev.
Proof.
  intros Hs Ht Hm.
  destruct (reverse_position_time trips fwd rev arrivalTime Hs Ht) as (k & Hk & Hfil).
  exists k. split; [done|]. apply (Hfil _ _). intros c Hc. lia.
Qed.

(** The cache of a set whose connections all leave before 32:00 has 32
    entries, but [getForwardConnectionsBeginAtDepartureHour] lets hour 32
    through its range check and reads the entry after the last one. *)
Theorem forward_hour_32_undefined :
  Forall (fun c => getDepartureTime c < 32 * 3600) fwd ->
  getForwardConnectionsBeginAtDepartureHour cs 32 = Throw Undefined.
Proof.
  intros Hall. destruct (generateForwardCache_spec fwd) as (_ & _ & Hlen).
  unfold getForwardConnectionsBeginAtDepartureHour, vec_get. cbn.
  rewrite (lookup_ge_None_2 (generateForwardCache fwd)); [done|]. by rewrite Hlen.
Qed.
End Skipping.
