(* ===== verification/ConnectionCache.v ===== *)
(** * The caches of connection sets by scenario

    [connection_cache.hpp] and [connection_cache.cpp]. The abstract class is the
    interface [ScenarioConnectionCache] with the law its client relies on
    ([ScenarioConnectionCacheLaws]: what is found is what was last stored under the
    key); its two implementations are the instances at the end. Each method holds
    the reader/writer lock of its object for its whole body, so a method is one
    atomic step. *)

From Stdlib Require Import ZArith.
From stdpp Require Import base list gmap strings.
From S2P Require Import Prelude.
From S2P Require Import Data.
From S2P Require Import ConnectionSet.

(** The virtual methods of [ScenarioConnectionCache]. *)
Class ScenarioConnectionCache (C : Type) := {
  cache_get : uuid -> C -> option ConnectionSet;
  cache_set : uuid -> ConnectionSet -> C -> C
}.

Class ScenarioConnectionCacheLaws (C : Type) `{ScenarioConnectionCache C} := {
  cache_get_set_eq u cs (c : C) : cache_get u (cache_set u cs c) = Some cs;
  cache_get_set_ne u u' cs cs' (c : C) :
    u <> u' -> cache_get u' (cache_set u cs c) = Some cs' -> cache_get u' c = Some cs'
}.

(** [ScenarioConnectionCacheOne]: the last scenario asked for. A null
    [lastConnection] is [None]; it is only read when [lastUuid] is engaged. *)
Record ScenarioConnectionCacheOne := mkCacheOne {
  lastUuid : option uuid;
  lastConnection : option ConnectionSet
}.

Definition CacheOne_new : ScenarioConnectionCacheOne := mkCacheOne None None.

Definition CacheOne_get (u : uuid) (c : ScenarioConnectionCacheOne) : option ConnectionSet :=
  if bool_decide (lastUuid c = Some u) then lastConnection c else None.

Definition CacheOne_set (u : uuid) (cs : ConnectionSet) (c : ScenarioConnectionCacheOne)
    : ScenarioConnectionCacheOne :=
  mkCacheOne (Some u) (Some cs).

(** [ScenarioConnectionCacheAll]: every scenario asked for. *)
Record ScenarioConnectionCacheAll := mkCacheAll {
  connectionSets : gmap uuid ConnectionSet
}.

Definition CacheAll_new : ScenarioConnectionCacheAll := mkCacheAll ∅.

Definition CacheAll_get (u : uuid) (c : ScenarioConnectionCacheAll) : option ConnectionSet :=
  connectionSets c !! u.

Definition CacheAll_set (u : uuid) (cs : ConnectionSet) (c : ScenarioConnectionCacheAll)
    : ScenarioConnectionCacheAll :=
  mkCacheAll (<[u := cs]> (connectionSets c)).

(** The pointer [TransitData::scenarioConnectionCache]: one of the two, by dynamic dispatch. *)
Inductive AnyScenarioConnectionCache :=
| CacheOne (c : ScenarioConnectionCacheOne)
| CacheAll (c : ScenarioConnectionCacheAll).

#[export] Instance CacheOne_ops : ScenarioConnectionCache ScenarioConnectionCacheOne :=
  { cache_get := CacheOne_get; cache_set := CacheOne_set }.

#[export] Instance CacheAll_ops : ScenarioConnectionCache ScenarioConnectionCacheAll :=
  { cache_get := CacheAll_get; cache_set := CacheAll_set }.

#[export] Instance AnyCache_ops : ScenarioConnectionCache AnyScenarioConnectionCache := {
  cache_get u c :=
    match c with CacheOne c => cache_get u c | CacheAll c => cache_get u c end;
  cache_set u cs c :=
    match c with
    | CacheOne c => CacheOne (cache_set u cs c)
    | CacheAll c => CacheAll (cache_set u cs c)
    end
}.

#[export] Instance CacheOne_laws : ScenarioConnectionCacheLaws ScenarioConnectionCacheOne.
Proof.
  split; cbn; unfold CacheOne_get, CacheOne_set; cbn.
  - intros. by rewrite bool_decide_eq_true_2.
  - intros u u' cs cs' c Hne. rewrite bool_decide_eq_false_2; [done|]. by intros [=].
Qed.

#[export] Instance CacheAll_laws : ScenarioConnectionCacheLaws ScenarioConnectionCacheAll.
Proof.
  split; cbn; unfold CacheAll_get, CacheAll_set; cbn.
  - intros. by rewrite lookup_insert_eq.
  - intros u u' cs cs' c Hne. by rewrite lookup_insert_ne.
Qed.

#[export] Instance AnyCache_laws : ScenarioConnectionCacheLaws AnyScenarioConnectionCache.
Proof.
  split.
  - intros u cs [c|c].
    + exact (cache_get_set_eq (C := ScenarioConnectionCacheOne) u cs c).
    + exact (cache_get_set_eq (C := ScenarioConnectionCacheAll) u cs c).
  - intros u u' cs cs' [c|c].
    + exact (cache_get_set_ne (C := ScenarioConnectionCacheOne) u u' cs cs' c).
    + exact (cache_get_set_ne (C := ScenarioConnectionCacheAll) u u' cs cs' c).
Qed.
