(* ===== verification/TransitData.v ===== *)
(** * The transit data: sorted connections and the connections of a scenario

    [transit_data.hpp] and [transit_data.cpp]. A [std::map] keyed by uuid is the list
    of its values in key order. The [mutable] cache behind [scenarioConnectionCache] is
    not a field: [getConnectionsForScenario] takes it and returns it, against the
    interface of [ConnectionCache.v]. *)

From Stdlib Require Import ZArith Lia Sorted.
From stdpp Require Import base list gmap strings.
From S2P Require Import Prelude.
From S2P Require Import Data.
From S2P Require Import Attempt.
From S2P Require Import ConnectionSet.
From S2P Require Import ConnectionCache.

Local Open Scope Z_scope.

(** [DataStatus]. *)
Inductive DataStatus :=
| READY
| DATA_READ_ERROR
| NO_AGENCIES
| NO_LINES
| NO_PATHS
| NO_SERVICES
| NO_SCENARIOS
| NO_SCHEDULES
| NO_NODES.

(** The static members [Node::global_uid], [Line::global_uid] and [Trip::global_uid]:
    how many objects of each class were constructed. *)
Record Uids := mkUids { node_global_uid : uid; line_global_uid : uid; trip_global_uid : uid }.

(** The containers of [TransitData]. [tripForwardConnections] and
    [tripReverseConnections] hold the two vectors of every [Trip], by uid,
    [tripConnectionDepartureTimes] its vector of times, and [pathTripsRef] the vector
    [Path::tripsRef] of every path, by uuid. The static counters are kept with the one
    [TransitData] of the program. *)
Record TransitData := mkTransitData {
  getModes : list Mode;
  getDataSources : list DataSource;
  getPersons : list Person;
  getOdTrips : list OdTrip;
  getAgencies : list Agency;
  getServices : list Service;
  getNodes : list Node;
  getLines : list Line;
  getPaths : list Path;
  getScenarios : list Scenario;
  getTrips : list Trip;
  connections : list Connection;
  forwardConnections : list Connection;
  reverseConnections : list Connection;
  tripForwardConnections : gmap uid (list Connection);
  tripReverseConnections : gmap uid (list Connection);
  tripConnectionDepartureTimes : gmap uid (list Z);
  pathTripsRef : gmap uuid (list uid);
  uids : Uids
}.

Definition TransitData_empty : TransitData :=
  mkTransitData [] [] [] [] [] [] [] [] [] [] [] [] [] [] ∅ ∅ ∅ ∅ (mkUids 0 0 0).

Definition getDataStatus (td : TransitData) : DataStatus :=
  if (length (getAgencies td) =? 0)%nat then NO_AGENCIES
  else if (length (getServices td) =? 0)%nat then NO_SERVICES
  else if (length (getNodes td) =? 0)%nat then NO_NODES
  else if (length (getLines td) =? 0)%nat then NO_LINES
  else if (length (getPaths td) =? 0)%nat then NO_PATHS
  else if (length (getScenarios td) =? 0)%nat then NO_SCENARIOS
  else if (length (getTrips td) =? 0)%nat then NO_SCHEDULES
  else READY.

(** ** Sorting the connections *)

Definition conn_trip_uuid (c : Connection) : uuid := trip_uuid (getTrip c).

(** The comparator of the forward sort: departure time, trip uuid, sequence. *)
Definition forward_lt (a b : Connection) : bool :=
  if getDepartureTime a <? getDepartureTime b then true
  else if getDepartureTime a >? getDepartureTime b then false
  else if N.ltb (conn_trip_uuid a) (conn_trip_uuid b) then true
  else if N.ltb (conn_trip_uuid b) (conn_trip_uuid a) then false
  else if getSequenceInTrip a <? getSequenceInTrip b then true
  else if getSequenceInTrip a >? getSequenceInTrip b then false
  else false.

(** The comparator of the reverse sort, with every order reversed. *)
Definition reverse_lt (a b : Connection) : bool :=
  if getArrivalTime a >? getArrivalTime b then true
  else if getArrivalTime a <? getArrivalTime b then false
  else if N.ltb (conn_trip_uuid b) (conn_trip_uuid a) then true
  else if N.ltb (conn_trip_uuid a) (conn_trip_uuid b) then false
  else if getSequenceInTrip a >? getSequenceInTrip b then true
  else if getSequenceInTrip a <? getSequenceInTrip b then false
  else false.

(** [trip.forwardConnections.push_back(connection)]. *)
Definition push_trip_connection (m : gmap uid (list Connection)) (c : Connection)
    : gmap uid (list Connection) :=
  let u := trip_uid (getTrip c) in <[u := default [] (m !! u) ++ [c]]> m.

(** [generateForwardAndReverseConnections]: it always returns 0. *)
Definition generateForwardAndReverseConnections (td : TransitData) : Z * TransitData :=
  let fwd := stable_sort forward_lt (connections td) in
  let rev := stable_sort reverse_lt (connections td) in
  (0,
   mkTransitData (getModes td) (getDataSources td) (getPersons td) (getOdTrips td)
     (getAgencies td) (getServices td) (getNodes td) (getLines td) (getPaths td)
     (getScenarios td) (getTrips td) (connections td) fwd rev
     (foldl push_trip_connection (tripForwardConnections td) fwd)
     (foldl push_trip_connection (tripReverseConnections td) rev)
     (tripConnectionDepartureTimes td) (pathTripsRef td) (uids td)).

(** ** The trips of a scenario *)

(** [if (enabled && l.size() > 0) { if (find(l, x) == end) enabled = false; }] *)
Definition require_in {A} (eqb : A -> A -> bool) (l : list A) (x : A) (enabled : bool) : bool :=
  if enabled && negb (length l =? 0)%nat then
    if negb (std_find eqb x l) then false else enabled
  else enabled.

(** [if (enabled && l.size() > 0) { if (find(l, x) != end) enabled = false; }] *)
Definition forbid_in {A} (eqb : A -> A -> bool) (l : list A) (x : A) (enabled : bool) : bool :=
  if enabled && negb (length l =? 0)%nat then
    if std_find eqb x l then false else enabled
  else enabled.

(** The filters of [getConnectionsForScenario]. The two filters on nodes are
    commented out in the source and change nothing. *)
Definition scenario_trip_enabled (scenario : Scenario) (trip : Trip) : bool :=
  let enabled := true in
  let enabled := require_in service_eqb (servicesList scenario) (trip_service trip) enabled in
  let enabled := require_in line_eqb (scenario_onlyLines scenario) (trip_line trip) enabled in
  let enabled := require_in mode_eqb (scenario_onlyModes scenario) (trip_mode trip) enabled in
  let enabled := require_in agency_eqb (scenario_onlyAgencies scenario) (trip_agency trip) enabled in
  let enabled := forbid_in line_eqb (scenario_exceptLines scenario) (trip_line trip) enabled in
  let enabled := forbid_in mode_eqb (scenario_exceptModes scenario) (trip_mode trip) enabled in
  let enabled := forbid_in agency_eqb (scenario_exceptAgencies scenario) (trip_agency trip) enabled in
  enabled.

(** The loop over the trips: [tripsEnabled] and [cachedTrips]. *)
Definition scan_scenario_trip (scenario : Scenario) (st : gmap uid bool * list Trip) (trip : Trip)
    : gmap uid bool * list Trip :=
  let '(tripsEnabled, cachedTrips) := st in
  let enabled := scenario_trip_enabled scenario trip in
  (<[trip_uid trip := enabled]> tripsEnabled,
   if enabled then cachedTrips ++ [trip] else cachedTrips).

(** [tripsEnabled[trip.uid]]: [false] for a trip the map does not hold. *)
Definition connection_enabled (tripsEnabled : gmap uid bool) (c : Connection) : bool :=
  default false (tripsEnabled !! trip_uid (getTrip c)).

Definition computeConnectionsForScenario (td : TransitData) (scenario : Scenario) : ConnectionSet :=
  let '(tripsEnabled, cachedTrips) := foldl (scan_scenario_trip scenario) (∅, []) (getTrips td) in
  ConnectionSet_new cachedTrips
    (filter (fun c => connection_enabled tripsEnabled c = true) (forwardConnections td))
    (filter (fun c => connection_enabled tripsEnabled c = true) (reverseConnections td)).

Section Scenario.
Context {C : Type} `{!ScenarioConnectionCache C}.

(** [getConnectionsForScenario]: the connection set and the cache it leaves. *)
Definition getConnectionsForScenario (td : TransitData) (scenario : Scenario) (cache : C)
    : ConnectionSet * C :=
  match cache_get (scenario_uuid scenario) cache with
  | Some cs => (cs, cache)
  | None =>
      let currentCache := computeConnectionsForScenario td scenario in
      (currentCache, cache_set (scenario_uuid scenario) currentCache cache)
  end.
End Scenario.

(** ** Loading *)

(** What [getSchedules] fills: the trips, the connections, the vectors that hang on
    the paths and the trips, and the count of trips constructed. *)
Record Schedules := mkSchedules {
  sch_trips : list Trip;
  sch_connections : list Connection;
  sch_pathTripsRef : gmap uuid (list uid);
  sch_departureTimes : gmap uid (list Z);
  sch_trip_uid : uid
}.

(** The data access interface [DataFetcher] of [data_fetcher.hpp]: each method is
    given the data it resolves references with, fills a container, and returns a code.
    The constructors of nodes, lines and trips count the objects made. *)
Class DataFetcher := {
  fetcher_getModes : list Mode;
  fetcher_getNodes : attempt (list Node * uid) Z;
  fetcher_getDataSources : attempt (list DataSource) Z;
  fetcher_getPersons : list DataSource -> attempt (list Person) Z;
  fetcher_getOdTrips : list DataSource -> list Person -> list Node -> attempt (list OdTrip) Z;
  fetcher_getAgencies : attempt (list Agency) Z;
  fetcher_getServices : attempt (list Service) Z;
  fetcher_getLines : list Agency -> list Mode -> attempt (list Line * uid) Z;
  fetcher_getPaths : list Line -> list Node -> attempt (list Path) Z;
  fetcher_getScenarios : list Service -> list Line -> list Agency -> list Node -> list Mode ->
    attempt (list Scenario) Z;
  fetcher_getSchedules : list Line -> list Path -> list Service -> attempt Schedules Z
}.

Section Loading.
Context {fetcher : DataFetcher}.
Implicit Types td : TransitData.

(** The fields before the sorted connections, replaced by the update methods. *)
Definition set_data td (mo : list Mode) (ds : list DataSource) (pe : list Person) (od : list OdTrip)
    (ag : list Agency) (se : list Service) (no : list Node) (li : list Line) (pa : list Path)
    (sc : list Scenario) (tr : list Trip) (co : list Connection) (dt : gmap uid (list Z))
    (pt : gmap uuid (list uid)) (ui : Uids) : TransitData :=
  mkTransitData mo ds pe od ag se no li pa sc tr co (forwardConnections td) (reverseConnections td)
    (tripForwardConnections td) (tripReverseConnections td) dt pt ui.

Definition set_modes (mo : list Mode) td : TransitData :=
  set_data td mo (getDataSources td) (getPersons td) (getOdTrips td) (getAgencies td) (getServices td)
    (getNodes td) (getLines td) (getPaths td) (getScenarios td) (getTrips td) (connections td)
    (tripConnectionDepartureTimes td) (pathTripsRef td) (uids td).

Definition set_dataSources (ds : list DataSource) td : TransitData :=
  set_data td (getModes td) ds (getPersons td) (getOdTrips td) (getAgencies td) (getServices td)
    (getNodes td) (getLines td) (getPaths td) (getScenarios td) (getTrips td) (connections td)
    (tripConnectionDepartureTimes td) (pathTripsRef td) (uids td).

Definition set_persons (pe : list Person) td : TransitData :=
  set_data td (getModes td) (getDataSources td) pe (getOdTrips td) (getAgencies td) (getServices td)
    (getNodes td) (getLines td) (getPaths td) (getScenarios td) (getTrips td) (connections td)
    (tripConnectionDepartureTimes td) (pathTripsRef td) (uids td).

Definition set_odTrips (od : list OdTrip) td : TransitData :=
  set_data td (getModes td) (getDataSources td) (getPersons td) od (getAgencies td) (getServices td)
    (getNodes td) (getLines td) (getPaths td) (getScenarios td) (getTrips td) (connections td)
    (tripConnectionDepartureTimes td) (pathTripsRef td) (uids td).

Definition set_agencies (ag : list Agency) td : TransitData :=
  set_data td (getModes td) (getDataSources td) (getPersons td) (getOdTrips td) ag (getServices td)
    (getNodes td) (getLines td) (getPaths td) (getScenarios td) (getTrips td) (connections td)
    (tripConnectionDepartureTimes td) (pathTripsRef td) (uids td).

Definition set_services (se : list Service) td : TransitData :=
  set_data td (getModes td) (getDataSources td) (getPersons td) (getOdTrips td) (getAgencies td) se
    (getNodes td) (getLines td) (getPaths td) (getScenarios td) (getTrips td) (connections td)
    (tripConnectionDepartureTimes td) (pathTripsRef td) (uids td).

Definition set_nodes (st : list Node * uid) td : TransitData :=
  set_data td (getModes td) (getDataSources td) (getPersons td) (getOdTrips td) (getAgencies td)
    (getServices td) st.1 (getLines td) (getPaths td) (getScenarios td) (getTrips td) (connections td)
    (tripConnectionDepartureTimes td) (pathTripsRef td)
    (mkUids st.2 (line_global_uid (uids td)) (trip_global_uid (uids td))).

Definition set_lines (st : list Line * uid) td : TransitData :=
  set_data td (getModes td) (getDataSources td) (getPersons td) (getOdTrips td) (getAgencies td)
    (getServices td) (getNodes td) st.1 (getPaths td) (getScenarios td) (getTrips td) (connections td)
    (tripConnectionDepartureTimes td) (pathTripsRef td)
    (mkUids (node_global_uid (uids td)) st.2 (trip_global_uid (uids td))).

(** New paths refer to no trips. *)
Definition set_paths (pa : list Path) td : TransitData :=
  set_data td (getModes td) (getDataSources td) (getPersons td) (getOdTrips td) (getAgencies td)
    (getServices td) (getNodes td) (getLines td) pa (getScenarios td) (getTrips td) (connections td)
    (tripConnectionDepartureTimes td) ∅ (uids td).

Definition set_scenarios (sc : list Scenario) td : TransitData :=
  set_data td (getModes td) (getDataSources td) (getPersons td) (getOdTrips td) (getAgencies td)
    (getServices td) (getNodes td) (getLines td) (getPaths td) sc (getTrips td) (connections td)
    (tripConnectionDepartureTimes td) (pathTripsRef td) (uids td).

Definition get_schedules td : Schedules :=
  mkSchedules (getTrips td) (connections td) (pathTripsRef td) (tripConnectionDepartureTimes td)
    (trip_global_uid (uids td)).

Definition set_schedules (st : Schedules) td : TransitData :=
  set_data td (getModes td) (getDataSources td) (getPersons td) (getOdTrips td) (getAgencies td)
    (getServices td) (getNodes td) (getLines td) (getPaths td) (getScenarios td) (sch_trips st)
    (sch_connections st) (sch_departureTimes st) (sch_pathTripsRef st)
    (mkUids (node_global_uid (uids td)) (line_global_uid (uids td)) (sch_trip_uid st)).

Definition updateNodes : attempt TransitData Z :=
  zoom (fun td => (getNodes td, node_global_uid (uids td))) set_nodes fetcher_getNodes.

Definition updateDataSources : attempt TransitData Z :=
  zoom getDataSources set_dataSources fetcher_getDataSources.

Definition updatePersons : attempt TransitData Z :=
  td ← get; zoom getPersons set_persons (fetcher_getPersons (getDataSources td)).

Definition updateOdTrips : attempt TransitData Z :=
  td ← get; zoom getOdTrips set_odTrips (fetcher_getOdTrips (getDataSources td) (getPersons td) (getNodes td)).

Definition updateAgencies : attempt TransitData Z := zoom getAgencies set_agencies fetcher_getAgencies.

Definition updateServices : attempt TransitData Z := zoom getServices set_services fetcher_getServices.

Definition updateLines : attempt TransitData Z :=
  td ← get;
  zoom (fun td => (getLines td, line_global_uid (uids td))) set_lines
    (fetcher_getLines (getAgencies td) (getModes td)).

Definition updatePaths : attempt TransitData Z :=
  td ← get; zoom getPaths set_paths (fetcher_getPaths (getLines td) (getNodes td)).

Definition updateScenarios : attempt TransitData Z :=
  td ← get;
  zoom getScenarios set_scenarios
    (fetcher_getScenarios (getServices td) (getLines td) (getAgencies td) (getNodes td) (getModes td)).

Definition generate_connections : attempt TransitData Z := fun td =>
  let '(ret, td') := generateForwardAndReverseConnections td in (Ok ret, td').

Definition updateSchedules : attempt TransitData Z :=
  td ← get;
  ret ← zoom get_schedules set_schedules (fetcher_getSchedules (getLines td) (getPaths td) (getServices td));
  if ret <? 0 then mret ret else generate_connections.

Definition ENOENT : Z := 2.

(** [ret = update(); if (ret < 0 && ret != -ENOENT) return DATA_READ_ERROR;] and
    the variant without the exception for a missing file. *)
Definition load_step (ignoreMissing : bool) (update : attempt TransitData Z)
    (rest : attempt TransitData DataStatus) : attempt TransitData DataStatus :=
  ret ← update;
  if (ret <? 0) && negb (ignoreMissing && (ret =? - ENOENT)) then mret DATA_READ_ERROR else rest.

Definition loadAllData : attempt TransitData DataStatus :=
  _ ← modify (set_modes fetcher_getModes);
  load_step true updateNodes (
  load_step true updateDataSources (
  load_step false updatePersons (
  load_step false updateOdTrips (
  load_step true updateAgencies (
  load_step true updateServices (
  load_step true updateLines (
  load_step true updatePaths (
  load_step true updateScenarios (
  load_step true updateSchedules (
  fun td => (Ok (getDataStatus td), td))))))))))).

(** The constructor of [TransitData]: the data, whatever the status, and the cache by
    [cacheAllScenarios]. An exception leaves the constructor, which is called at the
    start of the program. *)
Definition TransitData_new (cacheAllScenarios : bool) : calc (TransitData * AnyScenarioConnectionCache) :=
  match loadAllData TransitData_empty with
  | (Ok loadStatus, td) => Ok (td, if cacheAllScenarios then CacheAll CacheAll_new else CacheOne CacheOne_new)
  | (Throw e, _) => Throw e
  end.
End Loading.

(** ** The sort orders *)

Ltac break_comparison :=
  repeat match goal with
  | H : context [Z.ltb ?a ?b] |- _ => destruct (Z.ltb_spec a b)
  | H : context [Z.gtb ?a ?b] |- _ => destruct (Z.gtb_spec a b)
  | H : context [N.ltb ?a ?b] |- _ => destruct (N.ltb_spec a b)
  | |- context [Z.ltb ?a ?b] => destruct (Z.ltb_spec a b)
  | |- context [Z.gtb ?a ?b] => destruct (Z.gtb_spec a b)
  | |- context [N.ltb ?a ?b] => destruct (N.ltb_spec a b)
  end; try done; try lia.

(** The order both comparators decide: lexicographic on three keys. *)
Definition key_lt (a b : Z * Z * Z) : Prop :=
  let '(ta, ua, sa) := a in let '(tb, ub, sb) := b in
  ta < tb \/ (ta = tb /\ (ua < ub \/ (ua = ub /\ sa < sb))).

Definition forward_key (c : Connection) : Z * Z * Z :=
  (getDepartureTime c, Z.of_N (conn_trip_uuid c), getSequenceInTrip c).
Definition reverse_key (c : Connection) : Z * Z * Z :=
  (- getArrivalTime c, - Z.of_N (conn_trip_uuid c), - getSequenceInTrip c).

Lemma forward_lt_key a b : forward_lt a b = true <-> key_lt (forward_key a) (forward_key b).
Proof. unfold forward_lt, key_lt, forward_key. break_comparison; split; intros; try done; lia. Qed.

Lemma reverse_lt_key a b : reverse_lt a b = true <-> key_lt (reverse_key a) (reverse_key b).
Proof. unfold reverse_lt, key_lt, reverse_key. break_comparison; split; intros; try done; lia. Qed.

Lemma key_swo {A} (lt : A -> A -> bool) (f : A -> Z * Z * Z) :
  (forall a b, lt a b = true <-> key_lt (f a) (f b)) -> StrictWeakOrder lt.
Proof.
  intros Hlt.
  assert (forall a b, lt a b = false <-> ~ key_lt (f a) (f b)) as Hnlt.
  { intros a b. by rewrite <- Hlt, not_true_iff_false. }
  split.
  - intros x. apply Hnlt. unfold key_lt. destruct (f x) as [[] ]. lia.
  - intros x y z. rewrite !Hlt. unfold key_lt.
    destruct (f x) as [[] ], (f y) as [[] ], (f z) as [[] ]. lia.
  - intros x y z. rewrite !Hnlt. unfold key_lt.
    destruct (f x) as [[] ], (f y) as [[] ], (f z) as [[] ]. lia.
Qed.

#[export] Instance forward_lt_swo : StrictWeakOrder forward_lt.
Proof. exact (key_swo _ forward_key forward_lt_key). Qed.

#[export] Instance reverse_lt_swo : StrictWeakOrder reverse_lt.
Proof. exact (key_swo _ reverse_key reverse_lt_key). Qed.

Lemma StronglySorted_mono {A} (R R' : relation A) l :
  (forall x y, R x y -> R' x y) -> StronglySorted R l -> StronglySorted R' l.
Proof.
  intros HR. induction 1 as [|x l Hl IH Hx]; constructor; [done|].
  eapply Forall_impl; [exact Hx|]. auto.
Qed.

Lemma forward_sort_sorted l : forward_sorted (stable_sort forward_lt l).
Proof.
  eapply StronglySorted_mono; [|apply (stable_sort_sorted forward_lt)].
  unfold not_after, forward_lt. intros x y. break_comparison.
Qed.

Lemma reverse_sort_sorted l : reverse_sorted (stable_sort reverse_lt l).
Proof.
  eapply StronglySorted_mono; [|apply (stable_sort_sorted reverse_lt)].
  unfold not_after, reverse_lt. intros x y. break_comparison.
Qed.

(** ** The vectors of a trip *)

Definition of_trip (u : uid) (c : Connection) : Prop := trip_uid (getTrip c) = u.
#[export] Instance of_trip_dec u c : Decision (of_trip u c).
Proof. unfold of_trip. apply _. Defined.

Lemma push_trip_connections_lookup l m u :
  default [] (foldl push_trip_connection m l !! u) = default [] (m !! u) ++ filter (of_trip u) l.
Proof.
  revert m. induction l as [|c l IH]; intros m; cbn [foldl].
  - by rewrite app_nil_r.
  - rewrite IH, filter_cons. unfold push_trip_connection, of_trip at 2.
    case_decide as Hu.
    + subst u. rewrite lookup_insert_eq. cbn. by rewrite <- app_assoc.
    + by rewrite lookup_insert_ne.
Qed.

(** ** The trips of a scenario *)

Lemma scan_scenario_trips_spec scenario l m acc :
  let '(enabled, cached) := foldl (scan_scenario_trip scenario) (m, acc) l in
  cached = acc ++ filter (fun t => scenario_trip_enabled scenario t = true) l /\
  (NoDup (trip_uid <$> l) -> forall t, t ∈ l -> enabled !! trip_uid t = Some (scenario_trip_enabled scenario t)) /\
  (forall u, u ∉ (trip_uid <$> l) -> enabled !! u = m !! u).
Proof.
  revert m acc. induction l as [|t l IH]; intros m acc; cbn [foldl].
  - rewrite app_nil_r. split_and!; [done | intros _ t Ht; by apply elem_of_nil in Ht | done].
  - cbn [scan_scenario_trip].
    specialize (IH (<[trip_uid t := scenario_trip_enabled scenario t]> m)
                  (if scenario_trip_enabled scenario t then acc ++ [t] else acc)).
    destruct (foldl _ _ l) as [enabled cached]. destruct IH as (-> & Hin & Hout). split_and!.
    + rewrite filter_cons. destruct (scenario_trip_enabled scenario t) eqn:E; case_decide; try done.
      by rewrite <- app_assoc.
    + rewrite fmap_cons, NoDup_cons. intros [Hnot Hnd] t' Ht'.
      apply elem_of_cons in Ht' as [-> | Ht']; [|by apply Hin].
      rewrite Hout by done. apply lookup_insert_eq.
    + intros u Hu. rewrite fmap_cons, not_elem_of_cons in Hu. destruct Hu as [Hne Hu].
      rewrite Hout by done. by apply lookup_insert_ne.
Qed.

(** The trips and connections of loaded data: distinct uids, and connections of
    known trips only. *)
Record well_formed (td : TransitData) : Prop := {
  wf_uids : NoDup (trip_uid <$> getTrips td);
  wf_trips : Forall (fun c => getTrip c ∈ getTrips td) (connections td);
  wf_forward : forwardConnections td = stable_sort forward_lt (connections td);
  wf_reverse : reverseConnections td = stable_sort reverse_lt (connections td)
}.

Definition conn_enabled_for (scenario : Scenario) (c : Connection) : Prop :=
  scenario_trip_enabled scenario (getTrip c) = true.
#[export] Instance conn_enabled_for_dec s c : Decision (conn_enabled_for s c).
Proof. unfold conn_enabled_for. apply _. Defined.

Lemma list_filter_ext {A} (P Q : A -> Prop) `{!forall x, Decision (P x)} `{!forall x, Decision (Q x)} l :
  Forall (fun x => P x <-> Q x) l -> filter P l = filter Q l.
Proof.
  induction 1 as [|x l Hx _ IH]; [done|]. rewrite !filter_cons, IH.
  case_decide; case_decide; tauto.
Qed.

Lemma computeConnections_spec td scenario :
  well_formed td ->
  computeConnectionsForScenario td scenario =
  ConnectionSet_new (filter (fun t => scenario_trip_enabled scenario t = true) (getTrips td))
    (filter (conn_enabled_for scenario) (forwardConnections td))
    (filter (conn_enabled_for scenario) (reverseConnections td)).
Proof.
  intros [Huid Htrips Hfwd Hrev]. unfold computeConnectionsForScenario.
  pose proof (scan_scenario_trips_spec scenario (getTrips td) ∅ []) as H.
  destruct (foldl _ _ _) as [enabled cached]. destruct H as (-> & Hin & _).
  assert (forall l, l ≡ₚ connections td ->
    filter (fun c => connection_enabled enabled c = true) l = filter (conn_enabled_for scenario) l) as Hf.
  { intros l Hl. apply list_filter_ext. rewrite Hl. eapply Forall_impl; [exact Htrips|].
    intros c Hc. cbn in Hc. unfold connection_enabled, conn_enabled_for. by rewrite (Hin Huid _ Hc). }
  rewrite !Hf; [done| |].
  - rewrite Hrev. apply stable_sort_perm.
  - rewrite Hfwd. apply stable_sort_perm.
Qed.

(** ** Properties *)

(** [generateForwardAndReverseConnections] succeeds and leaves the connections
    sorted by departure time ascending, and by arrival time descending, each vector
    holding every connection once. *)
Theorem generate_connections_sorted td :
  let '(ret, td') := generateForwardAndReverseConnections td in
  ret = 0 /\
  forward_sorted (forwardConnections td') /\ forwardConnections td' ≡ₚ connections td /\
  reverse_sorted (reverseConnections td') /\ reverseConnections td' ≡ₚ connections td.
Proof.
  cbn. split_and!; [done | apply forward_sort_sorted | apply stable_sort_perm
                   | apply reverse_sort_sorted | apply stable_sort_perm].
Qed.

(** The connections of a trip, in the order they were created, follow the trip. *)
Definition trip_in_order (u : uid) (l : list Connection) : Prop :=
  StronglySorted (fun a b => getDepartureTime a <= getDepartureTime b /\
                             getArrivalTime a <= getArrivalTime b /\
                             conn_trip_uuid a = conn_trip_uuid b /\
                             getSequenceInTrip a < getSequenceInTrip b) (filter (of_trip u) l).

Lemma trip_vectors td u :
  trip_in_order u (connections td) ->
  filter (of_trip u) (stable_sort forward_lt (connections td)) = filter (of_trip u) (connections td) /\
  filter (of_trip u) (stable_sort reverse_lt (connections td)) = rev (filter (of_trip u) (connections td)).
Proof.
  intros Hord. split; rewrite stable_sort_filter by apply _.
  - apply stable_sort_id. eapply StronglySorted_mono; [|exact Hord].
    unfold not_after, forward_lt, conn_trip_uuid. intros a b (H1 & H2 & H3 & H4).
    break_comparison.
  - apply stable_sort_rev. eapply StronglySorted_mono; [|exact Hord].
    unfold reverse_lt. intros a b (H1 & H2 & H3 & H4). break_comparison.
Qed.

(** For a trip whose times do not decrease along its stops, the vectors
    [Trip::forwardConnections] and [Trip::reverseConnections] built from the two
    global sorts are the connections of the trip in sequence, and in reverse
    sequence, whatever other trips do at the same times. *)
Theorem trip_vectors_in_sequence td u :
  trip_in_order u (connections td) ->
  tripForwardConnections td !! u = None -> tripReverseConnections td !! u = None ->
  let '(_, td') := generateForwardAndReverseConnections td in
  default [] (tripForwardConnections td' !! u) = filter (of_trip u) (connections td) /\
  default [] (tripReverseConnections td' !! u) = rev (filter (of_trip u) (connections td)).
Proof.
  intros Hord Hf Hr. cbn. rewrite !push_trip_connections_lookup, Hf, Hr, !app_nil_l. by apply trip_vectors.
Qed.

Lemma require_in_spec {A} (eqb : A -> A -> bool) l x b :
  require_in eqb l x b = true <-> b = true /\ (l = [] \/ exists y, y ∈ l /\ eqb y x = true).
Proof.
  unfold require_in, std_find. destruct b; [|naive_solver].
  destruct l as [|z l]; cbn [length Nat.eqb negb andb]; [naive_solver|].
  setoid_rewrite list_elem_of_In. rewrite <- existsb_exists. destruct (existsb _ _); naive_solver.
Qed.

Lemma forbid_in_spec {A} (eqb : A -> A -> bool) l x b :
  forbid_in eqb l x b = true <-> b = true /\ forall y, y ∈ l -> eqb y x = false.
Proof.
  unfold forbid_in, std_find. destruct b; [|naive_solver].
  destruct l as [|z l]; cbn [length Nat.eqb negb andb].
  - split; [|done]. intros _. split; [done|]. intros y Hy. by apply elem_of_nil in Hy.
  - setoid_rewrite list_elem_of_In.
    destruct (existsb _ _) eqn:E.
    + split; [done|]. intros [_ H]. apply existsb_exists in E as (y & Hy & E). naive_solver.
    + split; [|done]. intros _. split; [done|]. intros y Hy. apply not_true_is_false. intros Hyx.
      apply not_true_iff_false in E. apply E. apply existsb_exists. eauto.
Qed.

(** A trip is enabled for a scenario exactly when every non-empty inclusion
    list of the scenario (services, lines, modes, agencies) has its object and no
    exclusion list (lines, modes, agencies) has it; the lists of nodes are ignored. *)
Theorem scenario_trip_enabled_spec s t :
  scenario_trip_enabled s t = true <->
  (servicesList s = [] \/ exists x, x ∈ servicesList s /\ service_eqb x (trip_service t) = true) /\
  (scenario_onlyLines s = [] \/ exists x, x ∈ scenario_onlyLines s /\ line_eqb x (trip_line t) = true) /\
  (scenario_onlyModes s = [] \/ exists x, x ∈ scenario_onlyModes s /\ mode_eqb x (trip_mode t) = true) /\
  (scenario_onlyAgencies s = [] \/
     exists x, x ∈ scenario_onlyAgencies s /\ agency_eqb x (trip_agency t) = true) /\
  (forall x, x ∈ scenario_exceptLines s -> line_eqb x (trip_line t) = false) /\
  (forall x, x ∈ scenario_exceptModes s -> mode_eqb x (trip_mode t) = false) /\
  (forall x, x ∈ scenario_exceptAgencies s -> agency_eqb x (trip_agency t) = false).
Proof.
  unfold scenario_trip_enabled. cbv zeta.
  rewrite !forbid_in_spec, !require_in_spec. naive_solver.
Qed.

Section Caching.
Context {C : Type} `{ScenarioConnectionCacheLaws C}.
Context (td : TransitData) (known : list Scenario).

(** Every set the cache holds for a known scenario is the one computed for it. *)
Definition cache_valid (c : C) : Prop :=
  forall s cs, s ∈ known -> cache_get (scenario_uuid s) c = Some cs ->
    cs = computeConnectionsForScenario td s.

Lemma getConnectionsForScenario_step s c :
  NoDup (scenario_uuid <$> known) -> s ∈ known -> cache_valid c ->
  (getConnectionsForScenario td s c).1 = computeConnectionsForScenario td s /\
  cache_valid (getConnectionsForScenario td s c).2.
Proof.
  intros Hnd Hs Hc. unfold getConnectionsForScenario.
  destruct (cache_get (scenario_uuid s) c) as [cs|] eqn:E; cbn; [by split; [apply Hc|]|].
  split; [done|]. intros s' cs' Hs' Hget.
  destruct (decide (scenario_uuid s = scenario_uuid s')) as [Heq|Hne].
  - rewrite <- Heq, cache_get_set_eq in Hget. injection Hget as <-.
    destruct (list_elem_of_lookup_1 _ _ Hs) as [i Hi].
    destruct (list_elem_of_lookup_1 _ _ Hs') as [j Hj].
    assert (i = j) as ->.
    { eapply (NoDup_lookup _ i j (scenario_uuid s) Hnd); rewrite list_lookup_fmap.
      - by rewrite Hi.
      - by rewrite Hj; cbn; rewrite Heq. }
    congruence.
  - by apply (Hc s'), (cache_get_set_ne (scenario_uuid s) _ (computeConnectionsForScenario td s)).
Qed.

(** The requests of all threads, in the order the cache serves them. *)
Fixpoint serve_scenarios (requests : list Scenario) (c : C) : list ConnectionSet :=
  match requests with
  | [] => []
  | s :: requests' =>
      let '(cs, c') := getConnectionsForScenario td s c in cs :: serve_scenarios requests' c'
  end.

(** Caching is transparent: against any implementation of the cache
    interface, every request of any sequence is answered with the connection set
    computed for its own scenario. *)
Theorem scenario_cache_transparent requests c :
  NoDup (scenario_uuid <$> known) -> Forall (fun s => s ∈ known) requests -> cache_valid c ->
  serve_scenarios requests c = computeConnectionsForScenario td <$> requests.
Proof.
  intros Hnd Hreq. revert c. induction Hreq as [|s requests Hs _ IH]; intros c Hc; [done|].
  cbn [serve_scenarios]. destruct (getConnectionsForScenario_step s c Hnd Hs Hc) as [H1 H2].
  destruct (getConnectionsForScenario td s c) as [cs c'].
  rewrite fmap_cons. cbn in H1, H2. rewrite H1. f_equal. by apply IH.
Qed.
End Caching.
