(* ===== verification/Interleaving.v ===== *)
(** * Calculations at the same time

    The threads of the server share the data and the cache of connections. The data are
    constant, and each method of the cache holds its lock for its whole body: what
    interleaves are the two accesses of [getConnectionsForScenario], the look-up and, when
    it misses, the store of the set computed between them. A thread is a program that
    asks for the connections of scenarios, one after the other, each choice made from the
    answers before. An update of the data is not a step here: it takes no lock. *)

From Stdlib Require Import ZArith Lia.
From stdpp Require Import base list gmap relations.
From S2P Require Import Prelude.
From S2P Require Import Data.
From S2P Require Import ConnectionSet.
From S2P Require Import ConnectionCache.
From S2P Require Import TransitData.

(** ** Threads *)

Inductive program (A : Type) :=
| Return (a : A)
| Ask (s : Scenario) (k : ConnectionSet -> program A).
Arguments Return {A} _.
Arguments Ask {A} _ _.

(** Within [getConnectionsForScenario], [Storing] is between the look-up that missed and
    the store. *)
Inductive thread (A : Type) :=
| Running (p : program A)
| Storing (s : Scenario) (cs : ConnectionSet) (k : ConnectionSet -> program A).
Arguments Running {A} _.
Arguments Storing {A} _ _ _.

Section Threads.
Context {C : Type} `{cache_laws : ScenarioConnectionCacheLaws C} {A : Type} (td : TransitData).
Implicit Types (p : program A) (t : thread A) (c : C).

(** One step of a thread. *)
Inductive thread_step : C * thread A -> C * thread A -> Prop :=
| step_hit s k c cs :
    cache_get (scenario_uuid s) c = Some cs ->
    thread_step (c, Running (Ask s k)) (c, Running (k cs))
| step_miss s k c :
    cache_get (scenario_uuid s) c = None ->
    thread_step (c, Running (Ask s k)) (c, Storing s (computeConnectionsForScenario td s) k)
| step_store s cs k c :
    thread_step (c, Storing s cs k) (cache_set (scenario_uuid s) cs c, Running (k cs)).

(** One step of the pool. *)
Inductive pool_step : C * list (thread A) -> C * list (thread A) -> Prop :=
| step_thread i t t' c c' ts :
    ts !! i = Some t -> thread_step (c, t) (c', t') -> pool_step (c, ts) (c', <[i := t']> ts).

(** The program alone. *)
Fixpoint alone p c : A * C :=
  match p with
  | Return a => (a, c)
  | Ask s k => let '(cs, c') := getConnectionsForScenario td s c in alone (k cs) c'
  end.

(** The steps of a thread alone are those of [getConnectionsForScenario]. *)
Lemma alone_steps p c : rtc thread_step (c, Running p) ((alone p c).2, Running (Return (alone p c).1)).
Proof.
  revert c. induction p as [a|s k IH]; intros c; [constructor|]. cbn [alone]. unfold getConnectionsForScenario.
  destruct (cache_get (scenario_uuid s) c) as [cs|] eqn:Hget.
  - eapply rtc_l; [by apply step_hit|apply IH].
  - eapply rtc_l; [by apply step_miss|]. eapply rtc_l; [apply step_store|apply IH].
Qed.

(** ** What a thread gives *)

Fixpoint value p : A :=
  match p with
  | Return a => a
  | Ask s k => value (k (computeConnectionsForScenario td s))
  end.

Fixpoint asks p : nat :=
  match p with
  | Return _ => 0
  | Ask s k => S (asks (k (computeConnectionsForScenario td s)))
  end.

Context (known : list Scenario).

Fixpoint asks_known p : Prop :=
  match p with
  | Return _ => True
  | Ask s k => s ∈ known /\ asks_known (k (computeConnectionsForScenario td s))
  end.

(** A thread that has [p] to give: its steps left, and where it is. *)
Inductive thread_ok (p : program A) : thread A -> nat -> Prop :=
| running_ok q : value q = value p -> asks_known q -> thread_ok p (Running q) (2 * asks q)
| storing_ok s cs k :
    cs = computeConnectionsForScenario td s -> s ∈ known ->
    value (k cs) = value p -> asks_known (k cs) -> thread_ok p (Storing s cs k) (S (2 * asks (k cs))).

Context (Hknown : NoDup (scenario_uuid <$> known)).
Abbreviation valid c := (cache_valid td known c).

Lemma store_valid s c : s ∈ known -> valid c -> valid (cache_set (scenario_uuid s) (computeConnectionsForScenario td s) c).
Proof using cache_laws Hknown.
  intros Hs Hc s' cs' Hs' Hget. destruct (decide (scenario_uuid s = scenario_uuid s')) as [Heq|Hne].
  - rewrite <- Heq, cache_get_set_eq in Hget. injection Hget as <-. by rewrite (NoDup_fmap_inj scenario_uuid known s s' Hknown Hs Hs' Heq).
  - eapply Hc; [done|]. by eapply cache_get_set_ne.
Qed.

Lemma thread_step_ok p t n c t' c' : thread_ok p t n -> valid c -> thread_step (c, t) (c', t') ->
  valid c' /\ exists n', thread_ok p t' n' /\ n' < n.
Proof using cache_laws Hknown.
  intros Ht Hc Hstep. inversion Hstep as [s k ? cs Hget|s k ? Hget|s cs k ?]; subst; clear Hstep; inversion Ht; subst.
  - match goal with H : asks_known (Ask _ _) |- _ => destruct H as [Hs Hk] end.
    rewrite (Hc s cs Hs Hget). split; [done|]. eexists. split; [by constructor|]. cbn. lia.
  - match goal with H : asks_known (Ask _ _) |- _ => destruct H as [Hs Hk] end.
    split; [done|]. eexists. split; [by constructor|]. cbn. lia.
  - split; [by apply store_valid|]. eexists. split; [by constructor|]. lia.
Qed.

(** A thread can step until it has returned. *)
Lemma thread_progress p t n c : thread_ok p t n -> t = Running (Return (value p)) \/ exists st', thread_step (c, t) st'.
Proof using Type.
  intros [q Hv _|s cs k _ _ _ _]; [|right; eexists; constructor].
  destruct q as [a|s k]; [left; cbn in Hv; by subst|]. right.
  destruct (cache_get (scenario_uuid s) c) eqn:Hget; eexists; by constructor.
Qed.

Definition returned t : bool := match t with Running (Return _) => true | _ => false end.

Lemma returned_value p t n : thread_ok p t n -> returned t = true -> t = Running (Return (value p)).
Proof using Type. intros [q Hv _|] Ht; [|discriminate]. destruct q; [|discriminate]. cbn in Hv. by subst. Qed.

(** ** The pool *)

Definition pool_ok (ps : list (program A)) (st : C * list (thread A)) (n : nat) : Prop :=
  valid st.1 /\ exists ns, n = sum_list ns /\ length ns = length st.2 /\
    forall i p, ps !! i = Some p -> exists t m, st.2 !! i = Some t /\ ns !! i = Some m /\ thread_ok p t m.

Lemma sum_list_insert (ns : list nat) i m m' : ns !! i = Some m -> m' < m -> sum_list (<[i := m']> ns) < sum_list ns.
Proof.
  revert i. induction ns as [|n ns IH]; intros [|i] Hi Hlt; try discriminate.
  - injection Hi as ->. change (m' + sum_list ns < m + sum_list ns). lia.
  - specialize (IH i Hi Hlt). change (n + sum_list (<[i := m']> ns) < n + sum_list ns). lia.
Qed.

Lemma pool_step_ok ps st st' n : length ps = length st.2 -> pool_ok ps st n -> pool_step st st' ->
  length ps = length st'.2 /\ exists n', pool_ok ps st' n' /\ n' < n.
Proof using cache_laws Hknown.
  intros Hlen [Hc (ns & -> & Hns & Hall)] Hstep. inversion Hstep as [i t t' c c' ts Ht Hthread]; subst; clear Hstep. cbn [fst snd] in *.
  split; [by rewrite length_insert|].
  destruct (lookup_lt_is_Some_2 ps i) as [p Hp]; [rewrite Hlen; by eapply lookup_lt_Some|].
  destruct (Hall i p Hp) as (t0 & m & Ht0 & Hm & Hok). replace t0 with t in Hok by congruence.
  destruct (thread_step_ok p t m c t' c' Hok Hc Hthread) as (Hc' & m' & Hok' & Hlt).
  exists (sum_list (<[i := m']> ns)). split; [|by eapply sum_list_insert]. split; [exact Hc'|]. exists (<[i := m']> ns).
  cbn [snd]. split; [done|]. split; [by rewrite !length_insert|]. intros j q Hq.
  destruct (decide (i = j)) as [<-|Hne].
  - exists t', m'. replace q with p by congruence.
    split_and!; [apply list_lookup_insert_eq; by eapply lookup_lt_Some|apply list_lookup_insert_eq; by eapply lookup_lt_Some|done].
  - destruct (Hall j q Hq) as (u & k & Hu & Hk & Hokj). exists u, k. by rewrite !list_lookup_insert_ne.
Qed.

Lemma pool_run_ok ps k st st' : nsteps pool_step k st st' -> forall n, length ps = length st.2 -> pool_ok ps st n ->
  length ps = length st'.2 /\ exists n', pool_ok ps st' n' /\ n' + k <= n.
Proof using cache_laws Hknown.
  induction 1 as [st|k st st1 st' Hstep _ IH]; intros n Hlen Hok; [split; [done|]; exists n; split; [done|lia]|].
  destruct (pool_step_ok ps st st1 n Hlen Hok Hstep) as (Hlen1 & n1 & Hok1 & Hlt).
  destruct (IH n1 Hlen1 Hok1) as (Hlen' & n' & Hok' & Hle). split; [done|]. exists n'. split; [done|lia].
Qed.

Definition start ps : list (thread A) := Running <$> ps.
Definition calls ps : nat := sum_list (asks <$> ps).

Lemma start_ok ps c : Forall asks_known ps -> valid c -> pool_ok ps (c, start ps) (2 * calls ps).
Proof using Type.
  intros Hps Hc. split; [exact Hc|]. exists ((fun p => 2 * asks p) <$> ps). cbn [snd]. split_and!.
  - clear Hps. unfold calls. induction ps as [|p ps IH]; [done|].
    change (2 * (asks p + sum_list (asks <$> ps)) = 2 * asks p + sum_list ((fun p => 2 * asks p) <$> ps)). lia.
  - unfold start. by rewrite !length_fmap.
  - intros i p Hp. exists (Running p), (2 * asks p). unfold start. rewrite !list_lookup_fmap, Hp. split_and!; [done|done|].
    constructor; [done|]. by eapply (Forall_lookup_1 _ _ i).
Qed.

Lemma alone_value p c : asks_known p -> valid c -> (alone p c).1 = value p.
Proof using cache_laws Hknown.
  revert c. induction p as [a|s k IH]; intros c Hp Hc; [done|]. destruct Hp as [Hs Hk]. cbn [alone value].
  destruct (getConnectionsForScenario_step td known s c Hknown Hs Hc) as [Heq Hvalid].
  destruct (getConnectionsForScenario td s c) as [cs c']. cbn [fst snd] in *. subst cs. by apply IH.
Qed.

(** C3: Threads that share the cache of connections, whatever the order of their
    accesses. A thread that has returned has the result it has alone, with any valid
    cache; the pool can step until all have returned, after at most two steps for each
    call; and what the cache holds is always what is computed. *)
Theorem interleaved_threads ps c k c' ts :
  Forall asks_known ps -> valid c -> nsteps pool_step k (c, start ps) (c', ts) ->
  valid c' /\ k <= 2 * calls ps /\
  (forall i p a, ps !! i = Some p -> ts !! i = Some (Running (Return a)) -> forall c0, valid c0 -> (alone p c0).1 = a) /\
  ((exists st, pool_step (c', ts) st) \/ forall c0, valid c0 -> ts = (fun p => Running (Return (alone p c0).1)) <$> ps).
Proof using cache_laws Hknown.
  intros Hps Hc Hrun.
  destruct (pool_run_ok ps k _ _ Hrun (2 * calls ps)) as (Hlen & n & [Hc' (ns & Hn & Hns & Hall)] & Hle);
    [unfold start; cbn; by rewrite length_fmap|by apply start_ok|]. cbn [fst snd] in *.
  split_and!; [exact Hc'|lia| |].
  - intros i p a Hp Ht c0 Hc0. destruct (Hall i p Hp) as (t & m & Ht' & _ & Hok). replace t with (Running (Return a)) in Hok by congruence.
    inversion Hok as [q Hv _|]; subst. cbn in Hv. rewrite Hv. apply alone_value; [exact (proj1 (Forall_lookup _ _) Hps i p Hp)|exact Hc0].
  - destruct (decide (Forall (fun t => returned t = true) ts)) as [Hdone|Hrest].
    + right. intros c0 Hc0. apply list_eq_same_length with (length ps); [by rewrite length_fmap|done|].
      intros i t u _ Ht Hu. rewrite list_lookup_fmap in Hu. destruct (ps !! i) as [p|] eqn:Hp; [|discriminate]. injection Hu as <-.
      destruct (Hall i p Hp) as (t' & m & Ht' & _ & Hok). replace t' with t in Hok by congruence.
      rewrite alone_value; [|exact (proj1 (Forall_lookup _ _) Hps i p Hp)|exact Hc0]. eapply returned_value; [exact Hok|].
      by eapply (Forall_lookup_1 _ _ i) in Hdone.
    + left. apply not_Forall_Exists in Hrest; [|apply _]. apply Exists_exists in Hrest as (t & Hin & Hnot).
      apply list_elem_of_lookup in Hin as (i & Ht).
      destruct (lookup_lt_is_Some_2 ps i) as [p Hp]; [rewrite Hlen; by eapply lookup_lt_Some|].
      destruct (Hall i p Hp) as (t' & m & Ht' & _ & Hok). replace t' with t in Hok by congruence.
      destruct (thread_progress p t m c' Hok) as [->|[[c1 t1] Hstep]]; [by destruct Hnot|]. exists (c1, <[i := t1]> ts). exact (step_thread i t t1 c' c1 ts Ht Hstep).
Qed.
End Threads.
