(* ===== verification/CacheSchedules.v ===== *)
(** * The fetcher of the schedules

    [trips_and_connections_cache_fetcher.cpp]: one file for each line, with its
    schedules, their periods and the trips of these; a trip becomes a [Trip] and one
    [Connection] for each pair of successive nodes of its path. *)

From Stdlib Require Import ZArith Lia.
From stdpp Require Import base list gmap strings.
From S2P Require Import Prelude.
From S2P Require Import Data.
From S2P Require Import Attempt.
From S2P Require Import Parameters.
From S2P Require Import TransitData.
From S2P Require Import CacheFiles.
From S2P Require Import CacheCollections.

Local Open Scope Z_scope.

(** The constructor [Trip(uuid, agency, line, path, mode, service, ...)]. *)
Definition Trip_new (uuid : uuid) (line : Line) (path : Path) (service : Service) (totalCapacity seatedCapacity : Z)
    (uid : uid) : Trip :=
  mkTrip uuid (line_agency line) line path (line_mode line) service (line_allowSameLineTransfers line)
    totalCapacity seatedCapacity uid.

(** [nodeTimesCount - 1], on an [unsigned long]. *)
Definition unsigned_pred (n : nat) : Z := (Z.of_nat n - 1) mod 18446744073709551616.

(** Changes of the containers. *)
Definition sch_push_connection (conn : Connection) (st : Schedules) : Schedules :=
  mkSchedules (sch_trips st) (sch_connections st ++ [conn]) (sch_pathTripsRef st) (sch_departureTimes st)
    (sch_trip_uid st).

Definition sch_set_departureTimes (u : uid) (l : list Z) (st : Schedules) : Schedules :=
  mkSchedules (sch_trips st) (sch_connections st) (sch_pathTripsRef st) (<[u := l]> (sch_departureTimes st))
    (sch_trip_uid st).

Definition sch_push_tripsRef (p : uuid) (u : uid) (st : Schedules) : Schedules :=
  mkSchedules (sch_trips st) (sch_connections st)
    (<[p := default [] (sch_pathTripsRef st !! p) ++ [u]]> (sch_pathTripsRef st))
    (sch_departureTimes st) (sch_trip_uid st).

(** [trip.connectionDepartureTimes]. *)
Definition departureTimes_of (u : uid) (st : Schedules) : list Z := default [] (sch_departureTimes st !! u).

(** [v.resize(n)]: cut, or filled with zeros. *)
Definition vec_resize (n : nat) (l : list Z) : list Z := take n l ++ replicate (n - length l) 0.

(** [trips.emplace(tripUuid, Trip(...))]: the trip is constructed, and counted, before
    it is known to be new. *)
Definition sch_emplace (trip : uid -> Trip) (st : Schedules) : Schedules :=
  mkSchedules (tree_emplace trip_uuid (trip (S (sch_trip_uid st))) (sch_trips st)) (sch_connections st)
    (sch_pathTripsRef st) (sch_departureTimes st) (S (sch_trip_uid st)).

Section Schedules.
Context `{!CacheFiles, !Boost} (cacheDirectoryPath customPath : string).

(** The [Connection] between the nodes [i] and [i + 1]. The arguments are evaluated in
    an order the language leaves open; an access out of bounds to the message, which is
    undefined, is taken to come before the exception of [nodesRef.at]. *)
Definition Connection_at (capnpTrip : cTrip) (line : Line) (path : Path) (trip : Trip) (i : nat) : calc Connection :=
  departureTime ← vec_get (nodeDepartureTimesSeconds capnpTrip) i;
  arrivalTime ← vec_get (nodeArrivalTimesSeconds capnpTrip) (1 + i);
  canBoard ← vec_get (nodesCanBoard capnpTrip) i;
  canUnboard ← vec_get (nodesCanUnboard capnpTrip) (1 + i);
  departureNode ← vec_at (path_nodesRef path) i;
  arrivalNode ← vec_at (path_nodesRef path) (1 + i);
  Ok (mkConnection departureNode arrivalNode departureTime arrivalTime trip (canBoard =? 1) (canUnboard =? 1)
        (Z.of_nat i + 1) (negb (trip_allowSameLineTransfers trip =? 0))
        (if isTransferable (line_mode line) then 0 else -1)).

(** One iteration over the pairs of nodes: [Some (-1)] is the [return -1] of the handler
    of [std::out_of_range]. *)
Definition add_connection (capnpTrip : cTrip) (line : Line) (path : Path) (trip : Trip) (i : nat)
    : attempt Schedules (option Z) :=
  try_catch
    (conn ← lift (Connection_at capnpTrip line path trip i);
     _ ← modify (sch_push_connection conn);
     departureTime ← reader_get (nodeDepartureTimesSeconds capnpTrip) i;
     st ← get;
     times ← lift (vec_set i departureTime (departureTimes_of (trip_uid trip) st));
     _ ← modify (sch_set_departureTimes (trip_uid trip) times);
     mret None)
    (fun e => match e with OutOfRange => Some (mret (Some (-1))) | _ => None end).

(** [for (unsigned long i = 0; i < nodeTimesCount - 1; i++)]: for no times at all the
    bound is the largest number; one round more than there are times is enough fuel,
    since a round past the times is undefined. *)
Fixpoint add_connections (fuel : nat) (capnpTrip : cTrip) (line : Line) (path : Path) (trip : Trip) (i : nat)
    : attempt Schedules (option Z) :=
  if Z.of_nat i <? unsigned_pred (length (nodeArrivalTimesSeconds capnpTrip)) then
    match fuel with
    | O => throw OutOfFuel
    | S fuel' =>
        r ← add_connection capnpTrip line path trip i;
        match r with
        | Some code => mret (Some code)
        | None => add_connections fuel' capnpTrip line path trip (1 + i)
        end
    end
  else mret None.

(** The body of the loop over the trips of a period. *)
Definition add_trip (paths : list Path) (line : Line) (service : Service) (capnpTrip : cTrip)
    : attempt Schedules (option Z) :=
  tripUuid ← uuidGenerator (cTrip_uuid capnpTrip);
  pathUuid ← uuidGenerator (cTrip_pathUuid capnpTrip);
  path ← lift (tree_at path_uuid pathUuid paths);
  _ ← modify (sch_emplace
        (Trip_new tripUuid line path service (cTrip_totalCapacity capnpTrip) (cTrip_seatedCapacity capnpTrip)));
  st ← get;
  trip ← lift (tree_at trip_uuid tripUuid (sch_trips st));
  _ ← modify (sch_push_tripsRef pathUuid (trip_uid trip));
  let nodeTimesCount := length (nodeArrivalTimesSeconds capnpTrip) in
  _ ← modify (sch_set_departureTimes (trip_uid trip) (vec_resize nodeTimesCount (departureTimes_of (trip_uid trip) st)));
  add_connections (1 + nodeTimesCount) capnpTrip line path trip 0.

Definition add_schedule (paths : list Path) (services : list Service) (line : Line) (schedule : cSchedule)
    : attempt Schedules (option Z) :=
  serviceUuid ← uuidGenerator (cSchedule_serviceUuid schedule);
  service ← lift (tree_at service_uuid serviceUuid services);
  each_return (fun item => period ← kj item;
    each_return (fun item => capnpTrip ← kj item; add_trip paths line service capnpTrip) (cPeriod_trips period))
    (cSchedule_periods schedule).

(** The file of a line. *)
Definition line_path (u : uuid) : string :=
  cache_file cacheDirectoryPath customPath ("lines/line_" +:+ uuid_to_string u).

(** The body of the loop over the lines: a [kj::Exception] ends the line; others leave
    the function. *)
Definition add_line (paths : list Path) (services : list Service) (line : Line) : attempt Schedules (option Z) :=
  match line_file (line_path (line_uuid line)) with
  | OpenFailed _ => mret None
  | Opened root =>
      try_catch
        (schedules ← kj root;
         each_return (fun item => schedule ← kj item; add_schedule paths services line schedule) schedules)
        (fun e => match e with KjException => Some (mret None) | _ => None end)
  end.

Definition sch_clear (st : Schedules) : Schedules :=
  mkSchedules [] [] (sch_pathTripsRef st) (sch_departureTimes st) (sch_trip_uid st).

(** [getSchedules]. *)
Definition getSchedules (lines : list Line) (paths : list Path) (services : list Service) : attempt Schedules Z :=
  _ ← modify sch_clear;
  r ← each_return (add_line paths services) lines;
  mret (default 0 r).
End Schedules.
