(* ===== verification/SchedulesCorrect.v ===== *)
(** * What the fetcher of the schedules reads

    A trip of a file, with the line and the service it is found under, is a [job]. Its
    reading adds one trip and the connections between the successive nodes of its path;
    the reading of all files does so for all jobs, in their order. *)

From Stdlib Require Import ZArith Lia Sorted.
From stdpp Require Import base list gmap strings.
From S2P Require Import Prelude.
From S2P Require Import Data.
From S2P Require Import Attempt.
From S2P Require Import Parameters.
From S2P Require Import TransitData.
From S2P Require Import CacheFiles.
From S2P Require Import CollectionsCorrect.
From S2P Require Import CacheSchedules.

Local Open Scope Z_scope.

(** ** One trip *)

(** A trip of a file with what its texts name. *)
Record job := mkJob {
  job_line : Line;
  job_service : Service;
  job_path : Path;
  job_uuid : uuid;
  job_message : cTrip
}.

Definition job_trip (j : job) (u : uid) : Trip :=
  Trip_new (job_uuid j) (job_line j) (job_path j) (job_service j)
    (cTrip_totalCapacity (job_message j)) (cTrip_seatedCapacity (job_message j)) u.

(** How many nodes the trip serves. *)
Definition job_nodes (j : job) : nat := length (nodeArrivalTimesSeconds (job_message j)).

Definition job_connection (j : job) (u : uid) (i : nat) : option Connection :=
  match Connection_at (job_message j) (job_line j) (job_path j) (job_trip j u) i with
  | Ok conn => Some conn
  | Throw _ => None
  end.

Definition job_connections (j : job) (u : uid) : list Connection :=
  omap (job_connection j u) (seq 0 (job_nodes j - 1)).

(** The departure times of the connections, and a zero for the last node. *)
Definition job_times (j : job) : list Z :=
  take (job_nodes j - 1) (nodeDepartureTimesSeconds (job_message j)) ++ [0].

(** Enough times, flags and nodes for each node but the last (or but the first). *)
Record job_ok (j : job) : Prop := {
  jb_nonempty : (1 <= job_nodes j)%nat;
  jb_size : Z.of_nat (job_nodes j) <= 18446744073709551616;
  jb_departures : (job_nodes j <= S (length (nodeDepartureTimesSeconds (job_message j))))%nat;
  jb_canBoard : (job_nodes j <= S (length (nodesCanBoard (job_message j))))%nat;
  jb_canUnboard : (job_nodes j <= length (nodesCanUnboard (job_message j)))%nat;
  jb_path : (job_nodes j <= length (path_nodesRef (job_path j)))%nat
}.

(** What a connection of a job is made of. *)
Record connection_of (j : job) (u : uid) (i : nat) (conn : Connection) : Prop := {
  cn_departure : nodeDepartureTimesSeconds (job_message j) !! i = Some (getDepartureTime conn);
  cn_arrival : nodeArrivalTimesSeconds (job_message j) !! S i = Some (getArrivalTime conn);
  cn_from : path_nodesRef (job_path j) !! i = Some (getDepartureNode conn);
  cn_to : path_nodesRef (job_path j) !! S i = Some (getArrivalNode conn);
  cn_trip : getTrip conn = job_trip j u;
  cn_sequence : getSequenceInTrip conn = Z.of_nat i + 1;
  cn_canBoard : (fun b => b =? 1) <$> nodesCanBoard (job_message j) !! i = Some (canBoard conn);
  cn_canUnboard : (fun b => b =? 1) <$> nodesCanUnboard (job_message j) !! S i = Some (canUnboard conn);
  cn_waiting : getMinWaitingTime conn = if isTransferable (line_mode (job_line j)) then 0 else -1;
  cn_sameLine : canTransferSameLine conn = negb (line_allowSameLineTransfers (job_line j) =? 0)
}.

Lemma Connection_at_ok j u i : job_ok j -> (S i < job_nodes j)%nat ->
  exists conn, Connection_at (job_message j) (job_line j) (job_path j) (job_trip j u) i = Ok conn /\
    connection_of j u i conn.
Proof.
  intros [Hne Hsize Hdep Hboard Hunboard Hpath] Hi.
  destruct (lookup_lt_is_Some_2 (nodeDepartureTimesSeconds (job_message j)) i) as [d Hd]; [lia|].
  destruct (lookup_lt_is_Some_2 (nodeArrivalTimesSeconds (job_message j)) (S i)) as [a Ha]; [unfold job_nodes in *; lia|].
  destruct (lookup_lt_is_Some_2 (nodesCanBoard (job_message j)) i) as [b Hb]; [lia|].
  destruct (lookup_lt_is_Some_2 (nodesCanUnboard (job_message j)) (S i)) as [b' Hb']; [lia|].
  destruct (lookup_lt_is_Some_2 (path_nodesRef (job_path j)) i) as [n Hn]; [lia|].
  destruct (lookup_lt_is_Some_2 (path_nodesRef (job_path j)) (S i)) as [n' Hn']; [lia|].
  eexists. split.
  - unfold Connection_at, vec_get, vec_at. change (1 + i)%nat with (S i). rewrite Hd. cbn [mbind result_bind]. rewrite Ha. cbn [mbind result_bind].
    rewrite Hb. cbn [mbind result_bind]. rewrite Hb'. cbn [mbind result_bind]. rewrite Hn. cbn [mbind result_bind].
    rewrite Hn'. reflexivity.
  - split; cbn; [done..|by rewrite Hb|by rewrite Hb'|done|done].
Qed.

Lemma job_connections_lookup j u i conn : job_ok j ->
  job_connections j u !! i = Some conn ->
  (S i < job_nodes j)%nat /\ connection_of j u i conn.
Proof.
  intros Hok. assert (forall i, (S i < job_nodes j)%nat -> exists conn, job_connection j u i = Some conn /\ connection_of j u i conn) as Hc.
  { intros k Hk. destruct (Connection_at_ok j u k Hok Hk) as (conn' & Hat & Hof). exists conn'.
    unfold job_connection. by rewrite Hat. }
  unfold job_connections. set (n := (job_nodes j - 1)%nat) in *. assert (forall k, (k < n)%nat -> (S k < job_nodes j)%nat) as Hn by lia.
  enough (forall m s, (s + m <= n)%nat -> forall i conn, omap (job_connection j u) (seq s m) !! i = Some conn ->
            (S (s + i) < job_nodes j)%nat /\ connection_of j u (s + i) conn) as H.
  { intros Hi. exact (H n 0%nat ltac:(lia) i conn Hi). }
  induction m as [|m IH]; intros s Hle k c Hk; [discriminate Hk|].
  cbn in Hk. destruct (Hc s) as (c0 & Hc0 & Hof); [apply Hn; lia|]. rewrite Hc0 in Hk. destruct k as [|k].
  - injection Hk as <-. rewrite Nat.add_0_r. split; [apply Hn; lia|done].
  - rewrite <- Nat.add_succ_comm. apply IH; [lia|exact Hk].
Qed.

Lemma job_connections_length j u : job_ok j -> length (job_connections j u) = (job_nodes j - 1)%nat.
Proof.
  intros Hok. unfold job_connections. assert (forall k, (k < job_nodes j - 1)%nat -> is_Some (job_connection j u k)) as Hc.
  { intros k Hk. destruct (Connection_at_ok j u k Hok) as (conn & Hat & _); [lia|]. unfold job_connection. rewrite Hat. eauto. }
  revert Hc. generalize (job_nodes j - 1)%nat. intros n Hc.
  enough (forall m s, (s + m <= n)%nat -> length (omap (job_connection j u) (seq s m)) = m) as H by (apply H; lia).
  induction m as [|m IH]; intros s Hle; [done|]. cbn. destruct (Hc s) as [c ->]; [lia|]. cbn. f_equal. apply IH. lia.
Qed.

(** The loop over the pairs of nodes. *)
Definition set_times (j : job) (l : list Z) (indices : list nat) : list Z :=
  foldl (fun l i => <[i := default 0 (nodeDepartureTimesSeconds (job_message j) !! i)]> l) l indices.

Lemma unsigned_pred_pos n : (1 <= n)%nat -> Z.of_nat n <= 18446744073709551616 -> unsigned_pred n = Z.of_nat (n - 1).
Proof. intros Hn Hle. unfold unsigned_pred. rewrite Z.mod_small; lia. Qed.

Lemma add_connections_run j u : job_ok j -> forall m i fuel st,
  (i + m = job_nodes j - 1)%nat -> (m <= fuel)%nat -> length (departureTimes_of u st) = job_nodes j ->
  returns (add_connections fuel (job_message j) (job_line j) (job_path j) (job_trip j u) i) st None
    (mkSchedules (sch_trips st) (sch_connections st ++ omap (job_connection j u) (seq i m)) (sch_pathTripsRef st)
       (<[u := set_times j (departureTimes_of u st) (seq i m)]> (sch_departureTimes st)) (sch_trip_uid st)).
Proof.
  intros Hok. induction m as [|m IH]; intros i fuel st Hi Hfuel Hlen.
  - assert (Z.of_nat i <? unsigned_pred (length (nodeArrivalTimesSeconds (job_message j))) = false) as Hend.
    { fold (job_nodes j). rewrite unsigned_pred_pos by apply Hok. apply Z.ltb_ge. lia. }
    assert (add_connections fuel (job_message j) (job_line j) (job_path j) (job_trip j u) i = mret None) as ->
      by (destruct fuel; cbn [add_connections]; by rewrite Hend).
    cbn. unfold set_times. cbn. rewrite app_nil_r. unfold departureTimes_of in Hlen |- *.
    destruct (sch_departureTimes st !! u) as [l|] eqn:Hl; cbn in *; [|pose proof (jb_nonempty j Hok); lia].
    rewrite insert_id by done. destruct st. apply returns_ret.
  - destruct fuel as [|fuel]; [lia|]. cbn [add_connections].
    assert (Z.of_nat i <? unsigned_pred (length (nodeArrivalTimesSeconds (job_message j))) = true) as ->.
    { fold (job_nodes j). rewrite unsigned_pred_pos by apply Hok. apply Z.ltb_lt. lia. }
    destruct (Connection_at_ok j u i Hok) as (conn & Hat & Hof); [lia|].
    eapply returns_bind.
    { apply try_catch_returns. eapply returns_bind; [by apply lift_ok|]. eapply returns_bind; [apply modify_ok|].
      eapply returns_bind; [apply lift_ok, vec_get_Ok, (cn_departure _ _ _ _ Hof)|].
      eapply returns_bind; [apply get_ok|]. cbn [trip_uid job_trip Trip_new].
      eapply returns_bind; [apply lift_ok, vec_set_Ok; split; [|reflexivity]|].
      - change (departureTimes_of u (sch_push_connection conn st)) with (departureTimes_of u st). lia.
      - eapply returns_bind; [apply modify_ok|apply returns_ret]. }
    cbv beta iota. set (st1 := sch_set_departureTimes _ _ _).
    assert (departureTimes_of u st1 = <[i := getDepartureTime conn]> (departureTimes_of u st)) as Ht
      by (unfold departureTimes_of, st1; cbn; by rewrite lookup_insert_eq).
    specialize (IH (S i) fuel st1 ltac:(lia) ltac:(lia)). rewrite Ht, length_insert in IH. specialize (IH Hlen).
    change (1 + i)%nat with (S i). refine (eq_ind _ (fun s => returns _ _ _ s) IH _ _). unfold st1. cbn.
    unfold job_connection at 2. rewrite Hat, <- app_assoc. cbn. f_equal. rewrite insert_insert_eq.
    unfold set_times. cbn. by rewrite (cn_departure _ _ _ _ Hof).
Qed.

(** The times of a trip whose vector was empty. *)
Lemma set_times_fresh j : job_ok j -> set_times j (vec_resize (job_nodes j) []) (seq 0 (job_nodes j - 1)) = job_times j.
Proof.
  intros Hok. unfold vec_resize, job_times. rewrite take_nil. cbn. rewrite Nat.sub_0_r.
  pose proof (jb_nonempty j Hok). pose proof (jb_departures j Hok) as Hd.
  replace (job_nodes j) with (S (job_nodes j - 1)) at 1 by lia. set (n := (job_nodes j - 1)%nat) in *.
  assert (n <= length (nodeDepartureTimesSeconds (job_message j)))%nat as Hn by lia. clearbody n. clear Hd H.
  enough (forall m pre, pre = take (length pre) (nodeDepartureTimesSeconds (job_message j)) ->
            (length pre + m <= length (nodeDepartureTimesSeconds (job_message j)))%nat ->
            set_times j (pre ++ replicate (S m) 0) (seq (length pre) m) =
            take (length pre + m) (nodeDepartureTimesSeconds (job_message j)) ++ [0]) as H.
  { exact (H n [] eq_refl Hn). }
  induction m as [|m IH]; intros pre Hpre Hle.
  - cbn. by rewrite Nat.add_0_r, <- Hpre.
  - destruct (lookup_lt_is_Some_2 (nodeDepartureTimesSeconds (job_message j)) (length pre)) as [d Hd]; [lia|].
    unfold set_times. cbn [seq foldl]. fold (set_times j). rewrite Hd. cbn [default from_option].
    cbn [replicate]. rewrite insert_app_r_alt, Nat.sub_diag by lia. cbn [list_insert].
    specialize (IH (pre ++ [d])). rewrite length_app, <- app_assoc in IH. cbn [length app] in IH.
    rewrite Nat.add_1_r in IH. rewrite Nat.add_succ_r. apply IH; [|lia].
    rewrite (take_S_r _ _ _ Hd). by f_equal.
Qed.

(** ** All trips *)

(** The trips of the jobs, counted from [before]. *)
Definition job_trips (before : uid) (jobs : list job) : list Trip :=
  imap (fun i j => job_trip j (S (before + i))) jobs.

Definition all_connections (before : uid) (jobs : list job) : list Connection :=
  concat (imap (fun i j => job_connections j (S (before + i))) jobs).

Lemma all_connections_cons before j jobs :
  all_connections before (j :: jobs) = job_connections j (S before) ++ all_connections (S before) jobs.
Proof.
  unfold all_connections. cbn. rewrite Nat.add_0_r. f_equal. f_equal. apply imap_ext. intros i x _. cbn.
  by rewrite Nat.add_succ_r.
Qed.

Lemma job_connections_trip j u conn : job_ok j -> conn ∈ job_connections j u -> getTrip conn = job_trip j u.
Proof.
  intros Hok Hconn. apply list_elem_of_lookup in Hconn as [k Hk].
  apply job_connections_lookup in Hk as [_ Hof]; [|done]. exact (cn_trip _ _ _ _ Hof).
Qed.

(** A connection belongs to a job, at its place. *)
Lemma all_connections_elem jobs : Forall job_ok jobs -> forall before conn,
  conn ∈ all_connections before jobs ->
  exists i j, jobs !! i = Some j /\ conn ∈ job_connections j (S (before + i)).
Proof.
  induction 1 as [|j jobs Hj Hjobs IH]; intros before conn Hconn; [by apply not_elem_of_nil in Hconn|].
  rewrite all_connections_cons in Hconn. apply elem_of_app in Hconn as [Hconn|Hconn].
  - exists 0%nat, j. by rewrite Nat.add_0_r.
  - apply IH in Hconn as (i & j' & Hi & Hconn). exists (S i), j'. by rewrite Nat.add_succ_r.
Qed.

(** The connections of a trip are those of its job. *)
Lemma filter_all_connections jobs : Forall job_ok jobs -> forall before i j,
  jobs !! i = Some j ->
  filter (of_trip (S (before + i))) (all_connections before jobs) = job_connections j (S (before + i)).
Proof.
  assert (forall j u v, job_ok j -> u <> v -> filter (of_trip v) (job_connections j u) = []) as Hother.
  { intros j u v Hok Huv. apply filter_none. rewrite Forall_forall. intros conn Hconn Hv.
    apply job_connections_trip in Hconn; [|done]. unfold of_trip in Hv. rewrite Hconn in Hv. done. }
  assert (forall j u, job_ok j -> filter (of_trip u) (job_connections j u) = job_connections j u) as Hown.
  { intros j u Hok. apply filter_all. rewrite Forall_forall. intros conn Hconn.
    apply job_connections_trip in Hconn; [|done]. unfold of_trip. by rewrite Hconn. }
  induction 1 as [|j0 jobs Hj0 Hjobs IH]; intros before i j Hi; [discriminate|].
  rewrite all_connections_cons, filter_app. destruct i as [|i].
  - injection Hi as ->. rewrite Nat.add_0_r, Hown by done. rewrite (filter_none _ (all_connections _ _)).
    + apply app_nil_r.
    + rewrite Forall_forall. intros conn Hconn Hu. apply all_connections_elem in Hconn as (k & j' & Hk & Hconn); [|done].
      rewrite Forall_forall in Hjobs. pose proof (Hjobs _ (list_elem_of_lookup_2 _ _ _ Hk)) as Hok.
      apply job_connections_trip in Hconn; [|done]. unfold of_trip in Hu. rewrite Hconn in Hu. cbn in Hu. lia.
  - rewrite Hother by (done || lia). cbn [app]. rewrite Nat.add_succ_r. exact (IH (S before) i j Hi).
Qed.

(** The state after the jobs, from a state whose containers were cleared. *)
Record schedules_of (st0 : Schedules) (jobs : list job) (st : Schedules) : Prop := {
  so_sorted : tree_sorted trip_uuid (sch_trips st);
  so_trips : sch_trips st ≡ₚ job_trips (sch_trip_uid st0) jobs;
  so_connections : sch_connections st = all_connections (sch_trip_uid st0) jobs;
  so_uid : sch_trip_uid st = (sch_trip_uid st0 + length jobs)%nat;
  so_times : forall i j, jobs !! i = Some j ->
    sch_departureTimes st !! S (sch_trip_uid st0 + i) = Some (job_times j);
  so_fresh : forall u, (sch_trip_uid st < u)%nat -> sch_departureTimes st !! u = None
}.

Lemma imap_snoc {A B} (f : nat -> A -> B) l x : imap f (l ++ [x]) = imap f l ++ [f (length l) x].
Proof. rewrite imap_app. cbn. by rewrite Nat.add_0_r. Qed.

Lemma job_trips_uuids before jobs : trip_uuid <$> job_trips before jobs = job_uuid <$> jobs.
Proof.
  unfold job_trips. apply list_eq. intros i. rewrite !list_lookup_fmap, list_lookup_imap.
  by destruct (jobs !! i).
Qed.

Section Jobs.
Context `{files : CacheFiles, boost : Boost} (cacheDirectoryPath customPath : string).
Context (paths : list Path) (services : list Service).

(** The job of a trip of a file, if what its texts name is there. *)
Definition job_of (line : Line) (service : Service) (c : cTrip) : option job :=
  tripUuid ← string_generator (cTrip_uuid c);
  path ← find_text path_uuid paths (cTrip_pathUuid c);
  Some (mkJob line service path tripUuid c).

Lemma job_of_Some line service c j : job_of line service c = Some j ->
  job_line j = line /\ job_service j = service /\ job_message j = c /\
  string_generator (cTrip_uuid c) = Some (job_uuid j) /\ find_text path_uuid paths (cTrip_pathUuid c) = Some (job_path j).
Proof.
  unfold job_of. destruct (string_generator (cTrip_uuid c)) as [u|]; [|discriminate]. cbn.
  destruct (find_text path_uuid paths (cTrip_pathUuid c)); [|discriminate]. by intros [= <-].
Qed.

Lemma add_trip_run st0 jobs line service c j st :
  job_of line service c = Some j -> job_ok j -> job_uuid j ∉ (job_uuid <$> jobs) -> schedules_of st0 jobs st ->
  exists st', returns (add_trip paths line service c) st None st' /\ schedules_of st0 (jobs ++ [j]) st'.
Proof.
  intros Hj Hok Hnew [Hsorted Htrips Hconns Huid Htimes Hfresh].
  apply job_of_Some in Hj as (<- & <- & <- & Hu & Hpath). unfold find_text in Hpath.
  destruct (string_generator (cTrip_pathUuid (job_message j))) as [p|] eqn:Hp; [|discriminate]. cbn in Hpath.
  set (u := S (sch_trip_uid st)).
  assert (job_uuid j ∉ (trip_uuid <$> sch_trips st)) as Hnotin by (by rewrite Htrips, job_trips_uuids).
  assert (tree_emplace trip_uuid (job_trip j u) (sch_trips st) ≡ₚ job_trip j u :: sch_trips st) as Hperm
    by (by apply tree_emplace_fresh).
  assert (tree_find trip_uuid (job_uuid j) (tree_emplace trip_uuid (job_trip j u) (sch_trips st)) = Some (job_trip j u)) as Hfind.
  { apply (tree_find_elem trip_uuid _ (job_trip j u)).
    - by apply tree_sorted_NoDup, tree_emplace_sorted.
    - rewrite Hperm. by left. }
  assert (departureTimes_of u st = []) as Hempty by (unfold departureTimes_of; rewrite Hfresh by (unfold u; lia); done).
  set (st1 := mkSchedules (tree_emplace trip_uuid (job_trip j u) (sch_trips st)) (sch_connections st)
    (<[p := default [] (sch_pathTripsRef st !! p) ++ [u]]> (sch_pathTripsRef st))
    (<[u := vec_resize (job_nodes j) []]> (sch_departureTimes st)) u).
  assert (departureTimes_of u st1 = vec_resize (job_nodes j) []) as Hst1
    by (unfold departureTimes_of, st1; cbn; by rewrite lookup_insert_eq).
  eexists. split.
  - unfold add_trip. eapply returns_bind; [by apply returns_uuidGenerator|].
    eapply returns_bind; [by apply returns_uuidGenerator|].
    eapply returns_bind; [apply lift_ok; unfold tree_at; by rewrite Hpath|].
    eapply returns_bind; [apply modify_ok|]. eapply returns_bind; [apply get_ok|].
    eapply returns_bind.
    { apply lift_ok. unfold tree_at.
      change (tree_find _ _ _) with (tree_find trip_uuid (job_uuid j) (tree_emplace trip_uuid (job_trip j u) (sch_trips st))).
      by rewrite Hfind. }
    eapply returns_bind; [apply modify_ok|]. eapply returns_bind; [apply modify_ok|].
    fold (job_nodes j). cbn [trip_uid job_trip Trip_new].
    change (departureTimes_of u (sch_emplace _ st)) with (departureTimes_of u st). rewrite Hempty.
    apply (add_connections_run j u Hok (job_nodes j - 1) 0 (1 + job_nodes j) st1); [lia|lia|].
    rewrite Hst1. unfold vec_resize. by rewrite take_nil, app_nil_l, length_replicate, Nat.sub_0_r.
  - rewrite Hst1, set_times_fresh by done. cbn [sch_trips sch_connections sch_pathTripsRef sch_departureTimes sch_trip_uid st1].
    rewrite insert_insert_eq. subst u. split; cbn [sch_trips sch_connections sch_departureTimes sch_trip_uid].
    + by apply tree_emplace_sorted.
    + rewrite Hperm, Htrips. unfold job_trips. rewrite imap_snoc, Huid. apply Permutation_cons_append.
    + unfold all_connections. rewrite imap_snoc, concat_app. cbn [concat]. rewrite app_nil_r, Hconns, Huid. reflexivity.
    + rewrite length_app, Huid. cbn. lia.
    + intros i j' Hi. apply lookup_app_Some in Hi as [Hi|[Hle Hi]].
      * rewrite lookup_insert_ne; [by apply Htimes|]. apply lookup_lt_Some in Hi. lia.
      * apply list_lookup_singleton_Some in Hi as [Hi <-]. assert (i = length jobs) as -> by lia.
        rewrite Huid. by rewrite lookup_insert_eq.
    + intros v Hv. rewrite lookup_insert_ne by lia. apply Hfresh. lia.
Qed.

(** Reading a list of trips, of periods, of schedules adds their jobs. *)
Definition adds_jobs (m : attempt Schedules (option Z)) (new : list job) : Prop :=
  forall st0 jobs st, schedules_of st0 jobs st -> NoDup (job_uuid <$> jobs ++ new) ->
  exists st', returns m st None st' /\ schedules_of st0 (jobs ++ new) st'.

Lemma adds_none : adds_jobs (mret None) [].
Proof. intros st0 jobs st Hst _. exists st. rewrite app_nil_r. split; [apply returns_ret|done]. Qed.

Lemma adds_each {A} (body : A -> attempt Schedules (option Z)) (l : list A) (new : A -> list job) :
  (forall x, x ∈ l -> adds_jobs (body x) (new x)) -> adds_jobs (each_return body l) (flat_map new l).
Proof.
  intros Hbody. induction l as [|x l IH]; [apply adds_none|]. intros st0 jobs st Hst Hnd.
  cbn [flat_map] in Hnd |- *. rewrite app_assoc in Hnd.
  destruct (Hbody x ltac:(by left) st0 jobs st Hst) as (st1 & Hrun1 & Hst1).
  { rewrite fmap_app in Hnd. by apply NoDup_app in Hnd as (Hnd & _). }
  destruct (IH ltac:(intros y Hy; apply Hbody; by right) st0 _ st1 Hst1 Hnd) as (st2 & Hrun2 & Hst2).
  exists st2. rewrite app_assoc. split; [|done]. exact (returns_bind _ _ _ _ _ _ _ Hrun1 Hrun2).
Qed.

Lemma adds_item {A} (body : A -> attempt Schedules (option Z)) item x new :
  item = Some x -> adds_jobs (body x) new -> adds_jobs (y ← kj item; body y) new.
Proof. intros -> Hbody. exact Hbody. Qed.

(** The trips in a message, and whether it can be read to its end. *)
Definition present {A} (l : reader_list A) : list A := omap id l.

Definition schedule_trips (s : cSchedule) : list cTrip :=
  flat_map (fun period => present (cPeriod_trips period)) (present (cSchedule_periods s)).

Definition readable (s : cSchedule) : Prop :=
  Forall (fun item => exists period, item = Some period /\ Forall is_Some (cPeriod_trips period)) (cSchedule_periods s).

Definition schedule_jobs (line : Line) (s : cSchedule) : list job :=
  match find_text service_uuid services (cSchedule_serviceUuid s) with
  | Some service => omap (job_of line service) (schedule_trips s)
  | None => []
  end.

(** A schedule without mistakes. *)
Record schedule_ok (line : Line) (s : cSchedule) : Prop := {
  sk_readable : readable s;
  sk_service : is_Some (find_text service_uuid services (cSchedule_serviceUuid s));
  sk_jobs : forall service c, c ∈ schedule_trips s -> exists j, job_of line service c = Some j /\ job_ok j
}.

Lemma flat_map_present {A B} (g : A -> list B) (l : reader_list A) :
  flat_map (fun item => match item with Some x => g x | None => [] end) l = flat_map g (present l).
Proof using Type. unfold present. induction l as [|[x|] l IH]; cbn; by rewrite ?IH. Qed.

Lemma omap_flat_map {A B D} (f : B -> option D) (g : A -> list B) l :
  omap f (flat_map g l) = flat_map (fun x => omap f (g x)) l.
Proof using Type. induction l as [|x l IH]; [done|]. cbn. by rewrite omap_app, IH. Qed.

Lemma flat_map_option {A B} (f : A -> option B) l : flat_map (fun x => option_list (f x)) l = omap f l.
Proof using Type. induction l as [|x l IH]; [done|]. cbn. rewrite IH. by destruct (f x). Qed.

Lemma present_elem {A} (l : reader_list A) x : x ∈ present l <-> Some x ∈ l.
Proof using Type. unfold present. rewrite list_elem_of_omap. naive_solver. Qed.

(** A loop over the elements of a message. *)
Lemma adds_items {A} (body : A -> attempt Schedules (option Z)) (l : reader_list A) (new : A -> list job) :
  Forall is_Some l -> (forall x, x ∈ present l -> adds_jobs (body x) (new x)) ->
  adds_jobs (each_return (fun item => x ← kj item; body x) l) (flat_map new (present l)).
Proof using Type.
  intros Hsome Hbody. rewrite <- flat_map_present. apply adds_each. intros item Hitem.
  rewrite Forall_forall in Hsome. destruct (Hsome item Hitem) as [x ->]. apply (adds_item body _ x); [done|].
  apply Hbody. by apply present_elem.
Qed.

Lemma adds_trip line service c j : job_of line service c = Some j -> job_ok j ->
  adds_jobs (add_trip paths line service c) [j].
Proof using Type.
  intros Hj Hok st0 jobs st Hst Hnd. apply (add_trip_run st0 jobs line service c j st); [done|done| |done].
  rewrite fmap_app in Hnd. apply NoDup_app in Hnd as (_ & Hnd & _). intros Hin. apply (Hnd _ Hin). by left.
Qed.

Lemma adds_schedule line s : schedule_ok line s -> adds_jobs (add_schedule paths services line s) (schedule_jobs line s).
Proof using Type.
  intros [Hreadable [service Hservice] Hjobs]. unfold schedule_jobs. rewrite Hservice.
  unfold schedule_trips. rewrite omap_flat_map. unfold find_text in Hservice.
  destruct (string_generator (cSchedule_serviceUuid s)) as [u|] eqn:Hu; [|discriminate]. cbn in Hservice.
  intros st0 jobs st Hst Hnd. unfold readable in Hreadable. rewrite Forall_forall in Hreadable.
  destruct (adds_items
    (fun period => each_return (fun item => c ← kj item; add_trip paths line service c) (cPeriod_trips period))
    (cSchedule_periods s) (fun period => omap (job_of line service) (present (cPeriod_trips period)))) with st0 jobs st
    as (st' & Hrun & Hst'); [| |exact Hst|exact Hnd|].
  - rewrite Forall_forall. intros item Hitem. destruct (Hreadable item Hitem) as (period & -> & _). eauto.
  - intros period Hperiod. rewrite <- flat_map_option. apply present_elem in Hperiod as Hin.
    apply adds_items; [by destruct (Hreadable _ Hin) as (p & [= ->] & Hp)|]. intros c Hc.
    destruct (Hjobs service c) as (j & Hj & Hok).
    { unfold schedule_trips. apply list_elem_of_In, in_flat_map. setoid_rewrite <- list_elem_of_In. eauto. }
    rewrite Hj. by apply (adds_trip line service c).
  - exists st'. split; [|done]. unfold add_schedule. eapply returns_bind; [by apply returns_uuidGenerator|].
    eapply returns_bind; [apply lift_ok; unfold tree_at; by rewrite Hservice|exact Hrun].
Qed.

(** The file of a line: none, or a message without mistakes. *)
Notation line_path := (line_path cacheDirectoryPath customPath).

Definition line_schedules (line : Line) : list cSchedule :=
  match line_file (line_path (line_uuid line)) with Opened (Some l) => present l | _ => [] end.

Definition line_jobs (line : Line) : list job := flat_map (schedule_jobs line) (line_schedules line).

Definition line_ok (line : Line) : Prop :=
  match line_file (line_path (line_uuid line)) with
  | OpenFailed _ => True
  | Opened None => False
  | Opened (Some l) => Forall (fun item => exists s, item = Some s /\ schedule_ok line s) l
  end.

Lemma adds_line line : line_ok line ->
  adds_jobs (add_line cacheDirectoryPath customPath paths services line) (line_jobs line).
Proof using Type.
  unfold line_ok, line_jobs, line_schedules, add_line. destruct (line_file _) as [errno|[l|]]; [|intros Hl|done].
  { intros _. apply adds_none. }
  assert (adds_jobs (each_return (fun item => s ← kj item; add_schedule paths services line s) l)
            (flat_map (schedule_jobs line) (present l))) as Hloop.
  { apply adds_items.
    - eapply Forall_impl; [exact Hl|]. intros item (s & -> & _). eauto.
    - intros s Hs. rewrite Forall_forall in Hl. apply present_elem in Hs.
      destruct (Hl _ Hs) as (s' & [= ->] & Hok). by apply adds_schedule. }
  intros st0 jobs st Hst Hnd. destruct (Hloop st0 jobs st Hst Hnd) as (st' & Hrun & Hst'). exists st'. split; [|done].
  apply try_catch_returns. eapply returns_bind; [by apply returns_kj|]. exact Hrun.
Qed.

(** All jobs of the files of the lines. *)
Definition all_jobs (lines : list Line) : list job := flat_map line_jobs lines.

(** A job is one of a line, and is made of objects that are there. *)
Lemma all_jobs_elem lines j : Forall line_ok lines -> j ∈ all_jobs lines ->
  job_ok j /\ job_line j ∈ lines /\ job_path j ∈ paths.
Proof using Type.
  intros Hlines Hj. apply list_elem_of_In, in_flat_map in Hj as (line & Hline & Hj).
  apply list_elem_of_In in Hline. rewrite Forall_forall in Hlines. specialize (Hlines line Hline).
  apply in_flat_map in Hj as (s & Hs & Hj). apply list_elem_of_In in Hs, Hj.
  unfold line_ok, line_schedules in *. destruct (line_file _) as [errno|[l|]]; [by apply not_elem_of_nil in Hs| |done].
  apply present_elem in Hs. rewrite Forall_forall in Hlines. destruct (Hlines _ Hs) as (s' & [= <-] & [_ _ Hjobs]).
  unfold schedule_jobs in Hj. destruct (find_text _ _ _) as [service|]; [|by apply not_elem_of_nil in Hj].
  apply list_elem_of_omap in Hj as (c & Hc & Hj). destruct (Hjobs service c Hc) as (j' & Hj' & Hok).
  assert (j' = j) as -> by congruence. apply job_of_Some in Hj as (<- & _ & _ & _ & Hpath). split_and!; [done..|].
  unfold find_text in Hpath. destruct (string_generator _) as [u|]; [|discriminate]. cbn in Hpath.
  by apply tree_find_Some in Hpath as [Hpath _].
Qed.

Lemma getSchedules_run lines st :
  Forall line_ok lines -> NoDup (job_uuid <$> all_jobs lines) ->
  (forall u, (sch_trip_uid st < u)%nat -> sch_departureTimes st !! u = None) ->
  exists st', returns (getSchedules cacheDirectoryPath customPath lines paths services) st 0 st' /\
    schedules_of st (all_jobs lines) st'.
Proof using Type.
  intros Hlines Hnd Hfresh. rewrite Forall_forall in Hlines.
  assert (adds_jobs (each_return (add_line cacheDirectoryPath customPath paths services) lines) (all_jobs lines)) as Hloop
    by (apply adds_each; intros line Hline; apply adds_line; auto).
  destruct (Hloop st [] (sch_clear st)) as (st' & Hrun & Hst'); [|done|].
  - split; cbn; [constructor|done|done|lia|done|done].
  - exists st'. split; [|done]. unfold getSchedules. eapply returns_bind; [apply modify_ok|].
    eapply returns_bind; [exact Hrun|apply returns_ret].
Qed.

(** C33: For lines whose files have no mistakes, and trips with different uuids,
    [getSchedules] succeeds. The trips are those of the files, with uids that count on
    from the last one in the order of the files; the connections are those of the trips
    in the same order, one for each pair of successive nodes of a trip, with the nodes
    of its path, its times and flags, numbered from [1]; the departure times kept with
    a trip are those of its connections, and a zero. *)
Theorem getSchedules_connections lines st :
  Forall line_ok lines -> NoDup (job_uuid <$> all_jobs lines) ->
  (forall u, (sch_trip_uid st < u)%nat -> sch_departureTimes st !! u = None) ->
  exists st', returns (getSchedules cacheDirectoryPath customPath lines paths services) st 0 st' /\
    tree_sorted trip_uuid (sch_trips st') /\
    sch_trips st' ≡ₚ job_trips (sch_trip_uid st) (all_jobs lines) /\
    sch_connections st' = all_connections (sch_trip_uid st) (all_jobs lines) /\
    sch_trip_uid st' = (sch_trip_uid st + length (all_jobs lines))%nat /\
    (forall i j, all_jobs lines !! i = Some j ->
       let u := S (sch_trip_uid st + i) in
       length (job_connections j u) = (job_nodes j - 1)%nat /\
       (forall k conn, job_connections j u !! k = Some conn -> connection_of j u k conn) /\
       sch_departureTimes st' !! u = Some (job_times j)).
Proof.
  intros Hlines Hnd Hfresh. destruct (getSchedules_run lines st Hlines Hnd Hfresh) as (st' & Hrun & Hst').
  exists st'. split; [exact Hrun|]. destruct Hst' as [Hsorted Htrips Hconns Huid Htimes _]. split_and!; [done..|].
  intros i j Hj u. assert (job_ok j) as Hok
    by (destruct (all_jobs_elem lines j Hlines (list_elem_of_lookup_2 _ _ _ Hj)); done).
  split_and!.
  - by apply job_connections_length.
  - intros k conn Hk. by apply job_connections_lookup.
  - by apply Htimes.
Qed.
End Jobs.
