(* ===== verification/CacheFetcher.v ===== *)
(** * The cache as a source of the transit data

    [CacheFetcher] of [cache_fetcher.hpp] implements the interface [DataFetcher]. *)

From Stdlib Require Import ZArith Lia.
From stdpp Require Import base list gmap strings.
From S2P Require Import Prelude.
From S2P Require Import Data.
From S2P Require Import Attempt.
From S2P Require Import Parameters.
From S2P Require Import TransitData.
From S2P Require Import CacheFiles.
From S2P Require CacheCollections.
From S2P Require CachePersons.
From S2P Require CacheNodes.
From S2P Require CacheSchedules.

Definition CacheFetcher `{!CacheFiles, !Boost} (cacheDirectoryPath customPath : string) : DataFetcher := {|
  fetcher_getModes := CacheCollections.getModes;
  fetcher_getNodes := CacheNodes.getNodes cacheDirectoryPath customPath;
  fetcher_getDataSources := CacheCollections.getDataSources cacheDirectoryPath customPath;
  fetcher_getPersons := CachePersons.getPersons cacheDirectoryPath customPath;
  fetcher_getOdTrips := CachePersons.getOdTrips cacheDirectoryPath customPath;
  fetcher_getAgencies := CacheCollections.getAgencies cacheDirectoryPath customPath;
  fetcher_getServices := CacheCollections.getServices cacheDirectoryPath customPath;
  fetcher_getLines := CacheCollections.getLines cacheDirectoryPath customPath;
  fetcher_getPaths := CacheCollections.getPaths cacheDirectoryPath customPath;
  fetcher_getScenarios := CacheCollections.getScenarios cacheDirectoryPath customPath;
  fetcher_getSchedules := CacheSchedules.getSchedules cacheDirectoryPath customPath
|}.
