(* ===== verification/Calculator.v ===== *)
(** * The state of a calculator and its reset before a query

    [calculator.hpp], [initializations.cpp] and [resets.cpp]. The fields that only
    time the calculation for the log ([algorithmCalculationTime], [calculationTime])
    are left out. The two static counters [Node::global_uid] and [Trip::global_uid],
    which size the vectors, are part of the [Server] the calculator runs in.
    [GeoFilter] is the interface of [geofilter.hpp]. *)

From Stdlib Require Import ZArith Lia.
From Corelib Require Import SpecFloat.
From stdpp Require Import base list gmap strings.
From S2P Require Import Prelude.
From S2P Require Import Data.
From S2P Require Import ConnectionSet.
From S2P Require Import ConnectionCache.
From S2P Require Import TransitData.

Local Open Scope Z_scope.

(** [GeoFilter::getAccessibleNodesFootpathsFromPoint(point, nodes, maxWalkingTravelTime,
    walkingSpeedMetersPerSecond)]: the footpaths, or an exception. The calculator never
    gives the last argument, [reversed]. *)
Class GeoFilter :=
  getAccessibleNodesFootpathsFromPoint :
    Point -> list Node -> Z -> spec_float -> calc (list NodeTimeDistance).

(** [getWalkingSpeedMetersPerSecond() { return 5/3.6; }], rounded to binary32. *)
Definition getWalkingSpeedMetersPerSecond : spec_float := S754_finite false 11650844 (-23).

(** [(int)ceil((float)(time) / parameters.getWalkingSpeedFactor())]: the factor is the
    constant 1.0, and dividing an integral float by it and taking its ceiling change
    nothing. The conversion back is undefined when the rounded time is not an [int]. *)
Definition footpathTravelTimeAtSpeed (time : Z) : calc Z :=
  let seconds := float_of_int time in
  if (MIN_INT <=? seconds) && (seconds <=? MAX_INT) then Ok seconds else Throw Undefined.

(** What a calculator is constructed with. *)
Record Server := mkServer {
  transitData : TransitData;
  Node_getMaxUid : nat;
  Trip_getMaxUid : nat
}.

(** The fields of [Calculator]. *)
Record Calculator := mkCalculator {
  departureTimeSeconds : Z;
  arrivalTimeSeconds : Z;
  minAccessTravelTime : Z;
  maxEgressTravelTime : Z;
  maxAccessTravelTime : Z;
  minEgressTravelTime : Z;
  odTripGlob : option OdTrip;
  nodesTentativeTime : list Z;
  nodesReverseTentativeTime : list Z;
  nodesAccess : gmap uid NodeTimeDistance;
  nodesEgress : gmap uid NodeTimeDistance;
  tripsDisabled : gmap uid bool;
  tripsQueryOverlay : list TripQueryData;
  connectionSet : ConnectionSet;
  accessFootpaths : list NodeTimeDistance;
  egressFootpaths : list NodeTimeDistance;
  forwardJourneysSteps : list JourneyStep;
  reverseJourneysSteps : list JourneyStep
}.

(** The constructor, with [initializeCalculationData]. The null [connectionSet] is
    the empty set; it is replaced by the first [resetFilters]. *)
Definition Calculator_new : Calculator :=
  mkCalculator 0 (-1) 0 0 0 0 None [] [] ∅ ∅ ∅ [] (ConnectionSet_new [] [] []) [] [] [] [].

Definition isTripDisabled (c : Calculator) (u : uid) : bool :=
  bool_decide (is_Some (tripsDisabled c !! u)).

(** ** The footpaths of the origin and of the destination *)

Section Reset.
Context `{!GeoFilter} {C : Type} `{!ScenarioConnectionCache C} (srv : Server).

(** [resetAccessFootpaths]: the footpaths, and whether there is one. *)
Definition resetAccessFootpaths (c : Calculator) (parameters : CommonParameters) (origin : Point)
    : calc (list NodeTimeDistance * bool) :=
  match odTripGlob c with
  | Some odTrip => Ok (originNodes odTrip, true)
  | None =>
      footpaths ← getAccessibleNodesFootpathsFromPoint origin (getNodes (transitData srv))
                    (getMaxAccessWalkingTravelTimeSeconds parameters) getWalkingSpeedMetersPerSecond;
      Ok (footpaths, negb (length footpaths =? 0)%nat)
  end.

Definition resetEgressFootpaths (c : Calculator) (parameters : CommonParameters)
    (destination : Point) : calc (list NodeTimeDistance * bool) :=
  match odTripGlob c with
  | Some odTrip => Ok (destinationNodes odTrip, true)
  | None =>
      footpaths ← getAccessibleNodesFootpathsFromPoint destination (getNodes (transitData srv))
                    (getMaxEgressWalkingTravelTimeSeconds parameters) getWalkingSpeedMetersPerSecond;
      Ok (footpaths, negb (length footpaths =? 0)%nat)
  end.

(** What the loops over the footpaths of one end fill. *)
Record EndState := mkEndState {
  end_nodes : gmap uid NodeTimeDistance;
  end_steps : list JourneyStep;
  end_times : list Z;
  end_minTravelTime : Z;
  end_maxTravelTime : Z
}.

(** One footpath; [timeAt t] is the tentative time of a node at [t] seconds. *)
Definition reset_footpath (timeAt : Z -> Z) (footpath : NodeTimeDistance) (st : EndState)
    : calc EndState :=
  footpathTravelTimeSeconds ← footpathTravelTimeAtSpeed (ntd_time footpath);
  let footpathDistanceMeters := ntd_distance footpath in
  let node := ntd_node footpath in
  let nodes' := map_emplace node
    (mkNTD node footpathTravelTimeSeconds footpathDistanceMeters) (end_nodes st) in
  steps' ← vec_at_set node
    (mkJourneyStep None None None footpathTravelTimeSeconds false footpathDistanceMeters)
    (end_steps st);
  times' ← vec_set node (timeAt footpathTravelTimeSeconds) (end_times st);
  Ok (mkEndState nodes' steps' times'
    (if footpathTravelTimeSeconds <? end_minTravelTime st
     then footpathTravelTimeSeconds else end_minTravelTime st)
    (if footpathTravelTimeSeconds >? end_maxTravelTime st
     then footpathTravelTimeSeconds else end_maxTravelTime st)).

(** The block of [reset] for the origin. *)
Definition reset_access (departureTime : Z) (footpaths : list NodeTimeDistance) : calc EndState :=
  for_each (reset_footpath (fun t => departureTime + t)) footpaths
    (mkEndState ∅ (replicate (Node_getMaxUid srv + 1) JourneyStep_default)
       (replicate (Node_getMaxUid srv + 1) MAX_INT) MAX_INT (-1)).

(** The block of [reset] for the destination. *)
Definition reset_egress (arrivalTime : Z) (footpaths : list NodeTimeDistance) : calc EndState :=
  for_each (reset_footpath (fun t => arrivalTime - t)) footpaths
    (mkEndState ∅ (replicate (Node_getMaxUid srv + 1) JourneyStep_default)
       (replicate (Node_getMaxUid srv + 1) (-1)) MAX_INT (-1)).

(** The filters of [resetFilters] on one trip; those on nodes are commented out. *)
Definition parameters_trip_enabled (parameters : CommonParameters) (trip : Trip) : bool :=
  let enabled := true in
  let enabled := require_in service_eqb (getOnlyServices parameters) (trip_service trip) enabled in
  let enabled := require_in line_eqb (getOnlyLines parameters) (trip_line trip) enabled in
  let enabled := require_in mode_eqb (getOnlyModes parameters) (trip_mode trip) enabled in
  let enabled := require_in agency_eqb (getOnlyAgencies parameters) (trip_agency trip) enabled in
  let enabled := forbid_in service_eqb (getExceptServices parameters) (trip_service trip) enabled in
  let enabled := forbid_in line_eqb (getExceptLines parameters) (trip_line trip) enabled in
  let enabled := forbid_in mode_eqb (getExceptModes parameters) (trip_mode trip) enabled in
  let enabled := forbid_in agency_eqb (getExceptAgencies parameters) (trip_agency trip) enabled in
  enabled.

Definition disable_trip (parameters : CommonParameters) (disabled : gmap uid bool) (trip : Trip)
    : gmap uid bool :=
  if parameters_trip_enabled parameters trip then disabled
  else <[trip_uid trip := true]> disabled.

(** [resetFilters]: the connection set of the scenario, and the disabled trips. *)
Definition resetFilters (parameters : CommonParameters) (cache : C)
    : ConnectionSet * gmap uid bool * C :=
  let '(cs, cache') := getConnectionsForScenario (transitData srv) (getScenario parameters) cache in
  (cs, foldl (disable_trip parameters) ∅ (ConnectionSet.getTrips cs), cache').

(** The departure and arrival times [reset] chooses. *)
Definition reset_departureTime (c : Calculator) (parameters : CommonParameters) : Z :=
  match odTripGlob c with
  | Some odTrip =>
      if isForwardCalculation parameters then od_departureTimeSeconds odTrip else -1
  | None => if isForwardCalculation parameters then getTimeOfTrip parameters else -1
  end.

Definition reset_arrivalTime (parameters : CommonParameters) : Z :=
  if negb (isForwardCalculation parameters) then getTimeOfTrip parameters else -1.

(** [reset(parameters, origin, destination, resetAccessPaths, doResetFilters)]. *)
Definition reset (c : Calculator) (parameters : CommonParameters)
    (origin destination : option Point) (resetAccessPaths doResetFilters : bool) (cache : C)
    : calc (Calculator * C) :=
  let accessFootpaths0 := if resetAccessPaths then [] else accessFootpaths c in
  let egressFootpaths0 := if resetAccessPaths then [] else egressFootpaths c in
  let departureTime := reset_departureTime c parameters in
  let arrivalTime := reset_arrivalTime parameters in
  accessRead ← match origin with
               | Some o => if resetAccessPaths then resetAccessFootpaths c parameters o
                           else Ok (accessFootpaths0, true)
               | None => Ok (accessFootpaths0, true)
               end;
  let '(accessFootpaths', accessFootpathOk) := accessRead in
  access ← match origin with
           | Some _ => reset_access departureTime accessFootpaths'
           | None => Ok (mkEndState (nodesAccess c) [] (nodesTentativeTime c) MAX_INT (-1))
           end;
  egressRead ← match destination with
               | Some d => if resetAccessPaths then resetEgressFootpaths c parameters d
                           else Ok (egressFootpaths0, true)
               | None => Ok (egressFootpaths0, true)
               end;
  let '(egressFootpaths', egressFootpathOk) := egressRead in
  egress ← match destination with
           | Some _ => reset_egress arrivalTime egressFootpaths'
           | None => Ok (mkEndState (nodesEgress c) [] (nodesReverseTentativeTime c) MAX_INT (-1))
           end;
  if negb egressFootpathOk && negb accessFootpathOk then
    Throw (NoRoutingFound NO_ACCESS_AT_ORIGIN_AND_DESTINATION)
  else if negb accessFootpathOk then Throw (NoRoutingFound NO_ACCESS_AT_ORIGIN)
  else if negb egressFootpathOk then Throw (NoRoutingFound NO_ACCESS_AT_DESTINATION)
  else
    let '(cs, disabled, cache') :=
      if doResetFilters then resetFilters parameters cache
      else (connectionSet c, tripsDisabled c, cache) in
    Ok (mkCalculator departureTime arrivalTime
          (end_minTravelTime access) (end_maxTravelTime egress)
          (end_maxTravelTime access) (end_minTravelTime egress)
          (odTripGlob c) (end_times access) (end_times egress)
          (end_nodes access) (end_nodes egress) disabled
          (replicate (Trip_getMaxUid srv + 1) TripQueryData_default) cs
          accessFootpaths' egressFootpaths' (end_steps access) (end_steps egress), cache').

(** ** Between the passes of a calculation *)

(** [tripsQueryOverlay[trip.uid].usable = true]. *)
Definition use_trip (trip : Trip) (overlay : list TripQueryData) : calc (list TripQueryData) :=
  q ← vec_get overlay (trip_uid trip);
  vec_set (trip_uid trip)
    (mkTripQueryData true (enterConnection q) (enterConnectionTransferTravelTime q)
       (exitConnection q) (exitConnectionTransferTravelTime q)) overlay.

(** A query by arrival time: no departure time, and every trip is usable. *)
Definition prepare_reverse_query (c : Calculator) : calc Calculator :=
  trips ← for_each use_trip (getTrips (transitData srv)) (tripsQueryOverlay c);
  Ok (mkCalculator (-1) (arrivalTimeSeconds c) (minAccessTravelTime c) (maxEgressTravelTime c)
        (maxAccessTravelTime c) (minEgressTravelTime c) (odTripGlob c) (nodesTentativeTime c)
        (nodesReverseTentativeTime c) (nodesAccess c) (nodesEgress c) (tripsDisabled c) trips
        (connectionSet c) (accessFootpaths c) (egressFootpaths c) (forwardJourneysSteps c)
        (reverseJourneysSteps c)).

(** The pass back from the best arrival time of a query by departure time: the
    reverse tentative times of the egress nodes follow the new arrival time. *)
Definition prepare_reverse_pass (bestArrivalTime : Z) (c : Calculator) : calc Calculator :=
  times ← for_each (fun egressFootpath times =>
                      vec_set (ntd_node egressFootpath) (bestArrivalTime - ntd_time egressFootpath) times)
            (egressFootpaths c) (nodesReverseTentativeTime c);
  Ok (mkCalculator (departureTimeSeconds c) bestArrivalTime (minAccessTravelTime c)
        (maxEgressTravelTime c) (maxAccessTravelTime c) (minEgressTravelTime c) (odTripGlob c)
        (nodesTentativeTime c) times (nodesAccess c) (nodesEgress c) (tripsDisabled c)
        (tripsQueryOverlay c) (connectionSet c) (accessFootpaths c) (egressFootpaths c)
        (forwardJourneysSteps c) (reverseJourneysSteps c)).
End Reset.
