(* ===== verification/FloatBounds.v ===== *)
(** * Bounds on rounded numbers

    How large the results of the floating-point operations are, in powers of two: the
    numbers themselves are those of [SpecFloat]. *)

From Stdlib Require Import ZArith Lia.
From Corelib Require Import SpecFloat.
From stdpp Require Import base list.
From S2P Require Import Prelude.

Local Open Scope Z_scope.

(** ** Digits *)

Lemma digits_spec p : 2 ^ (Zdigits2 (Z.pos p) - 1) <= Z.pos p < 2 ^ Zdigits2 (Z.pos p).
Proof.
  assert (forall q, Z.pos (Pos.succ q) - 1 = Z.pos q) as Hsucc by lia.
  assert (forall q, 2 ^ Z.pos q = 2 * 2 ^ (Z.pos q - 1)) as Hpow
    by (intros q; rewrite <- Z.pow_succ_r by lia; f_equal; lia).
  induction p as [p IH|p IH|]; cbn [Zdigits2 digits2_pos] in *; [..|lia]; rewrite ?Hsucc;
    rewrite (Hpow (Pos.succ _)), Hsucc; rewrite (Hpow (digits2_pos p)) in *; lia.
Qed.

Lemma digits_upper m d : 0 <= d -> 0 <= m < 2 ^ d -> Zdigits2 m <= d.
Proof.
  intros Hd Hm. destruct m as [|p|p]; [cbn; lia| |lia]. destruct (digits_spec p) as [Hlow _].
  assert (Zdigits2 (Z.pos p) - 1 < d); [|lia]. apply (Z.pow_lt_mono_r_iff 2); lia.
Qed.

Lemma digits_lt m : 0 <= m -> m < 2 ^ Zdigits2 m.
Proof. destruct m as [|p|p]; [cbn; lia|intros _; apply digits_spec|lia]. Qed.

Lemma digits_nonneg m : 0 <= m -> 0 <= Zdigits2 m.
Proof. destruct m; cbn; lia. Qed.

(** ** Shifts *)

Lemma shr_1_spec mrs : 0 <= shr_m mrs -> shr_m (shr_1 mrs) = shr_m mrs / 2.
Proof.
  destruct mrs as [[|[p|p|]|p] r s]; cbn [shr_m shr_1]; intros H; try lia; try reflexivity.
  - apply (Z.div_unique _ _ _ 1); lia.
  - apply (Z.div_unique _ _ _ 0); lia.
Qed.

Lemma iter_shr p : forall mrs, 0 <= shr_m mrs -> shr_m (SpecFloat.iter_pos shr_1 p mrs) = shr_m mrs / 2 ^ Z.pos p.
Proof.
  assert (forall q x, 0 <= x -> x / 2 ^ Z.pos q / 2 ^ Z.pos q = x / 2 ^ Z.pos (xO q)) as Htwice.
  { intros q x Hx. rewrite Z.div_div by lia. f_equal. rewrite <- Z.pow_add_r by lia. f_equal. lia. }
  assert (forall q x, 0 <= x -> 0 <= x / 2 ^ Z.pos q) as Hpos by (intros; apply Z.div_pos; lia).
  induction p as [p IH|p IH|]; intros mrs Hmrs; cbn [SpecFloat.iter_pos].
  - pose proof (shr_1_spec mrs Hmrs) as H1. assert (0 <= shr_m (shr_1 mrs)) as H2 by (rewrite H1; apply Z.div_pos; lia).
    rewrite IH; [|rewrite IH; auto]. rewrite IH by done. rewrite Htwice by done. rewrite H1.
    rewrite Z.div_div by lia. by f_equal.
  - rewrite IH; [|rewrite IH; auto]. rewrite IH by done. by apply Htwice.
  - by rewrite shr_1_spec.
Qed.

Lemma shr_spec mrs e n : 0 <= shr_m mrs ->
  shr_m (shr mrs e n).1 = shr_m mrs / 2 ^ Z.max n 0 /\ (shr mrs e n).2 = e + Z.max n 0.
Proof.
  intros Hmrs. unfold shr. destruct n as [|p|p]; cbn [fst snd]; rewrite ?Z.max_l, ?Z.max_r by lia.
  - by rewrite Z.div_1_r, Z.add_0_r.
  - by rewrite iter_shr.
  - by rewrite Z.div_1_r, Z.add_0_r.
Qed.

(** A shift to the exponent of the format leaves at most its precision of digits. *)
Lemma shifted_small prec emax m e : 0 < prec -> 0 <= m ->
  0 <= m / 2 ^ Z.max (fexp prec emax (Zdigits2 m + e) - e) 0 < 2 ^ prec.
Proof.
  intros Hprec Hm. set (n := Z.max _ 0). split; [apply Z.div_pos; lia|].
  apply Z.div_lt_upper_bound; [lia|]. rewrite <- Z.pow_add_r by lia.
  eapply Z.lt_le_trans; [by apply digits_lt|]. apply Z.pow_le_mono_r; [lia|]. unfold n, fexp. lia.
Qed.

(** ** Rounding *)

(** A number of sign [s], zero or with less than [prec] digits and an exponent of [E]
    at most. *)
Definition fits (prec E : Z) (s : bool) (f : spec_float) : Prop :=
  match f with
  | S754_finite s' m e => s' = s /\ Z.pos m < 2 ^ prec /\ e <= E
  | S754_zero s' => s' = s
  | _ => False
  end.

(** Of sign [s], and with its digits, if it is a number. *)
Definition signed_as (prec : Z) (s : bool) (f : spec_float) : Prop :=
  match f with
  | S754_finite s' m _ => s' = s /\ Z.pos m < 2 ^ prec
  | S754_zero s' | S754_infinity s' => s' = s
  | S754_nan => True
  end.

Section Round.
Context (prec emax : Z) (Hprec : 0 < prec).
Notation exponent m e := (Z.max e (fexp prec emax (Zdigits2 m + e))).

Lemma round_result s m e l : 0 <= m ->
  match binary_round_aux prec emax s m e l with
  | S754_finite s' m' e' => s' = s /\ Z.pos m' < 2 ^ prec /\ e' <= exponent m e + 1
  | S754_zero s' => s' = s
  | S754_infinity s' => s' = s /\ emax - prec < exponent m e + 1
  | S754_nan => False
  end.
Proof using Hprec.
  intros Hm. unfold binary_round_aux.
  assert (0 <= shr_m (shr_record_of_loc m l)) as H0 by (by destruct l as [|[]]).
  assert (shr_m (shr_record_of_loc m l) = m) as Hrec by (by destruct l as [|[]]).
  destruct (shr_fexp prec emax m e l) as [mrs1 e1] eqn:Hs1. unfold shr_fexp in Hs1.
  destruct (shr_spec _ e (fexp prec emax (Zdigits2 m + e) - e) H0) as [Hm1 He1]. rewrite Hs1 in Hm1, He1.
  cbn [fst snd] in Hm1, He1. rewrite Hrec in Hm1.
  pose proof (shifted_small prec emax m e Hprec Hm) as Hsmall. rewrite <- Hm1 in Hsmall.
  set (m2 := round_nearest_even _ _).
  assert (0 <= m2 <= shr_m mrs1 + 1) as Hm2.
  { unfold m2, round_nearest_even. destruct (loc_of_shr_record mrs1) as [|[]]; try lia. destruct (Z.even _); lia. }
  destruct (shr_fexp prec emax m2 e1 loc_Exact) as [mrs3 e3] eqn:Hs3. unfold shr_fexp in Hs3.
  destruct (shr_spec (shr_record_of_loc m2 loc_Exact) e1 (fexp prec emax (Zdigits2 m2 + e1) - e1)) as [Hm3 He3]; [cbn; lia|].
  rewrite Hs3 in Hm3, He3. cbn [fst snd shr_record_of_loc shr_m] in Hm3, He3.
  pose proof (shifted_small prec emax m2 e1 Hprec) as Hsmall3. rewrite <- Hm3 in Hsmall3. specialize (Hsmall3 (proj1 Hm2)).
  assert (Zdigits2 m2 <= prec + 1) as Hd2.
  { apply digits_upper; [lia|]. rewrite Z.pow_add_r by lia. lia. }
  assert (e3 <= exponent m e + 1) as Hexp by (rewrite He3, He1; unfold fexp in *; lia).
  destruct (shr_m mrs3) as [|p|p]; [done| |lia].
  destruct (Z.leb_spec e3 (emax - prec)); [by split_and!; [|lia|]|]. split; [done|lia].
Qed.

Lemma round_fits E s m e l : 0 <= m -> exponent m e + 1 <= E -> E <= emax - prec ->
  fits prec E s (binary_round_aux prec emax s m e l).
Proof using Hprec.
  intros Hm HE Hmax. pose proof (round_result s m e l Hm) as H.
  destruct (binary_round_aux _ _ _ _ _ _); cbn in *; try done; try lia. destruct H as (-> & ? & ?). split_and!; [done|done|lia].
Qed.

Lemma round_signed s m e l : 0 <= m -> signed_as prec s (binary_round_aux prec emax s m e l).
Proof using Hprec.
  intros Hm. pose proof (round_result s m e l Hm) as H. destruct (binary_round_aux _ _ _ _ _ _); cbn in *; tauto.
Qed.

(** [binary_round]: the mantissa is aligned with the exponent of the format before. *)
Lemma shl_align_spec m e e' :
  Z.pos (shl_align m e e').1 = Z.pos m * 2 ^ Z.max (e - e') 0 /\ (shl_align m e e').2 = Z.min e e'.
Proof.
  unfold shl_align. destruct (e' - e) as [|d|d] eqn:Hd; cbn [fst snd].
  - rewrite Z.max_r, Z.min_l by lia. lia.
  - rewrite Z.max_r, Z.min_l by lia. lia.
  - rewrite Z.max_l, Z.min_r by lia. split; [|done]. replace (e - e') with (Z.pos d) by lia.
    clear. revert m. induction d as [|d IH] using Pos.peano_ind; intros m; [cbn; lia|].
    rewrite Pos.iter_succ, Pos2Z.inj_succ, Z.pow_succ_r by lia. specialize (IH m). lia.
Qed.

Lemma digits_shift m d : 0 <= d -> Zdigits2 (Z.pos m * 2 ^ d) <= Zdigits2 (Z.pos m) + d.
Proof.
  intros Hd. destruct (digits_spec m) as [_ Hm]. apply digits_upper; [pose proof (digits_nonneg (Z.pos m)); lia|].
  split; [apply Z.mul_nonneg_nonneg; lia|]. rewrite Z.pow_add_r by (pose proof (digits_nonneg (Z.pos m)); lia).
  apply Z.mul_lt_mono_pos_r; lia.
Qed.

Lemma binary_round_fits E s m e : fexp prec emax (Zdigits2 (Z.pos m) + e) + 1 <= E -> E <= emax - prec ->
  fits prec E s (binary_round prec emax s m e).
Proof using Hprec.
  intros HE Hmax. unfold binary_round. change (Z.pos (digits2_pos m)) with (Zdigits2 (Z.pos m)).
  destruct (shl_align_spec m e (fexp prec emax (Zdigits2 (Z.pos m) + e))) as [Hm He].
  destruct (shl_align _ _ _) as [mz ez]. cbn [fst snd] in *. apply round_fits; [lia| |done].
  pose proof (digits_shift m (Z.max (e - fexp prec emax (Zdigits2 (Z.pos m) + e)) 0)) as Hd. rewrite <- Hm in Hd.
  unfold fexp in *. lia.
Qed.

Lemma binary_round_signed s m e : signed_as prec s (binary_round prec emax s m e).
Proof using Hprec. unfold binary_round. destruct (shl_align _ _ _). apply round_signed. lia. Qed.

(** ** The operations *)

(** An integer of [d] digits. *)
Lemma integer_fits E z d : 0 <= z < 2 ^ d -> 0 <= d -> fexp prec emax d + 1 <= E -> E <= emax - prec ->
  fits prec E false (binary_normalize prec emax z 0 false).
Proof using Hprec.
  intros Hz Hd HE Hmax. destruct z as [|p|p]; [done| |lia]. apply binary_round_fits; [|done].
  pose proof (digits_upper (Z.pos p) d Hd Hz). unfold fexp in *. lia.
Qed.

Lemma mul_fits E1 E2 E s1 s2 x y : fits prec E1 s1 x -> fits prec E2 s2 y ->
  Z.max (E1 + E2) (fexp prec emax (2 * prec + E1 + E2)) + 1 <= E -> E <= emax - prec ->
  fits prec E (xorb s1 s2) (SFmul prec emax x y).
Proof using Hprec.
  intros Hx Hy HE Hmax. destruct x as [sx|sx| |sx mx ex], y as [sy|sy| |sy my ey]; cbn in Hx, Hy |- *;
    try (by destruct_and?; subst).
  destruct Hx as (-> & Hmx & Hex), Hy as (-> & Hmy & Hey). apply round_fits; [lia| |done].
  assert (Zdigits2 (Z.pos (mx * my)) <= 2 * prec).
  { apply digits_upper; [lia|]. split; [lia|]. replace (2 * prec) with (prec + prec) by lia.
    rewrite Z.pow_add_r, Pos2Z.inj_mul by lia. apply Z.mul_lt_mono_nonneg; lia. }
  unfold fexp in *. lia.
Qed.

Lemma square_signed x : signed_as prec false (SFmul prec emax x x).
Proof using Hprec.
  destruct x as [s|s| |s m e]; cbn; [by destruct s|by destruct s|done|].
  rewrite xorb_nilpotent. apply round_signed. lia.
Qed.

Lemma add_signed x y : signed_as prec false x -> signed_as prec false y -> signed_as prec false (SFadd prec emax x y).
Proof using Hprec.
  intros Hx Hy. destruct x as [sx|sx| |sx mx ex], y as [sy|sy| |sy my ey]; cbn in Hx, Hy |- *;
    try (by destruct_and?; subst).
  destruct Hx as [-> _], Hy as [-> _]. cbn [cond_Zopp binary_normalize]. apply binary_round_signed.
Qed.

Lemma sqrt_fits E1 E x : fits prec E1 false x ->
  fexp prec emax ((prec + E1 + 1) / 2) + 1 <= E -> E <= emax - prec -> fits prec E false (SFsqrt prec emax x).
Proof using Hprec.
  intros Hx HE Hmax. destruct x as [s|s| |s m e]; cbn in Hx; [by subst|done|done|]. destruct Hx as (-> & Hm & He).
  unfold SFsqrt, SFsqrt_core_binary. rewrite !Z.div2_div. set (d := Zdigits2 (Z.pos m)). set (e' := Z.min _ _).
  assert (d <= prec) as Hd by (apply digits_upper; lia). destruct (digits_spec m) as [_ Hmd]. fold d in Hmd.
  assert (0 <= d) as Hd0 by (apply digits_nonneg; lia).
  assert (0 <= e - 2 * e') as Hs by (pose proof (Z.mul_div_le e 2); lia).
  assert (match e - 2 * e' with Z0 => Z.pos m | Z.pos _ => Z.shiftl (Z.pos m) (e - 2 * e') | Z.neg _ => 0 end =
          Z.pos m * 2 ^ (e - 2 * e')) as -> by (destruct (e - 2 * e') eqn:Hs'; [lia|by rewrite Z.shiftl_mul_pow2 by lia|lia]).
  set (m' := Z.pos m * 2 ^ (e - 2 * e')). pose proof (Z.sqrtrem_spec m') as Hsq.
  assert (0 <= m' < 2 ^ (d + (e - 2 * e'))) as Hm'.
  { rewrite Z.pow_add_r by lia. split; [apply Z.mul_nonneg_nonneg; lia|apply Z.mul_lt_mono_pos_r; lia]. }
  destruct (Z.sqrtrem m') as [q r]. specialize (Hsq (proj1 Hm')) as [Hq Hr].
  set (k := (d + (e - 2 * e') + 1) / 2).
  assert (2 * k <= d + (e - 2 * e') + 1 < 2 * k + 2) as Hk
    by (pose proof (Z.div_mod (d + (e - 2 * e') + 1) 2); pose proof (Z.mod_pos_bound (d + (e - 2 * e') + 1) 2); unfold k; lia).
  assert (Zdigits2 q <= k) as Hqd.
  { apply digits_upper; [lia|]. split; [lia|]. apply Z.square_lt_simpl_nonneg; [lia|].
    rewrite <- Z.pow_add_r by lia. apply Z.le_lt_trans with m'; [lia|]. eapply Z.lt_le_trans; [apply Hm'|].
    apply Z.pow_le_mono_r; lia. }
  assert (k + e' = (d + e + 1) / 2) as Hke.
  { unfold k. replace (d + e + 1) with (d + (e - 2 * e') + 1 + e' * 2) by lia. by rewrite Z.div_add by lia. }
  assert ((d + e + 1) / 2 <= (prec + E1 + 1) / 2) as Hmono by (apply Z.div_le_mono; lia).
  apply round_fits; [lia| |done]. unfold e', fexp in *. lia.
Qed.

Lemma div_fits E1 E my ey x : fits prec E1 false x ->
  fexp prec emax (prec + E1 - (Zdigits2 (Z.pos my) + ey) + 1) + 1 <= E -> E <= emax - prec ->
  fits prec E false (SFdiv prec emax x (S754_finite false my ey)).
Proof using Hprec.
  intros Hx HE Hmax. destruct x as [s|s| |s m e]; cbn in Hx; [by subst|done|done|]. destruct Hx as (-> & Hm & He).
  unfold SFdiv, SFdiv_core_binary. set (d := Zdigits2 (Z.pos m)). set (d2 := Zdigits2 (Z.pos my)) in *. set (e' := Z.min _ _).
  assert (d <= prec) as Hd by (apply digits_upper; lia). destruct (digits_spec m) as [_ Hmd]. fold d in Hmd.
  destruct (digits_spec my) as [Hmy _]. fold d2 in Hmy.
  assert (0 <= d) as Hd0 by (apply digits_nonneg; lia).
  assert (1 <= d2) as Hd2 by (unfold d2; cbn; lia).
  assert (0 <= e - ey - e') as Hs by lia.
  assert (match e - ey - e' with Z0 => Z.pos m | Z.pos _ => Z.shiftl (Z.pos m) (e - ey - e') | Z.neg _ => 0 end =
          Z.pos m * 2 ^ (e - ey - e')) as -> by (destruct (e - ey - e') eqn:Hs'; [lia|by rewrite Z.shiftl_mul_pow2 by lia|lia]).
  set (m' := Z.pos m * 2 ^ (e - ey - e')).
  assert (0 <= m' < 2 ^ (d + (e - ey - e'))) as Hm'.
  { rewrite Z.pow_add_r by lia. split; [apply Z.mul_nonneg_nonneg; lia|apply Z.mul_lt_mono_pos_r; lia]. }
  destruct (Z.div_eucl m' (Z.pos my)) as [q r] eqn:Hdiv.
  assert (q = m' / Z.pos my) as -> by (unfold Z.div; by rewrite Hdiv).
  set (k := Z.max 0 (d + (e - ey - e') - d2 + 1)).
  assert (Zdigits2 (m' / Z.pos my) <= k) as Hqd.
  { apply digits_upper; [lia|]. split; [apply Z.div_pos; lia|]. apply Z.div_lt_upper_bound; [lia|].
    eapply Z.lt_le_trans; [apply Hm'|]. transitivity (2 ^ (d2 - 1) * 2 ^ k); [|apply Z.mul_le_mono_nonneg_r; lia].
    rewrite <- Z.pow_add_r by lia. apply Z.pow_le_mono_r; lia. }
  cbn [xorb]. apply round_fits; [apply Z.div_pos; lia| |done]. unfold e', k, fexp in *. lia.
Qed.
End Round.
