(* ===== verification/GeoFilters.v ===== *)
(** * The geographic filters

    [geofilter.cpp], [euclideangeofilter.cpp] and [osrmgeofilter.cpp]. A [float] is a
    binary32 and a [double] a binary64 number, each operation rounded to nearest in its
    own format. What the platform leaves open is an interface: the values of [cos], and
    whether [sqrt] of a [float] is that of [float] or that of [double] (the headers of
    the libraries decide). The map service, its HTTP client and the JSON library are an
    interface too. *)

From Stdlib Require Import ZArith Lia.
From Corelib Require Import SpecFloat.
From stdpp Require Import base list gmap strings pretty.
From S2P Require Import Prelude.
From S2P Require Import Data.
From S2P Require Import Numbers.
From S2P Require Import Calculator.

Local Open Scope Z_scope.

(** ** Conversions *)

Definition to_float (f : spec_float) : spec_float :=
  match f with S754_finite s m e => binary_round 24 128 s m e | _ => f end.

Definition to_double (f : spec_float) : spec_float :=
  match f with S754_finite s m e => binary_round 53 1024 s m e | _ => f end.

(** An [int] as a [float] and as a [double]. *)
Definition float_of (z : Z) : spec_float := binary_normalize 24 128 z 0 false.
Definition double_of (z : Z) : spec_float := binary_normalize 53 1024 z 0 false.

(** [m * 2 ^ e], without its fraction. *)
Definition whole (m e : Z) : Z := if 0 <=? e then m * 2 ^ e else m / 2 ^ (- e).

(** [(int) f]: undefined when the whole part is not an [int]. *)
Definition int_of (f : spec_float) : calc Z :=
  match f with
  | S754_zero _ => Ok 0
  | S754_finite s m e =>
      let z := if s then - whole (Z.pos m) e else whole (Z.pos m) e in
      if (MIN_INT <=? z) && (z <=? MAX_INT) then Ok z else Throw Undefined
  | _ => Throw Undefined
  end.

(** [(int) ceil(f)]. *)
Definition int_of_ceil (f : spec_float) : calc Z :=
  match f with
  | S754_zero _ => Ok 0
  | S754_finite s m e =>
      let z := if 0 <=? e then (if s then - Z.pos m else Z.pos m) * 2 ^ e
               else - ((if s then Z.pos m else - Z.pos m) / 2 ^ (- e)) in
      if (MIN_INT <=? z) && (z <=? MAX_INT) then Ok z else Throw Undefined
  | _ => Throw Undefined
  end.

(** [std::to_string] of a [double]: six decimals, exact halves to even. *)
Definition millionths (m : positive) (e : Z) : Z :=
  if 0 <=? e then Z.pos m * 2 ^ e * 1000000
  else
    let n := Z.pos m * 1000000 in
    let q := n / 2 ^ (- e) in
    let r := n mod 2 ^ (- e) in
    if 2 * r <? 2 ^ (- e) then q
    else if 2 * r >? 2 ^ (- e) then q + 1
    else if Z.even q then q else q + 1.

Definition six_digits (z : Z) : string :=
  let s := pretty z in String.substring 0 (6 - String.length s) "000000" +:+ s.

Definition to_string (f : spec_float) : string :=
  let sign (s : bool) := if s then "-"%string else ""%string in
  match f with
  | S754_zero s => sign s +:+ "0.000000"
  | S754_infinity s => sign s +:+ "inf"
  | S754_nan => "nan"
  | S754_finite s m e =>
      let z := millionths m e in sign s +:+ pretty (z / 1000000) +:+ "." +:+ six_digits (z mod 1000000)
  end.

(** ** The distance of two points *)

(** What the platform leaves open. *)
Class Libm := {
  cos : spec_float -> spec_float;
  sqrt_of_float : bool
}.

(** [sqrt(f)] of a [float], for a conversion to [int]. *)
Definition sqrt `{!Libm} (f : spec_float) : spec_float :=
  if sqrt_of_float then SFsqrt 24 128 f else SFsqrt 53 1024 (to_double f).

Definition M_PI : spec_float := S754_finite false 7074237752028440 (-51).

Declare Scope double_scope.
Delimit Scope double_scope with double.
Notation "x * y" := (SFmul 53 1024 x y) : double_scope.
Notation "x / y" := (SFdiv 53 1024 x y) : double_scope.
Notation "x + y" := (SFadd 53 1024 x y) : double_scope.
Notation "x - y" := (SFsub 53 1024 x y) : double_scope.

Section Distance.
Context `{!Libm}.

Definition decimal (m : N) (e : Z) : spec_float := round_decimal false m e.

Definition calculateLengthOfOneDegree (point : Point) : spec_float * spec_float :=
  let angle k := (double_of k * latitude point * M_PI / double_of 180)%double in
  let lengthOfOneDegreeOfLongitude :=
    to_float (decimal 11141284 (-2) * cos (latitude point * M_PI / double_of 180) - decimal 935 (-1) * cos (angle 3%Z))%double in
  let lengthOfOneDegreeOflatitude :=
    to_float (decimal 11113292 (-2) - decimal 55982 (-2) * cos (angle 2%Z) + decimal 1175 (-3) * cos (angle 4%Z))%double in
  (lengthOfOneDegreeOfLongitude, lengthOfOneDegreeOflatitude).

Definition calculateMaxDistanceSquared (maxWalkingTravelTime : Z) (walkingSpeedMetersPerSecond : spec_float) : spec_float :=
  let distance := SFmul 24 128 (float_of maxWalkingTravelTime) walkingSpeedMetersPerSecond in
  SFmul 24 128 distance distance.

Definition calculateNodeDistanceSquared (node point : Point) (lengthOfOneDegree : spec_float * spec_float) : spec_float :=
  let distanceXMeters := to_float ((longitude node - longitude point) * to_double lengthOfOneDegree.1)%double in
  let distanceYMeters := to_float ((latitude node - latitude point) * to_double lengthOfOneDegree.2)%double in
  SFadd 24 128 (SFmul 24 128 distanceXMeters distanceXMeters) (SFmul 24 128 distanceYMeters distanceYMeters).

(** ** The bird distance *)

(** One node: its footpath, if it is near. *)
Definition bird_footpath (point : Point) (lengthOfOneDegree : spec_float * spec_float) (maxDistanceMetersSquared speed : spec_float)
    (node : Node) : calc (option NodeTimeDistance) :=
  let distanceMetersSquared := calculateNodeDistanceSquared (node_point node) point lengthOfOneDegree in
  if SFleb distanceMetersSquared maxDistanceMetersSquared then
    distanceMeters ← int_of (sqrt distanceMetersSquared);
    travelTimeSeconds ← int_of (SFdiv 24 128 (float_of distanceMeters) speed);
    Ok (Some (mkNTD (node_uid node) travelTimeSeconds distanceMeters))
  else Ok None.

(** [EuclideanGeoFilter::getAccessibleNodesFootpathsFromPoint]. *)
Definition EuclideanGeoFilter : GeoFilter := fun point nodes maxWalkingTravelTime walkingSpeedMetersPerSecond =>
  let lengthOfOneDegree := calculateLengthOfOneDegree point in
  let maxDistanceMetersSquared := calculateMaxDistanceSquared maxWalkingTravelTime walkingSpeedMetersPerSecond in
  footpaths ← mapM (bird_footpath point lengthOfOneDegree maxDistanceMetersSquared walkingSpeedMetersPerSecond) nodes;
  Ok (omap id footpaths).
End Distance.

(** ** The map service *)

(** What the JSON library gives of the document of a table: the first rows of the
    durations and of the distances, when there are any; an element is absent when its
    conversion to [float] throws (it is [null], say). *)
Record OsrmTable := mkOsrmTable {
  durations_row : option (list (option spec_float));
  distances_row : option (list (option spec_float))
}.

(** [client.request("GET", query)]: an exception, or a status and a content; and
    [nlohmann::json::parse], which may throw. *)
Class OsrmService := {
  osrm_request : string -> string -> option (string * string);
  osrm_parse : string -> option OsrmTable
}.

Section Osrm.
Context `{!Libm, !OsrmService} (mode host port : string) (reversed : bool).

(** The nodes that are near as the crow flies. *)
Definition near_nodes (point : Point) (lengthOfOneDegree : spec_float * spec_float) (maxDistanceMetersSquared : spec_float)
    (nodes : list Node) : list Node :=
  filter (fun node => SFleb (calculateNodeDistanceSquared (node_point node) point lengthOfOneDegree)
                        maxDistanceMetersSquared = true) nodes.

Definition coordinates (p : Point) : string := to_string (longitude p) +:+ "," +:+ to_string (latitude p).

(** The query string. *)
Definition osrm_query (point : Point) (near : list Node) : string :=
  let queryString := "/table/v1/" +:+ mode +:+ "/" +:+ coordinates point in
  let queryString := foldl (fun queryString node => queryString +:+ ";" +:+ coordinates (node_point node)) queryString near in
  let queryString := queryString +:+ "?annotations=duration,distance" in
  if reversed then queryString +:+ "&destinations=0" else queryString +:+ "&sources=0".

(** [(int)ceil((float) row[i])]: an index past the row gives a [null], whose conversion
    throws. *)
Definition table_value (row : list (option spec_float)) (i : nat) : calc Z :=
  match row !! i with
  | Some (Some x) => int_of_ceil (to_float x)
  | _ => Throw StdException
  end.

(** The loop over the durations but the first. *)
Definition osrm_footpath (maxWalkingTravelTime : Z) (near : list Node) (durations distances : list (option spec_float)) (i : nat)
    : calc (option NodeTimeDistance) :=
  travelTimeSeconds ← table_value durations i;
  if travelTimeSeconds <=? maxWalkingTravelTime then
    distanceMeters ← table_value distances i;
    node ← vec_get near (i - 1);
    Ok (Some (mkNTD (node_uid node) travelTimeSeconds distanceMeters))
  else Ok None.

Definition osrm_footpaths (maxWalkingTravelTime : Z) (near : list Node) (table : OsrmTable) : calc (list NodeTimeDistance) :=
  match durations_row table, distances_row table with
  | Some durations, Some distances =>
      let numberOfDurations := length durations in
      let numberOfDistances := length distances in
      if (0 <? numberOfDurations)%nat && (0 <? numberOfDistances)%nat then
        footpaths ← mapM (osrm_footpath maxWalkingTravelTime near durations distances) (seq 1 (numberOfDurations - 1));
        Ok (omap id footpaths)
      else Ok []
  | _, _ => Ok []
  end.

(** [OsrmGeoFilter::getAccessibleNodesFootpathsFromPoint]. *)
Definition OsrmGeoFilter : GeoFilter := fun point nodes maxWalkingTravelTime walkingSpeedMetersPerSecond =>
  let lengthOfOneDegree := calculateLengthOfOneDegree point in
  let maxDistanceMetersSquared := calculateMaxDistanceSquared maxWalkingTravelTime walkingSpeedMetersPerSecond in
  let birdDistanceAccessibleNodeIndexes := near_nodes point lengthOfOneDegree maxDistanceMetersSquared nodes in
  if (length birdDistanceAccessibleNodeIndexes =? 0)%nat then Ok []
  else
    match osrm_request (host +:+ ":" +:+ port) (osrm_query point birdDistanceAccessibleNodeIndexes) with
    | None => Ok []
    | Some (status_code, content) =>
        if negb (String.eqb status_code "200 OK") then Ok []
        else
          match osrm_parse content with
          | None => Throw StdException
          | Some table => osrm_footpaths maxWalkingTravelTime birdDistanceAccessibleNodeIndexes table
          end
    end.
End Osrm.
