(* ===== verification/StartUp.v ===== *)
(** * The start of the program

    [program_options.cpp] and the first part of [main] of
    [transit_routing_http_server.cpp]. The parsing of the command line by Boost is an
    interface: it gives a [variables_map], or throws. *)

From Stdlib Require Import ZArith Lia.
From stdpp Require Import base list gmap strings.
From S2P Require Import Prelude.
From S2P Require Import Data.
From S2P Require Import Attempt.
From S2P Require Import Parameters.
From S2P Require Import ConnectionCache.
From S2P Require Import TransitData.
From S2P Require Import CacheFiles.
From S2P Require Import CacheFetcher.
From S2P Require Import Calculator.
From S2P Require Import GeoFilters.

Local Open Scope Z_scope.

(** ** The options *)

(** [boost::program_options::variable_value], by the type the option was declared with. *)
Inductive OptionValue :=
| OptionInt (z : Z)
| OptionBool (b : bool)
| OptionString (s : string).

Abbreviation variables_map := (gmap string OptionValue).

(** The names of an option, the first of which is its key, and its default; a flag has
    no value. *)
Record OptionDescription := mkOption { option_names : list string; option_default : option OptionValue }.

(** [ProgramOptions::ProgramOptions]. *)
Definition options : list OptionDescription := [
  mkOption ["help"] None;
  mkOption ["port"] (Some (OptionInt 4000));
  mkOption ["debug"] (Some (OptionInt 0));
  mkOption ["dataFetcher"; "data"] (Some (OptionString "cache"));
  mkOption ["cachePath"] (Some (OptionString "cache"));
  mkOption ["cacheAllConnectionSets"] (Some (OptionBool false));
  mkOption ["useEuclideanDistance"] (Some (OptionBool false));
  mkOption ["threads"] (Some (OptionInt 1));
  mkOption ["osrmPort"; "osrmWalkPort"; "osrmWalkingPort"] (Some (OptionString "5000"));
  mkOption ["osrmCyclingPort"] (Some (OptionString "8000"));
  mkOption ["osrmDrivingPort"] (Some (OptionString "7000"));
  mkOption ["osrmHost"; "osrmWalkHost"; "osrmWalkingHost"] (Some (OptionString "localhost"));
  mkOption ["osrmCyclingHost"] (Some (OptionString "localhost"));
  mkOption ["osrmDrivingHost"] (Some (OptionString "localhost"))
]%string.

(** [store(parse_command_line(argc, argv, options), variablesMap)]: an option that is not
    declared, or a value of another type, throws. *)
Class CommandLine := parse_command_line : list OptionDescription -> list string -> calc variables_map.

(** The fields but [algorithm], which nothing sets or reads. *)
Record ProgramOptions := mkProgramOptions {
  cachePath : string;
  port : Z;
  debug : bool;
  cacheAllConnectionSets : bool;
  useEuclideanDistance : bool;
  numberOfThreads : Z;
  dataFetcherShortname : string;
  osrmWalkingPort : string;
  osrmCyclingPort : string;
  osrmDrivingPort : string;
  osrmWalkingHost : string;
  osrmCyclingHost : string;
  osrmDrivingHost : string
}.

Section ParseOptions.
Context (variablesMap : variables_map).

(** [variablesMap[name].as<T>()]: another type is a [bad_any_cast]. *)
Definition as_int (name : string) : calc Z :=
  match variablesMap !! name with Some (OptionInt z) => Ok z | _ => Throw StdException end.

Definition as_bool (name : string) : calc bool :=
  match variablesMap !! name with Some (OptionBool b) => Ok b | _ => Throw StdException end.

Definition as_string (name : string) : calc string :=
  match variablesMap !! name with Some (OptionString s) => Ok s | _ => Throw StdException end.

(** [variablesMap.count(name)]. *)
Definition count (name : string) : nat := match variablesMap !! name with Some _ => 1 | None => 0 end.

(** [if(variablesMap.count(name) == 1) { variable = variablesMap[name].as<T>(); } else ...],
    for the names of an option from the first one tested. *)
Fixpoint read_option {T} (as_type : string -> calc T) (names : list string) (variable : T) : calc T :=
  match names with
  | [] => Ok variable
  | name :: names' => if (count name =? 1)%nat then as_type name else read_option as_type names' variable
  end.

(** [ProgramOptions::parseOptions]; [None] when it prints the options and exits with 0. *)
Definition parseOptions : calc (option ProgramOptions) :=
  if negb (count "help" =? 0)%nat then Ok None
  else
    port ← read_option as_int ["port"]%string 4000;
    debug ← read_option (fun name => z ← as_int name; Ok (z =? 1)) ["debug"]%string false;
    dataFetcherShortname ← read_option as_string ["dataFetcher"; "data"]%string "cache"%string;
    cachePath ← read_option as_string ["cachePath"]%string "cache"%string;
    cacheAllConnectionSets ← read_option as_bool ["cacheAllConnectionSets"]%string false;
    useEuclideanDistance ← read_option as_bool ["useEuclideanDistance"]%string false;
    numberOfThreads ← read_option as_int ["threads"]%string 1;
    osrmWalkingPort ← read_option as_string ["osrmWalkPort"; "osrmWalkingPort"; "osrmPort"]%string "5000"%string;
    osrmCyclingPort ← read_option as_string ["osrmCyclingPort"]%string "8000"%string;
    osrmDrivingPort ← read_option as_string ["osrmDrivingPort"]%string "7000"%string;
    osrmWalkingHost ← read_option as_string ["osrmWalkHost"; "osrmWalkingHost"; "osrmHost"]%string "localhost"%string;
    osrmCyclingHost ← read_option as_string ["osrmCyclingHost"]%string "localhost"%string;
    osrmDrivingHost ← read_option as_string ["osrmDrivingHost"]%string "localhost"%string;
    Ok (Some (mkProgramOptions cachePath port debug cacheAllConnectionSets useEuclideanDistance numberOfThreads
                dataFetcherShortname osrmWalkingPort osrmCyclingPort osrmDrivingPort osrmWalkingHost osrmCyclingHost
                osrmDrivingHost)).
End ParseOptions.

(** ** The program *)

(** What the handlers of the resources capture. *)
Record Listening := mkListening {
  listening_port : Z;
  thread_pool_size : Z;
  main_dataStatus : DataStatus;
  main_transitData : TransitData;
  main_cache : AnyScenarioConnectionCache;
  main_geoFilter : GeoFilter
}.

Inductive Started :=
| Exited (code : Z)
| Serving (server : Listening).

Section Main.
Context `{!CommandLine, !CacheFiles, !Boost, !Libm, !OsrmService}.

(** The filter of the access and egress footpaths. *)
Definition main_filter (programOptions : ProgramOptions) : GeoFilter :=
  if useEuclideanDistance programOptions then EuclideanGeoFilter
  else OsrmGeoFilter "walking" (osrmWalkingHost programOptions) (osrmWalkingPort programOptions) false.

(** [main], up to the start of the server. *)
Definition main (args : list string) : calc Started :=
  variablesMap ← parse_command_line options args;
  parsed ← parseOptions variablesMap;
  match parsed with
  | None => Ok (Exited 0)
  | Some programOptions =>
      if String.eqb (dataFetcherShortname programOptions) "cache" then
        '(transitData, cache) ← TransitData_new (fetcher := CacheFetcher (cachePath programOptions) "")
                                  (cacheAllConnectionSets programOptions);
        Ok (Serving (mkListening (port programOptions) (numberOfThreads programOptions) (getDataStatus transitData)
                       transitData cache (main_filter programOptions)))
      else Ok (Exited (-2))
  end.
End Main.
