(* ===== verification/Demo.v ===== *)
(** * A small timetable

    Four stops, two lines and a walk between two of the stops: the concrete network on
    which the theorems of the later files are instantiated. Trip 1 of line 1 runs
    A - B - D; trip 2 of line 2 runs C - D; B and C are two minutes apart on foot.
    Leaving the origin at 7:50, the fastest way to the destination is trip 1 to B,
    the walk to C and trip 2. *)

From Stdlib Require Import ZArith Lia.
From Corelib Require Import SpecFloat.
From stdpp Require Import base list gmap strings.
From S2P Require Import Prelude.
From S2P Require Import Data.
From S2P Require Import ConnectionSet.
From S2P Require Import ConnectionCache.
From S2P Require Import TransitData.
From S2P Require Import Interleaving.
From S2P Require Import Calculator.

Local Open Scope Z_scope.

Definition demo_origin : Point := mkPoint (S754_zero false) (S754_zero false).
Definition demo_destination : Point := mkPoint (S754_zero false) (S754_zero true).

Definition demo_node (u : uid) (name : string) (out back : list NodeTimeDistance) : Node :=
  mkNode (N.of_nat u) (Z.of_nat u) name name name u demo_origin
    (mkNTD u 0 0 :: out) (mkNTD u 0 0 :: back).

Definition node_A : Node := demo_node 1 "A" [] [].
Definition node_B : Node := demo_node 2 "B" [mkNTD 3 120 150] [mkNTD 3 120 150].
Definition node_C : Node := demo_node 3 "C" [mkNTD 2 120 150] [mkNTD 2 120 150].
Definition node_D : Node := demo_node 4 "D" [] [].

Definition demo_agency : Agency := mkAgency 1 "AG" "Agency" "AG" 0.
Definition demo_service : Service := mkService 1 "week" "week" 0 1 1 1 1 1 0 0 [] [] None None.
Definition demo_bus : Mode := mkMode "bus" "Bus" 3 700.
Definition demo_line (u : uid) : Line :=
  mkLine (N.of_nat u) demo_agency demo_bus "L" "Line" "L" 0 u.
Definition demo_path (u : uid) (nodes : list Node) (distances : list Z) : Path :=
  mkPath (N.of_nat u) (demo_line u) "out" "P" nodes distances distances.
Definition demo_trip (u : uid) (nodes : list Node) (distances : list Z) : Trip :=
  mkTrip (N.of_nat u) demo_agency (demo_line u) (demo_path u nodes distances) demo_bus demo_service
    0 (-1) (-1) u.

Definition trip_1 : Trip := demo_trip 1 [node_A; node_B; node_D] [3000; 9000].
Definition trip_2 : Trip := demo_trip 2 [node_C; node_D] [4000].

Definition demo_conn (t : Trip) (from to : Node) (dep arr sequence : Z) : Connection :=
  mkConnection from to dep arr t true true sequence false (-1).

Definition conn_AB : Connection := demo_conn trip_1 node_A node_B 28800 29400 1.
Definition conn_BD : Connection := demo_conn trip_1 node_B node_D 29460 31200 2.
Definition conn_CD : Connection := demo_conn trip_2 node_C node_D 30000 30600 1.

Definition demo_scenario : Scenario :=
  mkScenario 1 "scenario" 0 [demo_service] [] [] [] [] [] [] [] [].

Definition demo_data_with (nodes : list Node) (trips : list Trip) (conns : list Connection) : TransitData :=
  (generateForwardAndReverseConnections
     (mkTransitData [demo_bus] [] [] [] [demo_agency] [demo_service] nodes
        [demo_line 1; demo_line 2] (trip_path <$> trips) [demo_scenario] trips conns [] [] ∅ ∅ ∅ ∅
        (mkUids 4 2 2))).2.

Definition demo_data : TransitData :=
  demo_data_with [node_A; node_B; node_C; node_D] [trip_1; trip_2] [conn_AB; conn_BD; conn_CD].

Definition demo_server : Server := mkServer demo_data 4 2.

(** Five minutes on foot to stop A, four minutes from stop D. *)
#[export] Instance demo_filter : GeoFilter := fun point _ _ _ =>
  match longitude point with
  | S754_zero true => Ok [mkNTD 4 240 300]
  | _ => Ok [mkNTD 1 300 380]
  end.

(** A query at [time], with its minimal waiting time and the limit on the first wait;
    the travel time is not bounded. *)
Definition demo_parameters (forward : bool) (time minWaiting maxFirstWaiting : Z) : CommonParameters :=
  CommonParameters_new demo_scenario time minWaiting MAX_INT 1200 1200 1200 maxFirstWaiting forward.

Definition demo_reset `{GeoFilter} (srv : Server) (p : CommonParameters)
    (origin destination : option Point) : Calculator :=
  match reset srv Calculator_new p origin destination true true (CacheOne CacheOne_new) with
  | Ok (c, _) => c
  | Throw _ => Calculator_new
  end.

(** The value of a computation that is known to return. *)
Definition value_or {A} (default : A) (r : calc A) : A :=
  match r with Ok a => a | Throw _ => default end.

(** ** The theorems on connection sets, at the timetable *)

Lemma demo_forward_sorted : forward_sorted [conn_AB; conn_BD; conn_CD].
Proof. repeat constructor; vm_compute; discriminate. Qed.

Lemma demo_reverse_sorted : reverse_sorted [conn_BD; conn_CD; conn_AB].
Proof. repeat constructor; vm_compute; discriminate. Qed.

Lemma forward_scan_complete_witness :
  exists k,
    getForwardConnectionsBeginAtDepartureHour
      (ConnectionSet_new [trip_1; trip_2] [conn_AB; conn_BD; conn_CD] []) (28900 ÷ 3600) = Ok k /\
    filter (fun c => 28900 + 300 <= getDepartureTime c) (drop k [conn_AB; conn_BD; conn_CD]) =
    filter (fun c => 28900 + 300 <= getDepartureTime c) [conn_AB; conn_BD; conn_CD].
Proof.
  apply (forward_scan_complete [trip_1; trip_2] [conn_AB; conn_BD; conn_CD] []).
  - exact demo_forward_sorted.
  - lia.
  - lia.
Defined.

Lemma reverse_scan_complete_witness :
  exists k,
    getReverseConnectionsBeginAtArrivalHour
      (ConnectionSet_new [trip_1; trip_2] [] [conn_BD; conn_CD; conn_AB]) (31500 ÷ 3600 + 1) = Ok k /\
    filter (fun c => getArrivalTime c <= 31500 - 240) (drop k [conn_BD; conn_CD; conn_AB]) =
    filter (fun c => getArrivalTime c <= 31500 - 240) [conn_BD; conn_CD; conn_AB].
Proof.
  apply (reverse_scan_complete [trip_1; trip_2] [] [conn_BD; conn_CD; conn_AB]).
  - exact demo_reverse_sorted.
  - lia.
  - lia.
Defined.

Lemma forward_hour_32_undefined_witness :
  getForwardConnectionsBeginAtDepartureHour
    (ConnectionSet_new [trip_1; trip_2] [conn_AB; conn_BD; conn_CD] []) 32 = Throw Undefined.
Proof.
  apply (forward_hour_32_undefined [trip_1; trip_2] [conn_AB; conn_BD; conn_CD] []).
  repeat constructor.
Defined.

(** The data before the connections are sorted. *)
Definition demo_unsorted : TransitData :=
  mkTransitData [demo_bus] [] [] [] [demo_agency] [demo_service] [node_A; node_B; node_C; node_D]
    [demo_line 1; demo_line 2] [] [demo_scenario] [trip_1; trip_2] [conn_AB; conn_BD; conn_CD]
    [] [] ∅ ∅ ∅ ∅ (mkUids 4 2 2).

Lemma trip_vectors_in_sequence_witness :
  let '(_, td') := generateForwardAndReverseConnections demo_unsorted in
  default [] (tripForwardConnections td' !! 1%nat) = filter (of_trip 1) (connections demo_unsorted) /\
  default [] (tripReverseConnections td' !! 1%nat) = rev (filter (of_trip 1) (connections demo_unsorted)).
Proof.
  apply (trip_vectors_in_sequence demo_unsorted 1).
  - unfold trip_in_order. cbn. repeat constructor; vm_compute; discriminate.
  - reflexivity.
  - reflexivity.
Defined.

(** Two scenarios asked for in turn of the cache that keeps one. *)
Definition demo_scenario_2 : Scenario :=
  mkScenario 2 "without line 2" 0 [] [] [] [] [] [] [demo_line 2] [] [].

Lemma scenario_cache_transparent_witness :
  serve_scenarios demo_data [demo_scenario; demo_scenario_2; demo_scenario] CacheOne_new =
  computeConnectionsForScenario demo_data <$> [demo_scenario; demo_scenario_2; demo_scenario].
Proof.
  apply (scenario_cache_transparent (C := ScenarioConnectionCacheOne) demo_data
           [demo_scenario; demo_scenario_2]).
  - apply NoDup_ListNoDup. repeat constructor; cbn; intuition congruence.
  - repeat constructor; set_solver.
  - intros s cs _ Hget. discriminate Hget.
Defined.

(** Two threads that count the trips of these scenarios: both look them up in the empty
    cache before either stores its set, and the second store takes the place of the first. *)
Definition count_trips (s : Scenario) : program nat := Ask s (fun cs => Return (length (ConnectionSet.getTrips cs))).

Definition demo_threads : list (program nat) := [count_trips demo_scenario; count_trips demo_scenario_2].

Lemma interleaved_threads_witness : exists c ts,
  nsteps (pool_step demo_data) 4 (CacheOne_new, start demo_threads) (c, ts) /\
  (4 <= 2 * calls demo_data demo_threads)%nat /\
  ts = [Running (Return 2%nat); Running (Return 1%nat)] /\
  (fun p => (alone demo_data p CacheOne_new).1) <$> demo_threads = [2%nat; 1%nat].
Proof.
  assert (exists c, nsteps (pool_step demo_data) 4 (CacheOne_new, start demo_threads)
            (c, [Running (Return 2%nat); Running (Return 1%nat)])) as [c Hrun].
  { eexists. eapply nsteps_l; [eapply (step_thread demo_data 0%nat); [reflexivity|by apply step_miss]|].
    eapply nsteps_l; [eapply (step_thread demo_data 1%nat); [reflexivity|by apply step_miss]|].
    eapply nsteps_l; [eapply (step_thread demo_data 0%nat); [reflexivity|apply step_store]|].
    eapply nsteps_l; [eapply (step_thread demo_data 1%nat); [reflexivity|apply step_store]|].
    cbn [insert list_insert]. vm_compute. apply nsteps_O. }
  assert (cache_valid demo_data [demo_scenario; demo_scenario_2] CacheOne_new) as Hnew by (intros s cs _ Hget; discriminate Hget).
  assert (NoDup (scenario_uuid <$> [demo_scenario; demo_scenario_2])) as Hnd
    by (apply NoDup_ListNoDup; repeat constructor; cbn; intuition congruence).
  assert (Forall (asks_known demo_data [demo_scenario; demo_scenario_2]) demo_threads) as Hknown by (repeat constructor; set_solver).
  destruct (interleaved_threads demo_data _ Hnd _ _ _ _ _ Hknown Hnew Hrun) as (_ & Hsteps & Hresults & _).
  exists c, [Running (Return 2%nat); Running (Return 1%nat)]. split_and!; [exact Hrun|exact Hsteps|reflexivity|].
  cbn [fmap list_fmap demo_threads].
  by rewrite (Hresults 0%nat _ 2%nat eq_refl eq_refl _ Hnew), (Hresults 1%nat _ 1%nat eq_refl eq_refl _ Hnew).
Defined.
