(* ===== verification/RequestDemo.v ===== *)
(** * A request on the small timetable

    An implementation of the functions of Boost that the model takes as parameters,
    with its laws, and requests for the timetable of [Demo]: the theorems on requests
    are instantiated with them. *)

From Stdlib Require Import ZArith Lia Ascii.
From Corelib Require Import SpecFloat.
From stdpp Require Import base list gmap strings pretty.
From S2P Require Import Prelude.
From S2P Require Import Data.
From S2P Require Import Numbers.
From S2P Require Import Parameters.
From S2P Require Import TransitData.
From S2P Require Import Calculator.
From S2P Require Import Demo.

(** ** The functions of Boost *)

Fixpoint split_any (separators s : string) : list string :=
  match s with
  | EmptyString => [EmptyString]
  | String a s' =>
      if has_char a separators then EmptyString :: split_any separators s'
      else match split_any separators s' with
           | t :: tokens => String a t :: tokens
           | [] => []
           end
  end.

Section Uuid.
Local Open Scope N_scope.

Definition hex_char (d : N) : ascii := ascii_of_N (if d <? 10 then 48 + d else 87 + d).

(** The last [k] hexadecimal digits of [u] before [s], with a dash before the fourth,
    the twelfth and so on of the groups of a uuid. *)
Fixpoint print_hex (k : nat) (u : N) (s : string) : string :=
  match k with
  | O => s
  | S k' =>
      let s' := String (hex_char (u mod 16)) s in
      print_hex k' (u / 16) (if existsb (Nat.eqb k') [8; 12; 16; 20]%nat then String "-" s' else s')
  end.

(** The number that hexadecimal digits make, and their count; dashes are passed over. *)
Fixpoint read_hex (s : string) (value : N) (count : nat) : option (N * nat) :=
  match s with
  | EmptyString => Some (value, count)
  | String a s' =>
      if Ascii.eqb a "-" then read_hex s' value count
      else match hex_digit a with
           | Some d => read_hex s' (16 * value + d) (S count)
           | None => None
           end
  end.

Definition demo_to_string (u : uuid) : string := print_hex 32 u EmptyString.

Definition demo_generator (s : string) : option uuid :=
  match read_hex s 0 0 with
  | Some (u, 32%nat) => Some u
  | _ => None
  end.

Lemma read_hex_char d s value count :
  d < 16 -> read_hex (String (hex_char d) s) value count = read_hex s (16 * value + d) (S count).
Proof.
  intros Hd.
  assert (d = 0 \/ d = 1 \/ d = 2 \/ d = 3 \/ d = 4 \/ d = 5 \/ d = 6 \/ d = 7 \/
          d = 8 \/ d = 9 \/ d = 10 \/ d = 11 \/ d = 12 \/ d = 13 \/ d = 14 \/ d = 15) as Hcase by lia.
  destruct_or!; subst; reflexivity.
Qed.

Lemma read_printed k : forall u s value count,
  read_hex (print_hex k u s) value count =
  read_hex s (value * 16 ^ N.of_nat k + u mod 16 ^ N.of_nat k) (count + k).
Proof.
  induction k as [|k IH]; intros u s value count.
  - cbn [print_hex N.of_nat]. rewrite N.pow_0_r, N.mod_1_r, N.mul_1_r, N.add_0_r, Nat.add_0_r. reflexivity.
  - cbn [print_hex]. rewrite IH. transitivity
      (read_hex (String (hex_char (u mod 16)) s)
         (value * 16 ^ N.of_nat k + (u / 16) mod 16 ^ N.of_nat k) (count + k)).
    { destruct (existsb _ _); reflexivity. }
    rewrite read_hex_char by (apply N.mod_lt; done).
    rewrite Nat2N.inj_succ, N.pow_succ_r', N.Div0.mod_mul_r, Nat.add_succ_r. f_equal. ring.
Qed.

Lemma generator_to_string (u : uuid) : u < 2 ^ 128 -> demo_generator (demo_to_string u) = Some u.
Proof.
  intros Hu. unfold demo_generator, demo_to_string. rewrite read_printed.
  change (16 ^ N.of_nat 32) with (2 ^ 128). rewrite N.mod_small by exact Hu. reflexivity.
Qed.
End Uuid.

#[export] Instance demo_boost : Boost := {
  split := split_any;
  string_generator := demo_generator;
  uuid_to_string := demo_to_string
}.

Lemma split_token separator t s :
  has_char separator t = false ->
  split_any (String separator EmptyString) (t +:+ String separator s) =
  t :: split_any (String separator EmptyString) s.
Proof.
  induction t as [|a t IH]; intros Ht.
  - change (EmptyString +:+ String separator s) with (String separator s).
    cbn. rewrite Ascii.eqb_refl. reflexivity.
  - cbn in Ht. apply orb_false_iff in Ht as [Ha Ht].
    change (String a t +:+ String separator s) with (String a (t +:+ String separator s)). cbn.
    rewrite Ascii.eqb_sym, Ha, (IH Ht). reflexivity.
Qed.

Lemma split_last separator t :
  has_char separator t = false -> split_any (String separator EmptyString) t = [t].
Proof.
  induction t as [|a t IH]; intros Ht; [reflexivity|].
  cbn in Ht. apply orb_false_iff in Ht as [Ha Ht]. cbn. rewrite Ascii.eqb_sym, Ha, (IH Ht). reflexivity.
Qed.

#[export] Instance demo_boost_laws : BoostLaws.
Proof.
  split.
  - intros separator tokens Hne Hall. change split with split_any.
    induction Hall as [|t tokens Ht Hall IH]; [done|].
    destruct tokens as [|t' tokens].
    + exact (split_last separator t Ht).
    + change (join separator (t :: t' :: tokens)) with (t +:+ String separator (join separator (t' :: tokens))).
      rewrite (split_token separator t _ Ht), IH by done. reflexivity.
  - exact generator_to_string.
Qed.

#[export] Instance demo_platform : Platform := fun _ => false.

(** ** Requests *)

Local Open Scope Z_scope.

Definition demo_scenarios : gmap uuid Scenario := {[ scenario_uuid demo_scenario := demo_scenario ]}.

(** [-73.5] and [45.25] as the program reads them. *)
Definition demo_point : Point :=
  mkPoint (S754_finite false 6368371348078592 (-47)) (S754_finite true 5172102697058304 (-46)).

Definition demo_common : CommonParameters :=
  CommonParameters_new demo_scenario 28000 180 MAX_INT 1200 900 600 (-1) true.
Definition demo_route : RouteParameters := mkRouteParameters demo_common demo_point demo_point true.
Definition demo_access : AccessibilityParameters := mkAccessibilityParameters demo_common demo_point.

Lemma demo_text : text_of_point demo_point "-73.5,45.25".
Proof. exists "-73.5"%string, "45.25"%string. repeat split; vm_compute; reflexivity. Qed.

Lemma demo_in_range : common_in_range demo_scenarios demo_common.
Proof.
  split; cbn; unfold MAX_INT; try lia.
  - exists (scenario_uuid demo_scenario). reflexivity.
  - done.
  - reflexivity.
Qed.

Lemma demo_keyed : scenarios_keyed demo_scenarios.
Proof.
  intros u s Hu. unfold demo_scenarios in Hu. apply lookup_singleton_Some in Hu as [<- <-]. split; [reflexivity|vm_compute; reflexivity].
Qed.

Lemma requests_read_back_witness :
  createRouteODParameter (rev (route_request demo_route "-73.5,45.25" "-73.5,45.25")) demo_scenarios = Ok demo_route /\
  createAccessibilityParameter (place_request demo_access "-73.5,45.25") demo_scenarios = Ok demo_access.
Proof.
  apply (requests_read_back demo_scenarios demo_route demo_access
           "-73.5,45.25" "-73.5,45.25" "-73.5,45.25").
  - exact demo_keyed.
  - exact demo_in_range.
  - exact demo_in_range.
  - exact demo_text.
  - exact demo_text.
  - exact demo_text.
  - symmetry. apply Permutation.Permutation_rev.
  - reflexivity.
Defined.
