(* ===== verification/ForwardCalculation.v ===== *)
(** * The forward scan of the connections

    [forward_calculation.cpp]. [forwardCalculation] and [forwardCalculationAllNodes]
    share the treatment of a connection, [forward_visit]; the first adds the early
    exit of a query with a destination. What a scan changes (two vectors and the trip
    overlay of the calculator, the map of steps its caller passes, the counter) is
    [ForwardState]; everything else of the calculator is constant during a scan. *)

From Stdlib Require Import ZArith Lia.
From stdpp Require Import base list gmap strings.
From S2P Require Import Prelude.
From S2P Require Import Data.
From S2P Require Import ConnectionSet.
From S2P Require Import Calculator.

Local Open Scope Z_scope.

Record ForwardState := mkForwardState {
  fwd_times : list Z;                      (* nodesTentativeTime *)
  fwd_steps : list JourneyStep;            (* forwardJourneysSteps *)
  fwd_trips : list TripQueryData;          (* tripsQueryOverlay *)
  fwd_egress : gmap uid JourneyStep;       (* forwardEgressJourneysSteps *)
  fwd_reachable : Z                        (* reachableConnectionsCount *)
}.

Definition with_times_steps (times : list Z) (steps : list JourneyStep) (st : ForwardState) :=
  mkForwardState times steps (fwd_trips st) (fwd_egress st) (fwd_reachable st).
Definition with_trips (trips : list TripQueryData) (st : ForwardState) :=
  mkForwardState (fwd_times st) (fwd_steps st) trips (fwd_egress st) (fwd_reachable st).
Definition with_egress (egress : gmap uid JourneyStep) (st : ForwardState) :=
  mkForwardState (fwd_times st) (fwd_steps st) (fwd_trips st) egress (fwd_reachable st).
Definition count_reachable (st : ForwardState) :=
  mkForwardState (fwd_times st) (fwd_steps st) (fwd_trips st) (fwd_egress st) (fwd_reachable st + 1).

Section Forward.
Context (p : CommonParameters) (c : Calculator).
Implicit Types (conn : Connection) (st : ForwardState).

Definition minWaiting conn : Z := getMinWaitingTimeOrDefault conn (getMinWaitingTimeSeconds p).

(** One node of [for (transferableNode : nodeArrival.transferableNodes)]. The walking
    speed factor is 1.0, so [footpathTravelTime] is the time of the footpath. *)
Definition forward_transfer conn (enter : option Connection) (transferableNode : NodeTimeDistance) st
    : calc ForwardState :=
  let trip := getTrip conn in
  let nodeArrival := getArrivalNode conn in
  let connectionArrivalTime := getArrivalTime conn in
  let node := ntd_node transferableNode in
  let isArrival := Nat.eqb (node_uid nodeArrival) node in
  currentTentativeTime ← vec_at (fwd_times st) node;
  if negb isArrival && (currentTentativeTime <? connectionArrivalTime) then Ok st
  else
    let footpathTravelTime := ntd_time transferableNode in
    if footpathTravelTime <=? getMaxTransferWalkingTravelTimeSeconds p then
      let footpathDistance := ntd_distance transferableNode in
      st1 ←
        (if footpathTravelTime + connectionArrivalTime <? currentTentativeTime then
           times ← vec_set node (footpathTravelTime + connectionArrivalTime) (fwd_times st);
           steps ← vec_at_set node
             (mkJourneyStep enter (Some conn) (Some trip) footpathTravelTime isArrival
                footpathDistance) (fwd_steps st);
           Ok (with_times_steps times steps st)
         else Ok st);
      isBetter ←
        (if isArrival then
           match fwd_egress st1 !! node with
           | None => Ok true
           | Some step =>
               x ← opt_value (getFinalExitConnection step);
               Ok (getArrivalTime x >? connectionArrivalTime)
           end
         else Ok false);
      Ok (if isBetter : bool then
            with_egress (<[node := mkJourneyStep enter (Some conn) (Some trip) footpathTravelTime
                                     true footpathDistance]> (fwd_egress st1)) st1
          else st1)
    else Ok st.

(** Is the connection reachable: on board already, or at its departure node in
    time, and without waiting too long at a node accessed from the origin. *)
Definition forward_is_reachable conn (tripEnterConnection : option Connection) st : calc bool :=
  let connectionDepartureTime := getDepartureTime conn in
  let nodeDeparture := node_uid (getDepartureNode conn) in
  nodeDepartureTentativeTime ← vec_at (fwd_times st) nodeDeparture;
  nodeWasAccessedFromOrigin ←
    (if getMaxFirstWaitingTimeSeconds p >? 0 then
       match nodesAccess c !! nodeDeparture with
       | Some access =>
           if ntd_time access >=? 0 then
             step ← vec_at (fwd_steps st) nodeDeparture;
             Ok (negb (bool_decide (is_Some (getFinalEnterConnection step))))
           else Ok false
       | None => Ok false
       end
     else Ok false);
  Ok ((bool_decide (is_Some tripEnterConnection) ||
       (nodeDepartureTentativeTime <=? connectionDepartureTime - minWaiting conn)) &&
      (negb nodeWasAccessedFromOrigin ||
       (connectionDepartureTime - nodeDepartureTentativeTime <=? getMaxFirstWaitingTimeSeconds p))).

(** Board the trip of a reachable connection, unless it is boarded already. *)
Definition forward_board conn (overlay : TripQueryData) st : calc (TripQueryData * ForwardState) :=
  if canBoard conn && negb (bool_decide (is_Some (enterConnection overlay))) then
    step ← vec_at (fwd_steps st) (node_uid (getDepartureNode conn));
    let overlay' := mkTripQueryData true (Some conn) (getTransferTravelTime step)
                      (exitConnection overlay) (exitConnectionTransferTravelTime overlay) in
    trips ← vec_set (trip_uid (getTrip conn)) overlay' (fwd_trips st);
    Ok (overlay', with_trips trips st)
  else Ok (overlay, st).

(** The body of the loop for an enabled trip, after the exit test. The boolean
    tells that the passengers of the trip get off at the arrival node. *)
Definition forward_visit conn (overlay : TripQueryData) st : calc (ForwardState * bool) :=
  reachable ← forward_is_reachable conn (enterConnection overlay) st;
  if reachable : bool then
    '(overlay', st1) ← forward_board conn overlay st;
    if canUnboard conn && bool_decide (is_Some (enterConnection overlay')) then
      st2 ← for_each (forward_transfer conn (enterConnection overlay'))
              (transferableNodes (getArrivalNode conn)) st1;
      Ok (count_reachable st2, true)
    else Ok (count_reachable st1, false)
  else Ok (st, false).

Definition forward_start : ForwardState :=
  mkForwardState (nodesTentativeTime c) (forwardJourneysSteps c) (tripsQueryOverlay c) ∅ 0.

(** The calculator after a scan that ended in [st]. *)
Definition forward_finish st : Calculator :=
  mkCalculator (departureTimeSeconds c) (arrivalTimeSeconds c) (minAccessTravelTime c)
    (maxEgressTravelTime c) (maxAccessTravelTime c) (minEgressTravelTime c) (odTripGlob c)
    (fwd_times st) (nodesReverseTentativeTime c) (nodesAccess c) (nodesEgress c) (tripsDisabled c)
    (fwd_trips st) (connectionSet c) (accessFootpaths c) (egressFootpaths c)
    (fwd_steps st) (reverseJourneysSteps c).

(** The connections of the loop, from the cached position of the departure hour. *)
Definition forward_connections : calc (list Connection) :=
  k ← getForwardConnectionsBeginAtDepartureHour (connectionSet c) (departureTimeSeconds c ÷ 3600);
  Ok (drop k (getForwardConnections (connectionSet c))).

(** ** All nodes *)

(** The body of the loop of [forwardCalculationAllNodes]. *)
Definition forward_body_all conn st : calc (ctl ForwardState) :=
  if getDepartureTime conn >=? departureTimeSeconds c + minAccessTravelTime c then
    let trip := trip_uid (getTrip conn) in
    overlay ← vec_at (fwd_trips st) trip;
    if negb (isTripDisabled c trip) then
      if getDepartureTime conn - departureTimeSeconds c >? getMaxTotalTravelTimeSeconds p then
        Ok (Break st)
      else
        '(st', _) ← forward_visit conn overlay st;
        Ok (Next st')
    else Ok (Next st)
  else Ok (Next st).

Definition forwardCalculationAllNodes : calc (Calculator * gmap uid JourneyStep) :=
  conns ← forward_connections;
  st ← for_loop forward_body_all conns forward_start;
  if fwd_reachable st =? 0 then Throw (NoRoutingFound NO_SERVICE_FROM_ORIGIN)
  else Ok (forward_finish st, fwd_egress st).

(** ** With a destination *)

(** The two variables of the early exit. *)
Record EgressReached := mkEgressReached {
  reachedAtLeastOneEgressNode : bool;
  tentativeEgressNodeArrivalTime : Z
}.

Definition update_egress_reached conn (r : EgressReached) : EgressReached :=
  match nodesEgress c !! node_uid (getArrivalNode conn) with
  | Some egress =>
      if negb (reachedAtLeastOneEgressNode r) && negb (ntd_time egress =? -1)
      then mkEgressReached true (getArrivalTime conn)
      else r
  | None => r
  end.

(** [break]: every egress node was reached before, or the trip takes too long. *)
Definition forward_stop conn (r : EgressReached) : bool :=
  (reachedAtLeastOneEgressNode r && (maxEgressTravelTime c >=? 0) &&
   (tentativeEgressNodeArrivalTime r <? MAX_INT) &&
   (getDepartureTime conn >? tentativeEgressNodeArrivalTime r + maxEgressTravelTime c)) ||
  (getDepartureTime conn - departureTimeSeconds c >? getMaxTotalTravelTimeSeconds p).

(** The body of the loop of [forwardCalculation]. *)
Definition forward_body conn (s : ForwardState * EgressReached)
    : calc (ctl (ForwardState * EgressReached)) :=
  let '(st, r) := s in
  if getDepartureTime conn >=? departureTimeSeconds c + minAccessTravelTime c then
    let trip := trip_uid (getTrip conn) in
    overlay ← vec_at (fwd_trips st) trip;
    if negb (isTripDisabled c trip) then
      if forward_stop conn r then Ok (Break s)
      else
        '(st', unboarded) ← forward_visit conn overlay st;
        Ok (Next (st', if unboarded : bool then update_egress_reached conn r else r))
    else Ok (Next s)
  else Ok (Next s).

(** One footpath of the search of the best egress node. *)
Definition forward_best_egress (egressSteps : gmap uid JourneyStep) (egressFootpath : NodeTimeDistance)
    (best : Z * option NodeTimeDistance) : calc (Z * option NodeTimeDistance) :=
  let '(bestArrivalTime, bestEgress) := best in
  match egressSteps !! ntd_node egressFootpath with
  | None => Ok best
  | Some step =>
      match getFinalExitConnection step with
      | None => Throw AssertionFailed
      | Some egressExitConnection =>
          egress ← map_at (nodesEgress c) (ntd_node egressFootpath);
          let egressNodeArrivalTime := getArrivalTime egressExitConnection + ntd_time egress in
          Ok (if (egressNodeArrivalTime >=? 0) &&
                 (egressNodeArrivalTime - departureTimeSeconds c <=? getMaxTotalTravelTimeSeconds p) &&
                 (egressNodeArrivalTime <? bestArrivalTime) && (egressNodeArrivalTime <? MAX_INT)
              then (egressNodeArrivalTime, Some egress) else best)
      end
  end.

(** [forwardCalculation]: the best arrival time and egress node, if any. *)
Definition forwardCalculation
    : calc (option (Z * uid) * Calculator * gmap uid JourneyStep) :=
  conns ← forward_connections;
  '(st, _) ← for_loop forward_body conns (forward_start, mkEgressReached false MAX_INT);
  if fwd_reachable st =? 0 then Throw (NoRoutingFound NO_SERVICE_FROM_ORIGIN)
  else
    '(bestArrivalTime, bestEgress) ←
      for_each (forward_best_egress (fwd_egress st)) (egressFootpaths c) (MAX_INT, None);
    Ok (option_map (fun e => (bestArrivalTime, ntd_node e)) bestEgress, forward_finish st,
        fwd_egress st).
End Forward.
