(* ===== verification/ForwardCorrect.v ===== *)
(** * Correctness of the forward scan

    The specification is the relation [reaches]: the instants at which a traveller can
    be at a node, by walking from the origin or by riding trips of the timetable with
    the waiting time before each boarding and one footpath after each ride. [Sound]
    says that the state of a scan holds only such instants, with the journeys that
    lead to them; [Complete] that it holds the earliest ones. *)

From Stdlib Require Import ZArith Lia Sorted.
From stdpp Require Import base list gmap strings.
From S2P Require Import Prelude.
From S2P Require Import Data.
From S2P Require Import ConnectionSet.
From S2P Require Import Calculator.
From S2P Require Import Demo.
From S2P Require Import ForwardCalculation.

Local Open Scope Z_scope.

(** [e] is [x] or an earlier connection of the list. *)
Definition before_in (L : list Connection) (e x : Connection) : Prop :=
  exists i j, (i <= j)%nat /\ L !! i = Some e /\ L !! j = Some x.

(** Boarding at [e] and getting off at [x], on the same trip. *)
Record leg (L : list Connection) (e x : Connection) : Prop := {
  leg_order : before_in L e x;
  leg_trip : trip_uid (getTrip e) = trip_uid (getTrip x);
  leg_board : canBoard e = true;
  leg_unboard : canUnboard x = true
}.

Section Spec.
Context (p : CommonParameters) (c : Calculator).

(** A traveller can be at node [n] at time [t]. *)
Inductive reaches (L : list Connection) : uid -> Z -> Prop :=
| reaches_walk n t :
    nodesTentativeTime c !! n = Some t -> t < MAX_INT -> reaches L n t
| reaches_ride e x footpath t :
    leg L e x ->
    reaches L (node_uid (getDepartureNode e)) t ->
    t + minWaiting p e <= getDepartureTime e ->
    footpath ∈ transferableNodes (getArrivalNode x) ->
    ntd_time footpath <= getMaxTransferWalkingTravelTimeSeconds p ->
    reaches L (ntd_node footpath) (getArrivalTime x + ntd_time footpath).

(** A traveller can get off at the arrival node of [x], having boarded at [e]. *)
Definition rides (L : list Connection) (e x : Connection) : Prop :=
  leg L e x /\
  exists t, reaches L (node_uid (getDepartureNode e)) t /\ t + minWaiting p e <= getDepartureTime e.

(** The limit on the first wait, as the scan applies it: a connection that leaves a stop
    accessed from the origin leaves no later than the limit after the time at which
    the stop is reached on foot. *)
Definition first_wait_ok (conn : Connection) : Prop :=
  getMaxFirstWaitingTimeSeconds p <= 0 \/
  match nodesAccess c !! node_uid (getDepartureNode conn), nodesTentativeTime c !! node_uid (getDepartureNode conn) with
  | Some access, Some t =>
      ntd_time access < 0 \/ getDepartureTime conn - t <= getMaxFirstWaitingTimeSeconds p
  | _, _ => True
  end.
#[export] Instance first_wait_ok_dec conn : Decision (first_wait_ok conn).
Proof.
  unfold first_wait_ok. apply or_dec; [apply _|]. repeat case_match; apply _.
Defined.

(** The connections a traveller who keeps to the limit takes. *)
Definition within_first_wait (L : list Connection) : list Connection := filter first_wait_ok L.

Lemma within_first_wait_all L : getMaxFirstWaitingTimeSeconds p <= 0 -> within_first_wait L = L.
Proof.
  intros Hfirst. unfold within_first_wait. induction L as [|x L IH]; [done|].
  rewrite filter_cons_True by (by left). by rewrite IH.
Qed.

Lemma within_first_wait_app L L' :
  within_first_wait (L ++ L') = within_first_wait L ++ within_first_wait L'.
Proof. apply filter_app. Qed.

Lemma within_first_wait_sub L : within_first_wait L ⊆ L.
Proof. intros x [_ Hx]%list_elem_of_filter. done. Qed.

(** What the proofs ask of a connection: consistent times that do not overflow,
    and uids within the vectors of the calculator. *)
Record conn_ok (conn : Connection) : Prop := {
  conn_time : 0 <= getDepartureTime conn < getArrivalTime conn;
  conn_arrival : getArrivalTime conn < MAX_INT;
  conn_wait : 0 <= minWaiting p conn;
  conn_dep_uid : (node_uid (getDepartureNode conn) < length (nodesTentativeTime c))%nat;
  conn_trip_uid : (trip_uid (getTrip conn) < length (tripsQueryOverlay c))%nat;
  conn_transfers :
    Forall (fun f => (ntd_node f < length (nodesTentativeTime c))%nat /\ 0 <= ntd_time f /\
                     getArrivalTime conn + ntd_time f < MAX_INT)
      (transferableNodes (getArrivalNode conn))
}.

(** The state [reset] leaves: no trip boarded, no journey, no time above [MAX_INT]. *)
Record start_ok : Prop := {
  start_length : length (forwardJourneysSteps c) = length (nodesTentativeTime c);
  start_steps : Forall (fun s => getFinalEnterConnection s = None /\ getFinalExitConnection s = None)
                  (forwardJourneysSteps c);
  start_trips : Forall (fun q => enterConnection q = None) (tripsQueryOverlay c);
  start_times : Forall (fun t => t <= MAX_INT) (nodesTentativeTime c)
}.
End Spec.

(** A time of a vector is at most [t]. *)
Definition at_most (l : list Z) (n : uid) (t : Z) : Prop := exists t', l !! n = Some t' /\ t' <= t.

(** The map of exit steps has an arrival at [n] no later than [t]. *)
Definition exits_by (m : gmap uid JourneyStep) (n : uid) (t : Z) : Prop :=
  exists s x, m !! n = Some s /\ getFinalExitConnection s = Some x /\ getArrivalTime x <= t.

(** A state only improves during a scan. *)
Record evolves (st st' : ForwardState) : Prop := {
  ev_times : forall n t, at_most (fwd_times st) n t -> at_most (fwd_times st') n t;
  ev_exits : forall n t, exits_by (fwd_egress st) n t -> exits_by (fwd_egress st') n t;
  ev_trips : forall u q e, fwd_trips st !! u = Some q -> enterConnection q = Some e ->
    exists q', fwd_trips st' !! u = Some q' /\ enterConnection q' = Some e
}.

#[export] Instance evolves_refl : Reflexive evolves.
Proof. intros st. split; eauto. Qed.
#[export] Instance evolves_trans : Transitive evolves.
Proof.
  intros a b d [H1 H2 H3] [G1 G2 G3]. split; [auto..|].
  intros u q e Hq He. destruct (H3 u q e Hq He) as (q' & Hq' & He'). eauto.
Qed.

Section Sound.
Context (p : CommonParameters) (c : Calculator).
Notation reaches := (reaches p c).
Notation minWaiting := (minWaiting p).

(** The journey step of node [n]: none, and the node is reached on foot if at all,
    or a ride followed by a footpath that gives its tentative time. *)
Definition step_ok (L : list Connection) (times : list Z) (n : uid) (s : JourneyStep) : Prop :=
  (getFinalEnterConnection s = None /\ getFinalExitConnection s = None /\
   times !! n = nodesTentativeTime c !! n) \/
  exists e x f,
    s = mkJourneyStep (Some e) (Some x) (Some (getTrip x)) (ntd_time f)
          (Nat.eqb (node_uid (getArrivalNode x)) n) (ntd_distance f) /\
    leg L e x /\ f ∈ transferableNodes (getArrivalNode x) /\ ntd_node f = n /\
    ntd_time f <= getMaxTransferWalkingTravelTimeSeconds p /\
    times !! n = Some (getArrivalTime x + ntd_time f) /\
    at_most times (node_uid (getDepartureNode e)) (getDepartureTime e - minWaiting e).

(** The exit step of node [n]: a ride that ends there. *)
Definition exit_ok (L : list Connection) (times : list Z) (n : uid) (s : JourneyStep) : Prop :=
  exists e x f,
    s = mkJourneyStep (Some e) (Some x) (Some (getTrip x)) (ntd_time f) true (ntd_distance f) /\
    leg L e x /\ f ∈ transferableNodes (getArrivalNode x) /\
    node_uid (getArrivalNode x) = n /\ ntd_node f = n /\
    ntd_time f <= getMaxTransferWalkingTravelTimeSeconds p /\
    at_most times (node_uid (getDepartureNode e)) (getDepartureTime e - minWaiting e).

Definition boarded_ok (L : list Connection) (times : list Z) (u : uid) (e : Connection) : Prop :=
  e ∈ L /\ trip_uid (getTrip e) = u /\ canBoard e = true /\
  at_most times (node_uid (getDepartureNode e)) (getDepartureTime e - minWaiting e).

(** The invariant of the scan, [L] being the connections seen. *)
Record Sound (L : list Connection) (st : ForwardState) : Prop := {
  sd_times_len : length (fwd_times st) = length (nodesTentativeTime c);
  sd_steps_len : length (fwd_steps st) = length (nodesTentativeTime c);
  sd_trips_len : length (fwd_trips st) = length (tripsQueryOverlay c);
  sd_max : Forall (fun t => t <= MAX_INT) (fwd_times st);
  sd_reach : forall n t, fwd_times st !! n = Some t -> t < MAX_INT -> reaches L n t;
  sd_steps : forall n s, fwd_steps st !! n = Some s -> step_ok L (fwd_times st) n s;
  sd_exits : forall n s, fwd_egress st !! n = Some s -> exit_ok L (fwd_times st) n s;
  sd_trips : forall u q e, fwd_trips st !! u = Some q -> enterConnection q = Some e ->
    usable q = true /\ boarded_ok L (fwd_times st) u e
}.

Lemma before_in_app L L' e x : before_in L e x -> before_in (L ++ L') e x.
Proof. intros (i & j & Hij & Hi & Hj). exists i, j. split_and!; [done | by apply lookup_app_l_Some..]. Qed.

Lemma leg_app L L' e x : leg L e x -> leg (L ++ L') e x.
Proof. intros []. split; try done. by apply before_in_app. Qed.

Lemma reaches_app L L' n t : reaches L n t -> reaches (L ++ L') n t.
Proof.
  induction 1; [by apply reaches_walk | eapply reaches_ride; eauto using leg_app].
Qed.

Lemma rides_app L L' e x : rides p c L e x -> rides p c (L ++ L') e x.
Proof. intros [Hl (t & Ht & Hw)]. split; [by apply leg_app|]. eauto using reaches_app. Qed.

Lemma before_in_last L e x : e ∈ L -> before_in (L ++ [x]) e x.
Proof.
  intros He. destruct (list_elem_of_lookup_1 _ _ He) as [i Hi].
  exists i, (length L). split_and!.
  - apply lookup_lt_Some in Hi. lia.
  - by apply lookup_app_l_Some.
  - rewrite lookup_app_r by lia. by rewrite Nat.sub_diag.
Qed.

Lemma before_in_self L x : before_in (L ++ [x]) x x.
Proof.
  exists (length L), (length L). split_and!; [done| |]; rewrite lookup_app_r by lia;
    by rewrite Nat.sub_diag.
Qed.

Lemma at_most_le l n t t' : at_most l n t -> t <= t' -> at_most l n t'.
Proof. intros (v & Hv & Hle) H. exists v. split; [done | lia]. Qed.

Lemma at_most_insert l n v m t :
  (forall w, l !! n = Some w -> v <= w) -> at_most l m t -> at_most (<[n := v]> l) m t.
Proof.
  intros Hv (w & Hw & Hle). destruct (decide (n = m)) as [->|Hne].
  - exists v. split; [|specialize (Hv w Hw); lia].
    apply list_lookup_insert_eq. by eapply lookup_lt_Some.
  - exists w. split; [|done]. by rewrite list_lookup_insert_ne.
Qed.

Lemma Sound_app L L' st : Sound L st -> Sound (L ++ L') st.
Proof.
  intros [H1 H2 H3 H4 H5 H6 H7 H8]. split; [done..| | | |].
  - intros n t Hn Ht. by apply reaches_app, H5.
  - intros n s Hs. destruct (H6 n s Hs) as [H | (e & x & f & H & Hl & Hr)]; [by left|].
    right. exists e, x, f. split_and!; [done | by apply leg_app | apply Hr..].
  - intros n s Hs. destruct (H7 n s Hs) as (e & x & f & H & Hl & Hr).
    exists e, x, f. split_and!; [done | by apply leg_app | apply Hr..].
  - intros u q e Hq He. destruct (H8 u q e Hq He) as (Hu & Hin & Hr). split; [done|].
    split; [set_solver | done].
Qed.

(** Boarding in time means being at the stop at a reachable instant. *)
Lemma Sound_boarding L st e :
  Sound L st -> conn_ok p c e ->
  at_most (fwd_times st) (node_uid (getDepartureNode e)) (getDepartureTime e - minWaiting e) ->
  exists t, reaches L (node_uid (getDepartureNode e)) t /\ t + minWaiting e <= getDepartureTime e.
Proof.
  intros HS He (t & Ht & Hle). exists t. split; [|lia].
  eapply sd_reach; [exact HS | exact Ht |]. destruct He. lia.
Qed.

(** *** Relaxing a node *)

Section Relax.
Context (L : list Connection) (st : ForwardState) (e conn : Connection) (f : NodeTimeDistance).
Context (HS : Sound L st) (He : conn_ok p c e) (Hconn : conn_ok p c conn).
Context (Hleg : leg L e conn) (Hf : f ∈ transferableNodes (getArrivalNode conn)).
Context (Hmax : ntd_time f <= getMaxTransferWalkingTravelTimeSeconds p).
Context (Hboard : at_most (fwd_times st) (node_uid (getDepartureNode e))
                    (getDepartureTime e - minWaiting e)).

Let n := ntd_node f.
Let v := getArrivalTime conn + ntd_time f.
Let times' := <[n := v]> (fwd_times st).
Let step same := mkJourneyStep (Some e) (Some conn) (Some (getTrip conn)) (ntd_time f) same
                   (ntd_distance f).

Lemma relax_reaches : reaches L n v.
Proof using HS He Hleg Hf Hmax Hboard.
  destruct (Sound_boarding L st e HS He Hboard) as (t & Ht & Hle).
  unfold n, v. by eapply reaches_ride.
Qed.

Lemma relax_sound cur :
  fwd_times st !! n = Some cur -> v < cur ->
  let st' := with_times_steps times'
               (<[n := step (Nat.eqb (node_uid (getArrivalNode conn)) n)]> (fwd_steps st)) st in
  Sound L st' /\ evolves st st' /\ at_most times' n v.
Proof using HS He Hleg Hf Hmax Hboard Hconn.
  intros Hcur Hlt st'. pose proof (lookup_lt_Some _ _ _ Hcur) as Hlen.
  assert (forall w, fwd_times st !! n = Some w -> v <= w) as Hle.
  { intros w Hw. assert (w = cur) as -> by congruence. lia. }
  assert (times' !! n = Some v) as Hn by by apply list_lookup_insert_eq.
  assert (forall m t, at_most (fwd_times st) m t -> at_most times' m t) as Hmono.
  { intros m t. by apply at_most_insert. }
  pose proof relax_reaches as Hreach.
  destruct HS as [H1 H2 H3 H4 H5 H6 H7 H8]. split_and!; [| |by exists v; split].
  - split; cbn; try done.
    + unfold times'. by rewrite length_insert.
    + by rewrite length_insert.
    + apply Forall_insert; [done|]. rewrite Forall_lookup in H4. specialize (H4 _ _ Hcur). lia.
    + intros m t Hm Ht. destruct (decide (n = m)) as [<-|Hne].
      * by assert (t = v) as -> by congruence.
      * unfold times' in Hm. rewrite list_lookup_insert_ne in Hm by done. by apply H5.
    + intros m s Hs. destruct (decide (n = m)) as [<-|Hne].
      * rewrite list_lookup_insert_eq in Hs by lia. injection Hs as <-.
        right. exists e, conn, f. split_and!; auto.
      * rewrite list_lookup_insert_ne in Hs by done.
        destruct (H6 m s Hs) as [(G1 & G2 & G3) | (e' & x & g & Gs & Gl & Gin & Gn & Gm & Gt & Gb)].
        -- left. split_and!; [done..|]. unfold times'. by rewrite list_lookup_insert_ne.
        -- right. exists e', x, g. unfold times' at 1. rewrite list_lookup_insert_ne by done.
           split_and!; auto.
    + intros m s Hs. destruct (H7 m s Hs) as (e' & x & g & Gs & Gl & Gin & Gn & Gn' & Gm & Gb).
      exists e', x, g. split_and!; auto.
    + intros u q b Hq Hb. destruct (H8 u q b Hq Hb) as (Gu & Gin & Gt & Gb & Ga).
      split; [done|]. split_and!; auto.
  - split; cbn; eauto.
Qed.

Lemma exit_sound :
  n = node_uid (getArrivalNode conn) ->
  (forall t, exits_by (fwd_egress st) n t -> getArrivalTime conn <= t) ->
  let st' := with_egress (<[n := step true]> (fwd_egress st)) st in
  Sound L st' /\ evolves st st' /\ exits_by (fwd_egress st') n (getArrivalTime conn).
Proof using HS He Hleg Hf Hmax Hboard Hconn.
  intros Hn Hbest st'. destruct HS as [H1 H2 H3 H4 H5 H6 H7 H8].
  assert (fwd_egress st' !! n = Some (step true)) as Hst' by apply lookup_insert_eq.
  split_and!; [split; try done| |].
  - intros m s Hs. cbn in Hs. destruct (decide (n = m)) as [<-|Hne].
    + rewrite lookup_insert_eq in Hs. injection Hs as <-. exists e, conn, f. by split_and!.
    + rewrite lookup_insert_ne in Hs by done. by apply H7.
  - split; [done| |eauto]. intros m t Hex. destruct (decide (n = m)) as [<-|Hne].
    + exists (step true), conn. split_and!; [done..|]. by apply Hbest.
    + destruct Hex as (s & x & Hs & Hr). exists s, x. cbn. by rewrite lookup_insert_ne.
  - exists (step true), conn. split_and!; [done..|]. lia.
Qed.
End Relax.

Lemma forward_transfer_sound L st e conn f :
  Sound L st -> conn_ok p c e -> conn_ok p c conn -> leg L e conn ->
  at_most (fwd_times st) (node_uid (getDepartureNode e)) (getDepartureTime e - minWaiting e) ->
  f ∈ transferableNodes (getArrivalNode conn) ->
  exists st', forward_transfer p conn (Some e) f st = Ok st' /\
    Sound L st' /\ evolves st st' /\ fwd_trips st' = fwd_trips st /\
    fwd_reachable st' = fwd_reachable st /\
    (ntd_time f <= getMaxTransferWalkingTravelTimeSeconds p ->
     at_most (fwd_times st') (ntd_node f) (getArrivalTime conn + ntd_time f) /\
     (ntd_node f = node_uid (getArrivalNode conn) ->
      exits_by (fwd_egress st') (ntd_node f) (getArrivalTime conn))).
Proof.
  intros HS He Hconn Hleg Hboard Hf.
  destruct (proj1 (Forall_forall _ _) (conn_transfers _ _ _ Hconn) f Hf) as (Hlen & Hpos & Hov).
  destruct (lookup_lt_is_Some_2 (fwd_times st) (ntd_node f)) as [cur Hcur].
  { by rewrite (sd_times_len _ _ HS). }
  destruct (lookup_lt_is_Some_2 (fwd_steps st) (ntd_node f)) as [old Hold].
  { by rewrite (sd_steps_len _ _ HS). }
  unfold forward_transfer. unfold vec_at at 1. rewrite Hcur. cbn [mbind result_bind].
  destruct (negb _ && _) eqn:Econt.
  { (* continue: the node is reached before the arrival *)
    apply andb_true_iff in Econt as [Hne Hlt]. apply negb_true_iff, Nat.eqb_neq in Hne.
    apply Z.ltb_lt in Hlt. exists st. split_and!; try done. intros _. split; [|congruence].
    exists cur. split; [done | lia]. }
  destruct (Z.leb_spec (ntd_time f) (getMaxTransferWalkingTravelTimeSeconds p)) as [Hmax|Hmax].
  2: { exists st. split_and!; try done. lia. }
  set (st1 := if ntd_time f + getArrivalTime conn <? cur
              then with_times_steps (<[ntd_node f := getArrivalTime conn + ntd_time f]> (fwd_times st))
                     (<[ntd_node f := mkJourneyStep (Some e) (Some conn) (Some (getTrip conn))
                          (ntd_time f) (Nat.eqb (node_uid (getArrivalNode conn)) (ntd_node f))
                          (ntd_distance f)]> (fwd_steps st)) st
              else st).
  match goal with |- context [mbind _ (if _ <? _ then ?m else _)] =>
    replace (if ntd_time f + getArrivalTime conn <? cur then m else Ok st) with (Ok (E := exn) st1) end.
  2: { unfold st1, vec_set, vec_at_set. rewrite Hcur, Hold, (Z.add_comm (ntd_time f)).
       by destruct (getArrivalTime conn + ntd_time f <? cur). }
  assert (Sound L st1 /\ evolves st st1 /\
          at_most (fwd_times st1) (ntd_node f) (getArrivalTime conn + ntd_time f) /\
          fwd_trips st1 = fwd_trips st /\ fwd_reachable st1 = fwd_reachable st /\
          fwd_egress st1 = fwd_egress st) as (HS1 & Hev1 & Hat1 & Htr1 & Hre1 & Heg1).
  { unfold st1. destruct (Z.ltb_spec (ntd_time f + getArrivalTime conn) cur) as [Hlt|Hge].
    - destruct (relax_sound L st e conn f HS He Hconn Hleg Hf Hmax Hboard cur Hcur)
        as (G1 & G2 & G3); [lia|]. by split_and!.
    - split_and!; try done. exists cur. split; [done | lia]. }
  cbn [mbind result_bind].
  destruct (Nat.eqb_spec (node_uid (getArrivalNode conn)) (ntd_node f)) as [Harr|Harr].
  2: { exists st1. by split_and!. }
  assert (forall (b : bool), (b = false -> exits_by (fwd_egress st1) (ntd_node f) (getArrivalTime conn)) ->
    (b = true -> forall t, exits_by (fwd_egress st1) (ntd_node f) t -> getArrivalTime conn <= t) ->
    let st2 := if b then with_egress (<[ntd_node f := mkJourneyStep (Some e) (Some conn)
                 (Some (getTrip conn)) (ntd_time f) true (ntd_distance f)]> (fwd_egress st1)) st1
               else st1 in
    Sound L st2 /\ evolves st st2 /\ fwd_trips st2 = fwd_trips st /\
    fwd_reachable st2 = fwd_reachable st /\
    at_most (fwd_times st2) (ntd_node f) (getArrivalTime conn + ntd_time f) /\
    exits_by (fwd_egress st2) (ntd_node f) (getArrivalTime conn)) as Hfin.
  { intros [] Hno Hyes; cbv zeta; [|split_and!; auto].
    assert (at_most (fwd_times st1) (node_uid (getDepartureNode e))
              (getDepartureTime e - minWaiting e)) as Hb1 by by apply (ev_times st st1).
    destruct (exit_sound L st1 e conn f HS1 He Hconn Hleg Hf Hmax Hb1) as (G1 & G2 & G3);
      [done | auto |]. split_and!; try done. by transitivity st1. }
  destruct (fwd_egress st1 !! ntd_node f) as [s|] eqn:Es.
  - destruct (sd_exits _ _ HS1 _ _ Es) as (e' & x & g & -> & _).
    cbn [opt_value getFinalExitConnection mbind result_bind].
    destruct (Hfin (getArrivalTime x >? getArrivalTime conn)) as (G1 & G2 & G3 & G4 & G5 & G6).
    + intros Hx. eexists. exists x. split_and!; [exact Es | done | lia].
    + intros Hx t (s' & x' & Hs' & Hx' & Hle). rewrite Es in Hs'. injection Hs' as <-.
      cbn in Hx'. injection Hx' as <-. lia.
    + eexists. split; [reflexivity|]. by split_and!.
  - destruct (Hfin true) as (G1 & G2 & G3 & G4 & G5 & G6); [done| |].
    + intros _ t (s' & x' & Hs' & _). congruence.
    + eexists. split; [reflexivity|]. by split_and!.
Qed.

(** *** A connection *)

(** The effect of getting off at the arrival node of [conn], for the footpaths of [l]. *)
Definition transfers_done (conn : Connection) (l : list NodeTimeDistance) (st : ForwardState) : Prop :=
  forall f, f ∈ l -> ntd_time f <= getMaxTransferWalkingTravelTimeSeconds p ->
    at_most (fwd_times st) (ntd_node f) (getArrivalTime conn + ntd_time f) /\
    (ntd_node f = node_uid (getArrivalNode conn) ->
     exits_by (fwd_egress st) (ntd_node f) (getArrivalTime conn)).

Lemma transfers_done_evolves conn l st st' :
  evolves st st' -> transfers_done conn l st -> transfers_done conn l st'.
Proof.
  intros Hev Hd f Hf Hmax. destruct (Hd f Hf Hmax) as [H1 H2].
  split; [by apply (ev_times st st') | intros Hn; apply (ev_exits st st'); auto].
Qed.

Lemma forward_transfers_sound L st e conn l :
  Sound L st -> conn_ok p c e -> conn_ok p c conn -> leg L e conn ->
  at_most (fwd_times st) (node_uid (getDepartureNode e)) (getDepartureTime e - minWaiting e) ->
  l ⊆ transferableNodes (getArrivalNode conn) ->
  exists st', for_each (forward_transfer p conn (Some e)) l st = Ok st' /\
    Sound L st' /\ evolves st st' /\ fwd_trips st' = fwd_trips st /\
    fwd_reachable st' = fwd_reachable st /\ transfers_done conn l st'.
Proof.
  intros HS He Hconn Hleg Hboard Hl.
  apply (for_each_ok _ (fun pre s => Sound L s /\ evolves st s /\ fwd_trips s = fwd_trips st /\
           fwd_reachable s = fwd_reachable st /\ transfers_done conn pre s)).
  - intros pre f post s -> (G1 & G2 & G3 & G4 & G5).
    destruct (forward_transfer_sound L s e conn f G1 He Hconn Hleg) as (s' & Hrun & K1 & K2 & K3 & K4 & K5).
    { by apply (ev_times st s). }
    { apply Hl. set_solver. }
    exists s'. split; [done|]. split_and!; [done | by transitivity s | congruence | congruence |].
    intros g Hg. apply elem_of_app in Hg as [Hg | Hg%list_elem_of_singleton].
    + by apply (transfers_done_evolves conn pre s s').
    + subst g. auto.
  - split_and!; try done. intros f Hf. by apply elem_of_nil in Hf.
Qed.

Lemma forward_is_reachable_sound L conn enter st :
  Sound L st -> conn_ok p c conn ->
  exists b, forward_is_reachable p c conn enter st = Ok b /\
    let in_time := at_most (fwd_times st) (node_uid (getDepartureNode conn))
                     (getDepartureTime conn - minWaiting conn) in
    (b = true -> is_Some enter \/ in_time) /\
    (first_wait_ok p c conn -> is_Some enter \/ in_time -> b = true).
Proof.
  intros HS Hconn. pose proof (conn_dep_uid _ _ _ Hconn) as Hlen.
  destruct (lookup_lt_is_Some_2 (fwd_times st) (node_uid (getDepartureNode conn))) as [t Ht].
  { by rewrite (sd_times_len _ _ HS). }
  destruct (lookup_lt_is_Some_2 (fwd_steps st) (node_uid (getDepartureNode conn))) as [s Hs].
  { by rewrite (sd_steps_len _ _ HS). }
  unfold forward_is_reachable. unfold vec_at. rewrite Ht, Hs. cbn [mbind result_bind].
  set (in_time := at_most _ _ _).
  assert (forall accessed : bool, (accessed = true -> first_wait_ok p c conn ->
      getDepartureTime conn - t <= getMaxFirstWaitingTimeSeconds p) ->
    let b := (bool_decide (is_Some enter) || (t <=? getDepartureTime conn - minWaiting conn)) &&
             (negb accessed || (getDepartureTime conn - t <=? getMaxFirstWaitingTimeSeconds p)) in
    (b = true -> is_Some enter \/ in_time) /\
    (first_wait_ok p c conn -> is_Some enter \/ in_time -> b = true)) as Hb.
  { intros accessed Hacc b. unfold b. rewrite andb_true_iff, orb_true_iff, bool_decide_eq_true, Z.leb_le.
    split.
    - intros [[He|He] _]; [by left|]. right. by exists t.
    - intros Hfirst Hor. split.
      + destruct Hor as [|(t' & Ht' & Hle)]; [by left|]. right. congruence.
      + destruct accessed; [|done]. cbn. by apply Z.leb_le, Hacc. }
  destruct (Z.gtb_spec (getMaxFirstWaitingTimeSeconds p) 0) as [Hfirst|Hfirst];
    [|cbn [mbind result_bind]; eexists; (split; [reflexivity|]); by apply Hb].
  destruct (nodesAccess c !! _) as [access|] eqn:Ha;
    [|cbn [mbind result_bind]; eexists; (split; [reflexivity|]); by apply Hb].
  destruct (Z.geb_spec (ntd_time access) 0) as [Hpos|Hpos];
    cbn [mbind result_bind]; eexists; (split; [reflexivity|]); apply Hb; [|done].
  intros Hstep Hopen. apply negb_true_iff, bool_decide_eq_false in Hstep.
  destruct (sd_steps _ _ HS _ _ Hs) as [(_ & _ & Hwalk) | (e & x & f & -> & _)]; [|by destruct Hstep; exists e].
  unfold first_wait_ok in Hopen. rewrite Ha, <- Hwalk, Ht in Hopen. lia.
Qed.

Lemma forward_board_sound L conn overlay st :
  Sound L st -> conn_ok p c conn -> conn ∈ L ->
  fwd_trips st !! trip_uid (getTrip conn) = Some overlay ->
  is_Some (enterConnection overlay) \/
    at_most (fwd_times st) (node_uid (getDepartureNode conn)) (getDepartureTime conn - minWaiting conn) ->
  exists overlay' st', forward_board conn overlay st = Ok (overlay', st') /\
    Sound L st' /\ evolves st st' /\ fwd_times st' = fwd_times st /\
    fwd_trips st' !! trip_uid (getTrip conn) = Some overlay' /\
    (is_Some (enterConnection overlay) \/ canBoard conn = true -> is_Some (enterConnection overlay')).
Proof.
  intros HS Hconn Hin Hover Hor. unfold forward_board.
  destruct (canBoard conn) eqn:Hcb; cbn [andb].
  2: { exists overlay, st. split_and!; try done. by intros [|]. }
  destruct (bool_decide (is_Some (enterConnection overlay))) eqn:Hd; cbn [negb].
  { apply bool_decide_eq_true in Hd. by exists overlay, st. }
  apply bool_decide_eq_false in Hd. destruct Hor as [|Hor]; [done|].
  assert (enterConnection overlay = None) as Hnone by by apply eq_None_not_Some.
  destruct (lookup_lt_is_Some_2 (fwd_steps st) (node_uid (getDepartureNode conn))) as [s Hs].
  { rewrite (sd_steps_len _ _ HS). by destruct Hconn. }
  unfold vec_at, vec_set. rewrite Hs, Hover. cbn [mbind result_bind].
  eexists _, _. split; [reflexivity|].
  set (overlay' := mkTripQueryData _ _ _ _ _). set (u := trip_uid (getTrip conn)) in *.
  pose proof (lookup_lt_Some _ _ _ Hover) as Hlt.
  assert (<[u := overlay']> (fwd_trips st) !! u = Some overlay') as Hu by by apply list_lookup_insert_eq.
  destruct HS as [H1 H2 H3 H4 H5 H6 H7 H8]. split_and!; try done.
  - split; cbn; try done; [by rewrite length_insert|].
    intros v q e Hq He. destruct (decide (u = v)) as [<-|Hne].
    + rewrite Hu in Hq. injection Hq as <-. cbn in He. injection He as <-. by split.
    + rewrite list_lookup_insert_ne in Hq by done. by apply (H8 v q e).
  - split; cbn; try done. intros v q e Hq He. destruct (decide (u = v)) as [<-|Hne].
    + rewrite Hover in Hq. injection Hq as <-. congruence.
    + exists q. by rewrite list_lookup_insert_ne.
Qed.

Lemma count_sound L st st1 :
  Sound L st1 -> evolves st st1 ->
  Sound L (count_reachable st1) /\ evolves st (count_reachable st1).
Proof. intros [] Hev. split; [by split|]. transitivity st1; [done|]. split; cbn; eauto. Qed.

(** What a visited connection achieves when its departure is in time. *)
Definition visit_done (conn : Connection) (st st' : ForwardState) : Prop :=
  let u := trip_uid (getTrip conn) in
  let boarded s := exists q, fwd_trips s !! u = Some q /\ is_Some (enterConnection q) in
  boarded st \/ (canBoard conn = true /\
    at_most (fwd_times st) (node_uid (getDepartureNode conn)) (getDepartureTime conn - minWaiting conn)) ->
  boarded st' /\
  (canUnboard conn = true -> transfers_done conn (transferableNodes (getArrivalNode conn)) st').

Lemma forward_visit_sound pre conn overlay st :
  Sound pre st -> Forall (conn_ok p c) (pre ++ [conn]) ->
  fwd_trips st !! trip_uid (getTrip conn) = Some overlay ->
  exists st' b, forward_visit p c conn overlay st = Ok (st', b) /\
    Sound (pre ++ [conn]) st' /\ evolves st st' /\
    (b = true -> canUnboard conn = true /\
       transfers_done conn (transferableNodes (getArrivalNode conn)) st' /\
       exists e, rides p c (pre ++ [conn]) e conn) /\
    (first_wait_ok p c conn -> visit_done conn st st').
Proof.
  intros HS0 Hok Hover. pose proof (Sound_app pre [conn] st HS0) as HS.
  assert (conn_ok p c conn) as Hconn.
  { rewrite Forall_app in Hok. destruct Hok as [_ Hok]. by inversion Hok. }
  destruct (forward_is_reachable_sound _ conn (enterConnection overlay) st HS Hconn)
    as (reach & Hreach & Hr1 & Hr2).
  unfold forward_visit. rewrite Hreach. cbn [mbind result_bind].
  destruct reach; cycle 1.
  { exists st, false. split_and!; try done. intros Hfirst Hor.
    assert (false = true); [|done]. apply (Hr2 Hfirst).
    destruct Hor as [(q & Hq & He)|[_ Hor]]; [left; congruence | by right]. }
  specialize (Hr1 eq_refl).
  assert (conn ∈ pre ++ [conn]) as Hin by set_solver.
  destruct (forward_board_sound _ conn overlay st HS Hconn Hin Hover Hr1)
    as (overlay' & st1 & Hrun & HS1 & Hev1 & Ht1 & Hover1 & Hboarded).
  rewrite Hrun. cbn [mbind result_bind].
  destruct (count_sound _ st st1 HS1 Hev1) as [HS1' Hev1'].
  destruct (canUnboard conn) eqn:Hcu; cbn [andb].
  2: { eexists _, _. split; [reflexivity|]. split_and!; try done.
       intros Hfirst Hor. split; [|intros; congruence]. exists overlay'. split; [done|]. apply Hboarded.
       destruct Hor as [(q & Hq & He)|[? _]]; [left; congruence | by right]. }
  destruct (bool_decide (is_Some (enterConnection overlay'))) eqn:Hd.
  2: { apply bool_decide_eq_false in Hd. eexists _, _. split; [reflexivity|]. split_and!; try done.
       intros Hfirst Hor. exfalso. apply Hd, Hboarded.
       destruct Hor as [(q & Hq & He)|[? _]]; [left; congruence | by right]. }
  apply bool_decide_eq_true in Hd as [e He]. rewrite He.
  destruct (sd_trips _ _ HS1 _ _ _ Hover1 He) as (_ & Hein & Het & Hec & Heb).
  assert (leg (pre ++ [conn]) e conn) as Hleg.
  { split; [|done..]. apply elem_of_app in Hein as [Hein | ->%list_elem_of_singleton].
    - by apply before_in_last.
    - apply before_in_self. }
  assert (conn_ok p c e) as Heok by by apply (proj1 (Forall_forall _ _) Hok).
  destruct (forward_transfers_sound _ st1 e conn (transferableNodes (getArrivalNode conn))
              HS1 Heok Hconn Hleg Heb) as (st2 & Hrun2 & HS2 & Hev2 & Htr2 & _ & Hdone); [done|].
  rewrite Hrun2. cbn [mbind result_bind].
  destruct (count_sound _ st st2 HS2) as [HS2' Hev2']; [by transitivity st1|].
  eexists _, _. split; [reflexivity|]. split_and!; try done.
  - intros _. split_and!; try done. exists e. split; [done|]. by apply (Sound_boarding _ st1).
  - intros _ _. split; [|done]. exists overlay'. cbn. rewrite Htr2. eauto.
Qed.
End Sound.

Section Complete.
Context (p : CommonParameters) (c : Calculator).

Definition boarded (st : ForwardState) (u : uid) : Prop :=
  exists q, fwd_trips st !! u = Some q /\ is_Some (enterConnection q).

(** The state accounts for every journey made of the connections of [L]. *)
Record Complete (L : list Connection) (st : ForwardState) : Prop := {
  cp_times : forall n t, reaches p c L n t -> at_most (fwd_times st) n t;
  cp_trips : forall e t, e ∈ L -> canBoard e = true ->
    reaches p c L (node_uid (getDepartureNode e)) t -> t + minWaiting p e <= getDepartureTime e ->
    boarded st (trip_uid (getTrip e));
  cp_rides : forall e x, rides p c L e x ->
    transfers_done p x (transferableNodes (getArrivalNode x)) st
}.

Lemma boarded_evolves st st' u : evolves st st' -> boarded st u -> boarded st' u.
Proof.
  intros Hev (q & Hq & [e He]). destruct (ev_trips _ _ Hev u q e Hq He) as (q' & Hq' & He').
  exists q'. eauto.
Qed.

Lemma sorted_before L e x :
  forward_sorted L -> before_in L e x -> getDepartureTime e <= getDepartureTime x.
Proof.
  intros Hs (i & j & Hij & Hi & Hj). destruct (decide (i = j)) as [->|Hne].
  - assert (e = x) as -> by congruence. lia.
  - rewrite <- (take_drop_middle _ _ _ Hj) in Hs.
    apply StronglySorted_app_inv in Hs as (_ & _ & Hs). apply Hs; [|set_solver].
    apply list_elem_of_lookup. exists i. rewrite lookup_take_lt by lia. done.
Qed.

Lemma before_in_elem L e x : before_in L e x -> e ∈ L /\ x ∈ L.
Proof. intros (i & j & _ & Hi & Hj). split; by eapply list_elem_of_lookup_2. Qed.

Lemma before_in_app_inv L1 L2 e x : before_in (L1 ++ L2) e x -> before_in L1 e x \/ x ∈ L2.
Proof.
  intros (i & j & Hij & Hi & Hj). destruct (decide (j < length L1)%nat).
  - left. exists i, j. rewrite lookup_app_l in Hi, Hj by lia. done.
  - right. rewrite lookup_app_r in Hj by lia. by eapply list_elem_of_lookup_2.
Qed.

(** Being somewhere at time [T] uses only connections that leave before [T]. *)
Lemma reaches_prefix pre post n t T :
  forward_sorted (pre ++ post) -> Forall (conn_ok p c) (pre ++ post) ->
  (forall x, x ∈ post -> T <= getDepartureTime x) ->
  reaches p c (pre ++ post) n t -> t <= T -> reaches p c pre n t.
Proof.
  intros Hs Hok Hpost Hr. induction Hr as [n t Hn Ht|e x f t [Ho Ht Hb Hu] Hr IH Hw Hf Hmax]; intros Hle.
  - by apply reaches_walk.
  - destruct (before_in_elem _ _ _ Ho) as [He Hx].
    rewrite Forall_forall in Hok. pose proof (Hok e He) as Heok. pose proof (Hok x Hx) as Hxok.
    destruct (proj1 (Forall_forall _ _) (conn_transfers _ _ _ Hxok) f Hf) as (_ & Hpos & _).
    pose proof (sorted_before _ _ _ Hs Ho). destruct Heok, Hxok.
    eapply (reaches_ride p c pre e x f t); [|apply IH; lia|done..].
    split; [|done..]. apply before_in_app_inv in Ho as [Ho|Hin]; [done|].
    specialize (Hpost x Hin). lia.
Qed.

Lemma Complete_step pre conn st st' :
  forward_sorted (pre ++ [conn]) -> Forall (conn_ok p c) (pre ++ [conn]) ->
  Complete pre st -> evolves st st' -> visit_done p conn st st' -> Complete (pre ++ [conn]) st'.
Proof.
  intros Hs Hok [C1 C2 C3] Hev Hvisit.
  assert (forall e t, e ∈ pre ++ [conn] -> reaches p c (pre ++ [conn]) (node_uid (getDepartureNode e)) t ->
            t + minWaiting p e <= getDepartureTime e ->
            reaches p c pre (node_uid (getDepartureNode e)) t) as Hpre.
  { intros e t He Ht Hw. eapply (reaches_prefix pre [conn] _ t (getDepartureTime e)); try done.
    - intros x Hx%list_elem_of_singleton. subst x. apply (sorted_before _ _ _ Hs).
      apply elem_of_app in He as [He | ->%list_elem_of_singleton].
      + by apply before_in_last.
      + apply before_in_self.
    - rewrite Forall_forall in Hok. destruct (Hok e He). lia. }
  assert (forall e t, e ∈ pre ++ [conn] -> canBoard e = true ->
            reaches p c (pre ++ [conn]) (node_uid (getDepartureNode e)) t ->
            t + minWaiting p e <= getDepartureTime e ->
            boarded st (trip_uid (getTrip e)) \/ (e = conn /\ canBoard conn = true /\
              at_most (fwd_times st) (node_uid (getDepartureNode conn))
                (getDepartureTime conn - minWaiting p conn))) as Hboard.
  { intros e t He Hb Ht Hw. pose proof (Hpre e t He Ht Hw) as Ht'.
    apply elem_of_app in He as [He | ->%list_elem_of_singleton]; [left; eauto|].
    right. split_and!; [done..|]. eapply at_most_le; [by apply C1 | lia]. }
  assert (forall e x, rides p c (pre ++ [conn]) e x ->
            transfers_done p x (transferableNodes (getArrivalNode x)) st') as C3'.
  { intros e x [[Ho Ht Hb Hu] (t & Htr & Hw)].
    destruct (before_in_elem _ _ _ Ho) as [He _].
    destruct (before_in_app_inv _ _ _ _ Ho) as [Hin | ->%list_elem_of_singleton].
    - apply (transfers_done_evolves p x _ st st' Hev), (C3 e x). split; [by split|].
      exists t. split; [by apply Hpre | done].
    - apply Hvisit; [|done]. rewrite <- Ht.
      destruct (Hboard e t He Hb Htr Hw) as [Hbd | (-> & H1 & H2)]; [by left | by right]. }
  split.
  - intros n t Hr. destruct Hr as [n t Hn Ht|e x f t Hl Hr Hw Hf Hmax].
    + apply (ev_times _ _ Hev), C1. by apply reaches_walk.
    + destruct (C3' e x) with (f := f) as [H _]; [|done..]. split; [done|]. eauto.
  - intros e t He Hb Hr Hw.
    destruct (Hboard e t He Hb Hr Hw) as [Hbd | (-> & H1 & H2)].
    + by apply (boarded_evolves st st').
    + apply Hvisit. by right.
  - done.
Qed.

Lemma Complete_evolves L st st' : Complete L st -> evolves st st' -> Complete L st'.
Proof.
  intros [C1 C2 C3] Hev. split.
  - intros n t Hr. by apply (ev_times _ _ Hev), C1.
  - intros e t He Hb Hr Hw. apply (boarded_evolves st st'); eauto.
  - intros e x Hr. apply (transfers_done_evolves p x _ st st' Hev). eauto.
Qed.

(** The scan of a list of connections, without exit test. *)
Definition forward_scan_step (conn : Connection) (st : ForwardState) : calc ForwardState :=
  overlay ← vec_at (fwd_trips st) (trip_uid (getTrip conn));
  '(st', _) ← forward_visit p c conn overlay st;
  Ok st'.

Lemma overlay_lookup L st conn :
  Sound p c L st -> conn_ok p c conn ->
  exists overlay, fwd_trips st !! trip_uid (getTrip conn) = Some overlay.
Proof.
  intros HS Hc. apply lookup_lt_is_Some_2. rewrite (sd_trips_len _ _ _ _ HS). by destruct Hc.
Qed.

Lemma scan_step_visit conn st overlay st' b :
  fwd_trips st !! trip_uid (getTrip conn) = Some overlay ->
  forward_visit p c conn overlay st = Ok (st', b) -> forward_scan_step conn st = Ok st'.
Proof. intros Hover Hrun. unfold forward_scan_step, vec_at. rewrite Hover. cbn. by rewrite Hrun. Qed.

Lemma Sound_start : start_ok c -> Sound p c [] (forward_start c).
Proof.
  intros [H1 H2 H3 H4]. split; cbn; try done.
  - intros n t Hn Ht. by apply reaches_walk.
  - intros n s Hs. left. rewrite Forall_lookup in H2. by destruct (H2 n s Hs).
  - intros u q e Hq He. rewrite Forall_lookup in H3. specialize (H3 u q Hq). congruence.
Qed.

Lemma Complete_start : start_ok c -> Complete [] (forward_start c).
Proof.
  intros Hst. split.
  - intros n t Hr. inversion Hr as [? ? Hn Ht|? ? ? ? [Ho _ _ _]]; subst.
    + exists t. by split.
    + by destruct (before_in_elem _ _ _ Ho) as [?%elem_of_nil _].
  - by intros e t ?%elem_of_nil.
  - intros e x [[Ho _ _ _] _]. by destruct (before_in_elem _ _ _ Ho) as [?%elem_of_nil _].
Qed.
End Complete.

(** ** The loops *)

Section Loops.
Context (p : CommonParameters) (c : Calculator).
Notation step := (forward_scan_step p c).

(** The connections a scan takes into account: those of enabled trips that leave
    late enough to be walked to, and within the maximal travel time. *)
Definition in_window (conn : Connection) : Prop :=
  departureTimeSeconds c + minAccessTravelTime c <= getDepartureTime conn /\
  isTripDisabled c (trip_uid (getTrip conn)) = false /\
  getDepartureTime conn - departureTimeSeconds c <= getMaxTotalTravelTimeSeconds p.
#[export] Instance in_window_dec conn : Decision (in_window conn).
Proof. unfold in_window. apply _. Defined.

Definition window : list Connection :=
  filter in_window (getForwardConnections (connectionSet c)).

(** What a query finds when its scan starts. *)
Record query_ok : Prop := {
  qo_start : start_ok c;
  qo_set : exists trips rev, connectionSet c =
    ConnectionSet_new trips (getForwardConnections (connectionSet c)) rev;
  qo_sorted : forward_sorted (getForwardConnections (connectionSet c));
  qo_conns : Forall (conn_ok p c) (getForwardConnections (connectionSet c));
  qo_departure : 0 <= departureTimeSeconds c < 32 * 3600;
  qo_access : 0 <= minAccessTravelTime c
}.

Lemma Forall_filter {A} (P Q : A -> Prop) `{!forall x, Decision (Q x)} l :
  Forall P l -> Forall P (filter Q l).
Proof. rewrite !Forall_forall. intros Hall x [_ Hx]%list_elem_of_filter. auto. Qed.

Lemma window_sorted : query_ok -> forward_sorted window.
Proof. intros H. by apply StronglySorted_filter, qo_sorted. Qed.

Lemma window_ok : query_ok -> Forall (conn_ok p c) window.
Proof. intros H. by apply Forall_filter, qo_conns. Qed.

Lemma within_first_wait_step pre conn st st' :
  forward_sorted (pre ++ [conn]) -> Forall (conn_ok p c) (pre ++ [conn]) ->
  Complete p c (within_first_wait p c pre) st -> evolves st st' ->
  (first_wait_ok p c conn -> visit_done p conn st st') ->
  Complete p c (within_first_wait p c (pre ++ [conn])) st'.
Proof.
  intros Hs Hok HC Hev Hdone. rewrite within_first_wait_app. unfold within_first_wait at 2.
  destruct (decide (first_wait_ok p c conn)) as [Hw|Hw].
  - rewrite filter_cons_True by done. cbn.
    assert (within_first_wait p c pre ++ [conn] = within_first_wait p c (pre ++ [conn])) as Heq.
    { rewrite within_first_wait_app. f_equal. unfold within_first_wait. by rewrite filter_cons_True. }
    apply (Complete_step p c _ conn st st'); auto; rewrite Heq.
    + by apply StronglySorted_filter.
    + by apply Forall_filter.
  - rewrite filter_cons_False by done. rewrite app_nil_r. by apply (Complete_evolves p c _ st).
Qed.

Lemma scan_correct L :
  start_ok c -> forward_sorted L -> Forall (conn_ok p c) L ->
  exists st, for_each step L (forward_start c) = Ok st /\ Sound p c L st /\
    Complete p c (within_first_wait p c L) st.
Proof.
  intros Hstart Hs Hok.
  apply (for_each_ok _ (fun pre s => Sound p c pre s /\
           Complete p c (within_first_wait p c pre) s)).
  - intros pre conn post st -> [HS HC].
    replace (pre ++ conn :: post) with ((pre ++ [conn]) ++ post) in Hs, Hok by by rewrite <- app_assoc.
    apply StronglySorted_app_inv in Hs as [Hs _]. apply Forall_app in Hok as [Hok _].
    assert (conn_ok p c conn) as Hconn by (apply Forall_app in Hok as [_ Hok]; by inversion Hok).
    destruct (overlay_lookup p c pre st conn HS Hconn) as [overlay Hover].
    destruct (forward_visit_sound p c pre conn overlay st HS Hok Hover)
      as (st' & b & Hrun & HS' & Hev & _ & Hdone).
    exists st'. rewrite (scan_step_visit p c conn st overlay st' b) by done.
    split_and!; [done..|]. by apply (within_first_wait_step pre conn st st').
  - split; [by apply Sound_start | by apply Complete_start].
Qed.

Lemma not_in_window_after conn rest :
  forward_sorted (conn :: rest) ->
  getMaxTotalTravelTimeSeconds p < getDepartureTime conn - departureTimeSeconds c ->
  filter in_window (conn :: rest) = [].
Proof.
  intros Hs Hlate. apply filter_none. inversion Hs as [|? ? _ Hall]; subst.
  constructor; [unfold in_window; lia|]. eapply Forall_impl; [exact Hall|].
  unfold in_window. cbn. intros x Hx. lia.
Qed.

Lemma forward_body_all_window pre conn st :
  Sound p c pre st -> conn_ok p c conn ->
  (in_window conn ->
     forward_body_all p c conn st = step conn st ≫= (fun st' => Ok (Next st'))) /\
  (~ in_window conn ->
     forward_body_all p c conn st = Ok (Next st) \/
     forward_body_all p c conn st = Ok (Break st) /\
     getMaxTotalTravelTimeSeconds p < getDepartureTime conn - departureTimeSeconds c).
Proof.
  intros HS Hconn. destruct (overlay_lookup p c pre st conn HS Hconn) as [overlay Hover].
  unfold in_window, forward_body_all, forward_scan_step, vec_at. rewrite Hover.
  cbn [mbind result_bind].
  destruct (Z.geb_spec (getDepartureTime conn) (departureTimeSeconds c + minAccessTravelTime c)).
  2: { split; [lia | by left]. }
  destruct (isTripDisabled c (trip_uid (getTrip conn))); cbn [negb].
  { split; [by intros (_ & ? & _) | by left]. }
  destruct (Z.gtb_spec (getDepartureTime conn - departureTimeSeconds c) (getMaxTotalTravelTimeSeconds p)).
  { split; [lia | by right]. }
  split; [|by intros []; split_and!]. intros _. by destruct (forward_visit _ _ _ _ _) as [[]|].
Qed.

(** The loop of [forwardCalculationAllNodes] is the scan of the window. *)
Lemma loop_all_scan rest : forall pre st,
  Sound p c pre st -> Forall (conn_ok p c) (pre ++ rest) -> forward_sorted rest ->
  for_loop (forward_body_all p c) rest st = for_each step (filter in_window rest) st.
Proof.
  induction rest as [|conn rest IH]; intros pre st HS Hok Hs; [done|].
  assert (Forall (conn_ok p c) ((pre ++ [conn]) ++ rest)) as Hok' by by rewrite <- app_assoc.
  pose proof Hok' as Hok1. apply Forall_app in Hok1 as [Hok1 _]. assert (conn_ok p c conn) as Hconn.
  { apply Forall_app in Hok1 as [_ H2]. by inversion H2. }
  assert (forward_sorted rest) as Hs' by by inversion Hs.
  destruct (forward_body_all_window pre conn st HS Hconn) as [Hin Hout].
  cbn [for_loop]. destruct (decide (in_window conn)) as [Hw|Hw].
  - rewrite (Hin Hw), filter_cons_True by done. cbn [for_each].
    destruct (overlay_lookup p c pre st conn HS Hconn) as [overlay Hover].
    destruct (forward_visit_sound p c pre conn overlay st HS Hok1 Hover) as (st' & b & Hrun & HS' & _).
    rewrite (scan_step_visit p c conn st overlay st' b) by done. cbn [mbind result_bind].
    by apply (IH (pre ++ [conn])).
  - destruct (Hout Hw) as [-> | [-> Hlate]]; cbn [mbind result_bind].
    + rewrite filter_cons_False by done. apply (IH pre); [done| |done].
      rewrite !Forall_app, Forall_cons in *. naive_solver.
    + by rewrite not_in_window_after.
Qed.

Lemma forward_connections_ok :
  query_ok ->
  exists conns, forward_connections c = Ok conns /\ forward_sorted conns /\
    Forall (conn_ok p c) conns /\ filter in_window conns = window.
Proof.
  intros [Hst (trips & rev & Hset) Hs Hok Hd Ha]. unfold forward_connections.
  assert (0 <= departureTimeSeconds c / 3600 < 32) as Hhour.
  { split; [apply Z.div_pos; lia | apply Z.div_lt_upper_bound; lia]. }
  destruct (forward_position trips (getForwardConnections (connectionSet c)) rev
              (departureTimeSeconds c / 3600) Hs Hhour) as (k & Hk & Hdrop).
  rewrite Z.quot_div_nonneg by lia.
  rewrite <- Hset in Hk. rewrite Hk. cbn [mbind result_bind].
  eexists. split; [reflexivity|]. rewrite Hdrop. split_and!.
  - by apply StronglySorted_filter.
  - by apply Forall_filter.
  - unfold window. apply list_filter_filter_l. unfold in_window, departs_from.
    intros x (Hx & _). pose proof (Z.mul_div_le (departureTimeSeconds c) 3600). lia.
Qed.

Lemma forwardCalculationAllNodes_scan :
  query_ok ->
  exists st, for_each step window (forward_start c) = Ok st /\ Sound p c window st /\
    Complete p c (within_first_wait p c window) st /\
    forwardCalculationAllNodes p c =
      if fwd_reachable st =? 0 then Throw (NoRoutingFound NO_SERVICE_FROM_ORIGIN)
      else Ok (forward_finish c st, fwd_egress st).
Proof.
  intros Hq. destruct (forward_connections_ok Hq) as (conns & Hconns & Hs & Hok & Hwin).
  destruct (scan_correct window (qo_start Hq) (window_sorted Hq) (window_ok Hq))
    as (st & Hrun & HS & HC).
  exists st. split_and!; [done..|]. unfold forwardCalculationAllNodes.
  rewrite Hconns. cbn [mbind result_bind].
  rewrite (loop_all_scan conns []); [|apply Sound_start, Hq|done|done].
  rewrite Hwin, Hrun. done.
Qed.
End Loops.

(** ** The scan towards a destination *)

Section Destination.
Context (p : CommonParameters) (c : Calculator).
Notation step := (forward_scan_step p c).

(** Every stop where a connection arrives has a footpath to itself. *)
Definition self_transfers : Prop :=
  forall conn, conn ∈ getForwardConnections (connectionSet c) ->
    exists f, f ∈ transferableNodes (getArrivalNode conn) /\
      ntd_node f = node_uid (getArrivalNode conn) /\
      ntd_time f <= getMaxTransferWalkingTravelTimeSeconds p.

(** The egress footpaths as [reset] leaves them, and the footpath of every stop to itself. *)
Record egress_ok : Prop := {
  eo_nodes : forall n eg, nodesEgress c !! n = Some eg ->
    0 <= ntd_time eg <= maxEgressTravelTime c /\ exists fp, fp ∈ egressFootpaths c /\ ntd_node fp = n;
  eo_footpaths : forall fp, fp ∈ egressFootpaths c ->
    exists eg, nodesEgress c !! ntd_node fp = Some eg /\ ntd_node eg = ntd_node fp;
  eo_self : self_transfers
}.

(** A ride that arrives at [T] at a node with an egress footpath, in the state. *)
Definition egress_hit (L : list Connection) (st : ForwardState) (T : Z) : Prop :=
  exists x eg, x ∈ L /\ transfers_done p x (transferableNodes (getArrivalNode x)) st /\
    nodesEgress c !! node_uid (getArrivalNode x) = Some eg /\ getArrivalTime x = T.

Lemma egress_hit_app L L' st st' T :
  evolves st st' -> egress_hit L st T -> egress_hit (L ++ L') st' T.
Proof.
  intros Hev (x & eg & Hin & Hd & H). exists x, eg. split_and!; [set_solver| |apply H..].
  by apply (transfers_done_evolves p x _ st).
Qed.

(** The loop of [forwardCalculation] scans a prefix of the window; when it stops
    early, the rest leaves too late to improve on an egress node already reached. *)
Lemma loop_scan rest : forall pre st r,
  Sound p c pre st -> Forall (conn_ok p c) (pre ++ rest) -> forward_sorted rest ->
  (reachedAtLeastOneEgressNode r = true -> egress_hit pre st (tentativeEgressNodeArrivalTime r)) ->
  exists st' r' seen late,
    for_loop (forward_body p c) rest (st, r) = Ok (st', r') /\
    filter (in_window p c) rest = seen ++ late /\
    for_each step seen st = Ok st' /\
    (late = [] \/ 0 <= maxEgressTravelTime c /\ exists T, egress_hit (pre ++ seen) st' T /\
       Forall (fun x => T + maxEgressTravelTime c < getDepartureTime x) late).
Proof.
  induction rest as [|conn rest IH]; intros pre st r HS Hok Hs Hr.
  { exists st, r, [], []. split_and!; try done. by left. }
  assert (Forall (conn_ok p c) ((pre ++ [conn]) ++ rest)) as Hok' by by rewrite <- app_assoc.
  pose proof Hok' as Hok1. apply Forall_app in Hok1 as [Hok1 _]. assert (conn_ok p c conn) as Hconn.
  { apply Forall_app in Hok1 as [_ H2]. by inversion H2. }
  assert (forward_sorted rest) as Hs' by by inversion Hs.
  assert (Forall (conn_ok p c) (pre ++ rest)) as Hok2.
  { rewrite !Forall_app, Forall_cons in *. naive_solver. }
  destruct (overlay_lookup p c pre st conn HS Hconn) as [overlay Hover].
  assert (~ in_window p c conn -> forward_body p c conn (st, r) = Ok (Next (st, r)) ->
    exists st' r' seen late, for_loop (forward_body p c) (conn :: rest) (st, r) = Ok (st', r') /\
    filter (in_window p c) (conn :: rest) = seen ++ late /\ for_each step seen st = Ok st' /\
    (late = [] \/ 0 <= maxEgressTravelTime c /\ exists T, egress_hit (pre ++ seen) st' T /\
       Forall (fun x => T + maxEgressTravelTime c < getDepartureTime x) late)) as Hskip.
  { intros Hout Hrun. cbn [for_loop]. rewrite Hrun. cbn [mbind result_bind].
    rewrite filter_cons_False by done. by apply IH. }
  destruct (Z.geb_spec (getDepartureTime conn) (departureTimeSeconds c + minAccessTravelTime c)) as [Hge|Hge].
  2: { apply Hskip; [unfold in_window; lia|]. unfold forward_body.
       by destruct (Z.geb_spec (getDepartureTime conn) (departureTimeSeconds c + minAccessTravelTime c)); [lia|]. }
  assert (forward_body p c conn (st, r) =
    if negb (isTripDisabled c (trip_uid (getTrip conn))) then
      if forward_stop p c conn r then Ok (Break (st, r))
      else '(st', unboarded) ← forward_visit p c conn overlay st;
           Ok (Next (st', if unboarded : bool then update_egress_reached c conn r else r))
    else Ok (Next (st, r))) as Hbody.
  { unfold forward_body, vec_at. rewrite Hover.
    by destruct (Z.geb_spec (getDepartureTime conn) (departureTimeSeconds c + minAccessTravelTime c)); [|lia]. }
  destruct (isTripDisabled c (trip_uid (getTrip conn))) eqn:Hdis; cbn [negb] in Hbody.
  { apply Hskip; [|done]. intros (_ & ? & _). congruence. }
  destruct (forward_stop p c conn r) eqn:Hstop.
  - exists st, r, [], (filter (in_window p c) (conn :: rest)). cbn [for_loop]. rewrite Hbody.
    split_and!; try done. rewrite app_nil_r. unfold forward_stop in Hstop.
    apply orb_true_iff in Hstop as [Hstop | Hstop]; [right | left].
    + rewrite !andb_true_iff in Hstop. destruct Hstop as [[[H1 H2] H3] H4].
      split; [lia|]. exists (tentativeEgressNodeArrivalTime r). split; [by apply Hr|].
      rewrite Forall_forall. intros x [_ Hx]%list_elem_of_filter.
      enough (getDepartureTime conn <= getDepartureTime x) by lia.
      apply (sorted_before _ _ _ Hs). apply list_elem_of_lookup in Hx as [j Hj].
      exists 0%nat, j. split_and!; [lia | done..].
    + apply (not_in_window_after p c); [done | lia].
  - assert (in_window p c conn) as Hw.
    { unfold forward_stop in Hstop. apply orb_false_iff in Hstop as [_ Hstop].
      split_and!; [lia | done | lia]. }
    destruct (forward_visit_sound p c pre conn overlay st HS Hok1 Hover)
      as (st1 & b & Hrun & HS1 & Hev & Hb & _).
    rewrite Hrun in Hbody. cbn [mbind result_bind] in Hbody.
    destruct (IH (pre ++ [conn]) st1 (if b then update_egress_reached c conn r else r))
      as (st' & r' & seen & late & Hloop & Hfil & Hscan & Hlate); [done..| |].
    { assert (reachedAtLeastOneEgressNode r = true ->
              egress_hit (pre ++ [conn]) st1 (tentativeEgressNodeArrivalTime r)) as Hold.
      { intros Hreached. apply (egress_hit_app pre [conn] st); auto. }
      destruct b; [|done]. unfold update_egress_reached.
      destruct (nodesEgress c !! _) as [eg|] eqn:Heg; [|done].
      destruct (_ && _); [|done]. intros _. destruct (Hb eq_refl) as (_ & Hd & _).
      exists conn, eg. split_and!; [set_solver|done..]. }
    exists st', r', (conn :: seen), late. cbn [for_loop]. rewrite Hbody. cbn [mbind result_bind].
    split_and!.
    + done.
    + by rewrite filter_cons_True, Hfil.
    + cbn [for_each]. by rewrite (scan_step_visit p c conn st overlay st1 b).
    + destruct Hlate as [|(H1 & T & H2 & H3)]; [by left|]. right. split; [done|]. exists T.
      by rewrite <- app_assoc in H2.
Qed.

(** An arrival at the destination at time [t], by a ride of [L] and an egress footpath. *)
Definition arrives (L : list Connection) (n : uid) (t : Z) : Prop :=
  exists e x eg, rides p c L e x /\ node_uid (getArrivalNode x) = n /\
    nodesEgress c !! n = Some eg /\ t = getArrivalTime x + ntd_time eg /\
    t - departureTimeSeconds c <= getMaxTotalTravelTimeSeconds p /\ t < MAX_INT.

(** The candidates of the search of the best egress node. *)
Definition candidate (egress : gmap uid JourneyStep) (n : uid) (t : Z) : Prop :=
  exists s x eg, egress !! n = Some s /\ getFinalExitConnection s = Some x /\
    nodesEgress c !! n = Some eg /\ ntd_node eg = n /\ t = getArrivalTime x + ntd_time eg /\
    0 <= t /\ t - departureTimeSeconds c <= getMaxTotalTravelTimeSeconds p /\ t < MAX_INT.

Lemma best_egress_sound egress :
  egress_ok ->
  (forall n s, egress !! n = Some s -> is_Some (getFinalExitConnection s)) ->
  exists best eg, for_each (forward_best_egress p c egress) (egressFootpaths c) (MAX_INT, None)
                  = Ok (best, eg) /\
    (forall eg', eg = Some eg' -> candidate egress (ntd_node eg') best) /\
    (forall fp t, fp ∈ egressFootpaths c -> candidate egress (ntd_node fp) t ->
       is_Some eg /\ best <= t).
Proof.
  intros Heo Hexit.
  enough (exists r, for_each (forward_best_egress p c egress) (egressFootpaths c) (MAX_INT, None) = Ok r /\
    (forall fp, fp ∈ egressFootpaths c -> fp ∈ egressFootpaths c) /\ r.1 <= MAX_INT /\
    (r.2 = None -> r.1 = MAX_INT) /\
    (forall eg', r.2 = Some eg' -> candidate egress (ntd_node eg') r.1) /\
    (forall fp t, fp ∈ egressFootpaths c -> candidate egress (ntd_node fp) t -> is_Some r.2 /\ r.1 <= t))
    as ([best eg] & H1 & _ & _ & _ & H3 & H4) by by exists best, eg.
  apply (for_each_ok _ (fun pre r => (forall fp, fp ∈ pre -> fp ∈ egressFootpaths c) /\
    r.1 <= MAX_INT /\ (r.2 = None -> r.1 = MAX_INT) /\
    (forall eg', r.2 = Some eg' -> candidate egress (ntd_node eg') r.1) /\
    (forall fp t, fp ∈ pre -> candidate egress (ntd_node fp) t -> is_Some r.2 /\ r.1 <= t))).
  2: { split_and!; try done; intros fp; [by intros ?%elem_of_nil | by intros t ?%elem_of_nil]. }
  intros pre fp post [best eg] Hl (Hin & Hmax & Hnone & Hcand & Hbest).
  assert (fp ∈ egressFootpaths c) as Hfp by (rewrite Hl; set_solver).
  destruct (eo_footpaths Heo fp Hfp) as (ntd & Hntd & Hnode). unfold forward_best_egress.
  destruct (egress !! ntd_node fp) as [s|] eqn:Es.
  2: { exists (best, eg). split_and!; try done; [set_solver|].
       intros g t Hg Hc. apply elem_of_app in Hg as [Hg | ->%list_elem_of_singleton]; [by eapply Hbest|].
       destruct Hc as (s & x & eg' & Hs & _). congruence. }
  destruct (Hexit _ _ Es) as [x Hx]. rewrite Hx. unfold map_at. rewrite Hntd. cbn [mbind result_bind].
  set (t0 := getArrivalTime x + ntd_time ntd).
  assert (forall t, candidate egress (ntd_node fp) t -> t = t0 /\ 0 <= t0 /\
    t0 - departureTimeSeconds c <= getMaxTotalTravelTimeSeconds p /\ t0 < MAX_INT) as Hc0.
  { intros t (s' & x' & eg' & Hs' & Hx' & Heg' & _ & -> & H).
    assert (s' = s) as -> by congruence. assert (x' = x) as -> by congruence.
    assert (eg' = ntd) as -> by congruence. done. }
  destruct (_ && _) eqn:Eif.
  - rewrite !andb_true_iff, Z.geb_le, Z.leb_le, !Z.ltb_lt in Eif. destruct Eif as [[[E1 E2] E3] E4].
    exists (t0, Some ntd). split; [done|]. cbn [fst snd] in *. split_and!; [set_solver | lia | done | |].
    + intros eg' [= <-]. rewrite Hnode. exists s, x, ntd. split_and!; done.
    + intros g t Hg Hc. split; [done|].
      apply elem_of_app in Hg as [Hg | ->%list_elem_of_singleton]; [|apply Hc0 in Hc; lia].
      destruct (Hbest g t Hg Hc). lia.
  - exists (best, eg). split; [done|]. cbn [fst snd] in *. split_and!; try done; [set_solver|].
    intros g t Hg Hc. apply elem_of_app in Hg as [Hg | ->%list_elem_of_singleton]; [by eapply Hbest|].
    apply Hc0 in Hc as (-> & G1 & G2 & G3).
    assert (best <= t0) as Hle.
    { apply andb_false_iff in Eif as [Eif|Eif]; [|lia].
      apply andb_false_iff in Eif as [Eif|Eif]; [|lia].
      apply andb_false_iff in Eif as [Eif|Eif]; lia. }
    split; [|done]. destruct eg; [done|]. specialize (Hnone eq_refl). lia.
Qed.
End Destination.

Section Arrival.
Context (p : CommonParameters) (c : Calculator).

Lemma rides_split seen late e x :
  forward_sorted (seen ++ late) -> Forall (conn_ok p c) (seen ++ late) ->
  rides p c (seen ++ late) e x -> rides p c seen e x \/ x ∈ late.
Proof.
  intros Hs Hok [[Ho Ht Hb Hu] (t & Hr & Hw)].
  destruct (before_in_app_inv _ _ _ _ Ho) as [Ho'|]; [left|by right].
  destruct (before_in_elem _ _ _ Ho') as [He _].
  split; [by split|]. exists t. split; [|done].
  eapply (reaches_prefix p c seen late _ t (getDepartureTime e)); try done.
  - intros y Hy. apply StronglySorted_app_inv in Hs as (_ & _ & Hs). by apply Hs.
  - rewrite Forall_forall in Hok. destruct (Hok e ltac:(set_solver)). lia.
Qed.

Lemma candidate_of_ride seen st x eg :
  egress_ok p c -> Sound p c seen st ->
  seen ⊆ getForwardConnections (connectionSet c) -> Forall (conn_ok p c) seen ->
  x ∈ seen -> transfers_done p x (transferableNodes (getArrivalNode x)) st -> nodesEgress c !! node_uid (getArrivalNode x) = Some eg ->
  getArrivalTime x + ntd_time eg - departureTimeSeconds c <= getMaxTotalTravelTimeSeconds p ->
  getArrivalTime x + ntd_time eg < MAX_INT ->
  exists t, candidate p c (fwd_egress st) (node_uid (getArrivalNode x)) t /\
    t <= getArrivalTime x + ntd_time eg.
Proof.
  intros Heo HS Hsub Hok Hx Hdone Heg Hmax Hint.
  destruct (eo_self _ _ Heo x (Hsub x Hx)) as (f & Hf & Hself & Hfmax).
  destruct (Hdone f Hf Hfmax) as [_ Hexit].
  destruct (Hexit Hself) as (s & x' & Hs & Hx' & Hle). rewrite Hself in Hs.
  destruct (eo_nodes _ _ Heo _ _ Heg) as ((Hpos & _) & fp & Hfp & Hnode).
  destruct (eo_footpaths _ _ Heo fp Hfp) as (eg' & Heg' & Hnode').
  assert (eg' = eg) as -> by congruence.
  exists (getArrivalTime x' + ntd_time eg). split; [|lia].
  assert (0 <= getArrivalTime x').
  { destruct (sd_exits _ _ _ _ HS _ _ Hs) as (e0 & x0 & f0 & -> & [Ho _ _ _] & _).
    cbn in Hx'. injection Hx' as ->. destruct (before_in_elem _ _ _ Ho) as [_ Hin].
    rewrite Forall_forall in Hok. destruct (Hok _ Hin). lia. }
  exists s, x', eg. split_and!; (done || lia || congruence).
Qed.

(** The arrivals found by the prefix scanned and by the whole window agree. *)
Lemma forwardCalculation_scan :
  query_ok p c -> egress_ok p c ->
  exists st seen late,
    window p c = seen ++ late /\ for_each (forward_scan_step p c) seen (forward_start c) = Ok st /\
    Sound p c seen st /\ Complete p c (within_first_wait p c seen) st /\
    (late = [] \/ 0 <= maxEgressTravelTime c /\ exists T, egress_hit p c seen st T /\
       Forall (fun x => T + maxEgressTravelTime c < getDepartureTime x) late) /\
    exists best eg,
      for_each (forward_best_egress p c (fwd_egress st)) (egressFootpaths c) (MAX_INT, None)
        = Ok (best, eg) /\
      forwardCalculation p c =
        if fwd_reachable st =? 0 then Throw (NoRoutingFound NO_SERVICE_FROM_ORIGIN)
        else Ok (option_map (fun e => (best, ntd_node e)) eg, forward_finish c st, fwd_egress st).
Proof.
  intros Hq Heo. destruct (forward_connections_ok p c Hq) as (conns & Hconns & Hs & Hok & Hwin).
  destruct (loop_scan p c conns [] (forward_start c) (mkEgressReached false MAX_INT))
    as (st & r & seen & late & Hloop & Hfil & Hscan & Hlate);
    [by apply Sound_start, Hq | done | done | done |].
  rewrite Hwin in Hfil.
  pose proof (window_sorted p c Hq) as Hws. pose proof (window_ok p c Hq) as Hwo.
  rewrite Hfil in Hws, Hwo.
  apply StronglySorted_app_inv in Hws as [Hws _]. apply Forall_app in Hwo as [Hwo _].
  destruct (scan_correct p c seen (qo_start _ _ Hq) Hws Hwo) as (st1 & Hscan1 & HS & HC).
  assert (st1 = st) as -> by congruence.
  exists st, seen, late. split_and!; try done.
  destruct (best_egress_sound p c (fwd_egress st) Heo) as (best & eg & Hbest & _).
  { intros n s Hn. destruct (sd_exits _ _ _ _ HS n s Hn) as (e & x & f & -> & _). by exists x. }
  exists best, eg. split; [done|]. unfold forwardCalculation.
  rewrite Hconns. cbn [mbind result_bind]. rewrite Hloop. cbn [mbind result_bind].
  destruct (fwd_reachable st =? 0); [done|]. by rewrite Hbest.
Qed.
End Arrival.

(** ** Properties of the forward calculations *)

Section Theorems.
Context (p : CommonParameters) (c : Calculator).

(** C4: For a query that departs before 32:00, neither forward calculation fails but by
    telling that no service leaves the origin: no access out of range, no empty
    optional, no failed assertion. (From 32:00 on the cached position of the
    departure hour is read out of range: [forward_hour_32_undefined].) *)
Theorem forward_calculations_do_not_fault :
  query_ok p c -> egress_ok p c ->
  (forall e, forwardCalculationAllNodes p c = Throw e -> e = NoRoutingFound NO_SERVICE_FROM_ORIGIN) /\
  (forall e, forwardCalculation p c = Throw e -> e = NoRoutingFound NO_SERVICE_FROM_ORIGIN).
Proof.
  intros Hq Heo. split.
  - destruct (forwardCalculationAllNodes_scan p c Hq) as (st & _ & _ & _ & ->).
    intros e. destruct (_ =? 0); [by intros [= <-] | done].
  - destruct (forwardCalculation_scan p c Hq Heo) as (st & seen & late & _ & _ & _ & _ & _ & best & eg & _ & ->).
    intros e. destruct (_ =? 0); [by intros [= <-] | done].
Qed.

(** C5: Whatever the limit on the first wait, every tentative time the scan leaves
    is the time of a journey: walk to a stop, ride enabled trips of the query with
    the waiting time before each boarding, one footpath after each ride. *)
Theorem forward_tentative_times_sound c' egress n t :
  query_ok p c -> forwardCalculationAllNodes p c = Ok (c', egress) ->
  nodesTentativeTime c' !! n = Some t -> t < MAX_INT ->
  reaches p c (window p c) n t.
Proof.
  intros Hq Hrun Hn Ht.
  destruct (forwardCalculationAllNodes_scan p c Hq) as (st & _ & HS & _ & Heq).
  rewrite Heq in Hrun. destruct (_ =? 0); [done|]. injection Hrun as <- <-.
  by eapply sd_reach.
Qed.

Lemma reaches_bound L n t : Forall (conn_ok p c) L -> reaches p c L n t -> t < MAX_INT.
Proof.
  intros Hok [? ? _ Ht | e x f ? Hl _ _ Hf _]; [done|].
  destruct (before_in_elem _ _ _ (leg_order _ _ _ Hl)) as [_ Hx].
  rewrite Forall_forall in Hok. pose proof (conn_transfers _ _ _ (Hok x Hx)) as Ht.
  rewrite Forall_forall in Ht. by destruct (Ht f Hf) as (_ & _ & ?).
Qed.

(** C6: The scan computes earliest arrivals. Whatever the limit on the first wait, a stop
    that a journey within the limit reaches has a tentative time that is no later,
    and some journey reaches it at that time. Without a limit a tentative time
    below [MAX_INT] is the least time at which a journey reaches the stop, and a
    stop keeps [MAX_INT] only when no journey reaches it. *)
Theorem forward_tentative_times_earliest c' egress n :
  query_ok p c -> forwardCalculationAllNodes p c = Ok (c', egress) ->
  (forall t, reaches p c (within_first_wait p c (window p c)) n t ->
     exists t', nodesTentativeTime c' !! n = Some t' /\ t' <= t /\ reaches p c (window p c) n t') /\
  (getMaxFirstWaitingTimeSeconds p <= 0 -> forall t, t < MAX_INT ->
     nodesTentativeTime c' !! n = Some t <->
     reaches p c (window p c) n t /\ forall t', reaches p c (window p c) n t' -> t <= t').
Proof.
  intros Hq Hrun.
  destruct (forwardCalculationAllNodes_scan p c Hq) as (st & _ & HS & HC & Heq).
  rewrite Heq in Hrun. destruct (_ =? 0); [done|]. injection Hrun as <- <-.
  cbn [forward_finish nodesTentativeTime]. split.
  - intros t Hr. destruct (cp_times _ _ _ _ HC n t Hr) as (t' & Hn & Hle).
    exists t'. split_and!; [done..|]. eapply sd_reach; [exact HS|done|].
    enough (t < MAX_INT) by lia. eapply reaches_bound; [|exact Hr].
    by apply Forall_filter, window_ok.
  - intros Hfirst t Ht. rewrite (within_first_wait_all p c _ Hfirst) in HC. split.
    + intros Hn. split; [by eapply sd_reach|]. intros t' Hr.
      destruct (cp_times _ _ _ _ HC n t' Hr) as (t0 & Hn0 & Hle). assert (t0 = t) by congruence. lia.
    + intros [Hr Hmin]. destruct (cp_times _ _ _ _ HC n t Hr) as (t0 & Hn0 & Hle).
      enough (t <= t0) by (by assert (t0 = t) as <- by lia).
      apply Hmin. eapply sd_reach; [exact HS | done | lia].
Qed.

(** What [forwardCalculation] finds, with the state its scan ends in. *)
Record destination_found (st : ForwardState) (seen : list Connection) (best : Z)
    (eg : option NodeTimeDistance) : Prop := {
  df_seen : exists late, window p c = seen ++ late;
  df_scan : for_each (forward_scan_step p c) seen (forward_start c) = Ok st;
  df_sound : Sound p c seen st;
  df_complete : Complete p c (within_first_wait p c seen) st;
  df_run : forwardCalculation p c =
    if fwd_reachable st =? 0 then Throw (NoRoutingFound NO_SERVICE_FROM_ORIGIN)
    else Ok (option_map (fun e => (best, ntd_node e)) eg, forward_finish c st, fwd_egress st);
  df_best : forall g, eg = Some g ->
    candidate p c (fwd_egress st) (ntd_node g) best /\ arrives p c seen (ntd_node g) best;
  df_least : forall n t, arrives p c (within_first_wait p c (window p c)) n t -> is_Some eg /\ best <= t
}.

Lemma arrives_app L L' n t : arrives p c L n t -> arrives p c (L ++ L') n t.
Proof. intros (e & x & g & Hr & H). exists e, x, g. split; [by apply rides_app|done]. Qed.

(** A journey within the limit that reaches the destination has a candidate no later. *)
Lemma arrives_candidate seen late st n t :
  egress_ok p c -> query_ok p c -> window p c = seen ++ late ->
  Sound p c seen st -> Complete p c (within_first_wait p c seen) st ->
  (late = [] \/ 0 <= maxEgressTravelTime c /\ exists T, egress_hit p c seen st T /\
     Forall (fun x => T + maxEgressTravelTime c < getDepartureTime x) late) ->
  arrives p c (within_first_wait p c (window p c)) n t ->
  exists fp t', fp ∈ egressFootpaths c /\ candidate p c (fwd_egress st) (ntd_node fp) t' /\ t' <= t.
Proof.
  intros Heo Hq Hwin HS HC Hlate (e & x & g & Hride & <- & Hg & -> & Hmax & Hint).
  pose proof (window_sorted p c Hq) as Hws. pose proof (window_ok p c Hq) as Hwo.
  assert (seen ⊆ getForwardConnections (connectionSet c)) as Hsub.
  { intros y Hy. assert (y ∈ window p c) as Hyw by (rewrite Hwin; set_solver).
    by apply list_elem_of_filter in Hyw as [_ ?]. }
  rewrite Hwin in Hws, Hwo, Hride.
  assert (Forall (conn_ok p c) seen) as Hso by (by apply Forall_app in Hwo as [? _]).
  assert (exists x0 g0, x0 ∈ seen /\ transfers_done p x0 (transferableNodes (getArrivalNode x0)) st /\
    nodesEgress c !! node_uid (getArrivalNode x0) = Some g0 /\
    getArrivalTime x0 + ntd_time g0 <= getArrivalTime x + ntd_time g) as (x0 & g0 & Hx0 & Hd0 & Hg0 & Hle0).
  { apply (StronglySorted_filter _ (first_wait_ok p c)) in Hws. pose proof (Forall_filter _ (first_wait_ok p c) _ Hwo) as Hwf.
    rewrite filter_app in Hws, Hwf. rewrite within_first_wait_app in Hride.
    destruct (rides_split p c _ _ e x Hws Hwf Hride) as [Hr|Hx].
    - exists x, g. split_and!; [|by apply (cp_rides _ _ _ _ HC e)|done|lia].
      destruct (before_in_elem _ _ _ (leg_order _ _ _ (proj1 Hr))) as [_ Hin].
      by apply within_first_wait_sub in Hin.
    - apply within_first_wait_sub in Hx.
      destruct Hlate as [-> | (Hpos & T & (x0 & g0 & Hx0 & Hd0 & Hg0 & <-) & Hafter)]; [by apply elem_of_nil in Hx|].
      exists x0, g0. split_and!; [done..|]. rewrite Forall_forall in Hafter, Hwo.
      specialize (Hafter x Hx). destruct (Hwo x ltac:(set_solver)).
      destruct (eo_nodes _ _ Heo _ _ Hg0) as [H0 _]. destruct (eo_nodes _ _ Heo _ _ Hg) as [H1 _]. lia. }
  destruct (candidate_of_ride p c seen st x0 g0 Heo HS Hsub Hso Hx0 Hd0 Hg0) as (t & Hcand & Hle); [lia..|].
  destruct (eo_nodes _ _ Heo _ _ Hg0) as (_ & fp & Hfp & Hnode). rewrite <- Hnode in Hcand.
  exists fp, t. split_and!; [done..|lia].
Qed.

Lemma forward_destination_run :
  query_ok p c -> egress_ok p c -> exists st seen best eg, destination_found st seen best eg.
Proof.
  intros Hq Heo.
  destruct (forwardCalculation_scan p c Hq Heo)
    as (st & seen & late & Hwin & Hscan & HS & HC & Hlate & best & eg & Hbest & Heq).
  pose proof (window_ok p c Hq) as Hwo. rewrite Hwin in Hwo.
  assert (Forall (conn_ok p c) seen) as Hso by (by apply Forall_app in Hwo as [? _]).
  destruct (best_egress_sound p c (fwd_egress st) Heo) as (best' & eg' & Hbest' & Hin & Hmin).
  { intros n s Hn. destruct (sd_exits _ _ _ _ HS n s Hn) as (e & x & f & -> & _). by exists x. }
  rewrite Hbest in Hbest'. injection Hbest' as <- <-.
  exists st, seen, best, eg. split; [by exists late|done|done|done|done| |].
  - intros g ->. split; [by apply Hin|].
    destruct (Hin g eq_refl) as (s & x & eg0 & Hs & Hx & Heg0 & Hn & -> & _ & Hmax & Hint).
    destruct (sd_exits _ _ _ _ HS _ _ Hs) as (e & x0 & f & -> & Hleg & Hf & Hnode & Hself & Hfm & Hat).
    cbn in Hx. injection Hx as ->. exists e, x, eg0. split_and!; try done.
    destruct (before_in_elem _ _ _ (leg_order _ _ _ Hleg)) as [He _].
    split; [done|]. apply (Sound_boarding p c seen st); try done.
    rewrite Forall_forall in Hso. by apply Hso.
  - intros n t Ha.
    destruct (arrives_candidate seen late st n t Heo Hq Hwin HS HC Hlate Ha) as (fp & t' & Hfp & Hcand & Hle).
    destruct (Hmin fp t' Hfp Hcand). split; [done | lia].
Qed.

(** C7: [forwardCalculation] finds the earliest arrival at the destination although it
    leaves its loop early. Its result is an arrival by the trips of the query within
    the maximal travel time; whatever the limit on the first wait, it is no later
    than any arrival by connections within the limit, and there is a result when
    there is such an arrival; without a limit no journey at all arrives before it,
    and without a result none arrives. *)
Theorem forward_destination_earliest result c' egress :
  query_ok p c -> egress_ok p c -> forwardCalculation p c = Ok (result, c', egress) ->
  (forall t n, result = Some (t, n) -> arrives p c (window p c) n t) /\
  (forall n' t', arrives p c (within_first_wait p c (window p c)) n' t' ->
     exists t n, result = Some (t, n) /\ t <= t') /\
  (getMaxFirstWaitingTimeSeconds p <= 0 -> forall n' t', arrives p c (window p c) n' t' ->
     exists t n, result = Some (t, n) /\ t <= t').
Proof.
  intros Hq Heo Hrun.
  destruct (forward_destination_run Hq Heo) as (st & seen & best & eg & [(late & Hwin) _ _ _ Heq Hbest Hleast]).
  rewrite Heq in Hrun. destruct (_ =? 0); [done|]. injection Hrun as <- _ _.
  assert (forall n' t', arrives p c (within_first_wait p c (window p c)) n' t' ->
    exists t n, option_map (fun e => (best, ntd_node e)) eg = Some (t, n) /\ t <= t') as Hmin.
  { intros n' t' Ha. destruct (Hleast n' t' Ha) as [[g ->] Hle]. by exists best, (ntd_node g). }
  split_and!; [|exact Hmin|intros Hfirst; by rewrite (within_first_wait_all p c _ Hfirst) in Hmin].
  intros t n Hres. destruct eg as [g|]; [|done]. cbn in Hres. injection Hres as <- <-.
  rewrite Hwin. by apply arrives_app, Hbest.
Qed.
End Theorems.

(** ** Instances on the small timetable *)

Definition demo_p : CommonParameters := demo_parameters true 28200 180 (-1).
Definition demo_c : Calculator := demo_reset demo_server demo_p (Some demo_origin) (Some demo_destination).

Lemma demo_forward : getForwardConnections (connectionSet demo_c) = [conn_AB; conn_BD; conn_CD].
Proof. vm_compute. reflexivity. Qed.

Lemma demo_times : nodesTentativeTime demo_c = [MAX_INT; 28500; MAX_INT; MAX_INT; MAX_INT].
Proof. vm_compute. reflexivity. Qed.

Lemma demo_conn_ok conn : conn ∈ [conn_AB; conn_BD; conn_CD] -> conn_ok demo_p demo_c conn.
Proof.
  assert (length (tripsQueryOverlay demo_c) = 3%nat) as Ht by (vm_compute; reflexivity).
  intros Hin. repeat (apply elem_of_cons in Hin as [-> | Hin]); [..|by apply elem_of_nil in Hin];
    (split; rewrite ?demo_times, ?Ht;
     [cbn; lia | by vm_compute | by vm_compute | cbn; lia | cbn; lia |];
     repeat (apply Forall_cons_2; [unfold MAX_INT; cbn; lia|]); apply Forall_nil_2).
Qed.

Lemma demo_query_ok : query_ok demo_p demo_c.
Proof.
  split.
  - split; [vm_compute; reflexivity | | |].
    + assert (forwardJourneysSteps demo_c =
        [JourneyStep_default; mkJourneyStep None None None 300 false 380; JourneyStep_default;
         JourneyStep_default; JourneyStep_default]) as -> by (vm_compute; reflexivity).
      by repeat constructor.
    + assert (tripsQueryOverlay demo_c = replicate 3 TripQueryData_default) as -> by (vm_compute; reflexivity).
      by repeat constructor.
    + rewrite demo_times. unfold MAX_INT. repeat constructor; lia.
  - exists [trip_1; trip_2], (getReverseConnections (connectionSet demo_c)). vm_compute. reflexivity.
  - rewrite demo_forward. repeat constructor; cbn; lia.
  - rewrite demo_forward. apply Forall_forall. apply demo_conn_ok.
  - vm_compute. split; [discriminate | reflexivity].
  - vm_compute. discriminate.
Qed.

Lemma demo_egress_ok : egress_ok demo_p demo_c.
Proof.
  assert (egressFootpaths demo_c = [mkNTD 4 240 300]) as He by (vm_compute; reflexivity).
  assert (nodesEgress demo_c = {[ 4%nat := mkNTD 4 240 300 ]}) as Hn by (vm_compute; reflexivity).
  split; rewrite ?He, ?Hn, ?demo_forward.
  - intros n eg [<- <-]%lookup_singleton_Some. split; [vm_compute; by split|]. exists (mkNTD 4 240 300). by split; [left|].
  - intros fp ->%list_elem_of_singleton. by exists (mkNTD 4 240 300).
  - intros conn Hin. repeat (apply elem_of_cons in Hin as [-> | Hin]); [..|by apply elem_of_nil in Hin];
      eexists; (split; [by left|]); by split.
Qed.

Definition demo_all : Calculator * gmap uid JourneyStep :=
  value_or (demo_c, ∅) (forwardCalculationAllNodes demo_p demo_c).
Definition demo_single : option (Z * uid) * Calculator * gmap uid JourneyStep :=
  value_or (None, demo_c, ∅) (forwardCalculation demo_p demo_c).

Lemma demo_all_run : forwardCalculationAllNodes demo_p demo_c = Ok (demo_all.1, demo_all.2).
Proof. vm_compute. reflexivity. Qed.

Lemma forward_calculations_do_not_fault_witness :
  (forall e, forwardCalculationAllNodes demo_p demo_c = Throw e -> e = NoRoutingFound NO_SERVICE_FROM_ORIGIN) /\
  (forall e, forwardCalculation demo_p demo_c = Throw e -> e = NoRoutingFound NO_SERVICE_FROM_ORIGIN).
Proof. exact (forward_calculations_do_not_fault demo_p demo_c demo_query_ok demo_egress_ok). Defined.

Lemma forward_tentative_times_sound_witness : reaches demo_p demo_c (window demo_p demo_c) 4 30600.
Proof.
  apply (forward_tentative_times_sound demo_p demo_c demo_all.1 demo_all.2 4 30600 demo_query_ok demo_all_run);
    vm_compute; reflexivity.
Defined.

(** The bus to D at 8:30:00 arrives before trip 1 does, by way of the walk from B to C. *)
Lemma forward_tentative_times_earliest_witness :
  reaches demo_p demo_c (window demo_p demo_c) 4 30600 /\
  forall t', reaches demo_p demo_c (window demo_p demo_c) 4 t' -> 30600 <= t'.
Proof.
  destruct (forward_tentative_times_earliest demo_p demo_c demo_all.1 demo_all.2 4 demo_query_ok demo_all_run)
    as [_ H].
  apply H; [vm_compute; discriminate | vm_compute; reflexivity | vm_compute; reflexivity].
Defined.

Lemma forward_destination_earliest_witness :
  arrives demo_p demo_c (window demo_p demo_c) 4 30840 /\
  forall n' t', arrives demo_p demo_c (window demo_p demo_c) n' t' -> 30840 <= t'.
Proof.
  destruct (forward_destination_earliest demo_p demo_c (Some (30840, 4%nat)) demo_single.1.2 demo_single.2
           demo_query_ok demo_egress_ok) as (H1 & _ & H2); [vm_compute; reflexivity|].
  split; [by apply H1|]. intros n' t' Ha.
  destruct (H2 ltac:(vm_compute; discriminate) n' t' Ha) as (t & n & [= <- <-] & Hle). exact Hle.
Defined.

(** ** Two defects *)

(** A second network: stop C is ten minutes from the origin on foot, and trip 1 runs
    A - C - D, reaching C long after the walk does. *)
Definition late_filter : GeoFilter := fun _ _ _ _ => Ok [mkNTD 1 300 380; mkNTD 3 600 760].
Definition conn_AC : Connection := demo_conn trip_1 node_A node_C 28800 31000 1.
Definition conn_C'D : Connection := demo_conn trip_1 node_C node_D 31060 32000 2.
Definition late_server : Server :=
  mkServer (demo_data_with [node_A; node_C; node_D] [trip_1] [conn_AC; conn_C'D]) 4 1.
Definition late_p : CommonParameters := demo_parameters true 28200 180 1800.
Definition late_c : Calculator :=
  @demo_reset late_filter late_server late_p (Some demo_origin) None.

(** The limit on the first wait is also applied to passengers on board. In the
    network above a traveller boards at A after a wait of five minutes, within the
    limit of thirty, and can stay on board to D; the scan refuses the connection
    from C, because walking to C and waiting there would exceed the limit, and
    reports D as not reached. *)
Theorem first_wait_limit_drops_passengers :
  leg (window late_p late_c) conn_AC conn_C'D /\
  nodesTentativeTime late_c !! node_uid (getDepartureNode conn_AC) = Some 28500 /\
  28500 + minWaiting late_p conn_AC <= getDepartureTime conn_AC /\
  getDepartureTime conn_AC - 28500 <= getMaxFirstWaitingTimeSeconds late_p /\
  exists c' egress, forwardCalculationAllNodes late_p late_c = Ok (c', egress) /\
    nodesTentativeTime c' !! node_uid node_D = Some MAX_INT /\ egress !! node_uid node_D = None.
Proof.
  split_and!.
  - split; [exists 0%nat, 1%nat; split_and!; [lia | vm_compute; reflexivity..] | reflexivity..].
  - vm_compute. reflexivity.
  - vm_compute. discriminate.
  - vm_compute. discriminate.
  - exists (value_or (late_c, ∅) (forwardCalculationAllNodes late_p late_c)).1,
      (value_or (late_c, ∅) (forwardCalculationAllNodes late_p late_c)).2.
    split_and!; vm_compute; reflexivity.
Qed.

(** The first network with a bus that leaves C before the traveller can be there, and
    a minimal waiting time of 40,000 seconds. *)
Definition early_conn_CD : Connection := demo_conn trip_2 node_C node_D 29450 30050 1.
Definition early_server : Server :=
  mkServer (demo_data_with [node_A; node_B; node_C; node_D] [trip_1; trip_2]
              [conn_AB; conn_BD; early_conn_CD]) 4 2.
Definition early_p : CommonParameters := demo_parameters true 28200 40000 (-1).
Definition early_c : Calculator :=
  demo_reset early_server early_p (Some demo_origin) (Some demo_destination).

(** A minimal waiting time of 32,768 seconds or more turns negative when it is
    passed as a [short]: with 40,000 seconds the scan boards at C at 29450 a
    traveller who reaches C at 29520. *)
Theorem long_min_waiting_time_wraps :
  getMinWaitingTimeSeconds early_p = 40000 /\ minWaiting early_p early_conn_CD = -25536 /\
  exists c' egress q,
    forwardCalculationAllNodes early_p early_c = Ok (c', egress) /\
    nodesTentativeTime c' !! node_uid node_C = Some 29520 /\
    tripsQueryOverlay c' !! trip_uid trip_2 = Some q /\ enterConnection q = Some early_conn_CD /\
    getDepartureTime early_conn_CD = 29450 /\
    nodesTentativeTime c' !! node_uid node_D = Some 30050.
Proof.
  split_and!; [vm_compute; reflexivity..|].
  exists (value_or (early_c, ∅) (forwardCalculationAllNodes early_p early_c)).1,
    (value_or (early_c, ∅) (forwardCalculationAllNodes early_p early_c)).2,
    (mkTripQueryData true (Some early_conn_CD) 120 None MAX_INT).
  split_and!; vm_compute; reflexivity.
Qed.
