(* ===== verification/ResetCorrect.v ===== *)
(** * What the reset of a calculator establishes

    [reset] is the only source of the state the scans start from. With the data and
    the footpaths as the rest of the server makes them, it establishes [query_ok] and
    [egress_ok], the hypotheses of the theorems on the forward calculations; when it
    fails, it tells which ends have no stop within reach. *)

From Stdlib Require Import ZArith Lia Sorted.
From stdpp Require Import base list gmap strings.
From S2P Require Import Prelude.
From S2P Require Import Data.
From S2P Require Import ConnectionSet.
From S2P Require Import ConnectionCache.
From S2P Require Import TransitData.
From S2P Require Import Calculator.
From S2P Require Import Demo.
From S2P Require Import ForwardCalculation.
From S2P Require Import ForwardCorrect.

Local Open Scope Z_scope.

(** A footpath to a node of the vectors, at most 2^24 seconds long: a [float] holds
    its time exactly. *)
Record footpath_ok (maxUid : nat) (f : NodeTimeDistance) : Prop := {
  fo_node : (ntd_node f <= maxUid)%nat;
  fo_time : 0 <= ntd_time f <= 16777216
}.

Lemma footpathTravelTimeAtSpeed_ok maxUid f :
  footpath_ok maxUid f -> footpathTravelTimeAtSpeed (ntd_time f) = Ok (ntd_time f).
Proof.
  intros [_ Ht]. unfold footpathTravelTimeAtSpeed. rewrite float_of_int_id by lia.
  rewrite !(proj2 (Z.leb_le _ _)); [done|..]; unfold MIN_INT, MAX_INT; lia.
Qed.

(** ** What the loops over the footpaths are to fill *)

(** The first and the last of the footpaths to a node. *)
Definition first_to (n : uid) (l : list NodeTimeDistance) : option NodeTimeDistance :=
  head (filter (fun f => ntd_node f = n) l).
Definition last_to (n : uid) (l : list NodeTimeDistance) : option NodeTimeDistance :=
  last (filter (fun f => ntd_node f = n) l).

Lemma first_to_snoc n l f :
  first_to n (l ++ [f]) =
    match first_to n l with Some g => Some g | None => if decide (ntd_node f = n) then Some f else None end.
Proof.
  unfold first_to. rewrite filter_app, head_app. destruct (head _); [done|].
  destruct (decide (ntd_node f = n)); [by rewrite filter_cons_True | by rewrite filter_cons_False].
Qed.

Lemma last_to_snoc n l f :
  last_to n (l ++ [f]) = if decide (ntd_node f = n) then Some f else last_to n l.
Proof.
  unfold last_to. rewrite filter_app.
  destruct (decide (ntd_node f = n)); [rewrite filter_cons_True by done; apply last_snoc|].
  rewrite filter_cons_False by done. by rewrite app_nil_r.
Qed.

(** What an end holds, from its footpaths: every node of the vectors has the time and
    the step of the last footpath to it, or the initial ones; the map has the first
    footpath to each node; and the extremes are those of the times. *)
Record end_filled (maxUid : nat) (timeAt : Z -> Z) (initial : Z) (l : list NodeTimeDistance)
    (nodes : gmap uid NodeTimeDistance) (steps : list JourneyStep) (times : list Z)
    (minTime maxTime : Z) : Prop := {
  ef_times : forall n, times !! n = if decide (n <= maxUid)%nat
    then Some (from_option (fun f => timeAt (ntd_time f)) initial (last_to n l)) else None;
  ef_steps : forall n, steps !! n = if decide (n <= maxUid)%nat
    then Some (from_option (fun f => mkJourneyStep None None None (ntd_time f) false (ntd_distance f))
                 JourneyStep_default (last_to n l)) else None;
  ef_nodes : forall n, nodes !! n = first_to n l;
  ef_min : minTime = foldl (fun m f => Z.min (ntd_time f) m) MAX_INT l;
  ef_max : maxTime = foldl (fun m f => Z.max (ntd_time f) m) (-1) l
}.

Definition end_state_filled maxUid timeAt initial l (st : EndState) : Prop :=
  end_filled maxUid timeAt initial l (end_nodes st) (end_steps st) (end_times st)
    (end_minTravelTime st) (end_maxTravelTime st).

(** The entry of a vector after one footpath. *)
Lemma lookup_filled {A} (v : list A) maxUid (old : option NodeTimeDistance -> A) l f :
  (ntd_node f <= maxUid)%nat -> length v = (maxUid + 1)%nat ->
  (forall n, v !! n = if decide (n <= maxUid)%nat then Some (old (last_to n l)) else None) ->
  forall n, <[ntd_node f := old (Some f)]> v !! n =
    if decide (n <= maxUid)%nat then Some (old (last_to n (l ++ [f]))) else None.
Proof.
  intros Hf Hlen Hv n. rewrite last_to_snoc. destruct (decide (ntd_node f = n)) as [<-|Hne].
  - rewrite list_lookup_insert_eq by lia. by rewrite decide_True.
  - by rewrite list_lookup_insert_ne, Hv.
Qed.

(** ** The loops over the footpaths *)

Section Footpaths.
Context (maxUid : nat) (timeAt : Z -> Z) (initial : Z).

Definition end_start : EndState :=
  mkEndState ∅ (replicate (maxUid + 1) JourneyStep_default) (replicate (maxUid + 1) initial) MAX_INT (-1).

(** The loop has passed the footpaths [l]. *)
Record end_ok (l : list NodeTimeDistance) (st : EndState) : Prop := {
  en_steps_len : length (end_steps st) = (maxUid + 1)%nat;
  en_times_len : length (end_times st) = (maxUid + 1)%nat;
  en_steps : Forall (fun s => getFinalEnterConnection s = None /\ getFinalExitConnection s = None)
               (end_steps st);
  en_times : forall n t, end_times st !! n = Some t ->
    (t = initial /\ forall f, f ∈ l -> ntd_node f <> n) \/
    exists f, f ∈ l /\ ntd_node f = n /\ t = timeAt (ntd_time f);
  en_nodes : forall n e, end_nodes st !! n = Some e ->
    ntd_node e = n /\ exists f, f ∈ l /\ ntd_node f = n /\ ntd_time f = ntd_time e;
  en_known : forall f, f ∈ l -> is_Some (end_nodes st !! ntd_node f);
  en_min : forall f, f ∈ l -> end_minTravelTime st <= ntd_time f;
  en_max : forall f, f ∈ l -> ntd_time f <= end_maxTravelTime st;
  en_min_pos : 0 <= end_minTravelTime st;
  en_filled : end_state_filled maxUid timeAt initial l st
}.

Lemma end_start_ok : end_ok [] end_start.
Proof.
  split; cbn; try (intros ? Hx; by apply elem_of_nil in Hx).
  - apply length_replicate.
  - apply length_replicate.
  - apply Forall_forall. intros s Hs. apply elem_of_replicate in Hs as [-> _]. done.
  - intros n t [-> _]%lookup_replicate. left. split; [done|]. intros f Hf. by apply elem_of_nil in Hf.
  - intros n e Hn. by rewrite lookup_empty in Hn.
  - unfold MAX_INT. lia.
  - split; cbn; try done; intros n.
    + destruct (decide (n <= maxUid)%nat); [by rewrite lookup_replicate_2 by lia|].
      apply lookup_replicate_None. lia.
    + destruct (decide (n <= maxUid)%nat); [by rewrite lookup_replicate_2 by lia|].
      apply lookup_replicate_None. lia.
Qed.

Lemma reset_footpath_ok l f st :
  footpath_ok maxUid f -> end_ok l st ->
  exists st', reset_footpath timeAt f st = Ok st' /\ end_ok (l ++ [f]) st'.
Proof.
  intros Hf [Hsl Htl Hsteps Htimes Hnodes Hknown Hmin Hmax Hpos [Ft Fs Fn Fmin Fmax]].
  unfold reset_footpath. rewrite (footpathTravelTimeAtSpeed_ok maxUid f Hf). cbn [mbind result_bind].
  destruct Hf as [Hn Ht].
  destruct (lookup_lt_is_Some_2 (end_steps st) (ntd_node f)) as [s0 Hs0]; [lia|].
  destruct (lookup_lt_is_Some_2 (end_times st) (ntd_node f)) as [t0 Ht0]; [lia|].
  unfold vec_at_set, vec_set. rewrite Hs0, Ht0. cbn [mbind result_bind].
  eexists. split; [done|]. split; cbn.
  - by rewrite length_insert.
  - by rewrite length_insert.
  - by apply Forall_insert.
  - intros n t [(<- & <- & _) | (Hne & Hlook)]%list_lookup_insert_Some.
    + right. exists f. set_solver.
    + destruct (Htimes n t Hlook) as [[-> Hnot] | (f' & Hf' & H1 & H2)].
      * left. split; [done|]. set_solver.
      * right. exists f'. set_solver.
  - unfold map_emplace. intros n e.
    destruct (end_nodes st !! ntd_node f) as [e0|] eqn:E.
    + intros He. destruct (Hnodes n e He) as (? & f' & ? & ? & ?). split; [done|]. exists f'. set_solver.
    + rewrite lookup_insert_Some. intros [[<- <-] | [Hne He]]; [split; [done|]; exists f; set_solver|].
      destruct (Hnodes n e He) as (? & f' & ? & ? & ?). split; [done|]. exists f'. set_solver.
  - unfold map_emplace. intros f' [Hin | ->%list_elem_of_singleton]%elem_of_app;
      destruct (end_nodes st !! ntd_node f) eqn:E; try (rewrite E; eauto); try (by apply Hknown).
    + destruct (decide (ntd_node f = ntd_node f')) as [->|Hne];
        [rewrite lookup_insert_eq; eauto | rewrite lookup_insert_ne by done; by apply Hknown].
    + rewrite lookup_insert_eq. eauto.
  - intros f' [Hin | ->%list_elem_of_singleton]%elem_of_app;
      destruct (Z.ltb_spec (ntd_time f) (end_minTravelTime st)); try lia;
      specialize (Hmin _ Hin); lia.
  - intros f' [Hin | ->%list_elem_of_singleton]%elem_of_app;
      destruct (Z.gtb_spec (ntd_time f) (end_maxTravelTime st)); try lia;
      specialize (Hmax _ Hin); lia.
  - destruct (Z.ltb_spec (ntd_time f) (end_minTravelTime st)); lia.
  - split; cbn.
    + by apply (lookup_filled _ _ (from_option (fun g => timeAt (ntd_time g)) initial)).
    + by apply (lookup_filled _ _ (from_option (fun g => mkJourneyStep None None None (ntd_time g) false (ntd_distance g))
                 JourneyStep_default)).
    + intros n. rewrite first_to_snoc, <- Fn. unfold map_emplace. destruct f as [nf tf df]. cbn.
      destruct (end_nodes st !! nf) as [g|] eqn:E; [destruct (end_nodes st !! n) eqn:En; [done|]; rewrite decide_False; congruence|].
      destruct (decide (nf = n)) as [<-|Hne]; [by rewrite lookup_insert_eq, E|].
      rewrite lookup_insert_ne by done. by destruct (end_nodes st !! n).
    + rewrite foldl_app, <- Fmin. cbn. destruct (Z.ltb_spec (ntd_time f) (end_minTravelTime st)); lia.
    + rewrite foldl_app, <- Fmax. cbn. destruct (Z.gtb_spec (ntd_time f) (end_maxTravelTime st)); lia.
Qed.

Lemma reset_footpaths_ok l :
  Forall (footpath_ok maxUid) l ->
  exists st, for_each (reset_footpath timeAt) l end_start = Ok st /\ end_ok l st.
Proof.
  intros Hl. apply for_each_ok; [|apply end_start_ok].
  intros pre f post st -> Hst. apply reset_footpath_ok; [|done].
  by apply Forall_app in Hl as [_ Hl]; inversion Hl.
Qed.
End Footpaths.

(** ** The reset before a forward query *)

Section Reset.
Context {geo : GeoFilter} {C : Type} `{ScenarioConnectionCacheLaws C}.
Context (srv : Server) (p : CommonParameters) (known : list Scenario).
Notation td := (transitData srv).

(** A connection of the data: consistent times that do not overflow, uids that the
    counters have given out, and a footpath from its arrival node to itself. *)
Record conn_data_ok (conn : Connection) : Prop := {
  cd_time : 0 <= getDepartureTime conn < getArrivalTime conn;
  cd_arrival : getArrivalTime conn < MAX_INT;
  cd_wait : 0 <= minWaiting p conn;
  cd_dep_uid : (node_uid (getDepartureNode conn) <= Node_getMaxUid srv)%nat;
  cd_trip_uid : (trip_uid (getTrip conn) <= Trip_getMaxUid srv)%nat;
  cd_transfers :
    Forall (fun f => (ntd_node f <= Node_getMaxUid srv)%nat /\ 0 <= ntd_time f /\
                     getArrivalTime conn + ntd_time f < MAX_INT)
      (transferableNodes (getArrivalNode conn));
  cd_self : exists f, f ∈ transferableNodes (getArrivalNode conn) /\
    ntd_node f = node_uid (getArrivalNode conn) /\
    ntd_time f <= getMaxTransferWalkingTravelTimeSeconds p
}.

(** The server: its data, and a scenario it knows under a uuid of its own. *)
Record server_ok : Prop := {
  so_data : well_formed td;
  so_conns : Forall conn_data_ok (connections td);
  so_scenarios : NoDup (scenario_uuid <$> known);
  so_scenario : getScenario p ∈ known
}.

(** The footpaths of the two ends, when the filter returns. *)
Definition access_read (o : Point) : calc (list NodeTimeDistance) :=
  getAccessibleNodesFootpathsFromPoint o (getNodes td)
    (getMaxAccessWalkingTravelTimeSeconds p) getWalkingSpeedMetersPerSecond.
Definition egress_read (d : Point) : calc (list NodeTimeDistance) :=
  getAccessibleNodesFootpathsFromPoint d (getNodes td)
    (getMaxEgressWalkingTravelTimeSeconds p) getWalkingSpeedMetersPerSecond.

Definition access_of (o : Point) : list NodeTimeDistance :=
  match access_read o with Ok footpaths => footpaths | Throw _ => [] end.
Definition egress_of (d : Point) : list NodeTimeDistance :=
  match egress_read d with Ok footpaths => footpaths | Throw _ => [] end.

Lemma scenario_connections_ok :
  server_ok ->
  let cs := computeConnectionsForScenario td (getScenario p) in
  exists fwd rev, cs = ConnectionSet_new (ConnectionSet.getTrips cs) fwd rev /\
    forward_sorted fwd /\ reverse_sorted rev /\ Forall conn_data_ok fwd /\ Forall conn_data_ok rev.
Proof.
  intros Hs. cbv zeta.
  rewrite (computeConnections_spec td _ (so_data Hs)), (wf_forward _ (so_data Hs)), (wf_reverse _ (so_data Hs)).
  cbn [ConnectionSet.getTrips ConnectionSet_new].
  eexists _, _. split_and!; [done|..].
  - apply StronglySorted_filter, forward_sort_sorted.
  - apply StronglySorted_filter, reverse_sort_sorted.
  - apply Forall_filter. rewrite stable_sort_perm. apply (so_conns Hs).
  - apply Forall_filter. rewrite stable_sort_perm. apply (so_conns Hs).
Qed.

(** The connection set and the disabled trips after [resetFilters]. *)
Lemma disable_trips_spec trips m u :
  is_Some (foldl (disable_trip p) m trips !! u) <->
  is_Some (m !! u) \/ exists t, t ∈ trips /\ trip_uid t = u /\ parameters_trip_enabled p t = false.
Proof.
  revert m. induction trips as [|t trips IH]; intros m; cbn [foldl].
  - split; [by left | intros [?|(t & Ht & _)]; [done | by apply elem_of_nil in Ht]].
  - rewrite IH. unfold disable_trip at 1. destruct (parameters_trip_enabled p t) eqn:E.
    + split; (intros [?|(t' & Ht & Hu & He)]; [by left | right; exists t']); [by split_and!; [right|..]|].
      apply elem_of_cons in Ht as [-> | Ht]; [congruence | done].
    + destruct (decide (trip_uid t = u)) as [<-|Hne].
      * rewrite lookup_insert_eq. split; [|eauto]. intros _. right. exists t. by split_and!; [left|..].
      * rewrite lookup_insert_ne by done.
        split; (intros [?|(t' & Ht & Hu & He)]; [by left | right; exists t']); [by split_and!; [right|..]|].
        apply elem_of_cons in Ht as [-> | Ht]; [congruence | done].
Qed.

Lemma resetFilters_ok cache :
  server_ok -> cache_valid td known cache ->
  let '(cs, disabled, cache') := resetFilters srv p cache in
  cs = computeConnectionsForScenario td (getScenario p) /\ cache_valid td known cache' /\
  forall u, is_Some (disabled !! u) <->
    exists t, t ∈ ConnectionSet.getTrips cs /\ trip_uid t = u /\ parameters_trip_enabled p t = false.
Proof.
  intros Hs Hc. unfold resetFilters.
  destruct (getConnectionsForScenario_step td known (getScenario p) cache
              (so_scenarios Hs) (so_scenario Hs) Hc) as [Heq Hc'].
  destruct (getConnectionsForScenario td (getScenario p) cache) as [cs cache']. cbn in Heq, Hc'.
  split_and!; [done..|]. intros u. rewrite disable_trips_spec, lookup_empty.
  split; [intros [[? ?]|?]; done | by right].
Qed.

(** The state of an end after its footpaths were read. *)
Definition reached (l : list NodeTimeDistance) (timeAt : Z -> Z) (initial : Z) (st : EndState) : Prop :=
  end_ok (Node_getMaxUid srv) timeAt initial l st.

(** The times [reset] chooses without an OD trip. *)
Definition departure_of : Z := if isForwardCalculation p then getTimeOfTrip p else -1.
Definition arrival_of : Z := if isForwardCalculation p then -1 else getTimeOfTrip p.

(** An end that is not given is left without footpaths. *)
Definition no_access (origin : option Point) : bool :=
  from_option (fun o => bool_decide (access_of o = [])) false origin.
Definition no_egress (dest : option Point) : bool :=
  from_option (fun d => bool_decide (egress_of d = [])) false dest.

Record ends_ok (origin dest : option Point) : Prop := {
  ok_access : forall o, origin = Some o -> Forall (footpath_ok (Node_getMaxUid srv)) (access_of o);
  ok_egress : forall d, dest = Some d -> Forall (footpath_ok (Node_getMaxUid srv)) (egress_of d);
  ok_access_read : forall o, origin = Some o -> access_read o = Ok (access_of o);
  ok_egress_read : forall d, dest = Some d -> egress_read d = Ok (egress_of d)
}.

(** The outcome of [reset], error or calculator. *)
Lemma reset_spec c origin dest cache :
  odTripGlob c = None -> ends_ok origin dest ->
  exists access egress,
    (forall o, origin = Some o -> reached (access_of o) (fun t => departure_of + t) MAX_INT access) /\
    (forall d, dest = Some d -> reached (egress_of d) (fun t => arrival_of - t) (-1) egress) /\
    reset srv c p origin dest true true cache =
      if no_egress dest && no_access origin then Throw (NoRoutingFound NO_ACCESS_AT_ORIGIN_AND_DESTINATION)
      else if no_access origin then Throw (NoRoutingFound NO_ACCESS_AT_ORIGIN)
      else if no_egress dest then Throw (NoRoutingFound NO_ACCESS_AT_DESTINATION)
      else
        let '(cs, disabled, cache') := resetFilters srv p cache in
        Ok (mkCalculator departure_of arrival_of
              (end_minTravelTime access) (end_maxTravelTime egress)
              (end_maxTravelTime access) (end_minTravelTime egress)
              None (end_times access) (end_times egress) (end_nodes access) (end_nodes egress) disabled
              (replicate (Trip_getMaxUid srv + 1) TripQueryData_default) cs
              (from_option access_of [] origin) (from_option egress_of [] dest)
              (end_steps access) (end_steps egress), cache').
Proof.
  intros Hod [Hacc Hegr Haread Heread].
  assert (forall l : list NodeTimeDistance, negb (negb (length l =? 0)%nat) = bool_decide (l = [])) as Hnil
    by (intros [|? ?]; done).
  assert (exists access,
    (forall o, origin = Some o -> reached (access_of o) (fun t => departure_of + t) MAX_INT access) /\
    match origin with
    | Some o => reset_access srv departure_of (access_of o)
    | None => Ok (mkEndState (nodesAccess c) [] (nodesTentativeTime c) MAX_INT (-1))
    end = Ok access) as (access & Ha & Hae).
  { destruct origin as [o|]; [|by eexists].
    destruct (reset_footpaths_ok (Node_getMaxUid srv) (fun t => departure_of + t) MAX_INT (access_of o))
      as (st & Hst & Hok); [auto|]. exists st. split; [by intros ? [= <-] | done]. }
  assert (exists egress,
    (forall d, dest = Some d -> reached (egress_of d) (fun t => arrival_of - t) (-1) egress) /\
    match dest with
    | Some d => reset_egress srv arrival_of (egress_of d)
    | None => Ok (mkEndState (nodesEgress c) [] (nodesReverseTentativeTime c) MAX_INT (-1))
    end = Ok egress) as (egress & He & Hee).
  { destruct dest as [d|]; [|by eexists].
    destruct (reset_footpaths_ok (Node_getMaxUid srv) (fun t => arrival_of - t) (-1) (egress_of d))
      as (st & Hst & Hok); [auto|]. exists st. split; [by intros ? [= <-] | done]. }
  exists access, egress. split_and!; [done..|].
  unfold reset, resetAccessFootpaths, resetEgressFootpaths, no_access, no_egress. rewrite Hod.
  replace (reset_departureTime c p) with departure_of by (unfold reset_departureTime; by rewrite Hod).
  replace (reset_arrivalTime p) with arrival_of
    by (unfold reset_arrivalTime, arrival_of; by destruct (isForwardCalculation p)).
  destruct origin as [o|];
    [fold (access_read o); rewrite (Haread o eq_refl); cbn [mbind result_bind]; rewrite Hae|injection Hae as <-];
    cbn [mbind result_bind];
    (destruct dest as [d|];
      [fold (egress_read d); rewrite (Heread d eq_refl); cbn [mbind result_bind]; rewrite Hee|injection Hee as <-];
      cbn [mbind result_bind from_option]);
    rewrite ?Hnil; cbn [negb andb]; rewrite ?andb_false_r; reflexivity.
Qed.

Lemma end_ok_times l timeAt initial st n t :
  end_ok (Node_getMaxUid srv) timeAt initial l st ->
  end_times st !! n = Some t -> t <> initial -> exists f, f ∈ l /\ ntd_node f = n /\ t = timeAt (ntd_time f).
Proof. intros Hst Hn Hne. destruct (en_times _ _ _ _ _ Hst n t Hn) as [[-> _]|]; [done|done]. Qed.

(** The connections found at the start of a scan, from those of the data. *)
Lemma conn_data_conn_ok c' conn :
  length (nodesTentativeTime c') = (Node_getMaxUid srv + 1)%nat ->
  length (tripsQueryOverlay c') = (Trip_getMaxUid srv + 1)%nat ->
  conn_data_ok conn -> conn_ok p c' conn.
Proof.
  intros Hn Ht [? ? ? ? ? Htr _]. split; try done; rewrite ?Hn, ?Ht; [lia..|].
  eapply Forall_impl; [exact Htr|]. cbn. intros f (? & ? & ?). split_and!; lia.
Qed.

(** *** The state after a reset *)

Lemma scenario_trips_unique t t' :
  server_ok -> let trips := ConnectionSet.getTrips (computeConnectionsForScenario td (getScenario p)) in
  t ∈ trips -> t' ∈ trips -> trip_uid t = trip_uid t' -> t = t'.
Proof.
  intros Hs. cbv zeta. rewrite (computeConnections_spec td _ (so_data Hs)). cbn.
  intros [_ Ht]%list_elem_of_filter [_ Ht']%list_elem_of_filter Hu.
  apply list_elem_of_lookup in Ht as [i Hi]. apply list_elem_of_lookup in Ht' as [j Hj].
  assert (i = j) as ->; [|congruence].
  eapply (NoDup_lookup _ i j (trip_uid t) (wf_uids _ (so_data Hs))); rewrite list_lookup_fmap.
  - by rewrite Hi.
  - by rewrite Hj; cbn; rewrite Hu.
Qed.

Section After.
Context (origin dest : option Point) (access egress : EndState) (disabled : gmap uid bool).
Notation cs := (computeConnectionsForScenario td (getScenario p)).

Definition after_reset : Calculator :=
  mkCalculator departure_of arrival_of
    (end_minTravelTime access) (end_maxTravelTime egress)
    (end_maxTravelTime access) (end_minTravelTime egress)
    None (end_times access) (end_times egress) (end_nodes access) (end_nodes egress) disabled
    (replicate (Trip_getMaxUid srv + 1) TripQueryData_default) cs
    (from_option access_of [] origin) (from_option egress_of [] dest)
    (end_steps access) (end_steps egress).

(** What the reset knows of the ends and of the disabled trips. *)
Record ends_read : Prop := {
  er_server : server_ok;
  er_ends : ends_ok origin dest;
  er_access : forall o, origin = Some o -> reached (access_of o) (fun t => departure_of + t) MAX_INT access;
  er_egress : forall d, dest = Some d -> reached (egress_of d) (fun t => arrival_of - t) (-1) egress;
  er_disabled : forall u, is_Some (disabled !! u) <->
    exists t, t ∈ ConnectionSet.getTrips cs /\ trip_uid t = u /\ parameters_trip_enabled p t = false
}.

Context (Hread : ends_read).

Lemma after_forward_conns :
  forward_sorted (getForwardConnections cs) /\ Forall conn_data_ok (getForwardConnections cs).
Proof using Hread.
  destruct (scenario_connections_ok (er_server Hread)) as (fwd & rev & -> & Hsf & _ & Hof & _). done.
Qed.

Lemma after_reverse_conns :
  reverse_sorted (getReverseConnections cs) /\ Forall conn_data_ok (getReverseConnections cs).
Proof using Hread.
  destruct (scenario_connections_ok (er_server Hread)) as (fwd & rev & -> & _ & Hsr & _ & Hor). done.
Qed.

Lemma after_set :
  cs = ConnectionSet_new (ConnectionSet.getTrips cs) (getForwardConnections cs) (getReverseConnections cs).
Proof using Hread.
  destruct (scenario_connections_ok (er_server Hread)) as (fwd & rev & Heq & _). by rewrite Heq at 1 3 4.
Qed.

Lemma after_query_ok o :
  origin = Some o -> isForwardCalculation p = true -> 0 <= getTimeOfTrip p < 32 * 3600 ->
  query_ok p after_reset.
Proof using Hread.
  intros Ho Hfwd Htime. pose proof (er_access Hread o Ho) as Ha.
  assert (departure_of = getTimeOfTrip p) as Hdep by (unfold departure_of; by rewrite Hfwd).
  destruct after_forward_conns as [Hsf Hof]. split; cbn; [split; cbn| | | |lia|apply (en_min_pos _ _ _ _ _ Ha)].
  - by rewrite (en_steps_len _ _ _ _ _ Ha), (en_times_len _ _ _ _ _ Ha).
  - apply (en_steps _ _ _ _ _ Ha).
  - apply Forall_forall. intros q Hq. by apply elem_of_replicate in Hq as [-> _].
  - apply Forall_forall. intros t Ht. apply list_elem_of_lookup in Ht as [n Hn].
    destruct (en_times _ _ _ _ _ Ha n t Hn) as [[-> _] | (f & Hf & _ & ->)]; [done|].
    pose proof (ok_access _ _ (er_ends Hread) o Ho) as Hacc. rewrite Forall_forall in Hacc.
    destruct (Hacc f Hf). unfold MAX_INT. lia.
  - eexists _, _. exact after_set.
  - done.
  - eapply Forall_impl; [exact Hof|]. intros conn. apply conn_data_conn_ok; cbn.
    + apply (en_times_len _ _ _ _ _ Ha).
    + apply length_replicate.
Qed.

Lemma after_self_transfers : self_transfers p after_reset.
Proof using Hread.
  destruct after_forward_conns as [_ Hof]. intros conn Hconn. cbn in Hconn.
  rewrite Forall_forall in Hof. by apply cd_self, Hof.
Qed.

Lemma after_egress_ok d : dest = Some d -> egress_ok p after_reset.
Proof using Hread.
  intros Hd. pose proof (er_egress Hread d Hd) as He. split; cbn; [..|exact after_self_transfers].
  - intros n eg Hn. destruct (en_nodes _ _ _ _ _ He n eg Hn) as (_ & f & Hf & Hfn & Hft).
    pose proof (en_max _ _ _ _ _ He f Hf).
    pose proof (ok_egress _ _ (er_ends Hread) d Hd) as Hegr. rewrite Forall_forall in Hegr.
    destruct (Hegr f Hf). rewrite Hd. split; [lia | by exists f].
  - rewrite Hd. intros f Hf. destruct (en_known _ _ _ _ _ He f Hf) as [eg Hg]. exists eg. split; [done|].
    by destruct (en_nodes _ _ _ _ _ He _ eg Hg).
Qed.

Lemma after_disabled t :
  t ∈ ConnectionSet.getTrips cs -> isTripDisabled after_reset (trip_uid t) = negb (parameters_trip_enabled p t).
Proof using Hread.
  intros Ht. unfold isTripDisabled. cbn. pose proof (er_disabled Hread (trip_uid t)) as Hdis.
  destruct (parameters_trip_enabled p t) eqn:E.
  - apply bool_decide_eq_false. rewrite Hdis. intros (t' & Ht' & Hu & He').
    rewrite (scenario_trips_unique t' t (er_server Hread)) in He' by done. congruence.
  - apply bool_decide_eq_true. rewrite Hdis. by exists t.
Qed.
End After.

(** A reset that returns. *)
Lemma reset_returns c origin dest cache c' cache' :
  odTripGlob c = None -> server_ok -> cache_valid td known cache -> ends_ok origin dest ->
  reset srv c p origin dest true true cache = Ok (c', cache') ->
  exists access egress disabled, ends_read origin dest access egress disabled /\
    c' = after_reset origin dest access egress disabled /\ cache_valid td known cache'.
Proof.
  intros Hod Hs Hc Hends Hrun.
  destruct (reset_spec c origin dest cache Hod Hends) as (access & egress & Ha & He & Heq).
  rewrite Heq in Hrun. clear Heq.
  destruct (no_egress dest); [by destruct (no_access origin)|].
  destruct (no_access origin); [done|]. cbn [andb] in Hrun.
  pose proof (resetFilters_ok cache Hs Hc) as Hfil.
  destruct (resetFilters srv p cache) as [[cs disabled] cache1]. destruct Hfil as (-> & Hc' & Hdis).
  injection Hrun as <- <-. exists access, egress, disabled. by split_and!.
Qed.

(** C10: A reset for a forward query (before 32:00) that returns has filled the calculator
    from the data and the parameters: the departure time is the one asked for, the
    footpaths of the two ends are those the filter gave, each node of the vectors has
    the departure time plus the walk of the last footpath to it, with its step, and
    [MAX_INT] when there is none, the map of the access nodes has the first footpath
    to each node, the least and the greatest access times are those of the footpaths,
    and likewise for the destination when there is one; no trip is boarded, the
    connections and the disabled trips are those of the scenario and of the
    parameters; and the hypotheses of the theorems on the forward calculations hold. *)
Theorem reset_prepares_forward_query c o dest cache c' cache' :
  odTripGlob c = None -> isForwardCalculation p = true -> 0 <= getTimeOfTrip p < 32 * 3600 ->
  server_ok -> cache_valid td known cache -> ends_ok (Some o) dest ->
  reset srv c p (Some o) dest true true cache = Ok (c', cache') ->
  departureTimeSeconds c' = getTimeOfTrip p /\ arrivalTimeSeconds c' = -1 /\
  accessFootpaths c' = access_of o /\ egressFootpaths c' = from_option egress_of [] dest /\
  end_filled (Node_getMaxUid srv) (fun t => getTimeOfTrip p + t) MAX_INT (access_of o)
    (nodesAccess c') (forwardJourneysSteps c') (nodesTentativeTime c')
    (minAccessTravelTime c') (maxAccessTravelTime c') /\
  (forall d, dest = Some d ->
     end_filled (Node_getMaxUid srv) (fun t => -1 - t) (-1) (egress_of d)
       (nodesEgress c') (reverseJourneysSteps c') (nodesReverseTentativeTime c')
       (minEgressTravelTime c') (maxEgressTravelTime c')) /\
  tripsQueryOverlay c' = replicate (Trip_getMaxUid srv + 1) TripQueryData_default /\
  connectionSet c' = computeConnectionsForScenario td (getScenario p) /\
  (forall t, t ∈ ConnectionSet.getTrips (connectionSet c') ->
     isTripDisabled c' (trip_uid t) = negb (parameters_trip_enabled p t)) /\
  query_ok p c' /\ self_transfers p c' /\ (forall d, dest = Some d -> egress_ok p c') /\
  cache_valid td known cache'.
Proof.
  intros Hod Hfwd Htime Hs Hc Hends Hrun.
  destruct (reset_returns c (Some o) dest cache c' cache' Hod Hs Hc Hends Hrun)
    as (access & egress & disabled & Hread & -> & Hc').
  assert (departure_of = getTimeOfTrip p /\ arrival_of = -1) as [Hdep Harr]
    by (unfold departure_of, arrival_of; by rewrite Hfwd).
  split_and!; [exact Hdep | exact Harr | done | done | | | done | done | by apply after_disabled
    | by eapply after_query_ok | by eapply after_self_transfers | intros d Hd; by eapply after_egress_ok | done].
  - rewrite <- Hdep. exact (en_filled _ _ _ _ _ (er_access _ _ _ _ _ Hread o eq_refl)).
  - intros d Hd. pose proof (en_filled _ _ _ _ _ (er_egress _ _ _ _ _ Hread d Hd)) as He.
    rewrite Harr in He. exact He.
Qed.

(** C11: The reset fails exactly when an end that is given has no stop within reach
    on foot, and the reason tells which. *)
Theorem reset_reports_missing_access c origin dest cache :
  odTripGlob c = None -> ends_ok origin dest ->
  match reset srv c p origin dest true true cache with
  | Ok _ => no_access origin = false /\ no_egress dest = false
  | Throw (NoRoutingFound NO_ACCESS_AT_ORIGIN) => no_access origin = true /\ no_egress dest = false
  | Throw (NoRoutingFound NO_ACCESS_AT_DESTINATION) => no_access origin = false /\ no_egress dest = true
  | Throw (NoRoutingFound NO_ACCESS_AT_ORIGIN_AND_DESTINATION) =>
      no_access origin = true /\ no_egress dest = true
  | Throw _ => False
  end.
Proof.
  intros Hod Hends. destruct (reset_spec c origin dest cache Hod Hends) as (access & egress & _ & _ & ->).
  destruct (no_egress dest), (no_access origin); cbn [andb]; try done.
  by destruct (resetFilters srv p cache) as [[cs disabled] cache'].
Qed.
End Reset.

(** ** Instances on the small timetable *)

Lemma demo_well_formed : well_formed demo_data.
Proof.
  split; try reflexivity.
  - apply NoDup_ListNoDup. repeat constructor; cbn; intuition congruence.
  - constructor; [apply list_elem_of_lookup; by exists 0%nat|].
    constructor; [apply list_elem_of_lookup; by exists 0%nat|].
    constructor; [apply list_elem_of_lookup; by exists 1%nat | constructor].
Qed.

Lemma demo_server_ok forward time :
  server_ok demo_server (demo_parameters forward time 180 (-1)) [demo_scenario].
Proof.
  split.
  - exact demo_well_formed.
  - assert (forall conn, conn ∈ [conn_AB; conn_BD; conn_CD] -> conn_data_ok demo_server (demo_parameters forward time 180 (-1)) conn) as H.
    { intros conn Hconn.
      repeat (apply elem_of_cons in Hconn as [-> | Hconn]); [..|by apply elem_of_nil in Hconn];
        (split;
         [cbn; lia | by vm_compute | by vm_compute | cbn; lia | cbn; lia
         | repeat (apply Forall_cons_2; [unfold MAX_INT; cbn; lia|]); apply Forall_nil_2
         | eexists; split; [left | cbn; lia]]). }
    apply Forall_forall. exact H.
  - apply NoDup_ListNoDup. repeat constructor; cbn; intuition congruence.
  - apply list_elem_of_lookup. by exists 0%nat.
Qed.

Lemma demo_ends_ok p : ends_ok demo_server p (Some demo_origin) (Some demo_destination).
Proof. split; intros ? [= <-]; repeat constructor; cbn; lia. Qed.

Definition demo_reset_cache : AnyScenarioConnectionCache :=
  (value_or (demo_c, CacheOne CacheOne_new) (reset demo_server Calculator_new demo_p (Some demo_origin)
     (Some demo_destination) true true (CacheOne CacheOne_new))).2.

Lemma reset_prepares_forward_query_witness :
  departureTimeSeconds demo_c = 28200 /\ nodesTentativeTime demo_c !! 1%nat = Some 28500 /\
  minAccessTravelTime demo_c = 300 /\ query_ok demo_p demo_c.
Proof.
  destruct (reset_prepares_forward_query (C := AnyScenarioConnectionCache) demo_server demo_p
    [demo_scenario] Calculator_new demo_origin (Some demo_destination) (CacheOne CacheOne_new) demo_c
    demo_reset_cache) as (Hdep & _ & _ & _ & [Ht _ _ Hmin _] & _ & _ & _ & _ & Hq & _).
  - reflexivity.
  - reflexivity.
  - cbn. lia.
  - exact (demo_server_ok true 28200).
  - intros s cs _ Hget. discriminate Hget.
  - exact (demo_ends_ok demo_p).
  - vm_compute. reflexivity.
  - split_and!; [exact Hdep | rewrite Ht; reflexivity | rewrite Hmin; reflexivity | exact Hq].
Defined.

(** Out of the reach of any stop. *)
Definition remote_filter : GeoFilter := fun _ _ _ _ => Ok [].

Lemma remote_ends_ok : ends_ok (geo := remote_filter) demo_server demo_p (Some demo_origin) None.
Proof. by split; [intros o _; constructor|..]. Qed.

Lemma reset_reports_missing_access_witness :
  no_access (geo := remote_filter) demo_server demo_p (Some demo_origin) = true /\
  no_egress (geo := remote_filter) demo_server demo_p None = false.
Proof.
  exact (reset_reports_missing_access (geo := remote_filter) (C := AnyScenarioConnectionCache)
    demo_server demo_p Calculator_new (Some demo_origin) None (CacheOne CacheOne_new) eq_refl remote_ends_ok).
Defined.
