(* ===== verification/ForwardJourney.v ===== *)
(** * From the forward scan to a result

    [forward_journey.cpp]. A journey is recreated from its last ride by following
    [forwardJourneysSteps] back to a node reached on foot. [calculateSingle] calls
    [forwardJourneyStep] without an egress node only. *)

From Stdlib Require Import ZArith Lia Sorted.
From stdpp Require Import base list gmap strings.
From S2P Require Import Prelude.
From S2P Require Import Data.
From S2P Require Import RoutingResult.
From S2P Require Import ConnectionSet.
From S2P Require Import TransitData.
From S2P Require Import Calculator.
From S2P Require Import Demo.
From S2P Require Import ForwardCalculation.
From S2P Require Import ForwardCorrect.

Local Open Scope Z_scope.

(** The node the journey comes from: [getFinalEnterConnection()...getDepartureNode()]. *)
Definition forward_next (enter exit : Connection) : uid := node_uid (getDepartureNode enter).

(** [forwardJourneyStep]. When the egress node has no journey step the result keeps
    its uninitialised fields. *)
Definition forwardJourneyStep (p : CommonParameters) (c : Calculator) (bestEgressNode : option uid)
    (egressSteps : gmap uid JourneyStep) : calc SingleCalculationResult :=
  match bestEgressNode with
  | None => Throw (NoRoutingFound NO_ROUTING_FOUND)
  | Some resultingNode =>
      match egressSteps !! resultingNode with
      | None => Throw Undefined
      | Some step =>
          '(rides, bestAccessNode) ←
            unwind forward_next (forwardJourneysSteps c) (fun j journey => Ok (j :: journey))
              (unwind_fuel (forwardJourneysSteps c)) step [] None;
          egress ← map_at (nodesEgress c) resultingNode;
          accessNode ← opt_value bestAccessNode;
          access ← map_at (nodesAccess c) accessNode;
          journey_result true (departureTimeSeconds c) (getMinWaitingTimeSeconds p)
            (mkJourneyStep None None None (ntd_time access) false (ntd_distance access) ::
             rides ++
             [mkJourneyStep None None None (ntd_distance egress) false (ntd_distance egress)])
      end
  end.

(** [if (!isTransferable()) numberOfTransfers += 1;] *)
Definition count_transfer (j : JourneyStep) (numberOfTransfers : Z) : calc Z :=
  trip ← opt_value (getFinalTrip j);
  Ok (if negb (isTransferable (line_mode (trip_line trip)))
      then numberOfTransfers + 1 else numberOfTransfers).

(** The body of the loop over the nodes. *)
Definition forward_node (p : CommonParameters) (c : Calculator) (egressSteps : gmap uid JourneyStep)
    (resultingNode : Node) (nodes : list AccessibleNodes) : calc (list AccessibleNodes) :=
  match egressSteps !! node_uid resultingNode with
  | None => Ok nodes
  | Some step =>
      '(transfers, _) ←
        unwind forward_next (forwardJourneysSteps c) count_transfer
          (unwind_fuel (forwardJourneysSteps c)) step (-1) None;
      match getFinalEnterConnection step with
      | None => Ok nodes
      | Some _ =>
          exit ← opt_value (getFinalExitConnection step);
          let arrivalTime := getArrivalTime exit in
          Ok (if arrivalTime - departureTimeSeconds c <=? getMaxTotalTravelTimeSeconds p then
                nodes ++ [mkAccessibleNodes resultingNode arrivalTime
                            (arrivalTime - departureTimeSeconds c) transfers]
              else nodes)
      end
  end.

(** [forwardJourneyStepAllNodes]; [reachableNodesCount] counts the nodes pushed. *)
Definition forwardJourneyStepAllNodes (td : TransitData) (p : CommonParameters) (c : Calculator)
    (egressSteps : gmap uid JourneyStep) : calc AllNodesResult :=
  nodes ← for_each (forward_node p c egressSteps) (getNodes td) [];
  Ok (mkAllNodesResult nodes (Z.of_nat (length nodes)) (Z.of_nat (length (getNodes td)))).

(** ** The journeys of the scan *)

Section Itinerary.
Context (p : CommonParameters) (c : Calculator).

(** A journey as its rides, the last one first: each is boarded in time, after the
    walk from the origin or after a footpath from the ride before it. *)
Inductive itinerary (L : list Connection) : list (Connection * Connection) -> Prop :=
| itinerary_first e x t :
    leg L e x -> nodesTentativeTime c !! node_uid (getDepartureNode e) = Some t ->
    t + minWaiting p e <= getDepartureTime e -> itinerary L [(e, x)]
| itinerary_next e x e' x' f rest :
    leg L e x -> itinerary L ((e', x') :: rest) ->
    f ∈ transferableNodes (getArrivalNode x') -> ntd_node f = node_uid (getDepartureNode e) ->
    ntd_time f <= getMaxTransferWalkingTravelTimeSeconds p ->
    getArrivalTime x' + ntd_time f + minWaiting p e <= getDepartureTime e ->
    itinerary L ((e, x) :: (e', x') :: rest).

(** The number of rides on other modes than the transferable one, less one. *)
Definition transfers_of (l : list (Connection * Connection)) : Z :=
  Z.of_nat (length (filter (fun ex => isTransferable (line_mode (trip_line (getTrip ex.2))) = false) l)) - 1.

(** The rides that lead to node [n] at time [t]. *)
Definition ride_arrival (L : list Connection) (n : uid) (t : Z) : Prop :=
  exists e x, rides p c L e x /\ node_uid (getArrivalNode x) = n /\ getArrivalTime x = t.

Definition earliest_ride (L : list Connection) (n : uid) (t : Z) : Prop :=
  ride_arrival L n t /\ forall t', ride_arrival L n t' -> t <= t'.

(** A journey step of a sound state that is a ride. *)
Definition ride_ok (L : list Connection) (times : list Z) (j : JourneyStep) (e x : Connection) : Prop :=
  getFinalEnterConnection j = Some e /\ getFinalExitConnection j = Some x /\
  getFinalTrip j = Some (getTrip x) /\ leg L e x /\
  at_most times (node_uid (getDepartureNode e)) (getDepartureTime e - minWaiting p e).

Definition link_ok (L : list Connection) (times : list Z) (j : JourneyStep) : Prop :=
  hasConnections j = false \/ exists e x, ride_ok L times j e x.

Section Sound.
Context (L : list Connection) (st : ForwardState)
  (Hs : forward_sorted L) (Hok : Forall (conn_ok p c) L) (HS : Sound p c L st).

Lemma step_link n s : fwd_steps st !! n = Some s -> link_ok L (fwd_times st) s.
Proof.
  intros [(He & Hx & _) | (e & x & f & -> & Hleg & _ & _ & _ & _ & Hat)]%(sd_steps _ _ _ _ HS).
  - left. unfold hasConnections. by rewrite He.
  - right. exists e, x. by split_and!.
Qed.

Lemma exit_link n s :
  fwd_egress st !! n = Some s ->
  exists e x, ride_ok L (fwd_times st) s e x /\ node_uid (getArrivalNode x) = n.
Proof.
  intros (e & x & f & -> & Hleg & _ & Hn & _ & _ & Hat)%(sd_exits _ _ _ _ HS).
  exists e, x. by split_and!.
Qed.

(** The rides of the steps visited. *)
Definition ride_pair (j : JourneyStep) : option (Connection * Connection) :=
  match getFinalEnterConnection j, getFinalExitConnection j with
  | Some e, Some x => Some (e, x)
  | _, _ => None
  end.

Lemma ride_pair_ok times j e x : ride_ok L times j e x -> ride_pair j = Some (e, x).
Proof. unfold ride_pair. by intros (-> & -> & _). Qed.

Lemma link_closed j n :
  link_ok L (fwd_times st) j -> follows forward_next j n ->
  exists j', fwd_steps st !! n = Some j' /\ link_ok L (fwd_times st) j'.
Proof.
  intros [Hj | (e & x & He & Hx & _ & _ & t & Ht & _)] (e' & x' & He' & Hx' & ->).
  - unfold hasConnections in Hj. by rewrite He', Hx' in Hj.
  - assert (e' = e) as -> by congruence. unfold forward_next.
    destruct (lookup_lt_is_Some_2 (fwd_steps st) (node_uid (getDepartureNode e))) as [j' Hj'].
    { rewrite (sd_steps_len _ _ _ _ HS), <- (sd_times_len _ _ _ _ HS).
      by apply lookup_lt_Some in Ht. }
    exists j'. split; [done | by eapply step_link].
Qed.

(** Going back along a journey goes back in time. *)
Lemma link_rank m j n :
  fwd_steps st !! m = Some j -> link_ok L (fwd_times st) j -> follows forward_next j n ->
  default 0 (fwd_times st !! n) < default 0 (fwd_times st !! m).
Proof.
  intros Hm _ (e' & x' & He' & Hx' & ->). unfold forward_next.
  destruct (sd_steps _ _ _ _ HS m j Hm) as
    [(He & _) | (e & x & f & -> & Hleg & Hf & _ & _ & Hat & t & Ht & Hle)]; [congruence|].
  cbn in He', Hx'. injection He' as <-. injection Hx' as <-. rewrite Hat, Ht. cbn.
  pose proof (sorted_before L e x Hs (leg_order _ _ _ Hleg)).
  destruct (before_in_elem _ _ _ (leg_order _ _ _ Hleg)) as [Hine Hinx].
  rewrite Forall_forall in Hok. destruct (Hok e Hine) as [? _ Hw _ _ _], (Hok x Hinx) as [? _ _ _ _ Htr].
  rewrite Forall_forall in Htr. destruct (Htr f Hf) as (_ & ? & _). lia.
Qed.

Lemma chain_itinerary j path last e x :
  chain forward_next (fwd_steps st) j path last -> ride_ok L (fwd_times st) j e x ->
  Forall (fun s => exists e x, ride_ok L (fwd_times st) s e x) path /\
  exists rest, omap ride_pair path = (e, x) :: rest /\ itinerary L ((e, x) :: rest).
Proof.
  intros Hc. revert e x.
  induction Hc as [j Hend | j j' n path last Hf Hn Hc IH]; intros e x Hj.
  - exfalso. destruct Hj as (He & Hx & _). unfold hasConnections in Hend. by rewrite He, Hx in Hend.
  - destruct Hf as (e' & x' & He' & Hx' & ->). destruct (Hj) as (He & Hx & _ & Hleg & t & Ht & Hle).
    assert (e' = e) as -> by congruence. unfold forward_next in Hn. clear He' Hx' x'.
    cbn [omap list_omap]. rewrite (ride_pair_ok _ _ _ _ Hj).
    destruct (sd_steps _ _ _ _ HS _ _ Hn) as
      [(He' & Hx' & Hstart) | (e' & x' & f & -> & Hleg' & Hf & Hnode & Hmax & Hat & Hat')].
    + inversion Hc; subst; [|by destruct H as (? & ? & ? & _); congruence].
      split; [by repeat constructor; eauto|]. exists []. split; [done|].
      apply (itinerary_first _ e x t); [done|congruence|lia].
    + destruct (IH e' x') as (Hall & rest & Heq & Hit); [by split_and!|].
      split; [by constructor; eauto|]. exists ((e', x') :: rest). rewrite Heq. split; [done|].
      apply (itinerary_next _ e x e' x' f rest); try done.
      assert (t = getArrivalTime x' + ntd_time f) by congruence. lia.
Qed.

Lemma count_transfers times path k :
  Forall (fun s => exists e x, ride_ok L times s e x) path ->
  for_each count_transfer path k = Ok (k + (transfers_of (omap ride_pair path) + 1)).
Proof.
  unfold transfers_of. intros Hall. revert k.
  induction Hall as [|j path (e & x & Hj) _ IH]; intros k; [cbn; f_equal; lia|].
  cbn [for_each omap list_omap]. rewrite (ride_pair_ok _ _ _ _ Hj).
  destruct Hj as (_ & _ & Htrip & _).
  unfold count_transfer at 2. rewrite Htrip. cbn [opt_value mbind result_bind]. rewrite IH. f_equal.
  rewrite filter_cons. cbn [snd]. destruct (isTransferable _) eqn:Hd; case_decide; try done.
  cbn [negb length]. lia.
Qed.

(** What [forward_node] adds for a node. *)
Definition node_entry (node : Node) (a : AccessibleNodes) : Prop :=
  exists s e x rest, fwd_egress st !! node_uid node = Some s /\
    getFinalExitConnection s = Some x /\ node_uid (getArrivalNode x) = node_uid node /\
    itinerary L ((e, x) :: rest) /\
    getArrivalTime x - departureTimeSeconds c <= getMaxTotalTravelTimeSeconds p /\
    a = mkAccessibleNodes node (getArrivalTime x) (getArrivalTime x - departureTimeSeconds c)
          (transfers_of ((e, x) :: rest)).

Lemma forward_node_spec node nodes :
  (exists a, forward_node p (forward_finish c st) (fwd_egress st) node nodes = Ok (nodes ++ [a]) /\
     node_entry node a) \/
  (forward_node p (forward_finish c st) (fwd_egress st) node nodes = Ok nodes /\
   forall s x, fwd_egress st !! node_uid node = Some s -> getFinalExitConnection s = Some x ->
     getMaxTotalTravelTimeSeconds p < getArrivalTime x - departureTimeSeconds c).
Proof.
  unfold forward_node. destruct (fwd_egress st !! node_uid node) as [s|] eqn:E; [|by right].
  destruct (exit_link _ _ E) as (e & x & Hride & Hnode).
  destruct (chain_exists forward_next (fwd_steps st)
              (fun n => default 0 (fwd_times st !! n)) (link_ok L (fwd_times st))
              link_closed link_rank s) as (path & last & Hc & Hlen); [right; eauto|].
  rewrite (unwind_chain _ _ _ _ _ _ Hc) by done.
  destruct (chain_itinerary _ _ _ _ _ Hc Hride) as (Hall & rest & Hpath & Hit).
  rewrite (count_transfers (fwd_times st)) by done. cbn [mbind result_bind].
  destruct Hride as (-> & Hx & _). rewrite Hx. cbn [opt_value mbind result_bind].
  cbn [departureTimeSeconds forward_finish].
  destruct (Z.leb_spec (getArrivalTime x - departureTimeSeconds c) (getMaxTotalTravelTimeSeconds p)).
  - left. eexists. split; [done|]. exists s, e, x, rest. split_and!; try done.
    f_equal. rewrite Hpath. lia.
  - right. split; [done|]. intros s' x' [= <-] Hx'. congruence.
Qed.
End Sound.
End Itinerary.

(** ** The nodes accessible from a place *)

Section Accessible.
Context (p : CommonParameters) (c : Calculator) (td : TransitData).

(** The loop over the nodes lists the entries of the nodes passed. *)
Lemma forward_nodes_spec L st l :
  forward_sorted L -> Forall (conn_ok p c) L -> Sound p c L st ->
  exists nodes, for_each (forward_node p (forward_finish c st) (fwd_egress st)) l [] = Ok nodes /\
    sublist (an_node <$> nodes) l /\
    (forall a, a ∈ nodes -> exists node, node ∈ l /\ node_entry p c L st node a) /\
    (forall node, node ∈ l -> (exists a, a ∈ nodes /\ node_entry p c L st node a) \/
       forall s x, fwd_egress st !! node_uid node = Some s -> getFinalExitConnection s = Some x ->
         getMaxTotalTravelTimeSeconds p < getArrivalTime x - departureTimeSeconds c).
Proof.
  intros Hs Hok HS.
  destruct (for_each_ok (forward_node p (forward_finish c st) (fwd_egress st))
    (fun pre nodes => sublist (an_node <$> nodes) pre /\
      (forall a, a ∈ nodes -> exists node, node ∈ pre /\ node_entry p c L st node a) /\
      (forall node, node ∈ pre -> (exists a, a ∈ nodes /\ node_entry p c L st node a) \/
         forall s x, fwd_egress st !! node_uid node = Some s -> getFinalExitConnection s = Some x ->
           getMaxTotalTravelTimeSeconds p < getArrivalTime x - departureTimeSeconds c)) l)
    with (s := @nil AccessibleNodes) as (nodes & Hrun & H0 & H1 & H2); [| |by exists nodes].
  - intros pre node post nodes _ (Hsub & Hin & Hout).
    destruct (forward_node_spec p c L st Hs Hok HS node nodes) as [(a & -> & Ha) | [-> Hno]];
      (eexists; split; [done|]).
    + split_and!; [|set_solver|].
      * destruct Ha as (s & e & x & rest & _ & _ & _ & _ & _ & ->). rewrite fmap_app.
        by apply sublist_app.
      * intros node' [Hn%Hout | ->%list_elem_of_singleton]%elem_of_app; set_solver.
    + split_and!; [by apply sublist_inserts_r|set_solver|].
      intros node' [Hn%Hout | ->%list_elem_of_singleton]%elem_of_app; [done|auto].
  - split_and!; [constructor|..]; intros ? Hx; by apply elem_of_nil in Hx.
Qed.

(** A ride within the limit on the first wait is recorded, or an earlier one. *)
Lemma ride_recorded L st n t :
  self_transfers p c -> L ⊆ getForwardConnections (connectionSet c) ->
  Complete p c (within_first_wait p c L) st ->
  ride_arrival p c (within_first_wait p c L) n t ->
  exists s x, fwd_egress st !! n = Some s /\ getFinalExitConnection s = Some x /\ getArrivalTime x <= t.
Proof.
  intros Hself Hsub HC (e & x & Hride & Hn & <-).
  destruct (before_in_elem _ _ _ (leg_order _ _ _ (proj1 Hride))) as [_ Hx].
  destruct (Hself x (Hsub x (within_first_wait_sub p c L x Hx))) as (f & Hf & Hfn & Hfmax).
  destruct (cp_rides _ _ _ _ HC e x Hride f Hf Hfmax) as [_ Hexit].
  destruct (Hexit Hfn) as (s & x2 & Hs & Hx2 & Hle). rewrite Hfn, Hn in Hs. by exists s, x2.
Qed.

(** The arrivals the scan records are the earliest rides. *)
Lemma recorded_earliest L st n s x :
  self_transfers p c -> L ⊆ getForwardConnections (connectionSet c) ->
  Forall (conn_ok p c) L -> Sound p c L st -> Complete p c L st ->
  fwd_egress st !! n = Some s -> getFinalExitConnection s = Some x ->
  earliest_ride p c L n (getArrivalTime x).
Proof.
  intros Hself Hsub Hok HS HC Hn Hx.
  destruct (exit_link p c L st HS n s Hn) as (e & x' & (_ & Hx' & _ & Hleg & t & Ht & Hle) & Hnode).
  assert (x' = x) as -> by congruence. split.
  - exists e, x. split_and!; [|done..]. split; [done|]. apply (Sound_boarding p c L st); try done.
    + rewrite Forall_forall in Hok. apply Hok. by apply (before_in_elem L e x), (leg_order _ _ _ Hleg).
    + by exists t.
  - intros t' (e1 & x1 & Hride & Hn1 & <-).
    destruct (before_in_elem _ _ _ (leg_order _ _ _ (proj1 Hride))) as [_ Hx1].
    destruct (Hself x1 (Hsub x1 Hx1)) as (f & Hf & Hfn & Hfmax).
    destruct (cp_rides _ _ _ _ HC e1 x1 Hride f Hf Hfmax) as [_ Hexit].
    destruct (Hexit Hfn) as (s2 & x2 & Hs2 & Hx2 & Hle2). rewrite Hfn, Hn1 in Hs2.
    assert (x2 = x) as -> by congruence. lia.
Qed.

Lemma earliest_recorded L st n t :
  self_transfers p c -> L ⊆ getForwardConnections (connectionSet c) ->
  Forall (conn_ok p c) L -> Sound p c L st -> Complete p c L st ->
  earliest_ride p c L n t ->
  exists s x, fwd_egress st !! n = Some s /\ getFinalExitConnection s = Some x /\ getArrivalTime x = t.
Proof.
  intros Hself Hsub Hok HS HC [(e & x & Hride & Hn & <-) Hmin].
  destruct (before_in_elem _ _ _ (leg_order _ _ _ (proj1 Hride))) as [_ Hxin].
  destruct (Hself x (Hsub x Hxin)) as (f & Hf & Hfn & Hfmax).
  destruct (cp_rides _ _ _ _ HC e x Hride f Hf Hfmax) as [_ Hexit].
  destruct (Hexit Hfn) as (s & x2 & Hs & Hx2 & Hle). rewrite Hfn, Hn in Hs.
  exists s, x2. split_and!; [done..|].
  destruct (recorded_earliest L st n s x2) as [Hr _]; [done..|].
  specialize (Hmin _ Hr). lia.
Qed.

(** What the result lists, from the scan of the window. *)
Record accessible_answer (res : AllNodesResult) : Prop := {
  aw_total : totalNodeCount res = Z.of_nat (length (getNodes td));
  aw_count : numberOfReachableNodes res = Z.of_nat (length (all_nodes res));
  aw_list : sublist (an_node <$> all_nodes res) (getNodes td);
  aw_journeys : forall a, a ∈ all_nodes res ->
    exists e x rest, itinerary p c (window p c) ((e, x) :: rest) /\
      node_uid (getArrivalNode x) = node_uid (an_node a) /\
      an_arrivalTime a = getArrivalTime x /\
      an_totalTravelTime a = getArrivalTime x - departureTimeSeconds c /\
      an_totalTravelTime a <= getMaxTotalTravelTimeSeconds p /\
      an_numberOfTransfers a = transfers_of ((e, x) :: rest);
  aw_within : self_transfers p c -> forall node t, node ∈ getNodes td ->
    ride_arrival p c (within_first_wait p c (window p c)) (node_uid node) t ->
    t - departureTimeSeconds c <= getMaxTotalTravelTimeSeconds p ->
    exists a, a ∈ all_nodes res /\ node_uid (an_node a) = node_uid node /\ an_arrivalTime a <= t;
  aw_nodes : self_transfers p c -> getMaxFirstWaitingTimeSeconds p <= 0 ->
    forall node t, node ∈ getNodes td ->
      (exists a, a ∈ all_nodes res /\ node_uid (an_node a) = node_uid node /\ an_arrivalTime a = t) <->
      earliest_ride p c (window p c) (node_uid node) t /\
      t - departureTimeSeconds c <= getMaxTotalTravelTimeSeconds p
}.

Lemma forward_all_answer :
  query_ok p c ->
  exists st res, for_each (forward_scan_step p c) (window p c) (forward_start c) = Ok st /\
    Complete p c (within_first_wait p c (window p c)) st /\
    forwardCalculationAllNodes p c =
      (if fwd_reachable st =? 0 then Throw (NoRoutingFound NO_SERVICE_FROM_ORIGIN)
       else Ok (forward_finish c st, fwd_egress st)) /\
    forwardJourneyStepAllNodes td p (forward_finish c st) (fwd_egress st) = Ok res /\
    accessible_answer res.
Proof.
  intros Hq. destruct (forwardCalculationAllNodes_scan p c Hq) as (st & Hscan & HS & HC & Heq).
  pose proof (window_ok p c Hq) as Hok.
  assert (window p c ⊆ getForwardConnections (connectionSet c)) as Hsub
    by (intros x Hx; by apply list_elem_of_filter in Hx as [_ ?]).
  destruct (forward_nodes_spec (window p c) st (getNodes td) (window_sorted p c Hq) Hok HS)
    as (nodes & Hnodes & Hlist & Hin & Hout).
  exists st. eexists. unfold forwardJourneyStepAllNodes. rewrite Hnodes. split_and!; [done..|].
  split; [done..| | |]; cbn [all_nodes].
  - intros a Ha. destruct (Hin a Ha) as (node & _ & s & e & x & rest & _ & _ & Hn & Hit & Hmax & ->).
    by exists e, x, rest.
  - intros Hself node t Hnode Hride Hmax.
    destruct (ride_recorded (window p c) st _ t Hself Hsub HC Hride) as (s & x & Hs & Hx & Hle).
    destruct (Hout node Hnode) as [(a & Ha & s' & e & x' & rest & Hs' & Hx' & _ & _ & _ & ->) | Hno].
    + eexists. split; [exact Ha|]. cbn. assert (x' = x) as -> by congruence. done.
    + specialize (Hno s x Hs Hx). lia.
  - intros Hself Hfirst node t Hnode. rewrite (within_first_wait_all p c _ Hfirst) in HC. split.
    + intros (a & Ha & Hn & <-). destruct (Hin a Ha) as (node' & _ & s & e & x & rest & Hs & Hx & _ & _ & Hmax & ->).
      cbn in Hn |- *. rewrite Hn in Hs. split; [|done].
      by apply (recorded_earliest (window p c) st _ s x).
    + intros [He Hmax].
      destruct (earliest_recorded (window p c) st _ t Hself Hsub Hok HS HC He) as (s & x & Hs & Hx & <-).
      destruct (Hout node Hnode) as [(a & Ha & s' & e & x' & rest & Hs' & Hx' & _ & _ & _ & ->) | Hno].
      * eexists. split; [exact Ha|]. cbn. split; congruence.
      * specialize (Hno s x Hs Hx). lia.
Qed.

(** C8: For an accessibility query by departure time the result lists nodes in the order
    of the data and counts them. Whatever the limit on the first wait, a node that a
    ride within the limit reaches within the maximal travel time is listed, with an
    arrival that is no later; without a limit the nodes listed are exactly those that
    a ride reaches within the maximal travel time, each with its earliest arrival. *)
Theorem forward_accessible_nodes c' egress :
  query_ok p c -> self_transfers p c -> forwardCalculationAllNodes p c = Ok (c', egress) ->
  exists res, forwardJourneyStepAllNodes td p c' egress = Ok res /\
    totalNodeCount res = Z.of_nat (length (getNodes td)) /\
    numberOfReachableNodes res = Z.of_nat (length (all_nodes res)) /\
    sublist (an_node <$> all_nodes res) (getNodes td) /\
    (forall node t, node ∈ getNodes td ->
       ride_arrival p c (within_first_wait p c (window p c)) (node_uid node) t ->
       t - departureTimeSeconds c <= getMaxTotalTravelTimeSeconds p ->
       exists a, a ∈ all_nodes res /\ node_uid (an_node a) = node_uid node /\ an_arrivalTime a <= t) /\
    (getMaxFirstWaitingTimeSeconds p <= 0 -> forall node t, node ∈ getNodes td ->
       (exists a, a ∈ all_nodes res /\ node_uid (an_node a) = node_uid node /\ an_arrivalTime a = t) <->
       earliest_ride p c (window p c) (node_uid node) t /\
       t - departureTimeSeconds c <= getMaxTotalTravelTimeSeconds p).
Proof.
  intros Hq Hself Hrun.
  destruct (forward_all_answer Hq) as (st & res & _ & _ & Heq & Hres & []).
  rewrite Heq in Hrun. destruct (_ =? 0); [done|]. injection Hrun as <- <-.
  exists res. split_and!; auto.
Qed.

(** C9: Whatever the limit on the first wait, each node listed has a journey of the
    timetable behind it, whose arrival, travel time and number of transfers are
    those listed. *)
Theorem forward_accessible_journeys c' egress res a :
  query_ok p c -> forwardCalculationAllNodes p c = Ok (c', egress) ->
  forwardJourneyStepAllNodes td p c' egress = Ok res -> a ∈ all_nodes res ->
  exists e x rest, itinerary p c (window p c) ((e, x) :: rest) /\
    node_uid (getArrivalNode x) = node_uid (an_node a) /\
    an_arrivalTime a = getArrivalTime x /\
    an_totalTravelTime a = getArrivalTime x - departureTimeSeconds c /\
    an_totalTravelTime a <= getMaxTotalTravelTimeSeconds p /\
    an_numberOfTransfers a = transfers_of ((e, x) :: rest).
Proof.
  intros Hq Hrun Hres Ha.
  destruct (forward_all_answer Hq) as (st & res' & _ & _ & Heq & Hres' & []).
  rewrite Heq in Hrun. destruct (_ =? 0); [done|]. injection Hrun as <- <-.
  assert (res' = res) as -> by congruence. auto.
Qed.
End Accessible.

(** ** Instances on the small timetable *)

Lemma demo_self_transfers : self_transfers demo_p demo_c.
Proof. exact (eo_self _ _ demo_egress_ok). Qed.

Definition demo_nodes : AllNodesResult :=
  value_or (mkAllNodesResult [] 0 0) (forwardJourneyStepAllNodes demo_data demo_p demo_all.1 demo_all.2).

Lemma demo_nodes_run : forwardJourneyStepAllNodes demo_data demo_p demo_all.1 demo_all.2 = Ok demo_nodes.
Proof. vm_compute. reflexivity. Qed.

Lemma forward_accessible_nodes_witness :
  exists res, forwardJourneyStepAllNodes demo_data demo_p demo_all.1 demo_all.2 = Ok res /\
    ((exists a, a ∈ all_nodes res /\ node_uid (an_node a) = 4%nat /\ an_arrivalTime a = 30600) <->
     earliest_ride demo_p demo_c (window demo_p demo_c) 4 30600 /\ 30600 - 28200 <= MAX_INT).
Proof.
  destruct (forward_accessible_nodes demo_p demo_c demo_data demo_all.1 demo_all.2
              demo_query_ok demo_self_transfers) as (res & Hres & _ & _ & _ & _ & Hiff).
  - exact demo_all_run.
  - exists res. split; [exact Hres|]. apply (Hiff ltac:(discriminate) node_D 30600).
    apply list_elem_of_lookup. by exists 3%nat.
Defined.

Lemma forward_accessible_journeys_witness :
  exists e x rest, itinerary demo_p demo_c (window demo_p demo_c) ((e, x) :: rest) /\
    node_uid (getArrivalNode x) = 4%nat /\ 30600 = getArrivalTime x /\ 1 = transfers_of ((e, x) :: rest).
Proof.
  destruct (forward_accessible_journeys demo_p demo_c demo_data demo_all.1 demo_all.2 demo_nodes
              (mkAccessibleNodes node_D 30600 2400 1) demo_query_ok demo_all_run demo_nodes_run)
    as (e & x & rest & Hit & Hn & Ht & _ & _ & Htr).
  - apply list_elem_of_lookup. by exists 1%nat.
  - exists e, x, rest. split_and!; [exact Hit | exact Hn | exact Ht | exact Htr].
Defined.
