(* ===== verification/ReverseCalculation.v ===== *)
(** * The reverse scan of the connections

    [reverse_calculation.cpp]. [reverseCalculation] and [reverseCalculationAllNodes]
    hold two copies of the body of the loop; what both copies do with a connection
    once its trip is enabled is [reverse_visit]. The mutable state of a scan is
    [ReverseState]; the other fields of the calculator do not change. *)

From Stdlib Require Import ZArith Lia.
From stdpp Require Import base list gmap strings.
From S2P Require Import Prelude.
From S2P Require Import Data.
From S2P Require Import ConnectionSet.
From S2P Require Import Calculator.
From S2P Require Import ForwardCalculation.

Local Open Scope Z_scope.

Record ReverseState := mkReverseState {
  rev_times : list Z;                      (* nodesReverseTentativeTime *)
  rev_steps : list JourneyStep;            (* reverseJourneysSteps *)
  rev_trips : list TripQueryData;          (* tripsQueryOverlay *)
  rev_access : gmap uid JourneyStep;       (* reverseAccessJourneysSteps *)
  rev_reachable : Z                        (* reachableConnectionsCount *)
}.

Definition rev_with_times_steps (times : list Z) (steps : list JourneyStep) (st : ReverseState) :=
  mkReverseState times steps (rev_trips st) (rev_access st) (rev_reachable st).
Definition rev_with_trips (trips : list TripQueryData) (st : ReverseState) :=
  mkReverseState (rev_times st) (rev_steps st) trips (rev_access st) (rev_reachable st).
Definition rev_with_access (access : gmap uid JourneyStep) (st : ReverseState) :=
  mkReverseState (rev_times st) (rev_steps st) (rev_trips st) access (rev_reachable st).
Definition rev_count_reachable (st : ReverseState) :=
  mkReverseState (rev_times st) (rev_steps st) (rev_trips st) (rev_access st) (rev_reachable st + 1).

Section Reverse.
Context (p : CommonParameters) (c : Calculator).
Implicit Types (conn : Connection) (st : ReverseState).

(** The conditions on the departure of an access step, when the departure time of
    the query is known. *)
Definition access_departure_ok conn : bool :=
  let dep := getDepartureTime conn in
  (departureTimeSeconds c =? -1) ||
  match nodesAccess c !! node_uid (getDepartureNode conn) with
  | Some access =>
      (dep - ntd_time access - minWaiting p conn >=? departureTimeSeconds c) &&
      ((getMaxFirstWaitingTimeSeconds p <? minWaiting p conn) ||
       (dep - departureTimeSeconds c - ntd_time access <=? getMaxFirstWaitingTimeSeconds p))
  | None => false
  end.

(** One node of [for (transferableNode : nodeDeparture.reverseTransferableNodes)]. *)
Definition reverse_transfer conn (exit : option Connection) (transferableNode : NodeTimeDistance) st
    : calc ReverseState :=
  let trip := getTrip conn in
  let nodeDeparture := getDepartureNode conn in
  let connectionDepartureTime := getDepartureTime conn in
  let node := ntd_node transferableNode in
  let isDeparture := Nat.eqb (node_uid nodeDeparture) node in
  skip ← (if negb isDeparture then
            t ← vec_at (rev_times st) node;
            Ok (t >? connectionDepartureTime - minWaiting p conn)
          else Ok false);
  if skip : bool then Ok st
  else
    let footpathTravelTime := ntd_time transferableNode in
    if footpathTravelTime <=? getMaxTransferWalkingTravelTimeSeconds p then
      t ← vec_at (rev_times st) node;
      st1 ←
        (if connectionDepartureTime - footpathTravelTime - minWaiting p conn >=? t then
           times ← vec_set node (connectionDepartureTime - footpathTravelTime - minWaiting p conn)
                     (rev_times st);
           steps ← vec_at_set node
             (mkJourneyStep (Some conn) exit (Some trip) footpathTravelTime isDeparture
                (ntd_distance transferableNode)) (rev_steps st);
           Ok (rev_with_times_steps times steps st)
         else Ok st);
      isBetter ←
        (if isDeparture then
           match rev_access st1 !! node with
           | None => Ok true
           | Some step =>
               e ← opt_value (getFinalEnterConnection step);
               Ok (getDepartureTime e <=? connectionDepartureTime - minWaiting p conn)
           end
         else Ok false);
      Ok (if (isBetter : bool) && access_departure_ok conn then
            rev_with_access
              (<[node := mkJourneyStep (Some conn) exit (Some trip) 0 true 0]> (rev_access st1)) st1
          else st1)
    else Ok st.

(** Is the destination within reach of the arrival of the connection: the trip is
    left later on already, or its arrival node still leads there. *)
Definition reverse_is_reachable conn (tripExitConnection : option Connection) st : calc bool :=
  nodeArrivalTentativeTime ← vec_at (rev_times st) (node_uid (getArrivalNode conn));
  Ok (bool_decide (is_Some tripExitConnection) ||
      (nodeArrivalTentativeTime >=? getArrivalTime conn)).

(** Choose the arrival of the connection as the exit of its trip: when there is none
    yet, or when the transfer from there is shorter and leaves the time to wait. *)
Definition reverse_unboard conn (overlay : TripQueryData) st : calc (TripQueryData * ReverseState) :=
  if canUnboard conn then
    let nodeArrival := node_uid (getArrivalNode conn) in
    step ← vec_at (rev_steps st) nodeArrival;
    nodeArrivalTentativeTime ← vec_at (rev_times st) nodeArrival;
    let overlay' := mkTripQueryData (usable overlay) (enterConnection overlay)
                      (enterConnectionTransferTravelTime overlay) (Some conn) (getTransferTravelTime step) in
    let chosen :=
      match exitConnection overlay with
      | None => true
      | Some _ =>
          match getFinalEnterConnection step with
          | Some next =>
              (getTransferTravelTime step >=? 0) &&
              (getTransferTravelTime step <? exitConnectionTransferTravelTime overlay) &&
              (getArrivalTime conn + minWaiting p next <=? nodeArrivalTentativeTime)
          | None => false
          end
      end in
    if chosen then
      trips ← vec_set (trip_uid (getTrip conn)) overlay' (rev_trips st);
      Ok (overlay', rev_with_trips trips st)
    else Ok (overlay, st)
  else Ok (overlay, st).

(** The body of the loop for an enabled trip, after the exit test. The boolean
    tells that the trip can be boarded at the departure node. *)
Definition reverse_visit conn (overlay : TripQueryData) st : calc (ReverseState * bool) :=
  reachable ← reverse_is_reachable conn (exitConnection overlay) st;
  if reachable : bool then
    '(overlay', st1) ← reverse_unboard conn overlay st;
    if canBoard conn && bool_decide (is_Some (exitConnection overlay')) then
      st2 ← for_each (reverse_transfer conn (exitConnection overlay'))
              (reverseTransferableNodes (getDepartureNode conn)) st1;
      Ok (rev_count_reachable st2, true)
    else Ok (rev_count_reachable st1, false)
  else Ok (st, false).

Definition reverse_start : ReverseState :=
  mkReverseState (nodesReverseTentativeTime c) (reverseJourneysSteps c) (tripsQueryOverlay c) ∅ 0.

(** The calculator after a scan that ended in [st]. *)
Definition reverse_finish st : Calculator :=
  mkCalculator (departureTimeSeconds c) (arrivalTimeSeconds c) (minAccessTravelTime c)
    (maxEgressTravelTime c) (maxAccessTravelTime c) (minEgressTravelTime c) (odTripGlob c)
    (nodesTentativeTime c) (rev_times st) (nodesAccess c) (nodesEgress c) (tripsDisabled c)
    (rev_trips st) (connectionSet c) (accessFootpaths c) (egressFootpaths c)
    (forwardJourneysSteps c) (rev_steps st).

(** The connections of the loop, from the cached position of the hour after the arrival. *)
Definition reverse_connections : calc (list Connection) :=
  k ← getReverseConnectionsBeginAtArrivalHour (connectionSet c) (arrivalTimeSeconds c ÷ 3600 + 1);
  Ok (drop k (getReverseConnections (connectionSet c))).

(** ** All nodes *)

Definition reverse_body_all conn st : calc (ctl ReverseState) :=
  if getArrivalTime conn <=? arrivalTimeSeconds c then
    let trip := trip_uid (getTrip conn) in
    overlay ← vec_at (rev_trips st) trip;
    if usable overlay && negb (isTripDisabled c trip) then
      if arrivalTimeSeconds c - getArrivalTime conn >? getMaxTotalTravelTimeSeconds p then
        Ok (Break st)
      else
        '(st', _) ← reverse_visit conn overlay st;
        Ok (Next st')
    else Ok (Next st)
  else Ok (Next st).

Definition reverseCalculationAllNodes : calc (Calculator * gmap uid JourneyStep) :=
  conns ← reverse_connections;
  st ← for_loop reverse_body_all conns reverse_start;
  if rev_reachable st =? 0 then Throw (NoRoutingFound NO_SERVICE_TO_DESTINATION)
  else Ok (reverse_finish st, rev_access st).

(** ** With an origin *)

Record AccessReached := mkAccessReached {
  reachedAtLeastOneAccessNode : bool;
  tentativeAccessNodeDepartureTime : Z
}.

Definition update_access_reached conn (r : AccessReached) : AccessReached :=
  match nodesAccess c !! node_uid (getDepartureNode conn) with
  | Some access =>
      if negb (reachedAtLeastOneAccessNode r) && negb (ntd_time access =? -1)
      then mkAccessReached true (getDepartureTime conn)
      else r
  | None => r
  end.

(** [break]: every access node was reached before, or the trip takes too long. *)
Definition reverse_stop conn (r : AccessReached) : bool :=
  (reachedAtLeastOneAccessNode r && (maxAccessTravelTime c >=? 0) &&
   (getArrivalTime conn <? tentativeAccessNodeDepartureTime r - maxAccessTravelTime c)) ||
  (arrivalTimeSeconds c - getArrivalTime conn >? getMaxTotalTravelTimeSeconds p).

Definition reverse_body conn (s : ReverseState * AccessReached)
    : calc (ctl (ReverseState * AccessReached)) :=
  let '(st, r) := s in
  if getArrivalTime conn <=? arrivalTimeSeconds c - minEgressTravelTime c then
    let trip := trip_uid (getTrip conn) in
    overlay ← vec_at (rev_trips st) trip;
    if usable overlay && negb (isTripDisabled c trip) then
      if reverse_stop conn r then Ok (Break s)
      else
        '(st', boarded) ← reverse_visit conn overlay st;
        Ok (Next (st', if boarded : bool then update_access_reached conn r else r))
    else Ok (Next s)
  else Ok (Next s).

(** One footpath of the search of the best access node. *)
Definition reverse_best_access (accessSteps : gmap uid JourneyStep) (accessFootpath : NodeTimeDistance)
    (best : Z * option NodeTimeDistance) : calc (Z * option NodeTimeDistance) :=
  let '(bestDepartureTime, bestAccess) := best in
  match accessSteps !! ntd_node accessFootpath with
  | None => Ok best
  | Some step =>
      match getFinalEnterConnection step with
      | None => Ok best
      | Some accessEnterConnection =>
          access ← map_at (nodesAccess c) (ntd_node accessFootpath);
          let accessNodeDepartureTime :=
            getDepartureTime accessEnterConnection - ntd_time access - minWaiting p accessEnterConnection in
          Ok (if (accessNodeDepartureTime >=? 0) &&
                 (arrivalTimeSeconds c - accessNodeDepartureTime <=? getMaxTotalTravelTimeSeconds p) &&
                 (accessNodeDepartureTime >? bestDepartureTime) && (accessNodeDepartureTime <? MAX_INT)
              then (accessNodeDepartureTime, Some access) else best)
      end
  end.

(** [reverseCalculation]: the best departure time and access node, if any. *)
Definition reverseCalculation
    : calc (option (Z * uid) * Calculator * gmap uid JourneyStep) :=
  conns ← reverse_connections;
  '(st, _) ← for_loop reverse_body conns (reverse_start, mkAccessReached false (-1));
  if rev_reachable st =? 0 then Throw (NoRoutingFound NO_SERVICE_TO_DESTINATION)
  else
    '(bestDepartureTime, bestAccess) ←
      for_each (reverse_best_access (rev_access st)) (accessFootpaths c) (-1, None);
    Ok (option_map (fun a => (bestDepartureTime, ntd_node a)) bestAccess, reverse_finish st,
        rev_access st).
End Reverse.
