(* ===== verification/OptimizeJourney.v ===== *)
(** * The removal of the detours of a journey

    [optimize_journey.cpp]. A ride that passes a stop where another ride of the
    journey stops or passes is shortened. Each round of the [while] loop looks for
    one such stop ([search_cases]) and deals with it ([apply_case]): 1 cuts a
    superfluous line (CSL), 2 boards later (BTS), 3 gets off earlier (GTF) and 4 does
    both (CSS). The vectors of connections of a trip are read through [trip_forward]
    and [trip_reverse], which the transit data provides. *)

From Stdlib Require Import ZArith Lia.
From stdpp Require Import base list gmap strings.
From S2P Require Import Prelude.
From S2P Require Import Data.

Local Open Scope Z_scope.

(** The conversion of an [int] to a [size_t]. *)
Definition to_size (z : Z) : Z := z mod 18446744073709551616.

Section Optimize.
Context (trip_forward trip_reverse : Trip -> list Connection).

(** [v[i]] with an [int] index. *)
Definition int_get {A} (l : list A) (i : Z) : calc A :=
  if i <? 0 then Throw Undefined else vec_get l (Z.to_nat i).

(** ** Looking for a case *)

(** [for (sequenceIdx = start + 1; sequenceIdx <= end; ++sequenceIdx)]: the nodes
    between boarding and unboarding, without those of both ends. *)
Fixpoint in_between_nodes (forward : list Connection) (first last : Node) (sequenceIdx : Z) (n : nat)
    (nodes : list Node) : calc (list Node) :=
  match n with
  | O => Ok nodes
  | S n' =>
      conn ← int_get forward sequenceIdx;
      let nodeDep := getDepartureNode conn in
      in_between_nodes forward first last (sequenceIdx + 1) n'
        (if negb (N.eqb (node_uuid nodeDep) (node_uuid first)) &&
            negb (N.eqb (node_uuid nodeDep) (node_uuid last))
         then nodes ++ [nodeDep] else nodes)
  end.

(** What the two vectors hold for one journey step. *)
Record StepNodes := mkStepNodes { lastNode : option Node; inBetween : list Node }.

(** A step between boarding and unboarding, of a trip. *)
Definition ride_of (j : JourneyStep) : option (Trip * Connection * Connection) :=
  match getFinalTrip j, getFinalEnterConnection j, getFinalExitConnection j with
  | Some trip, Some enter, Some exit => Some (trip, enter, exit)
  | _, _, _ => None
  end.

Record Found := mkFound { fd_case : Z; fd_node : Node; fd_from : nat; fd_to : nat }.

(** The body of the loop over the earlier steps [i]. *)
Definition find_case (ignored : list Node) (i idx : nat) (si : StepNodes) (first last : Node)
    (between : list Node) : option Found :=
  let open node := negb (std_find node_eqb node ignored) in
  if std_find node_eqb last (inBetween si) && open last then Some (mkFound 1 last i idx)
  else
    match
      match lastNode si with
      | Some l => if std_find node_eqb l between && open l then Some l else None
      | None => None
      end
    with
    | Some l => Some (mkFound 2 l i idx)
    | None =>
        if std_find node_eqb first (inBetween si) && open first then Some (mkFound 3 first i idx)
        else
          match List.find (fun node => std_find node_eqb node between && open node) (inBetween si) with
          | Some node => Some (mkFound 4 node i idx)
          | None => None
          end
    end.

Fixpoint find_earlier (ignored : list Node) (i idx : nat) (earlier : list StepNodes)
    (first last : Node) (between : list Node) : option Found :=
  match earlier with
  | [] => None
  | si :: earlier' =>
      match find_case ignored i idx si first last between with
      | Some f => Some f
      | None => find_earlier ignored (S i) idx earlier' first last between
      end
  end.

(** The loop over the journey steps; [earlier] holds the nodes of the steps before. *)
Fixpoint search_cases (ignored : list Node) (idx : nat) (earlier : list StepNodes)
    (journey : list JourneyStep) : calc (option Found) :=
  match journey with
  | [] => Ok None
  | j :: journey' =>
      match ride_of j with
      | Some (trip, enter, exit) =>
          let sequenceStartIdx := getSequenceInTrip enter - 1 in
          let sequenceEndIdx := getSequenceInTrip exit - 1 in
          let first := getDepartureNode enter in
          let last := getArrivalNode exit in
          between ← in_between_nodes (trip_forward trip) first last (sequenceStartIdx + 1)
                      (Z.to_nat (sequenceEndIdx - sequenceStartIdx)) [];
          match find_earlier ignored 0 idx earlier first last between with
          | Some f => Ok (Some f)
          | None =>
              search_cases ignored (S idx) (earlier ++ [mkStepNodes (Some last) between]) journey'
          end
      | None => search_cases ignored (S idx) (earlier ++ [mkStepNodes None []]) journey'
      end
  end.

(** ** Dealing with a case *)

(** The loops of the cases over [reverseConnections], from the end of the ride to its
    start. An index past the vector is undefined, so one round per element and one
    more are enough. *)
Fixpoint scan_reverse {S} (fuel : nat) (reverse : list Connection) (sequenceIdx lastIdx : Z)
    (body : Connection -> S -> ctl S) (s : S) : calc S :=
  match fuel with
  | O => Throw OutOfFuel
  | Datatypes.S fuel' =>
      if sequenceIdx <=? lastIdx then
        conn ← int_get reverse sequenceIdx;
        match body conn s with
        | Next s' => scan_reverse fuel' reverse (sequenceIdx + 1) lastIdx body s'
        | Break s' => Ok s'
        end
      else Ok s
  end.

Definition scan_ride {S} (trip : Trip) (enter exit : Connection) (body : Connection -> S -> ctl S) (s : S)
    : calc S :=
  let reverse := trip_reverse trip in
  let size := Z.of_nat (length reverse) in
  scan_reverse (Datatypes.S (length reverse)) reverse
    (to_size (size - 1 - (getSequenceInTrip exit - 1)))
    (to_size (size - 1 - (getSequenceInTrip enter - 1))) body s.

(** The journey, [ignoreOptimizationNodes] and [usedOptimizationCases]. *)
Record OptState := mkOptState {
  opt_journey : list JourneyStep;
  opt_ignored : list Node;
  opt_used : list Z
}.

(** [journey[i].f()]. *)
Definition update_step (i : nat) (f : JourneyStep -> JourneyStep) (journey : list JourneyStep)
    : list JourneyStep :=
  alter f i journey.

(** [journey.erase(...)] of case 1. *)
Definition erase_steps (from to : nat) (journey : list JourneyStep) : list JourneyStep :=
  if (to - from =? 1)%nat then take to journey ++ drop (S to) journey
  else if (1 <? to - from)%nat then take (S from) journey ++ drop to journey
  else journey.

Definition ignore_node (node : Node) (st : OptState) : OptState :=
  mkOptState (opt_journey st) (opt_ignored st ++ [node]) (opt_used st).
Definition use_case (case : Z) (journey : list JourneyStep) (st : OptState) : OptState :=
  mkOptState journey (opt_ignored st) (opt_used st ++ [case]).

Definition cut_line (f : Found) (conn : Connection) (st : OptState) : ctl OptState :=
  if node_eqb (fd_node f) (getArrivalNode conn) then
    Break (if negb (canUnboard conn) then ignore_node (fd_node f) st
           else use_case 1 (update_step (fd_from f) (setFinalExitConnection conn)
                              (erase_steps (fd_from f) (fd_to f) (opt_journey st))) st)
  else Next st.

Definition board_later (f : Found) (conn : Connection) (st : OptState) : ctl OptState :=
  if node_eqb (fd_node f) (getDepartureNode conn) then
    Break (if negb (canBoard conn) then ignore_node (fd_node f) st
           else use_case 2 (update_step (fd_to f) (setTransferTimeDistance 0 0)
                              (update_step (fd_to f) (setFinalEnterConnection conn) (opt_journey st))) st)
  else Next st.

Definition unboard_earlier (f : Found) (conn : Connection) (st : OptState) : ctl OptState :=
  if node_eqb (fd_node f) (getArrivalNode conn) then
    Break (if negb (canUnboard conn) then ignore_node (fd_node f) st
           else use_case 3 (update_step (fd_to f) (setTransferTimeDistance 0 0)
                              (update_step (fd_from f) (setFinalExitConnection conn) (opt_journey st))) st)
  else Next st.

Definition segment_exit (f : Found) (conn : Connection) (exit : option Connection)
    : ctl (option Connection) :=
  if node_eqb (fd_node f) (getArrivalNode conn) then
    if canUnboard conn then Next (Some conn) else Break exit
  else Next exit.

Definition segment_enter (f : Found) (exit : option Connection) (conn : Connection) (st : OptState)
    : ctl OptState :=
  if node_eqb (fd_node f) (getDepartureNode conn) then
    match exit with
    | Some x =>
        if canBoard conn then
          Next (use_case 4 (update_step (fd_to f) (setFinalEnterConnection conn)
                              (update_step (fd_from f) (setFinalExitConnection x) (opt_journey st))) st)
        else Break (ignore_node (fd_node f) st)
    | None => Break (ignore_node (fd_node f) st)
    end
  else Next st.

(** [journey[i].getFinalTrip().value()] and both connections. *)
Definition ride_at (i : nat) (journey : list JourneyStep) : calc (Trip * Connection * Connection) :=
  j ← vec_get journey i;
  trip ← opt_value (getFinalTrip j);
  enter ← opt_value (getFinalEnterConnection j);
  exit ← opt_value (getFinalExitConnection j);
  Ok (trip, enter, exit).

Definition apply_case (f : Found) (st : OptState) : calc OptState :=
  if fd_case f =? 1 then
    '(trip, enter, exit) ← ride_at (fd_from f) (opt_journey st);
    let size := Z.of_nat (length (trip_reverse trip)) in
    if size >=? to_size (1 + (getSequenceInTrip exit - 1)) then
      scan_ride trip enter exit (cut_line f) st
    else Throw AssertionFailed
  else if fd_case f =? 2 then
    '(trip, enter, exit) ← ride_at (fd_to f) (opt_journey st);
    scan_ride trip enter exit (board_later f) st
  else if fd_case f =? 3 then
    '(trip, enter, exit) ← ride_at (fd_from f) (opt_journey st);
    scan_ride trip enter exit (unboard_earlier f) st
  else if fd_case f =? 4 then
    '(tripA, enterA, exitA) ← ride_at (fd_from f) (opt_journey st);
    '(tripD, enterD, exitD) ← ride_at (fd_to f) (opt_journey st);
    x ← scan_ride tripA enterA exitA (segment_exit f) None;
    scan_ride tripD enterD exitD (segment_enter f x) st
  else Ok st.

(** [while (!startedOptimization || optimizationCase >= 0)]; case 2 resets
    [optimizationCase], which ends the loop. *)
Fixpoint optimize_loop (fuel : nat) (st : OptState) : calc OptState :=
  match fuel with
  | O => Throw OutOfFuel
  | S fuel' =>
      found ← search_cases (opt_ignored st) 0 [] (opt_journey st);
      match found with
      | None => Ok st
      | Some f =>
          st' ← apply_case f st;
          if fd_case f =? 2 then Ok st' else optimize_loop fuel' st'
      end
  end.

(** The connections a ride has after the first one. *)
Definition ride_length (j : JourneyStep) : nat :=
  match ride_of j with
  | Some (_, enter, exit) => Z.to_nat (getSequenceInTrip exit - getSequenceInTrip enter)
  | None => 0
  end.

Definition journey_length (journey : list JourneyStep) : nat := sum_list (ride_length <$> journey).

(** Every round shortens a ride or ignores one more node that a ride passes. *)
Definition optimize_fuel (journey : list JourneyStep) : nat := S (2 * journey_length journey).

(** [optimizeJourney]: the journey it leaves, and the cases used. *)
Definition optimizeJourney (journey : list JourneyStep) : calc (list JourneyStep * list Z) :=
  st ← optimize_loop (optimize_fuel journey) (mkOptState journey [] []);
  Ok (opt_journey st, opt_used st).
End Optimize.

(** [optimizeCasesToString]. *)
Definition optimizeCasesToString (optimizeCases : list Z) : string :=
  let str :=
    foldl (fun acc case =>
      String.append acc
        (if (case =? 1)%Z then "CSL|" else if (case =? 2)%Z then "BTS|"
         else if (case =? 3)%Z then "GTF|" else if (case =? 4)%Z then "CSS|" else "")%string)
      ""%string optimizeCases in
  if (0 <? String.length str)%nat then String.substring 0 (String.length str - 1) str else str.
