(* ===== verification/OptimizeCorrect.v ===== *)
(** * The removal of detours ends and keeps the rides possible

    Every round of [optimizeJourney] shortens a ride or ignores one more node, so the
    loop ends within its fuel; what it leaves are rides of the same trips, boarded
    and left where that is allowed. *)

From Stdlib Require Import ZArith Lia Sorted.
From stdpp Require Import base list gmap strings.
From S2P Require Import Prelude.
From S2P Require Import Data.
From S2P Require Import Demo.
From S2P Require Import OptimizeJourney.

Local Open Scope Z_scope.

(** ** Scans that may break *)

Fixpoint run_ctl {A S} (body : A -> S -> ctl S) (l : list A) (s : S) : S :=
  match l with
  | [] => s
  | x :: l' => match body x s with Next s' => run_ctl body l' s' | Break s' => s' end
  end.

(** A body that stops at the first element that satisfies [P]. *)
Lemma run_ctl_find {A S} (P : A -> bool) (f : A -> S -> S) l s :
  run_ctl (fun x s => if P x then Break (f x s) else Next s) l s =
  match List.find P l with Some x => f x s | None => s end.
Proof. induction l as [|x l IH]; cbn; [done|]. by destruct (P x). Qed.

Lemma run_ctl_inv {A S} (body : A -> S -> ctl S) (I : S -> Prop) l s :
  (forall x s, x ∈ l -> I s -> I (ctl_state (body x s))) -> I s -> I (run_ctl body l s).
Proof.
  revert s. induction l as [|x l IH]; intros s Hstep Hs; [done|]. cbn.
  pose proof (Hstep x s ltac:(left) Hs) as Hx. destruct (body x s) as [s'|s']; [|done].
  apply IH; [|done]. intros y t Hy. apply Hstep. by right.
Qed.

(** The same from the first element that satisfies [P] on, the others being passed over. *)
Lemma run_ctl_first {A S} (P : A -> bool) (body : A -> S -> ctl S) (I : S -> Prop) l s :
  (forall x s, P x = false -> body x s = Next s) ->
  (forall x, x ∈ l -> P x = true -> I (ctl_state (body x s))) ->
  (forall x s, x ∈ l -> P x = true -> I s -> I (ctl_state (body x s))) ->
  (exists x, x ∈ l /\ P x = true) -> I (run_ctl body l s).
Proof.
  intros Hskip Hfirst Hstep. induction l as [|x l IH]; intros (y & Hy & HPy);
    [by apply elem_of_nil in Hy|]. cbn. destruct (P x) eqn:E.
  - pose proof (Hfirst x ltac:(left) E) as Hx. destruct (body x s) as [s'|s']; [|done].
    apply run_ctl_inv; [|done]. intros z t Hz Ht. destruct (P z) eqn:Ez.
    + apply Hstep; [by right | done..].
    + by rewrite Hskip.
  - rewrite Hskip by done. apply IH.
    + intros z Hz. apply Hfirst. by right.
    + intros z t Hz. apply Hstep. by right.
    + exists y. split; [|done]. apply elem_of_cons in Hy as [-> | Hy]; [congruence | done].
Qed.

Lemma std_find_spec (node : Node) l :
  std_find node_eqb node l = true <-> exists n, n ∈ l /\ node_uid n = node_uid node.
Proof.
  unfold std_find. rewrite existsb_exists. unfold node_eqb. setoid_rewrite Nat.eqb_eq.
  split; intros (n & Hn & H); exists n; (split; [by apply list_elem_of_In|done]).
Qed.

(** The elements from index [a] to index [b]. *)
Definition segment {A} (a b : nat) (l : list A) : list A := drop a (take (S b) l).

Lemma elem_of_segment {A} a b (l : list A) x :
  x ∈ segment a b l <-> exists k, (a <= k <= b)%nat /\ l !! k = Some x.
Proof.
  unfold segment. rewrite list_elem_of_lookup. split.
  - intros [i Hi]. rewrite lookup_drop in Hi. apply lookup_take_Some in Hi as [Hi Hlt].
    exists (a + i)%nat. split; [lia|done].
  - intros (k & Hk & Hl). exists (k - a)%nat. rewrite lookup_drop.
    rewrite lookup_take_lt by lia. by replace (a + (k - a))%nat with k by lia.
Qed.

Section Scan.
Context {S : Type} (body : Connection -> S -> ctl S).

Lemma scan_reverse_run reverse l : forall i fuel s,
  (length l < fuel)%nat -> take (length l) (drop i reverse) = l ->
  scan_reverse fuel reverse (Z.of_nat i) (Z.of_nat i + Z.of_nat (length l) - 1) body s =
  Ok (run_ctl body l s).
Proof.
  induction l as [|x l IH]; intros i fuel s Hfuel Hl; destruct fuel as [|fuel]; cbn in Hfuel; try lia.
  - cbn [scan_reverse run_ctl length]. case Z.leb_spec; intros; [lia|done].
  - cbn [scan_reverse run_ctl].
    destruct (Z.leb_spec (Z.of_nat i) (Z.of_nat i + Z.of_nat (length (x :: l)) - 1)); [|cbn in *; lia].
    destruct (drop i reverse) as [|y rest] eqn:E; [done|]. cbn in Hl. injection Hl as -> Hl.
    assert (reverse !! i = Some x) as Hi by (rewrite <- (Nat.add_0_r i), <- lookup_drop, E; done).
    unfold int_get. destruct (Z.ltb_spec (Z.of_nat i) 0); [lia|]. unfold vec_get.
    rewrite Nat2Z.id, Hi. cbn [mbind result_bind].
    destruct (body x s) as [s'|s']; [|done].
    specialize (IH (i + 1)%nat fuel s' ltac:(lia)).
    rewrite <- drop_drop, E in IH. specialize (IH Hl).
    rewrite <- IH. f_equal; cbn [length]; lia.
Qed.
End Scan.

Lemma reverse_segment {A} a b (l : list A) :
  (a <= b < length l)%nat ->
  take (S b - a) (drop (length l - S b) (rev l)) = rev (segment a b l).
Proof.
  intros H. unfold segment. rewrite skipn_rev, firstn_rev, length_take.
  f_equal. f_equal; [lia|]. f_equal. lia.
Qed.

(** ** Rides *)

Section Rides.
Context (trip_forward trip_reverse : Trip -> list Connection) (known : Node -> Prop)
  (Hknown : forall m n, known m -> known n -> node_uid m = node_uid n -> node_uuid m = node_uuid n).

(** The connections of a trip: numbered from 1, each from the node where the one
    before ends and not earlier, and their reverse. *)
Record trip_ok (t : Trip) : Prop := {
  tk_reverse : trip_reverse t = rev (trip_forward t);
  tk_size : Z.of_nat (length (trip_forward t)) < 18446744073709551616;
  tk_sequence : forall k conn, trip_forward t !! k = Some conn -> getSequenceInTrip conn = Z.of_nat k + 1;
  tk_chain : forall k x y, trip_forward t !! k = Some x -> trip_forward t !! S k = Some y ->
    node_uid (getArrivalNode x) = node_uid (getDepartureNode y) /\
    getArrivalTime x <= getDepartureTime y;
  tk_time : forall conn, conn ∈ trip_forward t -> getDepartureTime conn <= getArrivalTime conn;
  tk_known : forall conn, conn ∈ trip_forward t ->
    known (getDepartureNode conn) /\ known (getArrivalNode conn)
}.

(** A step that rides trip [t] from its connection [a] to its connection [b]. *)
Record rides_trip (j : JourneyStep) (t : Trip) (e x : Connection) (a b : nat) : Prop := {
  rt_trip : getFinalTrip j = Some t;
  rt_enter : getFinalEnterConnection j = Some e;
  rt_exit : getFinalExitConnection j = Some x;
  rt_ok : trip_ok t;
  rt_a : trip_forward t !! a = Some e;
  rt_b : trip_forward t !! b = Some x;
  rt_le : (a <= b)%nat;
  rt_board : canBoard e = true;
  rt_unboard : canUnboard x = true
}.

Definition step_valid (j : JourneyStep) : Prop :=
  ride_of j = None \/ exists t e x a b, rides_trip j t e x a b.

Lemma rides_trip_of j t e x a b : rides_trip j t e x a b -> ride_of j = Some (t, e, x).
Proof. intros [Ht He Hx]. unfold ride_of. by rewrite Ht, He, Hx. Qed.

Lemma step_valid_ride j t e x :
  step_valid j -> ride_of j = Some (t, e, x) -> exists a b, rides_trip j t e x a b.
Proof.
  intros [H | (t' & e' & x' & a & b & H)] Hr; [congruence|].
  rewrite (rides_trip_of _ _ _ _ _ _ H) in Hr. injection Hr as -> -> ->. eauto.
Qed.

Lemma rides_length j t e x a b : rides_trip j t e x a b -> ride_length j = (b - a)%nat.
Proof.
  intros H. unfold ride_length. rewrite (rides_trip_of _ _ _ _ _ _ H). destruct H.
  rewrite (tk_sequence _ rt_ok0 _ _ rt_a0), (tk_sequence _ rt_ok0 _ _ rt_b0). lia.
Qed.

(** The loops of the cases scan the ride from its end. *)
Lemma scan_ride_run {S} (body : Connection -> S -> ctl S) j t e x a b s :
  rides_trip j t e x a b ->
  scan_ride trip_reverse t e x body s = Ok (run_ctl body (rev (segment a b (trip_forward t))) s).
Proof.
  intros [_ _ _ [Hrev Hsize Hseq _ _] Ha Hb Hle _ _].
  pose proof (lookup_lt_Some _ _ _ Hb) as Hlt. unfold scan_ride. rewrite Hrev, length_rev.
  rewrite (Hseq _ _ Ha), (Hseq _ _ Hb). set (n := length (trip_forward t)) in *.
  assert (length (rev (segment a b (trip_forward t))) = (Datatypes.S b - a)%nat) as Hlen.
  { unfold segment. rewrite length_rev, length_drop, length_take. lia. }
  replace (to_size _) with (Z.of_nat (n - Datatypes.S b))
    by (unfold to_size; rewrite Z.mod_small; lia).
  replace (to_size _) with
    (Z.of_nat (n - Datatypes.S b) + Z.of_nat (length (rev (segment a b (trip_forward t)))) - 1)
    by (unfold to_size; rewrite Z.mod_small; lia).
  apply scan_reverse_run; [lia|]. rewrite Hlen. by apply reverse_segment.
Qed.

(** The ride passes the node, which is not one of its ends. *)
Definition passes (t : Trip) (e x : Connection) (a b : nat) (node : Node) : Prop :=
  exists k conn, (a < k <= b)%nat /\ trip_forward t !! k = Some conn /\
    node_uid (getDepartureNode conn) = node_uid node /\
    node_uuid (getDepartureNode conn) <> node_uuid (getDepartureNode e) /\
    node_uuid (getDepartureNode conn) <> node_uuid (getArrivalNode x).

Lemma in_between_nodes_spec t e x a b :
  trip_ok t -> trip_forward t !! a = Some e -> trip_forward t !! b = Some x -> (a <= b)%nat ->
  forall n i nodes, (a < i)%nat -> (i + n = S b)%nat ->
  (forall node, node ∈ nodes -> passes t e x a b node) ->
  exists nodes', in_between_nodes (trip_forward t) (getDepartureNode e) (getArrivalNode x)
                   (Z.of_nat i) n nodes = Ok nodes' /\
    forall node, node ∈ nodes' -> passes t e x a b node.
Proof.
  intros Hok Ha Hb Hle. induction n as [|n IH]; intros i nodes Hi Hn Hnodes; cbn [in_between_nodes].
  - by exists nodes.
  - destruct (lookup_lt_is_Some_2 (trip_forward t) i) as [conn Hconn].
    { apply lookup_lt_Some in Hb. lia. }
    unfold int_get. destruct (Z.ltb_spec (Z.of_nat i) 0); [lia|]. unfold vec_get.
    rewrite Nat2Z.id, Hconn. cbn [mbind result_bind].
    replace (Z.of_nat i + 1) with (Z.of_nat (S i)) by lia. apply IH; [lia..|].
    destruct (N.eqb_spec (node_uuid (getDepartureNode conn)) (node_uuid (getDepartureNode e))) as [|H1];
      cbn [negb andb]; [done|].
    destruct (N.eqb_spec (node_uuid (getDepartureNode conn)) (node_uuid (getArrivalNode x))) as [|H2];
      cbn [negb]; [done|].
    intros node [Hin | ->%list_elem_of_singleton]%elem_of_app; [auto|].
    exists i, conn. split_and!; [lia..|done|done|done|done].
Qed.

Lemma passes_uid t e x a b m n :
  passes t e x a b m -> node_uid m = node_uid n -> passes t e x a b n.
Proof. intros (k & conn & [Hk1 Hk2] & Hc & Hu & H1 & H2) Heq. exists k, conn. rewrite Hu. by split_and!. Qed.

(** ** The search *)

(** What the search knows of the steps passed. *)
Definition step_nodes_ok (j : JourneyStep) (s : StepNodes) : Prop :=
  (lastNode s = None /\ inBetween s = []) \/
  exists t e x a b, rides_trip j t e x a b /\ lastNode s = Some (getArrivalNode x) /\
    forall node, node ∈ inBetween s -> passes t e x a b node.

(** The two rides of a case, and where they meet. *)
Record found_ok (ignored : list Node) (journey : list JourneyStep) (f : Found) : Prop := {
  fk_order : (fd_from f < fd_to f)%nat;
  fk_open : std_find node_eqb (fd_node f) ignored = false;
  fk_rides : exists jf tf ef xf af bf jt tt et xt at_ bt,
    journey !! fd_from f = Some jf /\ rides_trip jf tf ef xf af bf /\
    journey !! fd_to f = Some jt /\ rides_trip jt tt et xt at_ bt /\
    (fd_case f = 1 \/ fd_case f = 3 \/ fd_case f = 4 -> passes tf ef xf af bf (fd_node f)) /\
    (fd_case f = 2 \/ fd_case f = 4 -> passes tt et xt at_ bt (fd_node f)) /\
    (fd_case f = 1 -> node_uid (fd_node f) = node_uid (getArrivalNode xt)) /\
    (fd_case f = 2 -> node_uid (fd_node f) = node_uid (getArrivalNode xf)) /\
    (fd_case f = 3 -> node_uid (fd_node f) = node_uid (getDepartureNode et));
  fk_case : fd_case f = 1 \/ fd_case f = 2 \/ fd_case f = 3 \/ fd_case f = 4
}.

Lemma find_case_ok ignored journey i idx ji si jt t e x a b between f :
  (i < idx)%nat -> journey !! i = Some ji -> step_nodes_ok ji si ->
  journey !! idx = Some jt -> rides_trip jt t e x a b ->
  (forall node, node ∈ between -> passes t e x a b node) ->
  find_case ignored i idx si (getDepartureNode e) (getArrivalNode x) between = Some f ->
  found_ok ignored journey f.
Proof.
  intros Hlt Hji Hsi Hjt Hride Hbetween Hf. unfold find_case in Hf.
  assert (forall node, std_find node_eqb node between = true -> passes t e x a b node) as Hb.
  { intros node (n & Hn & Hu)%std_find_spec. by apply (passes_uid _ _ _ _ _ n), Hu; apply Hbetween. }
  destruct Hsi as [[Hl Hin] | (t' & e' & x' & a' & b' & Hride' & Hl & Hin)].
  { rewrite Hl, Hin in Hf. cbn in Hf. discriminate. }
  assert (forall node, std_find node_eqb node (inBetween si) = true -> passes t' e' x' a' b' node) as Hb'.
  { intros node (n & Hn & Hu)%std_find_spec. by apply (passes_uid _ _ _ _ _ n), Hu; apply Hin. }
  rewrite Hl in Hf.
  assert (forall case node, found_ok ignored journey (mkFound case node i idx) \/
    (std_find node_eqb node ignored = false ->
     case = 1 \/ case = 2 \/ case = 3 \/ case = 4 ->
     (case = 1 \/ case = 3 \/ case = 4 -> passes t' e' x' a' b' node) ->
     (case = 2 \/ case = 4 -> passes t e x a b node) ->
     (case = 1 -> node_uid node = node_uid (getArrivalNode x)) ->
     (case = 2 -> node_uid node = node_uid (getArrivalNode x')) ->
     (case = 3 -> node_uid node = node_uid (getDepartureNode e)) ->
     found_ok ignored journey (mkFound case node i idx))) as Hmk.
  { intros case node. right. intros. split; cbn; try done.
    by exists ji, t', e', x', a', b', jt, t, e, x, a, b. }
  destruct (std_find node_eqb (getArrivalNode x) (inBetween si) && _) eqn:E1.
  { apply andb_true_iff in E1 as [E1 E1']. apply negb_true_iff in E1'. injection Hf as <-.
    destruct (Hmk 1 (getArrivalNode x)) as [|H]; [done|].
    apply H; (done || lia || auto). }
  clear E1.
  destruct (std_find node_eqb (getArrivalNode x') between && _) eqn:E2.
  { apply andb_true_iff in E2 as [E2 E2']. apply negb_true_iff in E2'. injection Hf as <-.
    destruct (Hmk 2 (getArrivalNode x')) as [|H]; [done|]. apply H; (done || lia || auto). }
  destruct (std_find node_eqb (getDepartureNode e) (inBetween si) && _) eqn:E3.
  { apply andb_true_iff in E3 as [E3 E3']. apply negb_true_iff in E3'. injection Hf as <-.
    destruct (Hmk 3 (getDepartureNode e)) as [|H]; [done|]. apply H; (done || lia || auto). }
  destruct (List.find _ (inBetween si)) as [node|] eqn:E4; [|done]. injection Hf as <-.
  apply find_some in E4 as [Hn E4]. apply andb_true_iff in E4 as [E4 E4']. apply negb_true_iff in E4'.
  destruct (Hmk 4 node) as [|H]; [done|]. apply H; (done || lia || auto).
  intros _. apply Hin. by apply list_elem_of_In.
Qed.

Lemma find_earlier_ok ignored journey idx jt t e x a b between :
  journey !! idx = Some jt -> rides_trip jt t e x a b ->
  (forall node, node ∈ between -> passes t e x a b node) ->
  forall earlier i f,
  (forall k si, earlier !! k = Some si -> (i + k < idx)%nat /\
     exists ji, journey !! (i + k)%nat = Some ji /\ step_nodes_ok ji si) ->
  find_earlier ignored i idx earlier (getDepartureNode e) (getArrivalNode x) between = Some f ->
  found_ok ignored journey f.
Proof.
  intros Hjt Hride Hbetween. induction earlier as [|si earlier IH]; intros i f Hall Hf; [done|].
  cbn [find_earlier] in Hf.
  destruct (Hall 0%nat si eq_refl) as (Hlt & ji & Hji & Hsi). rewrite Nat.add_0_r in Hlt, Hji.
  destruct (find_case _ _ _ _ _ _ _) as [f'|] eqn:E.
  - injection Hf as ->. by eapply (find_case_ok ignored journey i idx ji si jt).
  - apply (IH (S i) f); [|done]. intros k sk Hk.
    destruct (Hall (S k) sk Hk) as (H1 & jk & H2 & H3).
    replace (S i + k)%nat with (i + S k)%nat by lia. eauto.
Qed.

Lemma search_cases_ok ignored journey :
  Forall step_valid journey -> forall rest pre earlier,
  journey = pre ++ rest -> Forall2 step_nodes_ok pre earlier ->
  exists r, search_cases trip_forward ignored (length pre) earlier rest = Ok r /\
    forall f, r = Some f -> found_ok ignored journey f.
Proof.
  intros Hvalid. induction rest as [|j rest IH]; intros pre earlier Hj He; cbn [search_cases]; [by exists None|].
  assert (journey = (pre ++ [j]) ++ rest) as Hj' by by rewrite <- app_assoc.
  assert (length (pre ++ [j]) = S (length pre)) as Hlen by (rewrite length_app; cbn; lia).
  assert (step_valid j) as Hv.
  { rewrite Hj, Forall_app, Forall_cons in Hvalid. tauto. }
  destruct (ride_of j) as [[[t e] x]|] eqn:Er.
  - destruct (step_valid_ride j t e x Hv Er) as (a & b & Hride).
    destruct (in_between_nodes_spec t e x a b (rt_ok _ _ _ _ _ _ Hride) (rt_a _ _ _ _ _ _ Hride)
                (rt_b _ _ _ _ _ _ Hride) (rt_le _ _ _ _ _ _ Hride) (b - a) (S a) [])
      as (between & Hrun & Hb); [lia|pose proof (rt_le _ _ _ _ _ _ Hride); lia| |].
    { intros n Hn. by apply elem_of_nil in Hn. }
    assert (getSequenceInTrip e - 1 + 1 = Z.of_nat (S a)) as ->.
    { destruct Hride. rewrite (tk_sequence _ rt_ok0 _ _ rt_a0). lia. }
    assert (Z.to_nat (getSequenceInTrip x - 1 - (getSequenceInTrip e - 1)) = (b - a)%nat) as ->.
    { rewrite <- (rides_length _ _ _ _ _ _ Hride). unfold ride_length. rewrite Er. lia. }
    rewrite Hrun. cbn [mbind result_bind].
    destruct (find_earlier _ _ _ _ _ _ _) as [f|] eqn:Ef.
    + exists (Some f). split; [done|]. intros f' [= <-].
      eapply (find_earlier_ok ignored journey (length pre) j t e x a b between); [|done|done| |exact Ef].
      * rewrite Hj. by apply list_lookup_middle.
      * intros k si Hk. cbn. pose proof (lookup_lt_Some _ _ _ Hk) as Hlt.
        rewrite <- (Forall2_length _ _ _ He) in Hlt. split; [done|].
        destruct (Forall2_lookup_r _ _ _ _ _ He Hk) as (ji & Hji & Hok).
        exists ji. split; [|done]. rewrite Hj. by apply lookup_app_l_Some.
    + rewrite <- Hlen. apply IH; [done|]. apply Forall2_app; [done|]. constructor; [|constructor].
      right. by exists t, e, x, a, b.
  - rewrite <- Hlen. apply IH; [done|]. apply Forall2_app; [done|]. constructor; [|constructor]. by left.
Qed.

(** ** Shortening rides *)

(** The stops a ride passes or ends at. *)
Definition stop_uids (j : JourneyStep) : list uid :=
  match ride_of j with
  | Some (t, e, x) =>
      (fun conn => node_uid (getDepartureNode conn)) <$>
        segment (Z.to_nat (getSequenceInTrip e)) (Z.to_nat (getSequenceInTrip x - 1)) (trip_forward t)
  | None => []
  end.

Lemma stop_uids_spec j t e x a b u :
  rides_trip j t e x a b ->
  u ∈ stop_uids j <->
  exists k conn, (a < k <= b)%nat /\ trip_forward t !! k = Some conn /\ u = node_uid (getDepartureNode conn).
Proof.
  intros H. unfold stop_uids. rewrite (rides_trip_of _ _ _ _ _ _ H). destruct H.
  rewrite (tk_sequence _ rt_ok0 _ _ rt_a0), (tk_sequence _ rt_ok0 _ _ rt_b0), list_elem_of_fmap.
  setoid_rewrite elem_of_segment. split.
  - intros (conn & -> & k & Hk & Hc). exists k, conn. split_and!; [lia..|done|done].
  - intros (k & conn & Hk & Hc & ->). exists conn. split; [done|]. exists k. split; [lia|done].
Qed.

Lemma stop_uids_length j : step_valid j -> (length (stop_uids j) <= ride_length j)%nat.
Proof.
  intros [Hn | (t & e & x & a & b & H)].
  - unfold stop_uids. rewrite Hn. cbn. lia.
  - rewrite (rides_length _ _ _ _ _ _ H). unfold stop_uids. rewrite (rides_trip_of _ _ _ _ _ _ H).
    destruct H. rewrite (tk_sequence _ rt_ok0 _ _ rt_a0), (tk_sequence _ rt_ok0 _ _ rt_b0).
    rewrite length_fmap. unfold segment. rewrite length_drop, length_take. lia.
Qed.

(** A step is good when it is valid and passes nodes of [cand] only. *)
Definition good (cand : gset uid) (j : JourneyStep) : Prop :=
  step_valid j /\ forall u, u ∈ stop_uids j -> u ∈ cand.

Lemma set_exit_rides j t e x a b k conn :
  rides_trip j t e x a b -> (a <= k <= b)%nat -> trip_forward t !! k = Some conn -> canUnboard conn = true ->
  rides_trip (setFinalExitConnection conn j) t e conn a k.
Proof. intros [] Hk Hc Hu. split; try done. lia. Qed.

Lemma set_enter_rides j t e x a b k conn :
  rides_trip j t e x a b -> (a <= k <= b)%nat -> trip_forward t !! k = Some conn -> canBoard conn = true ->
  rides_trip (setFinalEnterConnection conn j) t conn x k b.
Proof. intros [] Hk Hc Hu. split; try done. lia. Qed.

Lemma set_transfer_rides j t e x a b time distance :
  rides_trip j t e x a b -> rides_trip (setTransferTimeDistance time distance j) t e x a b.
Proof. intros []. by split. Qed.

Lemma good_subride cand j t e x a b j' t' e' x' a' b' :
  good cand j -> rides_trip j t e x a b -> rides_trip j' t' e' x' a' b' -> t' = t ->
  (a <= a' <= b')%nat -> (b' <= b)%nat -> good cand j'.
Proof.
  intros [_ Hin] H H' -> Ha Hb. split; [right; by exists t, e', x', a', b'|].
  intros u (k & conn & Hk & Hc & ->)%(stop_uids_spec _ _ _ _ _ _ _ H').
  apply Hin, (stop_uids_spec _ _ _ _ _ _ _ H). exists k, conn. split_and!; [lia..|done|done].
Qed.

Lemma journey_length_alter f i J j :
  J !! i = Some j ->
  (journey_length (update_step i f J) + ride_length j = journey_length J + ride_length (f j))%nat.
Proof.
  unfold journey_length, update_step. revert i. induction J as [|y J IH]; intros i Hi; [done|].
  destruct i as [|i]; cbn in *.
  - injection Hi as ->. lia.
  - specialize (IH i Hi). cbn in IH. lia.
Qed.

Lemma good_update cand f i J j :
  Forall (good cand) J -> J !! i = Some j -> good cand (f j) -> Forall (good cand) (update_step i f J).
Proof.
  intros HJ Hi Hf. unfold update_step. apply Forall_alter; [done|]. intros y Hy _.
  by assert (y = j) as -> by congruence.
Qed.

Lemma length_update f i J : length (update_step i f J) = length J.
Proof. apply length_alter. Qed.

(** The effects of the updates on a journey of good steps. *)
Record shrinks (cand : gset uid) (J J' : list JourneyStep) : Prop := {
  sk_good : Forall (good cand) J';
  sk_length : (length J' <= length J)%nat;
  sk_rides : (journey_length J' <= journey_length J)%nat
}.

Lemma shrinks_trans cand J1 J2 J3 : shrinks cand J1 J2 -> shrinks cand J2 J3 -> shrinks cand J1 J3.
Proof. intros [] []. split; [done|lia..]. Qed.

Lemma shrink_exit cand J i j t e x a b k conn :
  Forall (good cand) J -> J !! i = Some j -> rides_trip j t e x a b ->
  (a <= k <= b)%nat -> trip_forward t !! k = Some conn -> canUnboard conn = true ->
  shrinks cand J (update_step i (setFinalExitConnection conn) J) /\
  ((k < b)%nat ->
   (journey_length (update_step i (setFinalExitConnection conn) J) < journey_length J)%nat).
Proof.
  intros HJ Hi H Hk Hc Hu. pose proof (set_exit_rides j t e x a b k conn H ltac:(lia) Hc Hu) as H'.
  pose proof (journey_length_alter (setFinalExitConnection conn) i J j Hi) as Hl.
  rewrite (rides_length _ _ _ _ _ _ H), (rides_length _ _ _ _ _ _ H') in Hl.
  assert (good cand j) as Hg by (rewrite Forall_lookup in HJ; eauto).
  split; [|lia]. split; [|by rewrite length_update|lia].
  eapply good_update; [done..|]. by eapply (good_subride cand j t e x a b _ t e conn a k); try lia.
Qed.

Lemma shrink_enter cand J i j t e x a b k conn :
  Forall (good cand) J -> J !! i = Some j -> rides_trip j t e x a b ->
  (a <= k <= b)%nat -> trip_forward t !! k = Some conn -> canBoard conn = true ->
  shrinks cand J (update_step i (setFinalEnterConnection conn) J) /\
  ((a < k)%nat ->
   (journey_length (update_step i (setFinalEnterConnection conn) J) < journey_length J)%nat).
Proof.
  intros HJ Hi H Hk Hc Hu. pose proof (set_enter_rides j t e x a b k conn H ltac:(lia) Hc Hu) as H'.
  pose proof (journey_length_alter (setFinalEnterConnection conn) i J j Hi) as Hl.
  rewrite (rides_length _ _ _ _ _ _ H), (rides_length _ _ _ _ _ _ H') in Hl.
  assert (good cand j) as Hg by (rewrite Forall_lookup in HJ; eauto).
  split; [|lia]. split; [|by rewrite length_update|lia].
  eapply good_update; [done..|]. by eapply (good_subride cand j t e x a b _ t conn x k b); try lia.
Qed.

Lemma shrink_transfer cand J i time distance :
  Forall (good cand) J -> shrinks cand J (update_step i (setTransferTimeDistance time distance) J).
Proof.
  intros HJ. destruct (J !! i) as [j|] eqn:Hi.
  - assert (good cand j) as Hg by (rewrite Forall_lookup in HJ; eauto).
    pose proof (journey_length_alter (setTransferTimeDistance time distance) i J j Hi) as Hl.
    assert (good cand (setTransferTimeDistance time distance j)) as Hg'.
    { destruct Hg as [Hv Hin]. split; [|done]. destruct Hv as [Hn | (t & e & x & a & b & H)]; [by left|].
      right. exists t, e, x, a, b. by apply set_transfer_rides. }
    assert (ride_length (setTransferTimeDistance time distance j) = ride_length j) as Hr by done.
    split; [by eapply good_update | by rewrite length_update | lia].
  - assert (update_step i (setTransferTimeDistance time distance) J = J) as ->.
    { unfold update_step. apply list_eq. intros k. destruct (decide (i = k)) as [<-|Hne].
      - by rewrite list_lookup_alter_eq, Hi.
      - by rewrite list_lookup_alter_ne. }
    split; [done|lia..].
Qed.

Lemma shrink_erase cand J from to :
  Forall (good cand) J -> (from < to)%nat -> shrinks cand J (erase_steps from to J).
Proof.
  intros HJ Hlt.
  assert (forall i k, (i <= k)%nat -> shrinks cand J (take i J ++ drop k J)) as H.
  { intros i k Hik. split.
    - apply Forall_app. split; [by apply Forall_take | by apply Forall_drop].
    - rewrite length_app, length_take, length_drop. lia.
    - unfold journey_length. rewrite <- (take_drop i J) at 3. rewrite !fmap_app, !sum_list_with_app.
      rewrite <- (take_drop (k - i) (drop i J)), drop_drop. rewrite fmap_app, sum_list_with_app.
      replace (i + (k - i))%nat with k by lia. lia. }
  unfold erase_steps. destruct (Nat.eqb_spec (to - from) 1); [apply H; lia|].
  destruct (Nat.ltb_spec 1 (to - from)); [apply H; lia|]. split; [done|lia..].
Qed.

Lemma lookup_erase from to J : (from < to)%nat -> (to < length J)%nat -> erase_steps from to J !! from = J !! from.
Proof.
  intros Hlt Hlen. unfold erase_steps. destruct (Nat.eqb_spec (to - from) 1).
  - rewrite lookup_app_l by (rewrite length_take; lia). by apply lookup_take_lt.
  - destruct (Nat.ltb_spec 1 (to - from)); [|done].
    rewrite lookup_app_l by (rewrite length_take; lia). apply lookup_take_lt. lia.
Qed.

(** Where the journey boards first, and the stop where it gets off last. *)
Definition first_boarding (J : list JourneyStep) : option Connection :=
  (fun r => r.1.2) <$> head (omap ride_of J).
Definition last_unboarding (J : list JourneyStep) : option uid :=
  (fun r => node_uid (getArrivalNode r.2)) <$> last (omap ride_of J).

Definition last_exit_time (J : list JourneyStep) : option Z :=
  (fun r => getArrivalTime r.2) <$> last (omap ride_of J).

(** Each ride ends before the later ones start. *)
Definition ride_before (r1 r2 : Trip * Connection * Connection) : Prop :=
  getArrivalTime r1.2 <= getDepartureTime r2.1.2.
Definition ordered (J : list JourneyStep) : Prop := StronglySorted ride_before (omap ride_of J).

(** A ride within another one, on the same trip. *)
Record within (r r' : Trip * Connection * Connection) : Prop := {
  wi_trip : r'.1.1 = r.1.1;
  wi_departure : getDepartureTime r.1.2 <= getDepartureTime r'.1.2;
  wi_arrival : getArrivalTime r'.2 <= getArrivalTime r.2;
  wi_enter : getSequenceInTrip r.1.2 <= getSequenceInTrip r'.1.2;
  wi_exit : getSequenceInTrip r'.2 <= getSequenceInTrip r.2
}.

(** Rides between the steps [A] and the steps [B]. *)
Definition framed (A B J : list JourneyStep) : Prop :=
  exists rides, J = A ++ rides ++ B /\ rides <> [] /\ Forall (fun j => is_Some (ride_of j)) rides.

(** What the updates keep: the ends of the journey, the steps around its rides, and
    the order in time; the last exit is no later. *)
Record kept (J J' : list JourneyStep) : Prop := {
  kp_first : first_boarding J' = first_boarding J;
  kp_last : last_unboarding J' = last_unboarding J;
  kp_framed : forall A B, Forall (fun j => ride_of j = None) A -> Forall (fun j => ride_of j = None) B ->
    framed A B J -> framed A B J';
  kp_ordered : ordered J -> ordered J';
  kp_within : forall r', r' ∈ omap ride_of J' -> exists r, r ∈ omap ride_of J /\ within r r';
  kp_time : ordered J -> forall t, last_exit_time J = Some t ->
    exists t', last_exit_time J' = Some t' /\ t' <= t
}.

Lemma within_refl r : within r r.
Proof. split; (done || lia). Qed.

Lemma within_trans r1 r2 r3 : within r1 r2 -> within r2 r3 -> within r1 r3.
Proof. intros [] []. split; (congruence || lia). Qed.

Lemma kept_refl J : kept J J.
Proof.
  split; eauto.
  - intros r Hr. exists r. split; [done | apply within_refl].
  - intros _ t Ht. exists t. split; [done|lia].
Qed.

Lemma kept_trans J1 J2 J3 : kept J1 J2 -> kept J2 J3 -> kept J1 J3.
Proof.
  intros [] []. split; [congruence|congruence|auto|auto| |].
  - intros r3 H3. destruct (kp_within1 r3 H3) as (r2 & H2 & W2).
    destruct (kp_within0 r2 H2) as (r1 & H1 & W1). exists r1. split; [done | by eapply within_trans].
  - intros Ho t Ht. destruct (kp_time0 Ho t Ht) as (t2 & Ht2 & Hle2).
    destruct (kp_time1 (kp_ordered0 Ho) t2 Ht2) as (t3 & Ht3 & Hle3). exists t3. split; [done|lia].
Qed.

Lemma head_fmap_app {A B} (g : A -> B) l x l1 l2 y :
  g x = g y -> g <$> head (l ++ x :: l1) = g <$> head (l ++ y :: l2).
Proof. destruct l; cbn; [by intros -> | done]. Qed.

Lemma last_fmap_app {A B} (g : A -> B) l l1 l2 x y :
  g x = g y -> g <$> last (l1 ++ x :: l) = g <$> last (l2 ++ y :: l).
Proof.
  intros H. rewrite !last_app. destruct l as [|z l]; cbn [last]; [by cbn; rewrite H|].
  by destruct (last (z :: l)) eqn:E; [|apply last_None in E].
Qed.

Lemma StronglySorted_sublist {A} (R : relation A) l l' :
  sublist l' l -> StronglySorted R l -> StronglySorted R l'.
Proof.
  induction 1 as [|x l1 l2 Hsub IH|x l1 l2 Hsub IH]; [done|..]; inversion 1 as [|? ? Hs Hall]; subst;
    [|by apply IH].
  constructor; [by apply IH|]. rewrite Forall_forall in Hall |- *. intros y Hy.
  apply Hall. by eapply elem_of_sublist.
Qed.

Lemma StronglySorted_Forall2 {A} (R W : relation A) l l' :
  (forall x x' y y', W x x' -> W y y' -> R x y -> R x' y') ->
  Forall2 W l l' -> StronglySorted R l -> StronglySorted R l'.
Proof.
  intros HW. induction 1 as [|x x' l l' Hx Hl IH]; [done|].
  inversion 1 as [|? ? Hs Hall]; subst. constructor; [by apply IH|].
  rewrite Forall_forall in Hall |- *. intros y' Hy'.
  apply list_elem_of_lookup in Hy' as [k Hk].
  destruct (Forall2_lookup_r _ _ _ _ _ Hl Hk) as (y & Hy & Hyy). eapply HW; [done..|].
  apply Hall. by eapply list_elem_of_lookup_2.
Qed.


Lemma ride_before_within l l' :
  Forall2 within l l' -> StronglySorted ride_before l -> StronglySorted ride_before l'.
Proof.
  apply StronglySorted_Forall2. unfold ride_before. intros x x' y y' [] []. lia.
Qed.

Lemma Forall2_within_refl l : Forall2 within l l.
Proof. apply Forall2_same_length_lookup_2; [done|]. intros i x y Hx Hy. simplify_eq. apply within_refl. Qed.

(** Fewer and shorter rides stay in order. *)
Lemma fewer_rides (J J' : list JourneyStep) l :
  sublist l (omap ride_of J) -> Forall2 within l (omap ride_of J') ->
  (ordered J -> ordered J') /\
  (forall r', r' ∈ omap ride_of J' -> exists r, r ∈ omap ride_of J /\ within r r').
Proof.
  intros Hsub Hw. split.
  - intros Ho. eapply ride_before_within; [exact Hw|]. by eapply StronglySorted_sublist.
  - intros r' (k & Hk)%list_elem_of_lookup. destruct (Forall2_lookup_r _ _ _ _ _ Hw Hk) as (r & Hr & Hwr).
    exists r. split; [|done]. eapply elem_of_sublist; [|exact Hsub]. by eapply list_elem_of_lookup_2.
Qed.

(** The rides around two of them. *)
Lemma framed_middle A B R pre jf mid jt post :
  Forall (fun j => ride_of j = None) A -> Forall (fun j => ride_of j = None) B ->
  Forall (fun j => is_Some (ride_of j)) R -> is_Some (ride_of jf) -> is_Some (ride_of jt) ->
  pre ++ jf :: mid ++ jt :: post = A ++ R ++ B ->
  exists p q, pre = A ++ p /\ post = q ++ B /\ R = p ++ jf :: mid ++ jt :: q.
Proof.
  intros HA HB HR [rf Hf] [rt Ht] Heq.
  assert (exists p, pre = A ++ p /\ R ++ B = p ++ jf :: mid ++ jt :: post) as (p & -> & HRB).
  { apply app_eq_inv in Heq as [(k & -> & Hk) | (k & -> & Hk)]; [by exists k|].
    destruct k as [|y k]; [exists []; rewrite !app_nil_r; done|].
    cbn in Hk. injection Hk as <- _. rewrite Forall_app, Forall_cons in HA. destruct HA as (_ & HA & _).
    congruence. }
  assert (exists q, post = q ++ B /\ R = p ++ jf :: mid ++ jt :: q) as (q & -> & ->); [|by exists p, q].
  replace (p ++ jf :: mid ++ jt :: post) with ((p ++ jf :: mid ++ [jt]) ++ post) in HRB
    by (by rewrite <- app_assoc; cbn; rewrite <- app_assoc).
  apply app_eq_inv in HRB as [(k & -> & Hk) | (k & Hk & ->)].
  - exists k. split; [done|]. by rewrite <- app_assoc; cbn; rewrite <- app_assoc.
  - destruct k as [|y k _] using rev_ind.
    + rewrite app_nil_r in Hk. subst R. exists []. split; [done|]. done.
    + exfalso. rewrite app_comm_cons, !app_assoc in Hk. apply app_inj_tail in Hk as [_ <-].
      rewrite !Forall_app, Forall_singleton in HB. destruct HB as ((_ & HB) & _). congruence.
Qed.

Lemma is_ride j t e x : ride_of j = Some (t, e, x) -> is_Some (ride_of j).
Proof. intros ->. by eexists. Qed.

(** Two rides of a journey that shrink, the second one keeping its exit; the steps
    in between may go. *)
Lemma kept_rides pre mid mid' post jf jf' jt jt' tf ef xf xf' tt et et' xt :
  ride_of jf = Some (tf, ef, xf) -> ride_of jf' = Some (tf, ef, xf') ->
  ride_of jt = Some (tt, et, xt) -> ride_of jt' = Some (tt, et', xt) ->
  within (tf, ef, xf) (tf, ef, xf') -> within (tt, et, xt) (tt, et', xt) ->
  mid' = mid \/ mid' = [] ->
  kept (pre ++ jf :: mid ++ jt :: post) (pre ++ jf' :: mid' ++ jt' :: post).
Proof.
  intros Hf Hf' Ht Ht' Hxf Het Hmid.
  destruct (fewer_rides (pre ++ jf :: mid ++ jt :: post) (pre ++ jf' :: mid' ++ jt' :: post)
    (omap ride_of pre ++ (tf, ef, xf) :: omap ride_of mid' ++ (tt, et, xt) :: omap ride_of post)) as [Ho Hw].
  { rewrite !omap_app. cbn [omap list_omap]. rewrite Hf, !omap_app. cbn [omap list_omap]. rewrite Ht.
    apply sublist_app; [done|]. apply sublist_skip.
    apply sublist_app; [|done]. destruct Hmid as [-> | ->]; [done | apply sublist_nil_l]. }
  { rewrite !omap_app. cbn [omap list_omap]. rewrite Hf', !omap_app. cbn [omap list_omap]. rewrite Ht'.
    apply Forall2_app; [apply Forall2_within_refl|]. constructor; [done|].
    apply Forall2_app; [apply Forall2_within_refl|]. constructor; [done|]. apply Forall2_within_refl. }
  split; [| | |done|done|].
  - unfold first_boarding. rewrite !omap_app. cbn [omap list_omap]. rewrite Hf, Hf'. by apply head_fmap_app.
  - unfold last_unboarding. rewrite !omap_app. cbn [omap list_omap]. rewrite Hf, Hf', !omap_app.
    cbn [omap list_omap]. rewrite Ht, Ht'.
    rewrite !(app_comm_cons _ _ (_, _, _)), !(app_assoc (omap ride_of pre)). by apply last_fmap_app.
  - intros A B HA HB (R & HR & Hne & Hall).
    destruct (framed_middle A B R pre jf mid jt post HA HB Hall) as (p & q & -> & -> & ->);
      [by eapply is_ride..|done|].
    exists (p ++ jf' :: mid' ++ jt' :: q). split; [|split].
    + by rewrite <- !app_assoc; cbn; rewrite <- app_assoc.
    + by destruct p.
    + rewrite Forall_app, Forall_cons, Forall_app, Forall_cons in *. destruct Hall as (? & _ & ? & _ & ?).
      split_and!; [done | by eapply is_ride | | by eapply is_ride | done]. by destruct Hmid as [-> | ->].
  - intros _ t. unfold last_exit_time. rewrite !omap_app. cbn [omap list_omap]. rewrite Hf, Hf', !omap_app.
    cbn [omap list_omap]. rewrite Ht, Ht'.
    rewrite !(app_comm_cons _ _ (_, _, _)), !(app_assoc (omap ride_of pre)).
    intros Hl. exists t. split; [|lia]. rewrite <- Hl. by apply last_fmap_app.
Qed.

(** The second ride goes, the first one ending where it ended. *)
Lemma kept_erase pre post jf jf' jt tf ef xf xf' tt et xt :
  ride_of jf = Some (tf, ef, xf) -> ride_of jf' = Some (tf, ef, xf') ->
  ride_of jt = Some (tt, et, xt) ->
  node_uid (getArrivalNode xf') = node_uid (getArrivalNode xt) ->
  within (tf, ef, xf) (tf, ef, xf') -> getDepartureTime et <= getArrivalTime xt ->
  kept (pre ++ jf :: jt :: post) (pre ++ jf' :: post).
Proof.
  intros Hf Hf' Ht Hx Hxf Htt.
  destruct (fewer_rides (pre ++ jf :: jt :: post) (pre ++ jf' :: post)
    (omap ride_of pre ++ (tf, ef, xf) :: omap ride_of post)) as [Ho Hw].
  { rewrite !omap_app. cbn [omap list_omap]. rewrite Hf, Ht.
    apply sublist_app; [done|]. apply sublist_skip. by apply sublist_cons. }
  { rewrite !omap_app. cbn [omap list_omap]. rewrite Hf'.
    apply Forall2_app; [apply Forall2_within_refl|]. constructor; [done|]. apply Forall2_within_refl. }
  assert (forall (l : list (Trip * Connection * Connection)) r r2 q,
    l ++ r :: r2 :: q = (l ++ [r]) ++ r2 :: q) as Hassoc by (intros; by rewrite <- app_assoc).
  split; [| | |done|done|].
  - unfold first_boarding. rewrite !omap_app. cbn [omap list_omap]. rewrite Hf, Hf'. by apply head_fmap_app.
  - unfold last_unboarding. rewrite !omap_app. cbn [omap list_omap]. rewrite Hf, Hf', Ht, Hassoc.
    by apply last_fmap_app.
  - intros A B HA HB (R & HR & Hne & Hall).
    destruct (framed_middle A B R pre jf [] jt post HA HB Hall) as (p & q & -> & -> & ->);
      [by eapply is_ride..|done|].
    exists (p ++ jf' :: q). split; [|split].
    + by rewrite <- !app_assoc.
    + by destruct p.
    + cbn [app] in Hall. rewrite Forall_app, !Forall_cons in *. destruct Hall as (? & _ & _ & ?).
      split_and!; [done | by eapply is_ride | done].
  - unfold ordered, last_exit_time. rewrite !omap_app. cbn [omap list_omap]. rewrite Hf, Hf', Ht, Hassoc.
    intros Hs t. rewrite !last_app. destruct (omap ride_of post) as [|r Q].
    + cbn. intros [= <-]. eexists. split; [done|].
      apply StronglySorted_app_inv in Hs as (_ & _ & Hs).
      specialize (Hs (tf, ef, xf) (tt, et, xt) ltac:(set_solver) ltac:(set_solver)).
      unfold ride_before in Hs. destruct Hxf. cbn in *. lia.
    + cbn [last]. destruct (last (r :: Q)) eqn:E; [|by apply last_None in E].
      intros Hl. exists t. split; [done|lia].
Qed.

(** A journey around two of its steps. *)
Lemma split_two (J : list JourneyStep) from to jf jt :
  (from < to)%nat -> J !! from = Some jf -> J !! to = Some jt ->
  exists pre mid post, J = pre ++ jf :: mid ++ jt :: post /\ length pre = from /\
    to = (from + S (length mid))%nat.
Proof.
  intros Hlt Hf Ht.
  pose proof (list_elem_of_split_length J from jf Hf) as (pre & rest & -> & ->).
  rewrite lookup_app_r, lookup_cons_ne_0 in Ht by lia.
  pose proof (list_elem_of_split_length _ _ _ Ht) as (mid & post & -> & Hm).
  exists pre, mid, post. split_and!; [done..|lia].
Qed.

Lemma update_at pre j rest i f :
  i = length pre -> update_step i f (pre ++ j :: rest) = pre ++ f j :: rest.
Proof. intros ->. unfold update_step. induction pre as [|y pre IH]; cbn; [done | by rewrite IH]. Qed.

Lemma update_after pre j mid j' post i f :
  i = (length pre + S (length mid))%nat ->
  update_step i f (pre ++ j :: mid ++ j' :: post) = pre ++ j :: mid ++ f j' :: post.
Proof.
  intros ->. rewrite (app_comm_cons mid), (app_assoc pre), update_at.
  - by rewrite <- app_assoc.
  - rewrite length_app. cbn. lia.
Qed.

(** ** One round *)

Lemma passes_arrival t e x a b node :
  trip_ok t -> passes t e x a b node ->
  exists k conn, (a <= k < b)%nat /\ trip_forward t !! k = Some conn /\
    node_uid (getArrivalNode conn) = node_uid node.
Proof.
  intros Hok (k & conn & Hk & Hc & Hu & _). destruct k as [|k]; [lia|].
  destruct (lookup_lt_is_Some_2 (trip_forward t) k) as [c Hcc].
  { apply lookup_lt_Some in Hc. lia. }
  exists k, c. split_and!; [lia..|done|]. by rewrite (proj1 (tk_chain _ Hok _ _ _ Hcc Hc)).
Qed.

Lemma passes_departure t e x a b node :
  passes t e x a b node ->
  exists k conn, (a < k <= b)%nat /\ trip_forward t !! k = Some conn /\
    node_uid (getDepartureNode conn) = node_uid node.
Proof. intros (k & conn & Hk & Hc & Hu & _). by exists k, conn. Qed.

(** A connection of the ride that arrives at the node is not the last one. *)
Lemma arrival_inside j t e x a b node k conn :
  rides_trip j t e x a b -> passes t e x a b node -> (a <= k <= b)%nat ->
  trip_forward t !! k = Some conn -> node_uid (getArrivalNode conn) = node_uid node -> (k < b)%nat.
Proof.
  intros [] (k' & c & Hk' & Hc & Hu & _ & Hne) Hk Hconn Heq.
  destruct (decide (k = b)) as [->|]; [|lia]. destruct Hne. assert (conn = x) as -> by congruence.
  apply Hknown; [| |congruence]; eapply (tk_known _ rt_ok0); eauto using list_elem_of_lookup_2.
Qed.

(** One that departs from it is not the first one. *)
Lemma departure_inside j t e x a b node k conn :
  rides_trip j t e x a b -> passes t e x a b node -> (a <= k <= b)%nat ->
  trip_forward t !! k = Some conn -> node_uid (getDepartureNode conn) = node_uid node -> (a < k)%nat.
Proof.
  intros [] (k' & c & Hk' & Hc & Hu & Hne & _) Hk Hconn Heq.
  destruct (decide (k = a)) as [->|]; [|lia]. destruct Hne. assert (conn = e) as -> by congruence.
  apply Hknown; [| |congruence]; eapply (tk_known _ rt_ok0); eauto using list_elem_of_lookup_2.
Qed.

Lemma find_segment (P : Connection -> bool) t a b k conn :
  (a <= k <= b)%nat -> trip_forward t !! k = Some conn -> P conn = true ->
  exists k' conn', (a <= k' <= b)%nat /\ trip_forward t !! k' = Some conn' /\ P conn' = true /\
    List.find P (rev (segment a b (trip_forward t))) = Some conn'.
Proof.
  intros Hk Hc HP. destruct (List.find P _) as [c|] eqn:E.
  - pose proof (find_some _ _ E) as [Hin Hp]. apply in_rev, list_elem_of_In, elem_of_segment in Hin.
    destruct Hin as (k' & Hk' & Hc'). by exists k', c.
  - assert (P conn = false) as HPf; [|congruence]. apply (find_none _ _ E), in_rev.
    rewrite rev_involutive. apply list_elem_of_In, elem_of_segment. by exists k.
Qed.

(** Times do not decrease along a trip. *)
Lemma trip_times t k conn : trip_ok t -> trip_forward t !! k = Some conn -> forall n conn',
  trip_forward t !! (k + n)%nat = Some conn' ->
  getDepartureTime conn <= getDepartureTime conn' /\ getArrivalTime conn <= getArrivalTime conn'.
Proof.
  intros Hok Hk. induction n as [|n IH]; intros conn' Hn.
  - rewrite Nat.add_0_r in Hn. assert (conn' = conn) as -> by congruence. lia.
  - rewrite Nat.add_succ_r in Hn.
    destruct (lookup_lt_is_Some_2 (trip_forward t) (k + n)) as [c Hc]; [apply lookup_lt_Some in Hn; lia|].
    destruct (IH c Hc). destruct (tk_chain _ Hok _ _ _ Hc Hn) as [_ ?].
    pose proof (tk_time _ Hok c (list_elem_of_lookup_2 _ _ _ Hc)).
    pose proof (tk_time _ Hok conn' (list_elem_of_lookup_2 _ _ _ Hn)). lia.
Qed.

(** A connection of a trip arrives before a later one leaves. *)
Lemma trip_departs t k n conn conn' :
  trip_ok t -> trip_forward t !! k = Some conn -> trip_forward t !! (k + S n)%nat = Some conn' ->
  getArrivalTime conn <= getDepartureTime conn'.
Proof.
  intros Hok Hk Hn. rewrite Nat.add_succ_r in Hn.
  destruct (lookup_lt_is_Some_2 (trip_forward t) (k + n)) as [y Hy]; [apply lookup_lt_Some in Hn; lia|].
  destruct (tk_chain _ Hok _ _ _ Hy Hn). destruct (trip_times _ _ _ Hok Hk n y Hy). lia.
Qed.

Lemma exit_within j t e x a b k conn :
  rides_trip j t e x a b -> (k <= b)%nat -> trip_forward t !! k = Some conn ->
  within (t, e, x) (t, e, conn).
Proof.
  intros [] Hk Hc. destruct (trip_times t k conn rt_ok0 Hc (b - k) x); [by replace (k + (b - k))%nat with b by lia|].
  pose proof (tk_sequence _ rt_ok0 _ _ Hc). pose proof (tk_sequence _ rt_ok0 _ _ rt_b0).
  split; cbn; (done || lia).
Qed.

Lemma enter_within j t e x a b k conn :
  rides_trip j t e x a b -> (a <= k)%nat -> trip_forward t !! k = Some conn ->
  within (t, e, x) (t, conn, x).
Proof.
  intros [] Hk Hc.
  destruct (trip_times t a e rt_ok0 rt_a0 (k - a) conn); [by replace (a + (k - a))%nat with k by lia|].
  pose proof (tk_sequence _ rt_ok0 _ _ Hc). pose proof (tk_sequence _ rt_ok0 _ _ rt_a0).
  split; cbn; (done || lia).
Qed.

Lemma ride_lasts j t e x a b : rides_trip j t e x a b -> getDepartureTime e <= getArrivalTime x.
Proof.
  intros H. destruct (exit_within _ _ _ _ _ _ _ _ H (rt_le _ _ _ _ _ _ H) (rt_a _ _ _ _ _ _ H)). cbn in *.
  pose proof (tk_time _ (rt_ok _ _ _ _ _ _ H) e (list_elem_of_lookup_2 _ _ _ (rt_a _ _ _ _ _ _ H))). lia.
Qed.

Lemma kept_within pre mid mid' post jf jf' jt jt' tf ef xf xf' af bf k tt et et' xt at_ bt k' :
  rides_trip jf tf ef xf af bf -> rides_trip jf' tf ef xf' af k -> (k <= bf)%nat ->
  rides_trip jt tt et xt at_ bt -> rides_trip jt' tt et' xt k' bt -> (at_ <= k')%nat ->
  mid' = mid \/ mid' = [] ->
  kept (pre ++ jf :: mid ++ jt :: post) (pre ++ jf' :: mid' ++ jt' :: post).
Proof.
  intros Hf Hf' Hk Ht Ht' Hk' Hmid.
  eapply kept_rides; [by eapply rides_trip_of.. | | |done].
  - eapply exit_within; [exact Hf | exact Hk | apply Hf'].
  - eapply enter_within; [exact Ht | exact Hk' | apply Ht'].
Qed.

(** What a round does: it leaves good steps and the ends of the journey, and either
    shortens a ride or ignores the node. *)
Record advances (cand : gset uid) (node : Node) (st st' : OptState) : Prop := {
  av_shrinks : shrinks cand (opt_journey st) (opt_journey st');
  av_kept : kept (opt_journey st) (opt_journey st');
  av_ignored : opt_ignored st ⊆ opt_ignored st';
  av_progress : (journey_length (opt_journey st') < journey_length (opt_journey st))%nat \/
    node ∈ opt_ignored st';
  av_used : opt_used st' <> [] \/
    (opt_journey st' = opt_journey st /\ opt_used st' = opt_used st)
}.

Lemma advances_ignore cand node st :
  Forall (good cand) (opt_journey st) -> advances cand node st (ignore_node node st).
Proof.
  intros HJ. split; cbn; [split; [done|lia..] | apply kept_refl | set_solver | right; set_solver | by right].
Qed.

Lemma advances_use cand node case st J :
  shrinks cand (opt_journey st) J -> kept (opt_journey st) J ->
  (journey_length J < journey_length (opt_journey st))%nat ->
  advances cand node st (use_case case J st).
Proof.
  intros Hs He Hl. split; cbn; [done | done | done | by left | left]. by destruct (opt_used st).
Qed.

Lemma node_eqb_true m n : node_eqb m n = true <-> node_uid m = node_uid n.
Proof. apply Nat.eqb_eq. Qed.

(** The two rides of a case in the journey. *)
Record case_rides (cand : gset uid) (f : Found) (st : OptState) (jf jt : JourneyStep)
    (tf : Trip) (ef xf : Connection) (af bf : nat) (tt : Trip) (et xt : Connection) (at_ bt : nat) : Prop := {
  cr_good : Forall (good cand) (opt_journey st);
  cr_order : (fd_from f < fd_to f)%nat;
  cr_from : opt_journey st !! fd_from f = Some jf;
  cr_from_rides : rides_trip jf tf ef xf af bf;
  cr_to : opt_journey st !! fd_to f = Some jt;
  cr_to_rides : rides_trip jt tt et xt at_ bt
}.

Section Cases.
Context (cand : gset uid) (f : Found) (st : OptState) (jf jt : JourneyStep)
  (tf : Trip) (ef xf : Connection) (af bf : nat) (tt : Trip) (et xt : Connection) (at_ bt : nat)
  (H : case_rides cand f st jf jt tf ef xf af bf tt et xt at_ bt).

Lemma cut_line_ok :
  passes tf ef xf af bf (fd_node f) -> node_uid (fd_node f) = node_uid (getArrivalNode xt) ->
  advances cand (fd_node f) st (run_ctl (cut_line f) (rev (segment af bf (trip_forward tf))) st).
Proof.
  destruct H as [HJ Hlt Hf Hrf Ht Hrt]. intros Hp Hx.
  destruct (passes_arrival _ _ _ _ _ _ (rt_ok _ _ _ _ _ _ Hrf) Hp) as (k & conn & Hk & Hc & Hu).
  destruct (find_segment (fun c => node_eqb (fd_node f) (getArrivalNode c)) tf af bf k conn)
    as (k' & conn' & Hk' & Hc' & Hu' & Hfind); [lia | done | by apply node_eqb_true|].
  rewrite (run_ctl_find _ _ _ _ : run_ctl (cut_line f) _ _ = _), Hfind.
  destruct (canUnboard conn') eqn:E; cbn [negb]; [|by apply advances_ignore].
  apply node_eqb_true in Hu'.
  pose proof (arrival_inside _ _ _ _ _ _ _ _ _ Hrf Hp Hk' Hc' (eq_sym Hu')) as Hin.
  pose proof (shrink_erase cand _ _ _ HJ Hlt) as He.
  destruct (shrink_exit cand (erase_steps (fd_from f) (fd_to f) (opt_journey st)) (fd_from f)
              jf tf ef xf af bf k' conn') as [Hs Hl]; [apply He| |done..|].
  { rewrite lookup_erase; [done..|]. by apply lookup_lt_Some in Ht. }
  pose proof (Hl Hin). apply advances_use; [by eapply shrinks_trans| |destruct He; lia].
  destruct (split_two _ _ _ _ _ Hlt Hf Ht) as (pre & mid & post & -> & Hpre & Hto).
  unfold erase_steps. rewrite Hto, <- Hpre.
  assert (within (tf, ef, xf) (tf, ef, conn')) as Hwithin by (eapply exit_within; [exact Hrf | | exact Hc']; lia).
  assert (ride_of jf = Some (tf, ef, xf)) as Hof by by eapply rides_trip_of.
  assert (ride_of (setFinalExitConnection conn' jf) = Some (tf, ef, conn')) as Hof'.
  { by eapply rides_trip_of, set_exit_rides. }
  assert (ride_of jt = Some (tt, et, xt)) as Hot by by eapply rides_trip_of.
  destruct mid as [|m mid].
  - destruct (Nat.eqb_spec (length pre + S (length (@nil JourneyStep)) - length pre) 1) as [_|Hne];
      [|cbn in Hne; lia].
    replace (take _ _) with (pre ++ [jf]).
    2: { cbn [app length]. rewrite take_app_ge by lia. by replace (_ - _)%nat with 1%nat by lia. }
    replace (drop _ _) with post.
    2: { cbn [app length]. rewrite drop_app_ge by lia. by replace (_ - _)%nat with 2%nat by lia. }
    rewrite <- app_assoc. cbn [app]. rewrite update_at by done.
    eapply kept_erase; [done..|congruence|done|by eapply ride_lasts].
  - destruct (Nat.eqb_spec (length pre + S (length (m :: mid)) - length pre) 1) as [Hne|_];
      [cbn in Hne; lia|].
    destruct (Nat.ltb_spec 1 (length pre + S (length (m :: mid)) - length pre)) as [_|Hne];
      [|cbn in Hne; lia].
    replace (take _ _) with (pre ++ [jf]).
    2: { rewrite take_app_ge by lia. by replace (_ - _)%nat with 1%nat by lia. }
    replace (drop _ _) with (jt :: post).
    2: { rewrite drop_app_ge by lia.
         replace (_ - _)%nat with (length (jf :: m :: mid)) by (cbn; lia).
         by rewrite (app_comm_cons _ _ jf), drop_app_length. }
    rewrite <- app_assoc. cbn [app]. rewrite update_at by done.
    eapply (kept_within pre (m :: mid) [] post jf _ jt jt);
      [exact Hrf | by eapply set_exit_rides | lia | exact Hrt | exact Hrt | done | by right].
Qed.

Lemma board_later_ok :
  passes tt et xt at_ bt (fd_node f) ->
  advances cand (fd_node f) st (run_ctl (board_later f) (rev (segment at_ bt (trip_forward tt))) st).
Proof.
  destruct H as [HJ Hlt Hf Hrf Ht Hrt]. intros Hp.
  destruct (passes_departure _ _ _ _ _ _ Hp) as (k & conn & Hk & Hc & Hu).
  destruct (find_segment (fun c => node_eqb (fd_node f) (getDepartureNode c)) tt at_ bt k conn)
    as (k' & conn' & Hk' & Hc' & Hu' & Hfind); [lia | done | by apply node_eqb_true|].
  rewrite (run_ctl_find _ _ _ _ : run_ctl (board_later f) _ _ = _), Hfind.
  destruct (canBoard conn') eqn:E; cbn [negb]; [|by apply advances_ignore].
  apply node_eqb_true in Hu'.
  pose proof (departure_inside _ _ _ _ _ _ _ _ _ Hrt Hp Hk' Hc' (eq_sym Hu')) as Hin.
  destruct (shrink_enter cand (opt_journey st) (fd_to f) jt tt et xt at_ bt k' conn' HJ Ht Hrt Hk' Hc' E)
    as [Hs Hl].
  pose proof (shrink_transfer cand _ (fd_to f) 0 0 (sk_good _ _ _ Hs)) as Hs'.
  pose proof (Hl Hin). apply advances_use; [by eapply shrinks_trans| |destruct Hs'; lia].
  destruct (split_two _ _ _ _ _ Hlt Hf Ht) as (pre & mid & post & -> & Hpre & Hto).
  rewrite !update_after by lia.
  eapply kept_within; [exact Hrf | exact Hrf | done | exact Hrt | | | by left].
  - by eapply set_transfer_rides, set_enter_rides.
  - lia.
Qed.

Lemma unboard_earlier_ok :
  passes tf ef xf af bf (fd_node f) ->
  advances cand (fd_node f) st (run_ctl (unboard_earlier f) (rev (segment af bf (trip_forward tf))) st).
Proof.
  destruct H as [HJ Hlt Hf Hrf Ht Hrt]. intros Hp.
  destruct (passes_arrival _ _ _ _ _ _ (rt_ok _ _ _ _ _ _ Hrf) Hp) as (k & conn & Hk & Hc & Hu).
  destruct (find_segment (fun c => node_eqb (fd_node f) (getArrivalNode c)) tf af bf k conn)
    as (k' & conn' & Hk' & Hc' & Hu' & Hfind); [lia | done | by apply node_eqb_true|].
  rewrite (run_ctl_find _ _ _ _ : run_ctl (unboard_earlier f) _ _ = _), Hfind.
  destruct (canUnboard conn') eqn:E; cbn [negb]; [|by apply advances_ignore].
  apply node_eqb_true in Hu'.
  pose proof (arrival_inside _ _ _ _ _ _ _ _ _ Hrf Hp Hk' Hc' (eq_sym Hu')) as Hin.
  destruct (shrink_exit cand (opt_journey st) (fd_from f) jf tf ef xf af bf k' conn' HJ Hf Hrf Hk' Hc' E)
    as [Hs Hl].
  pose proof (shrink_transfer cand _ (fd_to f) 0 0 (sk_good _ _ _ Hs)) as Hs'.
  pose proof (Hl Hin). apply advances_use; [by eapply shrinks_trans| |destruct Hs'; lia].
  destruct (split_two _ _ _ _ _ Hlt Hf Ht) as (pre & mid & post & -> & Hpre & Hto).
  rewrite update_at, update_after by lia.
  eapply kept_within; [exact Hrf | by eapply set_exit_rides | lia | exact Hrt | | done | by left].
  by apply set_transfer_rides.
Qed.

(** The exit that case 4 looks for. *)
Lemma segment_exit_ok x :
  run_ctl (segment_exit f) (rev (segment af bf (trip_forward tf))) None = Some x ->
  exists k, (af <= k <= bf)%nat /\ trip_forward tf !! k = Some x /\ canUnboard x = true /\
    node_uid (getArrivalNode x) = node_uid (fd_node f).
Proof.
  intros Hx.
  pose proof (run_ctl_inv (segment_exit f)
    (fun o => forall x, o = Some x -> exists k, (af <= k <= bf)%nat /\ trip_forward tf !! k = Some x /\
       canUnboard x = true /\ node_uid (getArrivalNode x) = node_uid (fd_node f))
    (rev (segment af bf (trip_forward tf))) None) as Hinv.
  apply Hinv; [|done|done]. clear Hx Hinv. intros c o Hc Ho y. unfold segment_exit.
  destruct (node_eqb _ _) eqn:E; [|apply Ho]. destruct (canUnboard c) eqn:Eu; [|apply Ho].
  intros [= <-]. apply list_elem_of_In, in_rev, list_elem_of_In, elem_of_segment in Hc.
  destruct Hc as (k & Hk & Hc). exists k. apply node_eqb_true in E. split_and!; [lia..|done|done|congruence].
Qed.

(** The journey after the two updates of case 4. *)
Definition segment_cut (x conn : Connection) : list JourneyStep :=
  update_step (fd_to f) (setFinalEnterConnection conn)
    (update_step (fd_from f) (setFinalExitConnection x) (opt_journey st)).

Lemma segment_cut_again x conn conn' :
  update_step (fd_to f) (setFinalEnterConnection conn')
    (update_step (fd_from f) (setFinalExitConnection x) (segment_cut x conn)) = segment_cut x conn'.
Proof.
  destruct H as [_ Hlt Hf _ Ht _]. unfold segment_cut.
  destruct (split_two _ _ _ _ _ Hlt Hf Ht) as (pre & mid & post & -> & Hpre & Hto).
  repeat first [rewrite update_at by lia | rewrite update_after by lia]. done.
Qed.

Lemma segment_cut_ok x conn k k' :
  (af <= k <= bf)%nat -> trip_forward tf !! k = Some x -> canUnboard x = true ->
  (at_ < k' <= bt)%nat -> trip_forward tt !! k' = Some conn -> canBoard conn = true ->
  shrinks cand (opt_journey st) (segment_cut x conn) /\
  kept (opt_journey st) (segment_cut x conn) /\
  (journey_length (segment_cut x conn) < journey_length (opt_journey st))%nat.
Proof.
  destruct H as [HJ Hlt Hf Hrf Ht Hrt]. intros Hk Hx Hu Hk' Hc Hb. unfold segment_cut.
  destruct (shrink_exit cand _ _ jf tf ef xf af bf k x HJ Hf Hrf Hk Hx Hu) as [Hs _].
  destruct (shrink_enter cand (update_step (fd_from f) (setFinalExitConnection x) (opt_journey st))
              (fd_to f) jt tt et xt at_ bt k' conn) as [Hs' Hl]; [by destruct Hs| |done|lia|done..|].
  { unfold update_step. rewrite list_lookup_alter_ne by lia. done. }
  specialize (Hl ltac:(lia)). split_and!; [by eapply shrinks_trans| |destruct Hs; lia].
  destruct (split_two _ _ _ _ _ Hlt Hf Ht) as (pre & mid & post & -> & Hpre & Hto).
  rewrite update_at, update_after by lia.
  eapply kept_within; [exact Hrf | by eapply set_exit_rides | lia | exact Hrt | | | by left].
  - apply (set_enter_rides jt tt et xt at_ bt _ conn Hrt); [|exact Hc|exact Hb]. lia.
  - lia.
Qed.

(** What the scan of case 4 does to the journey. *)
Definition segment_shape (x : option Connection) (s : OptState) : Prop :=
  opt_used s <> [] /\ exists x' conn k, x = Some x' /\ (at_ < k <= bt)%nat /\
    trip_forward tt !! k = Some conn /\ canBoard conn = true /\ opt_journey s = segment_cut x' conn.

Record segment_scan (x : option Connection) (s : OptState) : Prop := {
  ss_journey : (opt_journey s = opt_journey st /\ opt_used s = opt_used st) \/ segment_shape x s;
  ss_ignored : opt_ignored st ⊆ opt_ignored s
}.

Definition segment_moved (x : option Connection) (s : OptState) : Prop :=
  segment_scan x s /\ (fd_node f ∈ opt_ignored s \/ segment_shape x s).

Lemma segment_enter_step x s c :
  passes tt et xt at_ bt (fd_node f) -> c ∈ rev (segment at_ bt (trip_forward tt)) ->
  node_eqb (fd_node f) (getDepartureNode c) = true -> segment_scan x s ->
  segment_moved x (ctl_state (segment_enter f x c s)).
Proof.
  intros Hp Hc E [Hj Hi].
  apply list_elem_of_In, in_rev, list_elem_of_In, elem_of_segment in Hc as (k & Hk & Hc).
  assert (at_ < k)%nat as Hak.
  { apply node_eqb_true in E. by eapply departure_inside; [apply H | apply Hp | | apply Hc | ]. }
  assert (segment_moved x (ignore_node (fd_node f) s)) as Hign.
  { split; [split; [done|]; cbn; set_solver | left; cbn; set_solver]. }
  unfold segment_enter. rewrite E. destruct x as [x|]; [|done]. destruct (canBoard c) eqn:Eb; [|done].
  match goal with |- segment_moved _ (ctl_state (Next ?s')) =>
    assert (segment_shape (Some x) s') as Hshape; [|by split; [split; [by right|]|by right]] end.
  split; [by cbn; destruct (opt_used s)|].
  exists x, c, k. split_and!; [done|lia|lia|done|done|]. cbn.
  destruct Hj as [[-> _] | (_ & x' & conn & k' & [= <-] & _ & _ & _ & ->)]; [done|].
  apply segment_cut_again.
Qed.

Lemma cut_segment_ok :
  passes tt et xt at_ bt (fd_node f) ->
  advances cand (fd_node f) st
    (run_ctl (segment_enter f (run_ctl (segment_exit f) (rev (segment af bf (trip_forward tf))) None))
       (rev (segment at_ bt (trip_forward tt))) st).
Proof.
  intros Hp. set (x := run_ctl (segment_exit f) _ _).
  destruct (passes_departure _ _ _ _ _ _ Hp) as (k & conn & Hk & Hc & Hu).
  assert (segment_moved x (run_ctl (segment_enter f x) (rev (segment at_ bt (trip_forward tt))) st))
    as [[Hj Hi] Hm].
  { apply (run_ctl_first (fun c => node_eqb (fd_node f) (getDepartureNode c)) _ (segment_moved x)).
    - intros c s E. unfold segment_enter. by rewrite E.
    - intros c Hin E. apply segment_enter_step; [done..|]. by split; [left|].
    - intros c s Hin E [Hs _]. by apply segment_enter_step.
    - exists conn. split; [|by apply node_eqb_true].
      apply list_elem_of_In, in_rev. rewrite rev_involutive. apply list_elem_of_In, elem_of_segment.
      exists k. split; [lia|done]. }
  set (s := run_ctl (segment_enter f x) _ _) in *.
  assert (segment_shape x s -> shrinks cand (opt_journey st) (opt_journey s) /\
    kept (opt_journey st) (opt_journey s) /\
    (journey_length (opt_journey s) < journey_length (opt_journey st))%nat) as Hshape.
  { intros (_ & x' & c & k' & Hx & Hk' & Hc' & Hb & ->).
    destruct (segment_exit_ok _ Hx) as (kx & Hkx & Hcx & Hux & _). by eapply segment_cut_ok. }
  assert (shrinks cand (opt_journey st) (opt_journey s) /\ kept (opt_journey st) (opt_journey s))
    as [Hs He].
  { destruct Hj as [[-> _] | Hj]; [|by destruct (Hshape Hj) as (? & ? & _)].
    split; [split; [apply H|lia..] | apply kept_refl]. }
  split; [done..| |].
  - destruct Hm as [Hm|Hm]; [by right|]. left. by apply Hshape.
  - destruct Hj as [Hj | [Hj _]]; [by right | by left].
Qed.
End Cases.

Lemma ride_at_ok i J j t e x a b :
  J !! i = Some j -> rides_trip j t e x a b -> ride_at i J = Ok (t, e, x).
Proof.
  intros Hi [Ht He Hx]. unfold ride_at, vec_get. rewrite Hi. cbn [mbind result_bind].
  by rewrite Ht, He, Hx.
Qed.

Lemma apply_case_ok cand f st :
  Forall (good cand) (opt_journey st) -> found_ok (opt_ignored st) (opt_journey st) f ->
  exists st', apply_case trip_reverse f st = Ok st' /\ advances cand (fd_node f) st st'.
Proof.
  intros HJ [Hlt _ (jf & tf & ef & xf & af & bf & jt & tt & et & xt & at_ & bt & Hf & Hrf & Ht & Hrt &
    Hpf & Hpt & Hu1 & Hu2 & Hu3) Hcase].
  pose proof (Build_case_rides cand f st jf jt tf ef xf af bf tt et xt at_ bt HJ Hlt Hf Hrf Ht Hrt) as H.
  unfold apply_case. rewrite (ride_at_ok _ _ _ _ _ _ _ _ Hf Hrf), (ride_at_ok _ _ _ _ _ _ _ _ Ht Hrt).
  destruct Hcase as [E | [E | [E | E]]]; rewrite E in *; cbn [Z.eqb Pos.eqb mbind result_bind].
  - destruct (Z.geb_spec (Z.of_nat (length (trip_reverse tf))) (to_size (1 + (getSequenceInTrip xf - 1))))
      as [_|Hlen].
    + rewrite (scan_ride_run _ jf tf ef xf af bf _ Hrf). eexists. split; [done|].
      eapply cut_line_ok; [exact H|auto..].
    + exfalso. destruct Hrf. pose proof (lookup_lt_Some _ _ _ rt_b0). destruct rt_ok0 as [Hrev Hsize Hseq _ _].
      rewrite (Hseq _ _ rt_b0) in Hlen. unfold to_size in Hlen.
      rewrite Hrev, length_rev, Z.mod_small in Hlen by lia. lia.
  - rewrite (scan_ride_run _ jt tt et xt at_ bt _ Hrt). eexists. split; [done|].
    eapply board_later_ok; [exact H|auto..].
  - rewrite (scan_ride_run _ jf tf ef xf af bf _ Hrf). eexists. split; [done|].
    eapply unboard_earlier_ok; [exact H|auto..].
  - rewrite (scan_ride_run _ jf tf ef xf af bf _ Hrf). cbn [mbind result_bind].
    rewrite (scan_ride_run _ jt tt et xt at_ bt _ Hrt). eexists. split; [done|].
    eapply cut_segment_ok; [exact H|auto..].
Qed.

(** The nodes of [cand] that may still be used. *)
Definition remaining (cand : gset uid) (ignored : list Node) : nat :=
  size (cand ∖ list_to_set (node_uid <$> ignored)).

Lemma remaining_le cand l l' : l ⊆ l' -> (remaining cand l' <= remaining cand l)%nat.
Proof.
  intros Hl. apply subseteq_size. intros u. rewrite !elem_of_difference, !elem_of_list_to_set,
    !list_elem_of_fmap. intros [Hu Hn]. split; [done|]. intros (n & -> & Hin). apply Hn. eauto.
Qed.

Lemma remaining_lt cand l l' node :
  l ⊆ l' -> node ∈ l' -> std_find node_eqb node l = false -> node_uid node ∈ cand ->
  (remaining cand l' < remaining cand l)%nat.
Proof.
  intros Hl Hin Hnot Hc. apply subset_size. split.
  - intros u. rewrite !elem_of_difference, !elem_of_list_to_set, !list_elem_of_fmap.
    intros [Hu Hn]. split; [done|]. intros (n & -> & Hi). apply Hn. eauto.
  - intros Hsub. specialize (Hsub (node_uid node)).
    rewrite !elem_of_difference, !elem_of_list_to_set, !list_elem_of_fmap in Hsub.
    apply Hsub; [split; [done|] | eauto]. intros (n & Hu & Hi).
    assert (std_find node_eqb node l = true); [apply std_find_spec; eauto|congruence].
Qed.

(** A found node is one of [cand]. *)
Lemma found_cand cand ignored J f : Forall (good cand) J -> found_ok ignored J f -> node_uid (fd_node f) ∈ cand.
Proof.
  intros HJ [_ _ (jf & tf & ef & xf & af & bf & jt & tt & et & xt & at_ & bt & Hf & Hrf & Ht & Hrt &
    Hpf & Hpt & _) Hcase]. rewrite Forall_lookup in HJ.
  assert (forall i j t e x a b, J !! i = Some j -> rides_trip j t e x a b -> passes t e x a b (fd_node f) ->
    node_uid (fd_node f) ∈ cand) as H.
  { intros i j t e x a b Hi Hr (k & conn & Hk & Hc & Hu & _). apply (HJ i j Hi).
    apply (stop_uids_spec _ _ _ _ _ _ _ Hr). by exists k, conn. }
  destruct Hcase as [E | [E | [E | E]]];
    [eapply H; [exact Hf | done | auto] | eapply H; [exact Ht | done | auto]
    | eapply H; [exact Hf | done | auto] | eapply H; [exact Hf | done | auto]].
Qed.

Lemma good_valid cand J : Forall (good cand) J -> Forall step_valid J.
Proof. intros H. apply (Forall_impl _ _ _ H). by intros j []. Qed.

Lemma optimize_loop_ok cand : forall fuel st,
  Forall (good cand) (opt_journey st) ->
  (journey_length (opt_journey st) + remaining cand (opt_ignored st) < fuel)%nat ->
  exists st', optimize_loop trip_forward trip_reverse fuel st = Ok st' /\
    shrinks cand (opt_journey st) (opt_journey st') /\ kept (opt_journey st) (opt_journey st') /\
    (opt_used st' <> [] \/ opt_journey st' = opt_journey st /\ opt_used st' = opt_used st).
Proof.
  induction fuel as [|fuel IH]; intros st HJ Hm; [lia|]. cbn [optimize_loop].
  destruct (search_cases_ok (opt_ignored st) (opt_journey st) ltac:(by eapply good_valid)
              (opt_journey st) [] [] eq_refl ltac:(constructor)) as (found & Hrun & Hfound).
  cbn [length] in Hrun. rewrite Hrun.
  cbn [mbind result_bind]. destruct found as [f|].
  2: { exists st. split_and!; [done | split; [done|lia..] | apply kept_refl | by right]. }
  specialize (Hfound f eq_refl).
  destruct (apply_case_ok cand f st HJ Hfound) as (st1 & -> & [Hs He Hi Hp Hu]). cbn [mbind result_bind].
  destruct (fd_case f =? 2); [by exists st1|].
  pose proof (remaining_le cand _ _ Hi). pose proof (sk_rides _ _ _ Hs).
  destruct (IH st1) as (st2 & Hrun2 & Hs2 & He2 & Hu2); [by destruct Hs| |].
  { destruct Hp as [Hp|Hp]; [lia|].
    pose proof (remaining_lt cand _ _ _ Hi Hp (fk_open _ _ _ Hfound) (found_cand _ _ _ _ HJ Hfound)). lia. }
  exists st2. split_and!; [done | by eapply shrinks_trans | by eapply kept_trans|].
  destruct Hu2 as [Hu2 | [HJ2 Hu2]]; [by left|]. rewrite HJ2, Hu2. done.
Qed.

Lemma size_list_to_set_le (l : list uid) : (size (list_to_set l : gset uid) <= length l)%nat.
Proof.
  induction l as [|x l IH]; [done|]. cbn. rewrite size_union_alt, size_singleton.
  assert (list_to_set l ∖ {[x]} ⊆ (list_to_set l : gset uid)) as H%subseteq_size by set_solver. lia.
Qed.

Lemma stop_uids_total J :
  Forall step_valid J -> (length (J ≫= stop_uids) <= journey_length J)%nat.
Proof.
  unfold journey_length. induction 1 as [|j J Hj HJ IH]; [done|]. cbn. rewrite length_app.
  pose proof (stop_uids_length j Hj). cbn in IH. lia.
Qed.

Lemma optimizeJourney_run (journey : list JourneyStep) (Hvalid : Forall step_valid journey) :
  exists journey' used,
    optimizeJourney trip_forward trip_reverse journey = Ok (journey', used) /\
    Forall step_valid journey' /\
    (length journey' <= length journey)%nat /\
    (journey_length journey' <= journey_length journey)%nat /\
    kept journey journey' /\
    (used = [] -> journey' = journey).
Proof.
  set (cand := list_to_set (journey ≫= stop_uids) : gset uid).
  assert (Forall (good cand) journey) as Hgood.
  { apply Forall_lookup. intros i j Hi. split; [by eapply Forall_lookup_1|].
    intros u Hu. apply elem_of_list_to_set, list_elem_of_bind. eauto using list_elem_of_lookup_2. }
  assert (size cand <= journey_length journey)%nat as Hsize.
  { etrans; [apply size_list_to_set_le | by apply stop_uids_total]. }
  assert (remaining cand [] <= size cand)%nat as Hrem by (apply subseteq_size; set_solver).
  unfold optimizeJourney.
  destruct (optimize_loop_ok cand (optimize_fuel journey) (mkOptState journey [] []))
    as (st & -> & [Hs Hl Hr] & He & Hu); [done | cbn [opt_journey opt_ignored]; unfold optimize_fuel; lia|].
  exists (opt_journey st), (opt_used st). cbn in *.
  split_and!; [done | by eapply good_valid | done..|]. intros Hn. destruct Hu as [|[]]; congruence.
Qed.

(** C15: [optimizeJourney] ends without an error on a journey whose rides are pieces
    of trips, and leaves such a journey: no longer, with the same steps around its
    rides, boarding first at the same connection, getting off last at the same stop
    and, if the rides follow each other in time, in order and no later; without a case
    used the journey is unchanged. *)
Theorem optimizeJourney_ok (journey : list JourneyStep) (Hvalid : Forall step_valid journey) :
  exists journey' used,
    optimizeJourney trip_forward trip_reverse journey = Ok (journey', used) /\
    Forall step_valid journey' /\
    (length journey' <= length journey)%nat /\
    (journey_length journey' <= journey_length journey)%nat /\
    kept journey journey' /\
    (used = [] -> journey' = journey).
Proof. by apply optimizeJourney_run. Qed.
End Rides.

(** ** Journeys with detours *)

Definition line_trip (u : uid) : Trip := demo_trip u [] [].
Definition stop (u : uid) : Node := demo_node u "stop" [] [].

(** A trip along the given stops, ten minutes each. *)
Fixpoint line_connections (u : uid) (dep sequence : Z) (stops : list uid) : list Connection :=
  match stops with
  | a :: (b :: _) as rest =>
      demo_conn (line_trip u) (stop a) (stop b) dep (dep + 600) sequence ::
      line_connections u (dep + 600) (sequence + 1) rest
  | _ => []
  end.

(** Trip 1 runs 1 - 2 - 3 - 4, trip 2 runs 4 - 5, trip 3 runs 5 - 3, trip 4 runs 4 - 3 and
    trip 5 runs 2 - 6. *)
Definition lines_forward (t : Trip) : list Connection :=
  match trip_uid t with
  | 1%nat => line_connections 1 28800 1 [1; 2; 3; 4]%nat
  | 2%nat => line_connections 2 30600 1 [4; 5]%nat
  | 3%nat => line_connections 3 31200 1 [5; 3]%nat
  | 4%nat => line_connections 4 31200 1 [4; 3]%nat
  | 5%nat => line_connections 5 32400 1 [2; 6]%nat
  | _ => []
  end.
Definition lines_reverse (t : Trip) : list Connection := rev (lines_forward t).

Definition nth_connection (u : uid) (k : nat) : Connection :=
  nth k (lines_forward (line_trip u)) conn_AB.

(** The ride of trip [u] from its connection [a] to its connection [b]. *)
Definition ride (u : uid) (a b : nat) (transfer : Z) : JourneyStep :=
  mkJourneyStep (Some (nth_connection u a)) (Some (nth_connection u b)) (Some (line_trip u))
    transfer false transfer.

(** The stops are known by their identifiers. *)
Definition demo_known (n : Node) : Prop := N.of_nat (node_uid n) = node_uuid n.

Ltac solve_line_trip :=
  split;
  [ reflexivity
  | vm_compute; reflexivity
  | intros [|[|[|k]]] conn Hc; vm_compute in Hc; simplify_eq; reflexivity
  | intros [|[|[|k]]] x y Hx Hy; vm_compute in Hx, Hy; simplify_eq;
    (split; [reflexivity | vm_compute; discriminate])
  | intros conn Hc; vm_compute in Hc;
    repeat (apply elem_of_cons in Hc as [-> | Hc]; [vm_compute; discriminate|]);
    by apply elem_of_nil in Hc
  | intros conn Hc; vm_compute in Hc;
    repeat (apply elem_of_cons in Hc as [-> | Hc]; [split; reflexivity|]);
    by apply elem_of_nil in Hc ].

Lemma line_trip_ok u :
  (u ∈ [1; 2; 3; 4; 5])%nat -> trip_ok lines_forward lines_reverse demo_known (line_trip u).
Proof.
  intros Hu. repeat (apply elem_of_cons in Hu as [-> | Hu]; [solve_line_trip|]). by apply elem_of_nil in Hu.
Qed.

Lemma ride_valid u a b transfer :
  (u ∈ [1; 2; 3; 4; 5])%nat -> (a <= b < length (lines_forward (line_trip u)))%nat ->
  canBoard (nth_connection u a) = true -> canUnboard (nth_connection u b) = true ->
  step_valid lines_forward lines_reverse demo_known (ride u a b transfer).
Proof.
  intros Hu Hab Ha Hb. right. exists (line_trip u), (nth_connection u a), (nth_connection u b), a, b.
  split; [done.. | by apply line_trip_ok | | | lia | done | done].
  - unfold nth_connection. rewrite nth_lookup.
    destruct (lookup_lt_is_Some_2 (lines_forward (line_trip u)) a) as [c ->]; [lia|done].
  - unfold nth_connection. rewrite nth_lookup.
    destruct (lookup_lt_is_Some_2 (lines_forward (line_trip u)) b) as [c ->]; [lia|done].
Qed.

(** Out to stop 4 and back to stop 3 on the next line. *)
Definition detour : list JourneyStep :=
  [JourneyStep_default; ride 1 0 2 120; ride 4 0 0 60; JourneyStep_default].

(** The same with a line in between. *)
Definition long_detour : list JourneyStep :=
  [JourneyStep_default; ride 1 0 2 120; ride 2 0 0 60; ride 3 0 0 60; JourneyStep_default].

(** Out to stop 4, then on foot back to stop 2, where trip 5 leaves. *)
Definition too_far : list JourneyStep :=
  [JourneyStep_default; ride 1 0 2 120; ride 5 0 0 60; JourneyStep_default].

Lemma optimizeJourney_ok_witness :
  Forall (step_valid lines_forward lines_reverse demo_known) detour /\
  exists journey' used,
    optimizeJourney lines_forward lines_reverse detour = Ok (journey', used) /\
    used = [1] /\ length journey' = 3%nat /\
    last_unboarding journey' = Some 3%nat.
Proof.
  assert (Forall (step_valid lines_forward lines_reverse demo_known) detour) as Hv.
  { repeat (apply Forall_cons_2;
      [first [by left | apply ride_valid; [set_solver | vm_compute; lia | done | done]]|]).
    apply Forall_nil_2. }
  split; [exact Hv|].
  destruct (optimizeJourney_ok lines_forward lines_reverse demo_known
              ltac:(unfold demo_known; congruence) detour Hv)
    as (journey' & used & Hrun & _ & _ & _ & [_ Hl _ _ _ _] & _).
  exists journey', used. split; [exact Hrun|]. rewrite Hl.
  vm_compute in Hrun. injection Hrun as <- <-. split_and!; vm_compute; reflexivity.
Defined.

(** When the ride that goes is not the next one, [optimizeJourney] drops only the
    rides in between: the journey boards trip 3 at stop 5 having got off trip 1 at stop 3. *)
Theorem optimize_leaves_last_ride :
  exists j1 j2,
    optimizeJourney lines_forward lines_reverse long_detour =
      Ok ([JourneyStep_default; j1; j2; JourneyStep_default], [1]) /\
    node_uid <$> (getArrivalNode <$> getFinalExitConnection j1) = Some 3%nat /\
    node_uid <$> (getDepartureNode <$> getFinalEnterConnection j2) = Some 5%nat.
Proof. eexists _, _. split_and!; vm_compute; reflexivity. Qed.

(** When a ride is left earlier, [optimizeJourney] clears the walk after the next
    ride, not the walk of the ride that is shortened: the rider, already at stop 2,
    keeps the two minutes to it, and the next ride loses its minute. *)
Theorem optimize_clears_next_transfer :
  exists j1 j2,
    optimizeJourney lines_forward lines_reverse too_far =
      Ok ([JourneyStep_default; j1; j2; JourneyStep_default], [3]) /\
    node_uid <$> (getArrivalNode <$> getFinalExitConnection j1) = Some 2%nat /\
    node_uid <$> (getDepartureNode <$> getFinalEnterConnection j2) = Some 2%nat /\
    getTransferTravelTime j1 = 120 /\ getTransferTravelTime j2 = 0.
Proof. eexists _, _. split_and!; vm_compute; reflexivity. Qed.
