(* ===== verification/JourneyAccounts.v ===== *)
(** * The sums of a result add up

    What [journey_result] returns for a journey made of a walk, rides and a walk, the
    shape both [forwardJourneyStep] and [reverseJourneyStep] give it. *)

From Stdlib Require Import ZArith Lia.
From stdpp Require Import base list gmap strings.
From S2P Require Import Prelude.
From S2P Require Import Data.
From S2P Require Import RoutingResult.

Local Open Scope Z_scope.

(** A step of a journey that is a ride: its connections, its trip, and where it starts. *)
Record counted (j : JourneyStep) (e x : Connection) (t : Trip) : Prop := {
  ct_enter : getFinalEnterConnection j = Some e;
  ct_exit : getFinalExitConnection j = Some x;
  ct_trip : getFinalTrip j = Some t;
  ct_sequence : 1 <= getSequenceInTrip e
}.

Definition countable (j : JourneyStep) : Prop := exists e x t, counted j e x t.

Lemma sum_segments_ok distances : forall n seqI acc,
  0 <= seqI -> (0 < n)%nat -> seqI + Z.of_nat n <= Z.of_nat (length distances) ->
  exists d, sum_segments distances seqI n acc = Ok d.
Proof.
  induction n as [|n IH]; intros seqI acc H0 Hpos Hn; [lia|]. cbn [sum_segments].
  destruct (Z.ltb_spec seqI 0); [lia|].
  destruct (lookup_lt_is_Some_2 distances (Z.to_nat seqI)) as [d Hd]; [lia|].
  unfold vec_get. rewrite Hd. cbn [mbind result_bind].
  destruct n as [|n]; [by exists (acc + d)|]. apply IH; lia.
Qed.

Lemma ride_distance_ok distances b u :
  1 <= b -> exists d, ride_distance distances b u = Ok d.
Proof.
  intros Hb. unfold ride_distance.
  destruct (Z.leb_spec 0 (u - 1)), (Z.ltb_spec (u - 1) (Z.of_nat (length distances))); cbn [andb];
    try by exists None.
  destruct (Z.leb_spec u (b - 1)); [rewrite Z2Nat.nonpos by lia; by exists (Some 0)|].
  destruct (sum_segments_ok distances (Z.to_nat (u - (b - 1))) (b - 1) 0) as [d Hd]; [lia..|].
  exists (Some d). by rewrite Hd.
Qed.

(** The distance of a ride, if its path has them. *)
Definition step_distance (j : JourneyStep) : option Z :=
  match getFinalEnterConnection j, getFinalExitConnection j, getFinalTrip j with
  | Some e, Some x, Some t =>
      match ride_distance (segmentsDistanceMeters (trip_path t)) (getSequenceInTrip e) (getSequenceInTrip x) with
      | Ok d => d
      | Throw _ => None
      end
  | _, _, _ => None
  end.

(** The time on board of a ride. *)
Definition ride_time (j : JourneyStep) : Z :=
  match getFinalEnterConnection j, getFinalExitConnection j with
  | Some e, Some x => getArrivalTime x - getDepartureTime e
  | _, _ => 0
  end.

Definition ride_transferable (j : JourneyStep) : bool :=
  match getFinalTrip j with Some t => isTransferable (line_mode (trip_line t)) | None => false end.

(** The rides that count as walks: those of the transferable mode whose distance is known. *)
Definition on_foot (j : JourneyStep) : bool :=
  ride_transferable j && match step_distance j with Some _ => true | None => false end.

Definition foot_time (rides : list JourneyStep) : Z :=
  foldr (fun j s => (if on_foot j then ride_time j else 0) + s) 0 rides.

Definition boardings (rides : list JourneyStep) : Z :=
  Z.of_nat (length (filter (fun j => ride_transferable j = false) rides)).

Definition ride_leg (j : JourneyStep) : option Leg :=
  match getFinalEnterConnection j, getFinalExitConnection j, getFinalTrip j with
  | Some e, Some x, Some t => Some (mkLeg t (getSequenceInTrip e - 1) (getSequenceInTrip x - 1))
  | _, _, _ => None
  end.

(** The time of the last exit. *)
Definition last_arrival (rides : list JourneyStep) : option Z :=
  j ← last rides; getArrivalTime <$> getFinalExitConnection j.

Lemma foot_time_app l1 l2 : foot_time (l1 ++ l2) = foot_time l1 + foot_time l2.
Proof. unfold foot_time. induction l1 as [|j l1 IH]; cbn; [lia|]. rewrite IH. lia. Qed.

Lemma boardings_app l1 l2 : boardings (l1 ++ l2) = boardings l1 + boardings l2.
Proof. unfold boardings. rewrite filter_app, length_app. lia. Qed.

Section Accounts.
Context (startTime minWaitingTimeSeconds : Z) (access egress : JourneyStep) (rides : list JourneyStep)
  (Haccess : hasConnections access = false) (Hegress : hasConnections egress = false)
  (Hrides : Forall countable rides).

Let journey : list JourneyStep := access :: rides ++ [egress].

Notation step := (journey_step false startTime minWaitingTimeSeconds journey).

Lemma walk_journey_step i j t :
  hasConnections j = false -> step i j t = Ok (walk_step startTime minWaitingTimeSeconds journey i j t).
Proof.
  intros Hj. unfold journey_step. unfold hasConnections in Hj.
  by destruct (getFinalEnterConnection j), (getFinalExitConnection j).
Qed.

(** What holds after the access walk and the rides [pre]. *)
Record accounts (pre : list JourneyStep) (t : Totals) : Prop := {
  ac_walking : totalWalkingTime t = getTransferTravelTime access + totalTransferWalkingTime t;
  ac_distance : totalWalkingDistance t = getTransferDistance access + totalTransferDistance t + 1;
  ac_access : accessWalkingTime t = getTransferTravelTime access /\
    accessDistance t = getTransferDistance access;
  ac_time : (if (length pre <? length rides)%nat || (length pre =? 0)%nat
             then transferArrivalTime t else arrivalTime t) + foot_time pre =
    startTime + totalInVehicleTime t + totalWaitingTime t + totalWalkingTime t;
  ac_waiting : pre <> [] -> totalWaitingTime t = accessWaitingTime t + totalTransferWaitingTime t;
  ac_waiting_0 : pre = [] -> totalWaitingTime t = 0 /\ totalTransferWaitingTime t = 0;
  ac_arrival : pre <> [] -> last_arrival pre = Some (arrivalTime t);
  ac_boardings : numberOfTransfers t + 1 = boardings pre;
  ac_legs : legs t = omap ride_leg pre;
  ac_known : Forall (fun d => exists z, d = Some z /\ 0 <= z) (step_distance <$> pre) ->
    0 <= getTransferDistance access -> Forall (fun j => 0 <= getTransferDistance j) pre ->
    totalDistance t = totalInVehicleDistance t + totalWalkingDistance t /\ 0 <= totalDistance t;
  ac_boarded : boarded_trips (steps t) = leg_tripOf <$> legs t
}.

Lemma accounts_access :
  accounts [] (walk_step startTime minWaitingTimeSeconds journey 0 access Totals_init).
Proof.
  split; try done; cbn; try lia.
  destruct (length rides); cbn; lia.
Qed.

(** A ride keeps the accounts. *)
Lemma accounts_ride pre j post t :
  rides = pre ++ j :: post -> accounts pre t ->
  exists t', step (S (length pre)) j t = Ok t' /\ accounts (pre ++ [j]) t'.
Proof.
  intros Hl Ht.
  assert (countable j) as (e & x & trip & [He Hx Htrip Hseq]).
  { rewrite Hl, Forall_app, Forall_cons in Hrides. tauto. }
  destruct (ride_distance_ok (segmentsDistanceMeters (trip_path trip)) (getSequenceInTrip e)
              (getSequenceInTrip x) Hseq) as [d Hd].
  assert (step_distance j = d) as Hsd by (unfold step_distance; by rewrite He, Hx, Htrip, Hd).
  assert (ride_time j = getArrivalTime x - getDepartureTime e) as Hrt by (unfold ride_time; by rewrite He, Hx).
  assert (ride_transferable j = isTransferable (line_mode (trip_line trip))) as Htr
    by (unfold ride_transferable; by rewrite Htrip).
  assert (ride_leg j = Some (mkLeg trip (getSequenceInTrip e - 1) (getSequenceInTrip x - 1))) as Hleg
    by (unfold ride_leg; by rewrite He, Hx, Htrip).
  assert (length journey - 2 = length rides)%nat as Hlen.
  { unfold journey. cbn. rewrite length_app. cbn. lia. }
  assert (length rides = S (length pre + length post))%nat as Hlr by (rewrite Hl, length_app; cbn; lia).
  unfold journey_step. rewrite He, Hx. unfold ride_step. rewrite Htrip. cbn [opt_value mbind result_bind].
  rewrite Hd. cbn [mbind result_bind andb]. rewrite Hlen, <- Htr. eexists. split; [done|].
  destruct Ht as [H1 H2 H3 H4 H5 H6 H7 H8 H9 H10 H11].
  set (tr := ride_transferable j) in *. set (inv := getArrivalTime x - getDepartureTime e) in *.
  assert (foot_time (pre ++ [j]) = foot_time pre + (if tr && match d with Some _ => true | None => false end
            then inv else 0)) as Hfoot.
  { rewrite foot_time_app. cbn. unfold on_foot. rewrite Hsd, Hrt. fold tr. lia. }
  assert (boardings (pre ++ [j]) = boardings pre + (if tr then 0 else 1)) as Hboard.
  { rewrite boardings_app. unfold boardings at 2. rewrite filter_cons. fold tr.
    destruct tr; case_decide; done. }
  assert (length (pre ++ [j]) = S (length pre)) as Hlj by (rewrite length_app; cbn; lia).
  replace (length pre <? length rides)%nat with true in H4 by (symmetry; apply Nat.ltb_lt; lia).
  cbn [orb] in H4. split; cbn [totalInVehicleTime totalWalkingTime totalWaitingTime totalTransferWalkingTime
    totalTransferWaitingTime totalDistance totalInVehicleDistance totalWalkingDistance totalTransferDistance
    transferArrivalTime arrivalTime numberOfTransfers accessWalkingTime accessDistance accessWaitingTime legs].
  - destruct d, tr; cbn [default]; lia.
  - destruct d, tr; cbn [default]; lia.
  - done.
  - rewrite Hlj, Hfoot. cbn [Nat.eqb]. rewrite orb_false_r.
    destruct (S (length pre) <? length rides)%nat; cbn [negb]; destruct d, tr; cbn [andb default]; lia.
  - intros _. destruct (Nat.eqb_spec (S (length pre)) 1) as [Hp|Hp].
    + destruct (H6 ltac:(apply length_zero_iff_nil; lia)). lia.
    + specialize (H5 ltac:(by intros ->)). lia.
  - by destruct pre.
  - intros _. unfold last_arrival. rewrite last_snoc. cbn. by rewrite Hx.
  - rewrite Hboard. destruct tr; lia.
  - rewrite omap_app. cbn. by rewrite Hleg, H9.
  - rewrite fmap_app, !Forall_app. change (step_distance <$> [j]) with [step_distance j].
    rewrite !Forall_singleton, Hsd.
    intros [K1 (z & -> & Hz)] K2 [K3 K4]. destruct (H10 K1 K2 K3) as [G1 G2]. cbn [default].
    destruct (Z.eqb_spec (totalDistance t + z) (-1)) as [|_]; [lia|].
    destruct (S (length pre) <? length rides)%nat; cbn [negb andb]; destruct tr; cbn [id]; lia.
  - cbn [steps]. rewrite boarded_app, H11, fmap_app. destruct (negb _); reflexivity.
Qed.

Lemma accounts_rides t :
  accounts [] t ->
  exists t', for_each (fun '(i, j) t => step i j t) (zip (seq 1 (length rides)) rides) t = Ok t' /\
    accounts rides t'.
Proof.
  intros Ht.
  destruct (for_each_ok (fun '(i, j) t => step i j t) (fun pre t => accounts (pre.*2) t)
    (zip (seq 1 (length rides)) rides)) with (s := t) as (t' & Hrun & Ht'); [|done|].
  - intros pre [i j] post s Hl Hs.
    assert (rides = pre.*2 ++ j :: post.*2) as Hr.
    { rewrite <- (snd_zip (seq 1 (length rides)) rides) at 1 by by rewrite length_seq.
      by rewrite Hl, fmap_app, fmap_cons. }
    assert (i = S (length pre.*2)) as ->.
    { assert (seq 1 (length rides) = pre.*1 ++ i :: post.*1) as Hi.
      { rewrite <- (fst_zip (seq 1 (length rides)) rides) by by rewrite length_seq.
        by rewrite Hl, fmap_app, fmap_cons. }
      assert (seq 1 (length rides) !! length pre = Some i) as Hlook.
      { rewrite Hi. rewrite <- (length_fmap fst pre). apply list_lookup_middle. done. }
      apply lookup_seq in Hlook as [-> _]. by rewrite length_fmap. }
    rewrite fmap_app. by eapply accounts_ride.
  - exists t'. split; [done|]. by rewrite snd_zip in Ht' by by rewrite length_seq.
Qed.

(** The numbers of a result and the journey it was made from. *)
Record balanced (res : SingleCalculationResult) : Prop := {
  bl_departure : res_departureTime res = startTime;
  bl_arrival : Some (res_arrivalTime res) =
    (fun t => t + getTransferTravelTime egress) <$> last_arrival rides;
  bl_travel : res_totalTravelTime res = res_arrivalTime res - res_departureTime res;
  bl_parts : res_totalTravelTime res + foot_time rides =
    res_totalInVehicleTime res + res_totalWaitingTime res + res_totalNonTransitTravelTime res;
  bl_walking : res_totalNonTransitTravelTime res =
    res_accessTravelTime res + res_transferWalkingTime res + res_egressTravelTime res;
  bl_waiting : res_totalWaitingTime res = res_firstWaitingTime res + res_transferWaitingTime res;
  bl_distance : res_totalNonTransitDistance res =
    res_accessDistance res + (res_transferWalkingDistance res + 1) + res_egressDistance res;
  bl_ends : res_accessTravelTime res = getTransferTravelTime access /\
    res_accessDistance res = getTransferDistance access /\
    res_egressTravelTime res = getTransferTravelTime egress /\
    res_egressDistance res = getTransferDistance egress;
  bl_boardings : res_numberOfBoardings res = boardings rides /\
    res_numberOfTransfers res = Z.max 0 (boardings rides - 1);
  bl_legs : res_legs res = omap ride_leg rides;
  bl_total : Forall (fun d => exists z, d = Some z /\ 0 <= z) (step_distance <$> rides) ->
    Forall (fun j => 0 <= getTransferDistance j) (access :: rides) ->
    res_totalDistance res = res_totalInVehicleDistance res + res_totalNonTransitDistance res;
  bl_boarded : boarded_trips (res_steps res) = leg_tripOf <$> res_legs res
}.

Lemma boardings_nonneg : 0 <= boardings rides.
Proof. unfold boardings. lia. Qed.

Lemma zip_journey :
  zip (seq 0 (length journey)) journey =
  (0%nat, access) :: zip (seq 1 (length rides)) rides ++ [(S (length rides), egress)].
Proof.
  assert (length journey = S (length rides + 1)) as ->.
  { unfold journey. cbn. rewrite length_app. cbn. lia. }
  unfold journey. cbn [seq zip zip_with]. f_equal.
  rewrite seq_app, zip_with_app by by rewrite length_seq. done.
Qed.

Lemma journey_balanced :
  rides <> [] ->
  exists res, journey_result false startTime minWaitingTimeSeconds journey = Ok res /\ balanced res.
Proof using Haccess Hegress Hrides.
  intros Hne. unfold journey_result, journey_totals. rewrite zip_journey.
  destruct (accounts_rides _ accounts_access) as (t & Hrun & [H1 H2 H3 H4 H5 H6 H7 H8 H9 H10 H11]).
  cbn [for_each]. rewrite walk_journey_step by done. cbn [mbind result_bind].
  rewrite for_each_app, Hrun. cbn [mbind result_bind for_each].
  rewrite walk_journey_step by done. cbn [mbind result_bind]. eexists. split; [done|].
  replace (length rides <? length rides)%nat with false in H4 by (symmetry; apply Nat.ltb_irrefl).
  replace (length rides =? 0)%nat with false in H4
    by (symmetry; apply Nat.eqb_neq; by destruct rides).
  specialize (H5 Hne). specialize (H7 Hne). pose proof boardings_nonneg as Hb. destruct H3 as [Ha1 Ha2].
  unfold walk_step. cbn [Nat.eqb orb] in *.
  split; cbn [res_departureTime res_arrivalTime res_totalTravelTime res_totalDistance res_totalInVehicleTime
    res_totalInVehicleDistance res_totalNonTransitTravelTime res_totalNonTransitDistance
    res_numberOfBoardings res_numberOfTransfers res_transferWalkingTime res_transferWalkingDistance
    res_accessTravelTime res_accessDistance res_egressTravelTime res_egressDistance
    res_transferWaitingTime res_firstWaitingTime res_totalWaitingTime res_legs
    totalInVehicleTime totalWalkingTime totalWaitingTime totalTransferWalkingTime
    totalTransferWaitingTime totalDistance totalInVehicleDistance totalWalkingDistance totalTransferDistance
    transferArrivalTime arrivalTime numberOfTransfers accessWalkingTime accessDistance accessWaitingTime
    egressWalkingTime egressDistance minimizedDepartureTime legs]; try lia.
  - by rewrite H7.
  - split; [done|]. destruct (Z.eqb_spec (numberOfTransfers t) (-1)); lia.
  - done.
  - intros K1 K2. rewrite Forall_cons in K2. destruct K2 as [K2 K3].
    destruct (H10 K1 K2 K3) as [G1 G2].
    destruct (Z.eqb_spec (totalDistance t) (-1)); [lia|]. cbn [negb]. lia.
  - cbn [res_steps steps]. by rewrite boarded_app, H11, app_nil_r.
Qed.
End Accounts.
