(* ===== verification/ReverseCorrect.v ===== *)
(** * Correctness of the reverse scan

    The mirror of [ForwardCorrect.v]: the relation [departs] says when a traveller
    still at a node can reach the destination by the arrival time. [RSound] says that
    the state of a scan holds only such instants, with the journeys that follow
    them; [RComplete] that it holds the latest ones. *)

From Stdlib Require Import ZArith Lia Sorted.
From stdpp Require Import base list gmap strings.
From S2P Require Import Prelude.
From S2P Require Import Data.
From S2P Require Import ConnectionSet.
From S2P Require Import Calculator.
From S2P Require Import Demo.
From S2P Require Import ForwardCalculation.
From S2P Require Import ForwardCorrect.
From S2P Require Import ReverseCalculation.

Local Open Scope Z_scope.

(** Boarding at [e] and getting off at [x], on the same trip; the list is in the
    order of the reverse scan, which meets [x] first. *)
Record rleg (L : list Connection) (e x : Connection) : Prop := {
  rleg_order : before_in L x e;
  rleg_trip : trip_uid (getTrip e) = trip_uid (getTrip x);
  rleg_board : canBoard e = true;
  rleg_unboard : canUnboard x = true
}.

Section Spec.
Context (p : CommonParameters) (c : Calculator).

(** A traveller who leaves node [n] at time [t], on foot or after the waiting time,
    reaches the destination in time. *)
Inductive departs (L : list Connection) : uid -> Z -> Prop :=
| departs_walk n t :
    nodesReverseTentativeTime c !! n = Some t -> 0 <= t -> departs L n t
| departs_ride e x footpath t :
    rleg L e x ->
    departs L (node_uid (getArrivalNode x)) t ->
    getArrivalTime x <= t ->
    footpath ∈ reverseTransferableNodes (getDepartureNode e) ->
    ntd_time footpath <= getMaxTransferWalkingTravelTimeSeconds p ->
    departs L (ntd_node footpath) (getDepartureTime e - ntd_time footpath - minWaiting p e).

(** Boarding at [e] and getting off at [x] leads to the destination in time. *)
Definition rrides (L : list Connection) (e x : Connection) : Prop :=
  rleg L e x /\
  exists t, departs L (node_uid (getArrivalNode x)) t /\ getArrivalTime x <= t.

(** What the proofs ask of a connection. *)
Record rconn_ok (conn : Connection) : Prop := {
  rconn_time : 0 <= getDepartureTime conn < getArrivalTime conn;
  rconn_wait : 0 <= minWaiting p conn;
  rconn_arr_uid : (node_uid (getArrivalNode conn) < length (nodesReverseTentativeTime c))%nat;
  rconn_trip_uid : (trip_uid (getTrip conn) < length (tripsQueryOverlay c))%nat;
  rconn_transfers :
    Forall (fun f => (ntd_node f < length (nodesReverseTentativeTime c))%nat /\ 0 <= ntd_time f)
      (reverseTransferableNodes (getDepartureNode conn))
}.

(** The state [reset] leaves: no trip left, no journey. *)
Record rstart_ok : Prop := {
  rstart_length : length (reverseJourneysSteps c) = length (nodesReverseTentativeTime c);
  rstart_steps : Forall (fun s => getFinalEnterConnection s = None /\ getFinalExitConnection s = None)
                  (reverseJourneysSteps c);
  rstart_trips : Forall (fun q => exitConnection q = None) (tripsQueryOverlay c)
}.
End Spec.

(** A time of a vector is at least [t]. *)
Definition at_least (l : list Z) (n : uid) (t : Z) : Prop := exists t', l !! n = Some t' /\ t <= t'.

(** The map of access steps has a departure from [n] no earlier than [t]. *)
Definition leaves_by (m : gmap uid JourneyStep) (n : uid) (t : Z) : Prop :=
  exists s e, m !! n = Some s /\ getFinalEnterConnection s = Some e /\ t <= getDepartureTime e.

(** A later state of a scan keeps what an earlier one has. *)
Record revolves (st st' : ReverseState) : Prop := {
  rev_ev_times : forall n t, at_least (rev_times st) n t -> at_least (rev_times st') n t;
  rev_ev_access : forall n t, leaves_by (rev_access st) n t -> leaves_by (rev_access st') n t;
  rev_ev_trips : forall u q, rev_trips st !! u = Some q ->
    exists q', rev_trips st' !! u = Some q' /\ usable q' = usable q /\
      (is_Some (exitConnection q) -> is_Some (exitConnection q'))
}.

#[export] Instance revolves_refl : Reflexive revolves.
Proof. intros st. split; eauto. Qed.
#[export] Instance revolves_trans : Transitive revolves.
Proof.
  intros a b d [H1 H2 H3] [G1 G2 G3]. split; [auto..|].
  intros u q Hq. destruct (H3 u q Hq) as (q' & Hq' & Hu & He).
  destruct (G3 u q' Hq') as (q2 & Hq2 & Hu2 & He2). exists q2. split_and!; [done|congruence|auto].
Qed.

Lemma at_least_ge l n t t' : at_least l n t -> t' <= t -> at_least l n t'.
Proof. intros (v & Hv & Hle) H. exists v. split; [done | lia]. Qed.

Lemma at_least_insert l n v m t :
  (forall w, l !! n = Some w -> w <= v) -> at_least l m t -> at_least (<[n := v]> l) m t.
Proof.
  intros Hv (w & Hw & Hle). destruct (decide (n = m)) as [->|Hne].
  - exists v. split; [|specialize (Hv w Hw); lia].
    apply list_lookup_insert_eq. by eapply lookup_lt_Some.
  - exists w. split; [|done]. by rewrite list_lookup_insert_ne.
Qed.

Section RSound.
Context (p : CommonParameters) (c : Calculator).
Notation departs := (departs p c).
Notation minWaiting := (minWaiting p).

(** The journey step of node [n]: none, and only the walk to the destination is
    left if anything is, or a footpath and a ride that give its tentative time. *)
Definition rstep_ok (L : list Connection) (times : list Z) (n : uid) (s : JourneyStep) : Prop :=
  (getFinalEnterConnection s = None /\ getFinalExitConnection s = None /\
   times !! n = nodesReverseTentativeTime c !! n) \/
  exists e x f,
    s = mkJourneyStep (Some e) (Some x) (Some (getTrip e)) (ntd_time f)
          (Nat.eqb (node_uid (getDepartureNode e)) n) (ntd_distance f) /\
    rleg L e x /\ f ∈ reverseTransferableNodes (getDepartureNode e) /\ ntd_node f = n /\
    ntd_time f <= getMaxTransferWalkingTravelTimeSeconds p /\
    times !! n = Some (getDepartureTime e - ntd_time f - minWaiting e) /\
    at_least times (node_uid (getArrivalNode x)) (getArrivalTime x).

(** The access step of node [n]: a ride that starts there. *)
Definition access_ok (L : list Connection) (times : list Z) (n : uid) (s : JourneyStep) : Prop :=
  exists e x,
    s = mkJourneyStep (Some e) (Some x) (Some (getTrip e)) 0 true 0 /\
    rleg L e x /\ node_uid (getDepartureNode e) = n /\ access_departure_ok p c e = true /\
    at_least times (node_uid (getArrivalNode x)) (getArrivalTime x).

Definition left_ok (L : list Connection) (times : list Z) (u : uid) (x : Connection) : Prop :=
  x ∈ L /\ trip_uid (getTrip x) = u /\ canUnboard x = true /\
  at_least times (node_uid (getArrivalNode x)) (getArrivalTime x).

(** The invariant of the scan, [L] being the connections seen. *)
Record RSound (L : list Connection) (st : ReverseState) : Prop := {
  rs_times_len : length (rev_times st) = length (nodesReverseTentativeTime c);
  rs_steps_len : length (rev_steps st) = length (nodesReverseTentativeTime c);
  rs_trips_len : length (rev_trips st) = length (tripsQueryOverlay c);
  rs_reach : forall n t, rev_times st !! n = Some t -> 0 <= t -> departs L n t;
  rs_steps : forall n s, rev_steps st !! n = Some s -> rstep_ok L (rev_times st) n s;
  rs_access : forall n s, rev_access st !! n = Some s -> access_ok L (rev_times st) n s;
  rs_trips : forall u q x, rev_trips st !! u = Some q -> exitConnection q = Some x ->
    left_ok L (rev_times st) u x;
  rs_usable : forall u q q0, rev_trips st !! u = Some q -> tripsQueryOverlay c !! u = Some q0 ->
    usable q = usable q0
}.

Lemma rleg_app L L' e x : rleg L e x -> rleg (L ++ L') e x.
Proof. intros []. split; try done. by apply before_in_app. Qed.

Lemma departs_app L L' n t : departs L n t -> departs (L ++ L') n t.
Proof.
  induction 1; [by apply departs_walk | eapply departs_ride; eauto using rleg_app].
Qed.

Lemma rrides_app L L' e x : rrides p c L e x -> rrides p c (L ++ L') e x.
Proof. intros [Hl (t & Ht & Hw)]. split; [by apply rleg_app|]. eauto using departs_app. Qed.

Lemma RSound_app L L' st : RSound L st -> RSound (L ++ L') st.
Proof.
  intros [H1 H2 H3 H4 H5 H6 H7 H8]. split; [done..| | | | |done].
  - intros n t Hn Ht. by apply departs_app, H4.
  - intros n s Hs. destruct (H5 n s Hs) as [H | (e & x & f & H & Hl & Hr)]; [by left|].
    right. exists e, x, f. split_and!; [done | by apply rleg_app | apply Hr..].
  - intros n s Hs. destruct (H6 n s Hs) as (e & x & H & Hl & Hr).
    exists e, x. split_and!; [done | by apply rleg_app | apply Hr..].
  - intros u q x Hq Hx. destruct (H7 u q x Hq Hx) as (Hin & Hr). split; [set_solver | done].
Qed.

(** Getting off in time means that the stop still leads to the destination. *)
Lemma RSound_leaving L st x :
  RSound L st -> rconn_ok p c x ->
  at_least (rev_times st) (node_uid (getArrivalNode x)) (getArrivalTime x) ->
  exists t, departs L (node_uid (getArrivalNode x)) t /\ getArrivalTime x <= t.
Proof.
  intros HS Hx (t & Ht & Hle). exists t. split; [|done].
  eapply rs_reach; [exact HS | exact Ht |]. destruct Hx. lia.
Qed.

(** *** Relaxing a node *)

Section Relax.
Context (L : list Connection) (st : ReverseState) (x conn : Connection) (f : NodeTimeDistance).
Context (HS : RSound L st) (Hx : rconn_ok p c x) (Hconn : rconn_ok p c conn).
Context (Hleg : rleg L conn x) (Hf : f ∈ reverseTransferableNodes (getDepartureNode conn)).
Context (Hmax : ntd_time f <= getMaxTransferWalkingTravelTimeSeconds p).
Context (Hleave : at_least (rev_times st) (node_uid (getArrivalNode x)) (getArrivalTime x)).

Let n := ntd_node f.
Let v := getDepartureTime conn - ntd_time f - minWaiting conn.
Let times' := <[n := v]> (rev_times st).
Let step same := mkJourneyStep (Some conn) (Some x) (Some (getTrip conn)) (ntd_time f) same
                   (ntd_distance f).

Lemma relax_departs : departs L n v.
Proof using HS Hx Hleg Hf Hmax Hleave.
  destruct (RSound_leaving L st x HS Hx Hleave) as (t & Ht & Hle).
  unfold n, v. by eapply departs_ride.
Qed.

Lemma rrelax_sound cur :
  rev_times st !! n = Some cur -> cur <= v ->
  let st' := rev_with_times_steps times'
               (<[n := step (Nat.eqb (node_uid (getDepartureNode conn)) n)]> (rev_steps st)) st in
  RSound L st' /\ revolves st st' /\ at_least times' n v.
Proof using HS Hx Hleg Hf Hmax Hleave Hconn.
  intros Hcur Hlt st'. pose proof (lookup_lt_Some _ _ _ Hcur) as Hlen.
  assert (forall w, rev_times st !! n = Some w -> w <= v) as Hle.
  { intros w Hw. assert (w = cur) as -> by congruence. lia. }
  assert (times' !! n = Some v) as Hn by by apply list_lookup_insert_eq.
  assert (forall m t, at_least (rev_times st) m t -> at_least times' m t) as Hmono.
  { intros m t. by apply at_least_insert. }
  pose proof relax_departs as Hreach.
  destruct HS as [H1 H2 H3 H4 H5 H6 H7 H8]. split_and!; [| |by exists v; split].
  - split; cbn; try done.
    + unfold times'. by rewrite length_insert.
    + by rewrite length_insert.
    + intros m t Hm Ht. destruct (decide (n = m)) as [<-|Hne].
      * by assert (t = v) as -> by congruence.
      * unfold times' in Hm. rewrite list_lookup_insert_ne in Hm by done. by apply H4.
    + intros m s Hs. destruct (decide (n = m)) as [<-|Hne].
      * rewrite list_lookup_insert_eq in Hs by lia. injection Hs as <-.
        right. exists conn, x, f. split_and!; auto.
      * rewrite list_lookup_insert_ne in Hs by done.
        destruct (H5 m s Hs) as [(G1 & G2 & G3) | (e' & x' & g & Gs & Gl & Gin & Gn & Gm & Gt & Gb)].
        -- left. split_and!; [done..|]. unfold times'. by rewrite list_lookup_insert_ne.
        -- right. exists e', x', g. unfold times' at 1. rewrite list_lookup_insert_ne by done.
           split_and!; auto.
    + intros m s Hs. destruct (H6 m s Hs) as (e' & x' & Gs & Gl & Gn & Ga & Gb).
      exists e', x'. split_and!; auto.
    + intros u q b Hq Hb. destruct (H7 u q b Hq Hb) as (Gin & Gt & Gb & Ga). split_and!; auto.
  - split; cbn; eauto.
Qed.

Lemma access_sound :
  n = node_uid (getDepartureNode conn) -> access_departure_ok p c conn = true ->
  (forall t, leaves_by (rev_access st) n t -> t <= getDepartureTime conn) ->
  let st' := rev_with_access
               (<[n := mkJourneyStep (Some conn) (Some x) (Some (getTrip conn)) 0 true 0]> (rev_access st)) st in
  RSound L st' /\ revolves st st' /\ leaves_by (rev_access st') n (getDepartureTime conn).
Proof using HS Hx Hleg Hf Hmax Hleave Hconn.
  intros Hn Hacc Hbest st'. destruct HS as [H1 H2 H3 H4 H5 H6 H7 H8].
  set (s0 := mkJourneyStep (Some conn) (Some x) (Some (getTrip conn)) 0 true 0) in *.
  assert (rev_access st' !! n = Some s0) as Hst' by apply lookup_insert_eq.
  split_and!; [split; try done| |].
  - intros m s Hs. cbn in Hs. destruct (decide (n = m)) as [<-|Hne].
    + rewrite lookup_insert_eq in Hs. injection Hs as <-. exists conn, x. by split_and!.
    + rewrite lookup_insert_ne in Hs by done. by apply H6.
  - split; [done| |eauto]. intros m t Hex. destruct (decide (n = m)) as [<-|Hne].
    + exists s0, conn. split_and!; [done..|]. by apply Hbest.
    + destruct Hex as (s & e & Hs & Hr). exists s, e. cbn. by rewrite lookup_insert_ne.
  - exists s0, conn. split_and!; [done..|]. lia.
Qed.
End Relax.

Lemma reverse_transfer_sound L st x conn f :
  RSound L st -> rconn_ok p c x -> rconn_ok p c conn -> rleg L conn x ->
  at_least (rev_times st) (node_uid (getArrivalNode x)) (getArrivalTime x) ->
  f ∈ reverseTransferableNodes (getDepartureNode conn) ->
  exists st', reverse_transfer p c conn (Some x) f st = Ok st' /\
    RSound L st' /\ revolves st st' /\ rev_trips st' = rev_trips st /\
    (ntd_time f <= getMaxTransferWalkingTravelTimeSeconds p ->
     at_least (rev_times st') (ntd_node f) (getDepartureTime conn - ntd_time f - minWaiting conn) /\
     (ntd_node f = node_uid (getDepartureNode conn) -> access_departure_ok p c conn = true ->
      leaves_by (rev_access st') (ntd_node f) (getDepartureTime conn - minWaiting conn))).
Proof.
  intros HS Hx Hconn Hleg Hleave Hf.
  destruct (proj1 (Forall_forall _ _) (rconn_transfers _ _ _ Hconn) f Hf) as (Hlen & Hpos).
  destruct (lookup_lt_is_Some_2 (rev_times st) (ntd_node f)) as [cur Hcur].
  { by rewrite (rs_times_len _ _ HS). }
  destruct (lookup_lt_is_Some_2 (rev_steps st) (ntd_node f)) as [old Hold].
  { by rewrite (rs_steps_len _ _ HS). }
  set (v := getDepartureTime conn - ntd_time f - minWaiting conn).
  unfold reverse_transfer, vec_at. rewrite Hcur.
  set (isDep := Nat.eqb (node_uid (getDepartureNode conn)) (ntd_node f)).
  match goal with |- context [mbind _ (if negb isDep then ?m else _)] =>
    replace (if negb isDep then m else Ok false) with
      (Ok (E := exn) (negb isDep && (cur >? getDepartureTime conn - minWaiting conn)))
      by (by destruct isDep) end.
  cbn [mbind result_bind].
  destruct (negb isDep && _) eqn:Eskip.
  { (* continue: a later departure is known *)
    apply andb_true_iff in Eskip as [Hne Hgt]. apply negb_true_iff, Nat.eqb_neq in Hne.
    apply Z.gtb_lt in Hgt. exists st. split_and!; try done. intros _. split; [|congruence].
    exists cur. split; [done | unfold v; lia]. }
  destruct (Z.leb_spec (ntd_time f) (getMaxTransferWalkingTravelTimeSeconds p)) as [Hmax|Hmax].
  2: { exists st. split_and!; try done. lia. }
  cbn [mbind result_bind]. fold v.
  set (st1 := if v >=? cur
              then rev_with_times_steps (<[ntd_node f := v]> (rev_times st))
                     (<[ntd_node f := mkJourneyStep (Some conn) (Some x) (Some (getTrip conn))
                          (ntd_time f) isDep (ntd_distance f)]> (rev_steps st)) st
              else st).
  match goal with |- context [mbind _ (if v >=? cur then ?m else _)] =>
    replace (if v >=? cur then m else Ok st) with (Ok (E := exn) st1) end.
  2: { unfold st1, vec_set, vec_at_set. rewrite Hcur, Hold. by destruct (v >=? cur). }
  assert (RSound L st1 /\ revolves st st1 /\ at_least (rev_times st1) (ntd_node f) v /\
          rev_trips st1 = rev_trips st) as (HS1 & Hev1 & Hat1 & Htr1).
  { unfold st1. destruct (Z.geb_spec v cur) as [Hge|Hlt].
    - by destruct (rrelax_sound L st x conn f HS Hx Hconn Hleg Hf Hmax Hleave cur Hcur) as (G1 & G2 & G3).
    - split_and!; try done. exists cur. split; [done | lia]. }
  cbn [mbind result_bind]. unfold isDep.
  destruct (Nat.eqb_spec (node_uid (getDepartureNode conn)) (ntd_node f)) as [Hdep|Hdep].
  2: { exists st1. by split_and!. }
  assert (at_least (rev_times st1) (node_uid (getArrivalNode x)) (getArrivalTime x)) as Hb1
    by by apply (rev_ev_times st st1).
  assert (forall b : bool,
    (b = false -> leaves_by (rev_access st1) (ntd_node f) (getDepartureTime conn - minWaiting conn)) ->
    (b = true -> forall t, leaves_by (rev_access st1) (ntd_node f) t -> t <= getDepartureTime conn) ->
    let st2 := if b && access_departure_ok p c conn
               then rev_with_access (<[ntd_node f := mkJourneyStep (Some conn) (Some x)
                      (Some (getTrip conn)) 0 true 0]> (rev_access st1)) st1
               else st1 in
    RSound L st2 /\ revolves st st2 /\ rev_trips st2 = rev_trips st /\
    at_least (rev_times st2) (ntd_node f) v /\
    (access_departure_ok p c conn = true ->
     leaves_by (rev_access st2) (ntd_node f) (getDepartureTime conn - minWaiting conn))) as Hfin.
  { intros b Hno Hyes; cbv zeta.
    destruct b, (access_departure_ok p c conn) eqn:Hacc; cbn [andb]; try (by split_and!; auto).
    destruct (access_sound L st1 x conn f HS1 Hx Hconn Hleg Hf Hmax Hb1) as (G1 & G2 & s & e & Hs & He & Hle);
      [done|done|auto|].
    split_and!; try done; [by transitivity st1|]. intros _. exists s, e. split_and!; [done..|].
    destruct Hconn. lia. }
  destruct (rev_access st1 !! ntd_node f) as [s|] eqn:Es.
  - destruct (rs_access _ _ HS1 _ _ Es) as (e' & x' & -> & _).
    cbn [opt_value getFinalEnterConnection mbind result_bind].
    destruct (Hfin (getDepartureTime e' <=? getDepartureTime conn - minWaiting conn)) as (G1 & G2 & G3 & G4 & G5).
    + intros He. eexists. exists e'. split_and!; [exact Es | done | lia].
    + intros He t (s' & e0 & Hs' & He0 & Hle). rewrite Es in Hs'. injection Hs' as <-.
      cbn in He0. injection He0 as <-. destruct Hconn. lia.
    + eexists. split; [reflexivity|]. by split_and!.
  - destruct (Hfin true) as (G1 & G2 & G3 & G4 & G5); [done| |].
    + intros _ t (s' & x' & Hs' & _). congruence.
    + eexists. split; [reflexivity|]. by split_and!.
Qed.

(** *** A connection *)

(** The effect of boarding at the departure node of [conn], for the footpaths of [l]. *)
Definition rtransfers_done (conn : Connection) (l : list NodeTimeDistance) (st : ReverseState) : Prop :=
  forall f, f ∈ l -> ntd_time f <= getMaxTransferWalkingTravelTimeSeconds p ->
    at_least (rev_times st) (ntd_node f) (getDepartureTime conn - ntd_time f - minWaiting conn) /\
    (ntd_node f = node_uid (getDepartureNode conn) -> access_departure_ok p c conn = true ->
     leaves_by (rev_access st) (ntd_node f) (getDepartureTime conn - minWaiting conn)).

Lemma rtransfers_done_evolves conn l st st' :
  revolves st st' -> rtransfers_done conn l st -> rtransfers_done conn l st'.
Proof.
  intros Hev Hd f Hf Hmax. destruct (Hd f Hf Hmax) as [H1 H2].
  split; [by apply (rev_ev_times st st') | intros Hn Ha; apply (rev_ev_access st st'); auto].
Qed.

Lemma reverse_transfers_sound L st x conn l :
  RSound L st -> rconn_ok p c x -> rconn_ok p c conn -> rleg L conn x ->
  at_least (rev_times st) (node_uid (getArrivalNode x)) (getArrivalTime x) ->
  l ⊆ reverseTransferableNodes (getDepartureNode conn) ->
  exists st', for_each (reverse_transfer p c conn (Some x)) l st = Ok st' /\
    RSound L st' /\ revolves st st' /\ rev_trips st' = rev_trips st /\ rtransfers_done conn l st'.
Proof.
  intros HS Hx Hconn Hleg Hleave Hl.
  apply (for_each_ok _ (fun pre s => RSound L s /\ revolves st s /\ rev_trips s = rev_trips st /\
           rtransfers_done conn pre s)).
  - intros pre f post s -> (G1 & G2 & G3 & G4).
    destruct (reverse_transfer_sound L s x conn f G1 Hx Hconn Hleg) as (s' & Hrun & K1 & K2 & K3 & K4).
    { by apply (rev_ev_times st s). }
    { apply Hl. set_solver. }
    exists s'. split; [done|]. split_and!; [done | by transitivity s | congruence |].
    intros g Hg. apply elem_of_app in Hg as [Hg | Hg%list_elem_of_singleton].
    + by apply (rtransfers_done_evolves conn pre s s').
    + subst g. auto.
  - split_and!; try done. intros f Hf. by apply elem_of_nil in Hf.
Qed.

Lemma reverse_is_reachable_sound L conn exit st :
  RSound L st -> rconn_ok p c conn ->
  exists b, reverse_is_reachable conn exit st = Ok b /\
    (b = true <-> is_Some exit \/
       at_least (rev_times st) (node_uid (getArrivalNode conn)) (getArrivalTime conn)).
Proof.
  intros HS Hconn.
  destruct (lookup_lt_is_Some_2 (rev_times st) (node_uid (getArrivalNode conn))) as [t Ht].
  { rewrite (rs_times_len _ _ HS). by destruct Hconn. }
  unfold reverse_is_reachable, vec_at. rewrite Ht. cbn [mbind result_bind].
  eexists. split; [done|]. rewrite orb_true_iff, bool_decide_eq_true, Z.geb_le.
  split; (intros [?|H]; [by left | right]); [by exists t|].
  destruct H as (t' & Ht' & Hle). by assert (t' = t) as -> by congruence.
Qed.

Lemma reverse_unboard_sound L conn overlay st :
  RSound L st -> Forall (rconn_ok p c) L -> rconn_ok p c conn -> conn ∈ L ->
  rev_trips st !! trip_uid (getTrip conn) = Some overlay ->
  is_Some (exitConnection overlay) \/
    at_least (rev_times st) (node_uid (getArrivalNode conn)) (getArrivalTime conn) ->
  exists overlay' st', reverse_unboard p conn overlay st = Ok (overlay', st') /\
    RSound L st' /\ revolves st st' /\ rev_times st' = rev_times st /\
    rev_trips st' !! trip_uid (getTrip conn) = Some overlay' /\
    (is_Some (exitConnection overlay) \/ canUnboard conn = true -> is_Some (exitConnection overlay')).
Proof.
  intros HS Hok Hconn Hin Hover Hor. unfold reverse_unboard.
  destruct (canUnboard conn) eqn:Hcu.
  2: { exists overlay, st. split_and!; try done. by intros [|]. }
  destruct (lookup_lt_is_Some_2 (rev_steps st) (node_uid (getArrivalNode conn))) as [s Hs].
  { rewrite (rs_steps_len _ _ HS). by destruct Hconn. }
  destruct (lookup_lt_is_Some_2 (rev_times st) (node_uid (getArrivalNode conn))) as [t Ht].
  { rewrite (rs_times_len _ _ HS). by destruct Hconn. }
  unfold vec_at, vec_set. rewrite Hs, Ht, Hover. cbn [mbind result_bind].
  set (chosen := match exitConnection overlay with None => _ | Some _ => _ end).
  destruct chosen eqn:Hch; cycle 1.
  { exists overlay, st. split_and!; try done. intros _. unfold chosen in Hch.
    destruct (exitConnection overlay); [done | discriminate Hch]. }
  assert (at_least (rev_times st) (node_uid (getArrivalNode conn)) (getArrivalTime conn)) as Hat.
  { unfold chosen in Hch. destruct (exitConnection overlay) as [x0|]; [|by destruct Hor as [[? ?]|]].
    destruct (getFinalEnterConnection s) as [next|] eqn:He; [|done].
    rewrite !andb_true_iff in Hch. destruct Hch as [_ Hle%Z.leb_le].
    destruct (rs_steps _ _ HS _ _ Hs) as [[? _] | (e & x & f & -> & Hleg & _)]; [congruence|].
    cbn in He. injection He as ->.
    destruct (before_in_elem _ _ _ (rleg_order _ _ _ Hleg)) as [_ Hnext].
    rewrite Forall_forall in Hok. destruct (Hok next Hnext). exists t. split; [done|lia]. }
  eexists _, _. split; [reflexivity|].
  set (overlay' := mkTripQueryData _ _ _ _ _). set (u := trip_uid (getTrip conn)) in *.
  pose proof (lookup_lt_Some _ _ _ Hover) as Hlt.
  assert (<[u := overlay']> (rev_trips st) !! u = Some overlay') as Hu by by apply list_lookup_insert_eq.
  destruct HS as [H1 H2 H3 H4 H5 H6 H7 H8]. split_and!; try done.
  - split; cbn; try done; [by rewrite length_insert|..].
    + intros v q e Hq He. destruct (decide (u = v)) as [<-|Hne].
      * rewrite Hu in Hq. injection Hq as <-. cbn in He. injection He as <-. by split.
      * rewrite list_lookup_insert_ne in Hq by done. by apply (H7 v q e).
    + intros v q q0 Hq Hq0. destruct (decide (u = v)) as [<-|Hne].
      * rewrite Hu in Hq. injection Hq as <-. cbn. by apply (H8 u).
      * rewrite list_lookup_insert_ne in Hq by done. by apply (H8 v).
  - split; cbn; try done. intros v q Hq. destruct (decide (u = v)) as [<-|Hne].
    + rewrite Hover in Hq. injection Hq as <-. exists overlay'. split_and!; [done..|]. cbn. eauto.
    + exists q. by rewrite list_lookup_insert_ne.
Qed.

Lemma rcount_sound L st st1 :
  RSound L st1 -> revolves st st1 ->
  RSound L (rev_count_reachable st1) /\ revolves st (rev_count_reachable st1).
Proof. intros [] Hev. split; [by split|]. transitivity st1; [done|]. split; cbn; eauto. Qed.

Definition has_exit (st : ReverseState) (u : uid) : Prop :=
  exists q, rev_trips st !! u = Some q /\ is_Some (exitConnection q).

(** What a visited connection achieves when its arrival leads to the destination. *)
Definition rvisit_done (conn : Connection) (st st' : ReverseState) : Prop :=
  let u := trip_uid (getTrip conn) in
  has_exit st u \/ (canUnboard conn = true /\
    at_least (rev_times st) (node_uid (getArrivalNode conn)) (getArrivalTime conn)) ->
  has_exit st' u /\
  (canBoard conn = true -> rtransfers_done conn (reverseTransferableNodes (getDepartureNode conn)) st').

Lemma reverse_visit_sound pre conn overlay st :
  RSound pre st -> Forall (rconn_ok p c) (pre ++ [conn]) ->
  rev_trips st !! trip_uid (getTrip conn) = Some overlay ->
  exists st' b, reverse_visit p c conn overlay st = Ok (st', b) /\
    RSound (pre ++ [conn]) st' /\ revolves st st' /\
    (b = true -> canBoard conn = true /\
       rtransfers_done conn (reverseTransferableNodes (getDepartureNode conn)) st' /\
       exists x, rrides p c (pre ++ [conn]) conn x) /\
    rvisit_done conn st st'.
Proof.
  intros HS0 Hok Hover. pose proof (RSound_app pre [conn] st HS0) as HS.
  assert (rconn_ok p c conn) as Hconn.
  { rewrite Forall_app in Hok. destruct Hok as [_ Hok]. by inversion Hok. }
  destruct (reverse_is_reachable_sound _ conn (exitConnection overlay) st HS Hconn)
    as (reach & Hreach & Hr).
  unfold reverse_visit. rewrite Hreach. cbn [mbind result_bind].
  assert (has_exit st (trip_uid (getTrip conn)) -> is_Some (exitConnection overlay)) as Hexit
    by (intros (q & Hq & He); congruence).
  destruct reach; cycle 1.
  { exists st, false. split_and!; try done. intros Hor.
    assert (false = true); [|done]. apply Hr. destruct Hor as [He|[_ Hor]]; [left; auto | by right]. }
  pose proof (proj1 Hr eq_refl) as Hr1.
  assert (conn ∈ pre ++ [conn]) as Hin by set_solver.
  destruct (reverse_unboard_sound _ conn overlay st HS Hok Hconn Hin Hover Hr1)
    as (overlay' & st1 & Hrun & HS1 & Hev1 & Ht1 & Hover1 & Hleft).
  rewrite Hrun. cbn [mbind result_bind].
  destruct (rcount_sound _ st st1 HS1 Hev1) as [HS1' Hev1'].
  destruct (canBoard conn) eqn:Hcb; cbn [andb].
  2: { eexists _, _. split; [reflexivity|]. split_and!; try done.
       intros Hor. split; [|intros; congruence]. exists overlay'. split; [done|]. apply Hleft.
       destruct Hor as [He|[? _]]; [left; auto | by right]. }
  destruct (bool_decide (is_Some (exitConnection overlay'))) eqn:Hd.
  2: { apply bool_decide_eq_false in Hd. eexists _, _. split; [reflexivity|]. split_and!; try done.
       intros Hor. exfalso. apply Hd, Hleft. destruct Hor as [He|[? _]]; [left; auto | by right]. }
  apply bool_decide_eq_true in Hd as [x Hx]. rewrite Hx.
  destruct (rs_trips _ _ HS1 _ _ _ Hover1 Hx) as (Hxin & Hxt & Hxc & Hxb).
  assert (rleg (pre ++ [conn]) conn x) as Hleg.
  { split; [|done..]. apply elem_of_app in Hxin as [Hxin | ->%list_elem_of_singleton].
    - by apply before_in_last.
    - apply before_in_self. }
  assert (rconn_ok p c x) as Hxok by by apply (proj1 (Forall_forall _ _) Hok).
  destruct (reverse_transfers_sound _ st1 x conn (reverseTransferableNodes (getDepartureNode conn))
              HS1 Hxok Hconn Hleg Hxb) as (st2 & Hrun2 & HS2 & Hev2 & Htr2 & Hdone); [done|].
  rewrite Hrun2. cbn [mbind result_bind].
  destruct (rcount_sound _ st st2 HS2) as [HS2' Hev2']; [by transitivity st1|].
  eexists _, _. split; [reflexivity|]. split_and!; try done.
  - intros _. split_and!; try done. exists x. split; [done|]. by apply (RSound_leaving _ st1).
  - intros _. split; [|done]. exists overlay'. cbn. rewrite Htr2. eauto.
Qed.
End RSound.

Section RComplete.
Context (p : CommonParameters) (c : Calculator).

(** The state accounts for every journey made of the connections of [L]. *)
Record RComplete (L : list Connection) (st : ReverseState) : Prop := {
  rc_times : forall n t, departs p c L n t -> at_least (rev_times st) n t;
  rc_trips : forall x t, x ∈ L -> canUnboard x = true ->
    departs p c L (node_uid (getArrivalNode x)) t -> getArrivalTime x <= t ->
    has_exit st (trip_uid (getTrip x));
  rc_rides : forall e x, rrides p c L e x ->
    rtransfers_done p c e (reverseTransferableNodes (getDepartureNode e)) st
}.

Lemma has_exit_revolves st st' u : revolves st st' -> has_exit st u -> has_exit st' u.
Proof.
  intros Hev (q & Hq & He). destruct (rev_ev_trips _ _ Hev u q Hq) as (q' & Hq' & _ & He').
  exists q'. eauto.
Qed.

Lemma rsorted_before L x e :
  reverse_sorted L -> before_in L x e -> getArrivalTime e <= getArrivalTime x.
Proof.
  intros Hs (i & j & Hij & Hi & Hj). destruct (decide (i = j)) as [->|Hne].
  - assert (e = x) as -> by congruence. lia.
  - rewrite <- (take_drop_middle _ _ _ Hj) in Hs.
    apply StronglySorted_app_inv in Hs as (_ & _ & Hs). apply Z.ge_le, Hs; [|set_solver].
    apply list_elem_of_lookup. exists i. rewrite lookup_take_lt by lia. done.
Qed.

(** Leaving at time [T] or later uses only connections that arrive after [T]. *)
Lemma departs_prefix pre post n t T :
  reverse_sorted (pre ++ post) -> Forall (rconn_ok p c) (pre ++ post) ->
  (forall x, x ∈ post -> getArrivalTime x <= T) ->
  departs p c (pre ++ post) n t -> T <= t -> departs p c pre n t.
Proof.
  intros Hs Hok Hpost Hr. induction Hr as [n t Hn Ht|e x f t [Ho Ht Hb Hu] Hr IH Hw Hf Hmax]; intros Hle.
  - by apply departs_walk.
  - destruct (before_in_elem _ _ _ Ho) as [Hx He].
    rewrite Forall_forall in Hok. pose proof (Hok e He) as Heok.
    destruct (proj1 (Forall_forall _ _) (rconn_transfers _ _ _ Heok) f Hf) as (_ & Hpos).
    pose proof (rsorted_before _ _ _ Hs Ho). destruct Heok.
    eapply (departs_ride p c pre e x f t); [|apply IH; lia|done..].
    split; [|done..]. apply before_in_app_inv in Ho as [Ho|Hin]; [done|].
    specialize (Hpost e Hin). lia.
Qed.

Lemma RComplete_step pre conn st st' :
  reverse_sorted (pre ++ [conn]) -> Forall (rconn_ok p c) (pre ++ [conn]) ->
  RComplete pre st -> revolves st st' -> rvisit_done p c conn st st' -> RComplete (pre ++ [conn]) st'.
Proof.
  intros Hs Hok [C1 C2 C3] Hev Hvisit.
  assert (forall x t, x ∈ pre ++ [conn] -> departs p c (pre ++ [conn]) (node_uid (getArrivalNode x)) t ->
            getArrivalTime x <= t -> departs p c pre (node_uid (getArrivalNode x)) t) as Hpre.
  { intros x t Hx Ht Hw. eapply (departs_prefix pre [conn] _ t (getArrivalTime x)); try done.
    intros y Hy%list_elem_of_singleton. subst y. apply (rsorted_before _ _ _ Hs).
    apply elem_of_app in Hx as [Hx | ->%list_elem_of_singleton].
    - by apply before_in_last.
    - apply before_in_self. }
  assert (forall x t, x ∈ pre ++ [conn] -> canUnboard x = true ->
            departs p c (pre ++ [conn]) (node_uid (getArrivalNode x)) t -> getArrivalTime x <= t ->
            has_exit st (trip_uid (getTrip x)) \/ (x = conn /\ canUnboard conn = true /\
              at_least (rev_times st) (node_uid (getArrivalNode conn)) (getArrivalTime conn))) as Hleave.
  { intros x t Hx Hu Ht Hw. pose proof (Hpre x t Hx Ht Hw) as Ht'.
    apply elem_of_app in Hx as [Hx | ->%list_elem_of_singleton]; [left; eauto|].
    right. split_and!; [done..|]. eapply at_least_ge; [by apply C1 | lia]. }
  assert (forall e x, rrides p c (pre ++ [conn]) e x ->
            rtransfers_done p c e (reverseTransferableNodes (getDepartureNode e)) st') as C3'.
  { intros e x [[Ho Ht Hb Hu] (t & Htr & Hw)].
    destruct (before_in_elem _ _ _ Ho) as [Hx _].
    destruct (before_in_app_inv _ _ _ _ Ho) as [Hin | ->%list_elem_of_singleton].
    - apply (rtransfers_done_evolves p c e _ st st' Hev), (C3 e x). split; [by split|].
      exists t. split; [by apply Hpre | done].
    - apply Hvisit; [|done]. rewrite Ht.
      destruct (Hleave x t Hx Hu Htr Hw) as [Hbd | (-> & H1 & H2)]; [by left | by right]. }
  split.
  - intros n t Hr. destruct Hr as [n t Hn Ht|e x f t Hl Hr Hw Hf Hmax].
    + apply (rev_ev_times _ _ Hev), C1. by apply departs_walk.
    + destruct (C3' e x) with (f := f) as [H _]; [|done..]. split; [done|]. eauto.
  - intros x t Hx Hu Hr Hw.
    destruct (Hleave x t Hx Hu Hr Hw) as [Hbd | (-> & H1 & H2)].
    + by apply (has_exit_revolves st st').
    + apply Hvisit. by right.
  - done.
Qed.

(** The scan of a list of connections, without exit test. *)
Definition reverse_scan_step (conn : Connection) (st : ReverseState) : calc ReverseState :=
  overlay ← vec_at (rev_trips st) (trip_uid (getTrip conn));
  '(st', _) ← reverse_visit p c conn overlay st;
  Ok st'.

Lemma roverlay_lookup L st conn :
  RSound p c L st -> rconn_ok p c conn ->
  exists overlay, rev_trips st !! trip_uid (getTrip conn) = Some overlay.
Proof.
  intros HS Hc. apply lookup_lt_is_Some_2. rewrite (rs_trips_len _ _ _ _ HS). by destruct Hc.
Qed.

Lemma rscan_step_visit conn st overlay st' b :
  rev_trips st !! trip_uid (getTrip conn) = Some overlay ->
  reverse_visit p c conn overlay st = Ok (st', b) -> reverse_scan_step conn st = Ok st'.
Proof. intros Hover Hrun. unfold reverse_scan_step, vec_at. rewrite Hover. cbn. by rewrite Hrun. Qed.

Lemma RSound_start : rstart_ok c -> RSound p c [] (reverse_start c).
Proof.
  intros [H1 H2 H3]. split; cbn; try done.
  - intros n t Hn Ht. by apply departs_walk.
  - intros n s Hs. left. rewrite Forall_lookup in H2. by destruct (H2 n s Hs).
  - intros u q e Hq He. rewrite Forall_lookup in H3. specialize (H3 u q Hq). congruence.
  - intros u q q0 Hq Hq0. congruence.
Qed.

Lemma RComplete_start : rstart_ok c -> RComplete [] (reverse_start c).
Proof.
  intros Hst. split.
  - intros n t Hr. inversion Hr as [? ? Hn Ht|? ? ? ? [Ho _ _ _]]; subst.
    + exists t. by split.
    + by destruct (before_in_elem _ _ _ Ho) as [?%elem_of_nil _].
  - by intros x t ?%elem_of_nil.
  - intros e x [[Ho _ _ _] _]. by destruct (before_in_elem _ _ _ Ho) as [?%elem_of_nil _].
Qed.

Lemma rscan_correct L :
  rstart_ok c -> reverse_sorted L -> Forall (rconn_ok p c) L ->
  exists st, for_each reverse_scan_step L (reverse_start c) = Ok st /\ RSound p c L st /\ RComplete L st.
Proof.
  intros Hstart Hs Hok.
  apply (for_each_ok _ (fun pre s => RSound p c pre s /\ RComplete pre s)).
  - intros pre conn post st -> [HS HC].
    replace (pre ++ conn :: post) with ((pre ++ [conn]) ++ post) in Hs, Hok by by rewrite <- app_assoc.
    apply StronglySorted_app_inv in Hs as [Hs _]. apply Forall_app in Hok as [Hok _].
    assert (rconn_ok p c conn) as Hconn by (apply Forall_app in Hok as [_ Hok]; by inversion Hok).
    destruct (roverlay_lookup pre st conn HS Hconn) as [overlay Hover].
    destruct (reverse_visit_sound p c pre conn overlay st HS Hok Hover)
      as (st' & b & Hrun & HS' & Hev & _ & Hdone).
    exists st'. rewrite (rscan_step_visit conn st overlay st' b) by done.
    split_and!; [done..|]. by eapply (RComplete_step pre conn st st').
  - split; [by apply RSound_start | by apply RComplete_start].
Qed.
End RComplete.

(** ** The loops *)

Section RLoops.
Context (p : CommonParameters) (c : Calculator).
Notation step := (reverse_scan_step p c).

(** The connections a scan takes into account: those of usable, enabled trips that
    arrive [margin] before the arrival time, and within the maximal travel time. *)
Definition in_rwindow (margin : Z) (conn : Connection) : Prop :=
  getArrivalTime conn <= arrivalTimeSeconds c - margin /\
  from_option usable false (tripsQueryOverlay c !! trip_uid (getTrip conn)) = true /\
  isTripDisabled c (trip_uid (getTrip conn)) = false /\
  arrivalTimeSeconds c - getArrivalTime conn <= getMaxTotalTravelTimeSeconds p.
#[export] Instance in_rwindow_dec margin conn : Decision (in_rwindow margin conn).
Proof. unfold in_rwindow. apply _. Defined.

Definition rwindow (margin : Z) : list Connection :=
  filter (in_rwindow margin) (getReverseConnections (connectionSet c)).

(** What a query finds when its reverse scan starts. *)
Record rquery_ok : Prop := {
  ro_start : rstart_ok c;
  ro_set : exists trips fwd, connectionSet c =
    ConnectionSet_new trips fwd (getReverseConnections (connectionSet c));
  ro_sorted : reverse_sorted (getReverseConnections (connectionSet c));
  ro_conns : Forall (rconn_ok p c) (getReverseConnections (connectionSet c));
  ro_arrival : 0 <= arrivalTimeSeconds c <= MAX_INT
}.

Lemma rwindow_sorted margin : rquery_ok -> reverse_sorted (rwindow margin).
Proof. intros H. by apply StronglySorted_filter, ro_sorted. Qed.

Lemma rwindow_ok margin : rquery_ok -> Forall (rconn_ok p c) (rwindow margin).
Proof. intros H. by apply Forall_filter, ro_conns. Qed.

Lemma not_in_rwindow_after margin conn rest :
  reverse_sorted (conn :: rest) ->
  getMaxTotalTravelTimeSeconds p < arrivalTimeSeconds c - getArrivalTime conn ->
  filter (in_rwindow margin) (conn :: rest) = [].
Proof.
  intros Hs Hlate. apply filter_none. inversion Hs as [|? ? _ Hall]; subst.
  constructor; [unfold in_rwindow; lia|]. eapply Forall_impl; [exact Hall|].
  unfold in_rwindow. cbn. intros x Hx. lia.
Qed.

Lemma usable_lookup pre st conn overlay :
  RSound p c pre st -> rconn_ok p c conn ->
  rev_trips st !! trip_uid (getTrip conn) = Some overlay ->
  usable overlay = from_option usable false (tripsQueryOverlay c !! trip_uid (getTrip conn)).
Proof.
  intros HS Hconn Hover.
  destruct (lookup_lt_is_Some_2 (tripsQueryOverlay c) (trip_uid (getTrip conn))) as [q0 Hq0];
    [by destruct Hconn|].
  rewrite Hq0. cbn. by apply (rs_usable _ _ _ _ HS (trip_uid (getTrip conn))).
Qed.

Lemma reverse_body_all_window pre conn st :
  RSound p c pre st -> rconn_ok p c conn ->
  (in_rwindow 0 conn ->
     reverse_body_all p c conn st = step conn st ≫= (fun st' => Ok (Next st'))) /\
  (~ in_rwindow 0 conn ->
     reverse_body_all p c conn st = Ok (Next st) \/
     reverse_body_all p c conn st = Ok (Break st) /\
     getMaxTotalTravelTimeSeconds p < arrivalTimeSeconds c - getArrivalTime conn).
Proof.
  intros HS Hconn. destruct (roverlay_lookup p c pre st conn HS Hconn) as [overlay Hover].
  unfold in_rwindow, reverse_body_all, reverse_scan_step. unfold vec_at. rewrite Hover.
  cbn [mbind result_bind]. rewrite (usable_lookup pre st conn overlay HS Hconn Hover).
  destruct (Z.leb_spec (getArrivalTime conn) (arrivalTimeSeconds c)).
  2: { split; [lia | by left]. }
  destruct (from_option usable false _) eqn:Hus; cbn [andb].
  2: { split; [by intros (_ & ? & _) | by left]. }
  destruct (isTripDisabled c (trip_uid (getTrip conn))); cbn [negb].
  { split; [by intros (_ & _ & ? & _) | by left]. }
  destruct (Z.gtb_spec (arrivalTimeSeconds c - getArrivalTime conn) (getMaxTotalTravelTimeSeconds p)).
  { split; [lia | by right]. }
  split; [|by intros []; split_and!; [lia|..]]. intros _. by destruct (reverse_visit _ _ _ _ _) as [[]|].
Qed.

(** The loop of [reverseCalculationAllNodes] is the scan of the window. *)
Lemma rloop_all_scan rest : forall pre st,
  RSound p c pre st -> Forall (rconn_ok p c) (pre ++ rest) -> reverse_sorted rest ->
  for_loop (reverse_body_all p c) rest st = for_each step (filter (in_rwindow 0) rest) st.
Proof.
  induction rest as [|conn rest IH]; intros pre st HS Hok Hs; [done|].
  assert (Forall (rconn_ok p c) ((pre ++ [conn]) ++ rest)) as Hok' by by rewrite <- app_assoc.
  pose proof Hok' as Hok1. apply Forall_app in Hok1 as [Hok1 _]. assert (rconn_ok p c conn) as Hconn.
  { apply Forall_app in Hok1 as [_ H2]. by inversion H2. }
  assert (reverse_sorted rest) as Hs' by by inversion Hs.
  destruct (reverse_body_all_window pre conn st HS Hconn) as [Hin Hout].
  cbn [for_loop]. destruct (decide (in_rwindow 0 conn)) as [Hw|Hw].
  - rewrite (Hin Hw), filter_cons_True by done. cbn [for_each].
    destruct (roverlay_lookup p c pre st conn HS Hconn) as [overlay Hover].
    destruct (reverse_visit_sound p c pre conn overlay st HS Hok1 Hover) as (st' & b & Hrun & HS' & _).
    rewrite (rscan_step_visit p c conn st overlay st' b) by done. cbn [mbind result_bind].
    by apply (IH (pre ++ [conn])).
  - destruct (Hout Hw) as [-> | [-> Hlate]]; cbn [mbind result_bind].
    + rewrite filter_cons_False by done. apply (IH pre); [done| |done].
      rewrite !Forall_app, Forall_cons in *. naive_solver.
    + by rewrite not_in_rwindow_after.
Qed.

Lemma reverse_connections_ok :
  rquery_ok ->
  exists conns, reverse_connections c = Ok conns /\ reverse_sorted conns /\
    Forall (rconn_ok p c) conns /\
    forall margin, 0 <= margin -> filter (in_rwindow margin) conns = rwindow margin.
Proof.
  intros [Hst (trips & fwd & Hset) Hs Hok Ha]. unfold reverse_connections.
  destruct (reverse_position_time trips fwd (getReverseConnections (connectionSet c))
              (arrivalTimeSeconds c) Hs (proj1 Ha)) as (k & Hk & Hfil).
  rewrite <- Hset in Hk. rewrite Hk. cbn [mbind result_bind].
  eexists. split; [reflexivity|]. split_and!.
  - rewrite <- (take_drop k) in Hs. by apply StronglySorted_app_inv in Hs as (_ & Hs & _).
  - rewrite <- (take_drop k) in Hok. by apply Forall_app in Hok as [_ Hok].
  - intros margin Hm. apply (Hfil _ _). unfold in_rwindow. lia.
Qed.

Lemma reverseCalculationAllNodes_scan :
  rquery_ok ->
  exists st, for_each step (rwindow 0) (reverse_start c) = Ok st /\ RSound p c (rwindow 0) st /\
    RComplete p c (rwindow 0) st /\
    reverseCalculationAllNodes p c =
      if rev_reachable st =? 0 then Throw (NoRoutingFound NO_SERVICE_TO_DESTINATION)
      else Ok (reverse_finish c st, rev_access st).
Proof.
  intros Hq. destruct (reverse_connections_ok Hq) as (conns & Hconns & Hs & Hok & Hwin).
  destruct (rscan_correct p c (rwindow 0) (ro_start Hq) (rwindow_sorted 0 Hq) (rwindow_ok 0 Hq))
    as (st & Hrun & HS & HC).
  exists st. split_and!; [done..|]. unfold reverseCalculationAllNodes.
  rewrite Hconns. cbn [mbind result_bind].
  rewrite (rloop_all_scan conns []); [|apply RSound_start, Hq|done|done].
  rewrite Hwin, Hrun by lia. done.
Qed.
End RLoops.

(** ** The scan towards an origin *)

Section Origin.
Context (p : CommonParameters) (c : Calculator).
Notation step := (reverse_scan_step p c).
Notation margin := (minEgressTravelTime c).

(** Every stop where a connection starts has a footpath from itself. *)
Definition rself_transfers : Prop :=
  forall conn, conn ∈ getReverseConnections (connectionSet c) ->
    exists f, f ∈ reverseTransferableNodes (getDepartureNode conn) /\
      ntd_node f = node_uid (getDepartureNode conn) /\
      ntd_time f <= getMaxTransferWalkingTravelTimeSeconds p.

(** The access footpaths as [reset] leaves them. *)
Record access_end_ok : Prop := {
  ao_nodes : forall n a, nodesAccess c !! n = Some a ->
    0 <= ntd_time a <= maxAccessTravelTime c /\ exists fp, fp ∈ accessFootpaths c /\ ntd_node fp = n;
  ao_footpaths : forall fp, fp ∈ accessFootpaths c ->
    exists a, nodesAccess c !! ntd_node fp = Some a /\ ntd_node a = ntd_node fp;
  ao_self : rself_transfers;
  ao_margin : 0 <= margin
}.

(** A ride that leaves at [T] from a node with an access footpath. *)
Definition access_hit (L : list Connection) (T : Z) : Prop :=
  exists e x a, rrides p c L e x /\ nodesAccess c !! node_uid (getDepartureNode e) = Some a /\
    getDepartureTime e = T.

Lemma access_hit_app L L' T : access_hit L T -> access_hit (L ++ L') T.
Proof. intros (e & x & a & Hr & H). exists e, x, a. split; [by apply rrides_app | done]. Qed.

(** The loop of [reverseCalculation] scans a prefix of the window; when it stops
    early, the rest arrives too early to improve on an access node already reached. *)
Lemma rloop_scan rest : forall pre st r,
  RSound p c pre st -> Forall (rconn_ok p c) (pre ++ rest) -> reverse_sorted rest ->
  (reachedAtLeastOneAccessNode r = true -> access_hit pre (tentativeAccessNodeDepartureTime r)) ->
  exists st' r' seen late,
    for_loop (reverse_body p c) rest (st, r) = Ok (st', r') /\
    filter (in_rwindow p c margin) rest = seen ++ late /\
    for_each step seen st = Ok st' /\
    (late = [] \/ 0 <= maxAccessTravelTime c /\ exists T, access_hit (pre ++ seen) T /\
       Forall (fun x => getArrivalTime x < T - maxAccessTravelTime c) late).
Proof.
  induction rest as [|conn rest IH]; intros pre st r HS Hok Hs Hr.
  { exists st, r, [], []. split_and!; try done. by left. }
  assert (Forall (rconn_ok p c) ((pre ++ [conn]) ++ rest)) as Hok' by by rewrite <- app_assoc.
  pose proof Hok' as Hok1. apply Forall_app in Hok1 as [Hok1 _]. assert (rconn_ok p c conn) as Hconn.
  { apply Forall_app in Hok1 as [_ H2]. by inversion H2. }
  assert (reverse_sorted rest) as Hs' by by inversion Hs.
  assert (Forall (rconn_ok p c) (pre ++ rest)) as Hok2.
  { rewrite !Forall_app, Forall_cons in *. naive_solver. }
  destruct (roverlay_lookup p c pre st conn HS Hconn) as [overlay Hover].
  assert (~ in_rwindow p c margin conn -> reverse_body p c conn (st, r) = Ok (Next (st, r)) ->
    exists st' r' seen late, for_loop (reverse_body p c) (conn :: rest) (st, r) = Ok (st', r') /\
    filter (in_rwindow p c margin) (conn :: rest) = seen ++ late /\ for_each step seen st = Ok st' /\
    (late = [] \/ 0 <= maxAccessTravelTime c /\ exists T, access_hit (pre ++ seen) T /\
       Forall (fun x => getArrivalTime x < T - maxAccessTravelTime c) late)) as Hskip.
  { intros Hout Hrun. cbn [for_loop]. rewrite Hrun. cbn [mbind result_bind].
    rewrite filter_cons_False by done. by apply IH. }
  assert (reverse_body p c conn (st, r) =
    if getArrivalTime conn <=? arrivalTimeSeconds c - margin then
      if usable overlay && negb (isTripDisabled c (trip_uid (getTrip conn))) then
        if reverse_stop p c conn r then Ok (Break (st, r))
        else '(st', boarded) ← reverse_visit p c conn overlay st;
             Ok (Next (st', if boarded : bool then update_access_reached c conn r else r))
      else Ok (Next (st, r))
    else Ok (Next (st, r))) as Hbody.
  { unfold reverse_body, vec_at. by rewrite Hover. }
  rewrite (usable_lookup p c pre st conn overlay HS Hconn Hover) in Hbody.
  destruct (Z.leb_spec (getArrivalTime conn) (arrivalTimeSeconds c - margin)) as [Hle|Hle].
  2: { apply Hskip; [unfold in_rwindow; lia | done]. }
  destruct (from_option usable false _) eqn:Hus; cbn [andb] in Hbody.
  2: { apply Hskip; [|done]. intros (_ & ? & _). congruence. }
  destruct (isTripDisabled c (trip_uid (getTrip conn))) eqn:Hdis; cbn [negb] in Hbody.
  { apply Hskip; [|done]. intros (_ & _ & ? & _). congruence. }
  destruct (reverse_stop p c conn r) eqn:Hstop.
  - exists st, r, [], (filter (in_rwindow p c margin) (conn :: rest)). cbn [for_loop]. rewrite Hbody.
    split_and!; try done. rewrite app_nil_r. unfold reverse_stop in Hstop.
    apply orb_true_iff in Hstop as [Hstop | Hstop]; [right | left].
    + rewrite !andb_true_iff in Hstop. destruct Hstop as [[H1 H2] H3].
      split; [lia|]. exists (tentativeAccessNodeDepartureTime r). split; [by apply Hr|].
      rewrite Forall_forall. intros x [_ Hx]%list_elem_of_filter.
      enough (getArrivalTime x <= getArrivalTime conn) by lia.
      apply (rsorted_before _ _ _ Hs). apply list_elem_of_lookup in Hx as [j Hj].
      exists 0%nat, j. split_and!; [lia | done..].
    + apply (not_in_rwindow_after p c); [done | lia].
  - assert (in_rwindow p c margin conn) as Hw.
    { unfold reverse_stop in Hstop. apply orb_false_iff in Hstop as [_ Hstop].
      split_and!; [lia | done | done | lia]. }
    destruct (reverse_visit_sound p c pre conn overlay st HS Hok1 Hover)
      as (st1 & b & Hrun & HS1 & Hev & Hb & _).
    rewrite Hrun in Hbody. cbn [mbind result_bind] in Hbody.
    destruct (IH (pre ++ [conn]) st1 (if b then update_access_reached c conn r else r))
      as (st' & r' & seen & late & Hloop & Hfil & Hscan & Hlate); [done..| |].
    { assert (reachedAtLeastOneAccessNode r = true ->
              access_hit (pre ++ [conn]) (tentativeAccessNodeDepartureTime r)) as Hold.
      { intros Hreached. apply access_hit_app. auto. }
      destruct b; [|done]. unfold update_access_reached.
      destruct (nodesAccess c !! _) as [a|] eqn:Ha; [|done].
      destruct (_ && _); [|done]. intros _. destruct (Hb eq_refl) as (_ & _ & x & Hx).
      by exists conn, x, a. }
    exists st', r', (conn :: seen), late. cbn [for_loop]. rewrite Hbody. cbn [mbind result_bind].
    split_and!.
    + done.
    + by rewrite filter_cons_True, Hfil.
    + cbn [for_each]. by rewrite (rscan_step_visit p c conn st overlay st1 b).
    + destruct Hlate as [|(H1 & T & H2 & H3)]; [by left|]. right. split; [done|]. exists T.
      by rewrite <- app_assoc in H2.
Qed.

(** A departure from the origin at time [t], by a ride of [L] and an access footpath. *)
Definition leaves (L : list Connection) (n : uid) (t : Z) : Prop :=
  exists e x a, rrides p c L e x /\ node_uid (getDepartureNode e) = n /\
    nodesAccess c !! n = Some a /\ t = getDepartureTime e - ntd_time a - minWaiting p e /\
    0 <= t /\ arrivalTimeSeconds c - t <= getMaxTotalTravelTimeSeconds p.

(** The candidates of the search of the best access node. *)
Definition rcandidate (access : gmap uid JourneyStep) (n : uid) (t : Z) : Prop :=
  exists s e a, access !! n = Some s /\ getFinalEnterConnection s = Some e /\
    nodesAccess c !! n = Some a /\ ntd_node a = n /\
    t = getDepartureTime e - ntd_time a - minWaiting p e /\
    0 <= t /\ arrivalTimeSeconds c - t <= getMaxTotalTravelTimeSeconds p /\ t < MAX_INT.

Lemma best_access_sound access :
  access_end_ok ->
  (forall n s, access !! n = Some s -> is_Some (getFinalEnterConnection s)) ->
  exists best a, for_each (reverse_best_access p c access) (accessFootpaths c) (-1, None) = Ok (best, a) /\
    (forall a', a = Some a' -> rcandidate access (ntd_node a') best) /\
    (forall fp t, fp ∈ accessFootpaths c -> rcandidate access (ntd_node fp) t ->
       is_Some a /\ t <= best).
Proof.
  intros Hao Henter.
  enough (exists r, for_each (reverse_best_access p c access) (accessFootpaths c) (-1, None) = Ok r /\
    (forall fp, fp ∈ accessFootpaths c -> fp ∈ accessFootpaths c) /\ -1 <= r.1 /\
    (r.2 = None -> r.1 = -1) /\
    (forall a', r.2 = Some a' -> rcandidate access (ntd_node a') r.1) /\
    (forall fp t, fp ∈ accessFootpaths c -> rcandidate access (ntd_node fp) t -> is_Some r.2 /\ t <= r.1))
    as ([best a] & H1 & _ & _ & _ & H3 & H4) by by exists best, a.
  apply (for_each_ok _ (fun pre r => (forall fp, fp ∈ pre -> fp ∈ accessFootpaths c) /\
    -1 <= r.1 /\ (r.2 = None -> r.1 = -1) /\
    (forall a', r.2 = Some a' -> rcandidate access (ntd_node a') r.1) /\
    (forall fp t, fp ∈ pre -> rcandidate access (ntd_node fp) t -> is_Some r.2 /\ t <= r.1))).
  2: { split_and!; try done; intros fp; [by intros ?%elem_of_nil | by intros t ?%elem_of_nil]. }
  intros pre fp post [best a] Hl (Hin & Hmax & Hnone & Hcand & Hbest).
  assert (fp ∈ accessFootpaths c) as Hfp by (rewrite Hl; set_solver).
  destruct (ao_footpaths Hao fp Hfp) as (ntd & Hntd & Hnode). unfold reverse_best_access.
  destruct (access !! ntd_node fp) as [s|] eqn:Es.
  2: { exists (best, a). split_and!; try done; [set_solver|].
       intros g t Hg Hc. apply elem_of_app in Hg as [Hg | ->%list_elem_of_singleton]; [by eapply Hbest|].
       destruct Hc as (s & x & eg' & Hs & _). congruence. }
  destruct (Henter _ _ Es) as [e He]. rewrite He. unfold map_at. rewrite Hntd. cbn [mbind result_bind].
  set (t0 := getDepartureTime e - ntd_time ntd - minWaiting p e).
  assert (forall t, rcandidate access (ntd_node fp) t -> t = t0 /\ 0 <= t0 /\
    arrivalTimeSeconds c - t0 <= getMaxTotalTravelTimeSeconds p /\ t0 < MAX_INT) as Hc0.
  { intros t (s' & e' & a' & Hs' & He' & Ha' & _ & -> & H).
    assert (s' = s) as -> by congruence. assert (e' = e) as -> by congruence.
    assert (a' = ntd) as -> by congruence. done. }
  destruct (_ && _) eqn:Eif.
  - rewrite !andb_true_iff, Z.geb_le, Z.leb_le, Z.gtb_lt, Z.ltb_lt in Eif. destruct Eif as [[[E1 E2] E3] E4].
    exists (t0, Some ntd). split; [done|]. cbn [fst snd] in *. split_and!; [set_solver | lia | done | |].
    + intros a' [= <-]. rewrite Hnode. exists s, e, ntd. split_and!; done.
    + intros g t Hg Hc. split; [done|].
      apply elem_of_app in Hg as [Hg | ->%list_elem_of_singleton]; [|apply Hc0 in Hc; lia].
      destruct (Hbest g t Hg Hc). lia.
  - exists (best, a). split; [done|]. cbn [fst snd] in *. split_and!; try done; [set_solver|].
    intros g t Hg Hc. apply elem_of_app in Hg as [Hg | ->%list_elem_of_singleton]; [by eapply Hbest|].
    apply Hc0 in Hc as (-> & G1 & G2 & G3).
    assert (t0 <= best) as Hle.
    { apply andb_false_iff in Eif as [Eif|Eif]; [|lia].
      apply andb_false_iff in Eif as [Eif|Eif]; [|lia].
      apply andb_false_iff in Eif as [Eif|Eif]; lia. }
    split; [|done]. destruct a; [done|]. specialize (Hnone eq_refl). lia.
Qed.

Lemma reverseCalculation_scan :
  rquery_ok p c -> access_end_ok ->
  exists st seen late,
    rwindow p c margin = seen ++ late /\ for_each step seen (reverse_start c) = Ok st /\
    RSound p c seen st /\ RComplete p c seen st /\
    (late = [] \/ 0 <= maxAccessTravelTime c /\ exists T, access_hit seen T /\
       Forall (fun x => getArrivalTime x < T - maxAccessTravelTime c) late) /\
    exists best a,
      for_each (reverse_best_access p c (rev_access st)) (accessFootpaths c) (-1, None) = Ok (best, a) /\
      reverseCalculation p c =
        if rev_reachable st =? 0 then Throw (NoRoutingFound NO_SERVICE_TO_DESTINATION)
        else Ok (option_map (fun a => (best, ntd_node a)) a, reverse_finish c st, rev_access st).
Proof.
  intros Hq Hao. destruct (reverse_connections_ok p c Hq) as (conns & Hconns & Hs & Hok & Hwin).
  destruct (rloop_scan conns [] (reverse_start c) (mkAccessReached false (-1)))
    as (st & r & seen & late & Hloop & Hfil & Hscan & Hlate);
    [by apply RSound_start, Hq | done | done | done |].
  rewrite Hwin in Hfil by apply Hao.
  pose proof (rwindow_sorted p c margin Hq) as Hws. pose proof (rwindow_ok p c margin Hq) as Hwo.
  rewrite Hfil in Hws, Hwo.
  apply StronglySorted_app_inv in Hws as [Hws _]. apply Forall_app in Hwo as [Hwo _].
  destruct (rscan_correct p c seen (ro_start _ _ Hq) Hws Hwo) as (st1 & Hscan1 & HS & HC).
  assert (st1 = st) as -> by congruence.
  exists st, seen, late. split_and!; try done.
  destruct (best_access_sound (rev_access st) Hao) as (best & a & Hbest & _).
  { intros n s Hn. destruct (rs_access _ _ _ _ HS n s Hn) as (e & x & -> & _). by exists e. }
  exists best, a. split; [done|]. unfold reverseCalculation.
  rewrite Hconns. cbn [mbind result_bind]. rewrite Hloop. cbn [mbind result_bind].
  destruct (rev_reachable st =? 0); [done|]. by rewrite Hbest.
Qed.
End Origin.

(** ** Properties of the reverse calculations *)

Section RTheorems.
Context (p : CommonParameters) (c : Calculator).
Notation margin := (minEgressTravelTime c).

(** Boarding a late connection or one already seen. *)
Lemma rrides_window_split seen late e x :
  reverse_sorted (seen ++ late) -> Forall (rconn_ok p c) (seen ++ late) ->
  rrides p c (seen ++ late) e x -> rrides p c seen e x \/ e ∈ late.
Proof.
  intros Hs Hok [[Ho Ht Hb Hu] (t & Hr & Hw)].
  destruct (before_in_app_inv _ _ _ _ Ho) as [Ho'|]; [left|by right].
  destruct (before_in_elem _ _ _ Ho') as [Hx _].
  split; [by split|]. exists t. split; [|done].
  eapply (departs_prefix p c seen late _ t (getArrivalTime x)); try done.
  intros y Hy. apply StronglySorted_app_inv in Hs as (_ & _ & Hs). by apply Z.ge_le, Hs.
Qed.

Lemma access_departure_any e : departureTimeSeconds c = -1 -> access_departure_ok p c e = true.
Proof. intros H. unfold access_departure_ok. by rewrite H. Qed.

(** A ride from an access node is recorded, up to its waiting time. *)
Lemma rcandidate_of_ride seen st e x a slack :
  access_end_ok p c -> departureTimeSeconds c = -1 -> RSound p c seen st -> RComplete p c seen st ->
  seen ⊆ getReverseConnections (connectionSet c) -> Forall (rconn_ok p c) seen ->
  Forall (fun conn => getArrivalTime conn <= MAX_INT /\ minWaiting p conn <= slack) seen ->
  rrides p c seen e x -> nodesAccess c !! node_uid (getDepartureNode e) = Some a ->
  slack <= getDepartureTime e - ntd_time a - minWaiting p e ->
  arrivalTimeSeconds c - (getDepartureTime e - ntd_time a - minWaiting p e - slack) <=
    getMaxTotalTravelTimeSeconds p ->
  exists t, rcandidate p c (rev_access st) (node_uid (getDepartureNode e)) t /\
    getDepartureTime e - ntd_time a - minWaiting p e - slack <= t.
Proof.
  intros Hao Hdep HS HC Hsub Hok Hbound Hride Ha Hpos Hmax.
  destruct (before_in_elem _ _ _ (rleg_order _ _ _ (proj1 Hride))) as [_ He].
  destruct (ao_self _ _ Hao e (Hsub e He)) as (f & Hf & Hself & Hfmax).
  destruct (rc_rides _ _ _ _ HC e x Hride f Hf Hfmax) as [_ Haccess].
  destruct (Haccess Hself (access_departure_any e Hdep)) as (s & e0 & Hs & He0 & Hle). rewrite Hself in Hs.
  destruct (ao_nodes _ _ Hao _ _ Ha) as ((Hapos & _) & fp & Hfp & Hnode).
  destruct (ao_footpaths _ _ Hao fp Hfp) as (a' & Ha' & Hnode').
  assert (a' = a) as -> by congruence.
  assert (e0 ∈ seen) as Hin0.
  { destruct (rs_access _ _ _ _ HS _ _ Hs) as (e1 & x1 & -> & [Ho _ _ _] & _).
    cbn in He0. injection He0 as ->. by destruct (before_in_elem _ _ _ Ho). }
  rewrite Forall_forall in Hok, Hbound. destruct (Hok e He), (Hok e0 Hin0).
  destruct (Hbound e He), (Hbound e0 Hin0).
  exists (getDepartureTime e0 - ntd_time a - minWaiting p e0). split; [|lia].
  exists s, e0, a. split_and!; (done || lia || congruence).
Qed.

(** C12: Neither reverse calculation fails but by telling that no service leads to
    the destination. *)
Theorem reverse_calculations_do_not_fault :
  rquery_ok p c -> access_end_ok p c ->
  (forall e, reverseCalculationAllNodes p c = Throw e -> e = NoRoutingFound NO_SERVICE_TO_DESTINATION) /\
  (forall e, reverseCalculation p c = Throw e -> e = NoRoutingFound NO_SERVICE_TO_DESTINATION).
Proof.
  intros Hq Hao. split.
  - destruct (reverseCalculationAllNodes_scan p c Hq) as (st & _ & _ & _ & ->).
    intros e. destruct (_ =? 0); [by intros [= <-] | done].
  - destruct (reverseCalculation_scan p c Hq Hao) as (st & seen & late & _ & _ & _ & _ & _ & best & a & _ & ->).
    intros e. destruct (_ =? 0); [by intros [= <-] | done].
Qed.

(** C13: The reverse scan computes latest departures: a tentative time from 0 on is
    the greatest time at which a traveller at the stop can leave it, by the trips
    of the query, and be at the destination by the arrival time. *)
Theorem reverse_tentative_times_latest c' access n t :
  rquery_ok p c -> reverseCalculationAllNodes p c = Ok (c', access) -> 0 <= t ->
  nodesReverseTentativeTime c' !! n = Some t <->
  departs p c (rwindow p c 0) n t /\ forall t', departs p c (rwindow p c 0) n t' -> t' <= t.
Proof.
  intros Hq Hrun Ht.
  destruct (reverseCalculationAllNodes_scan p c Hq) as (st & _ & HS & HC & Heq).
  rewrite Heq in Hrun. destruct (_ =? 0); [done|]. injection Hrun as <- <-.
  cbn [reverse_finish nodesReverseTentativeTime]. split.
  - intros Hn. split; [by eapply rs_reach|]. intros t' Hr.
    destruct (rc_times _ _ _ _ HC n t' Hr) as (t0 & Hn0 & Hle). assert (t0 = t) by congruence. lia.
  - intros [Hr Hmin]. destruct (rc_times _ _ _ _ HC n t Hr) as (t0 & Hn0 & Hle).
    enough (t0 <= t) by (by assert (t0 = t) as <- by lia).
    apply Hmin. eapply rs_reach; [exact HS | done | lia].
Qed.

(** What [reverseCalculation] finds, with the state its scan ends in. *)
Record origin_found (slack : Z) (st : ReverseState) (seen : list Connection) (best : Z)
    (a : option NodeTimeDistance) : Prop := {
  of_seen : exists late, rwindow p c margin = seen ++ late;
  of_scan : for_each (reverse_scan_step p c) seen (reverse_start c) = Ok st;
  of_run : reverseCalculation p c =
    if rev_reachable st =? 0 then Throw (NoRoutingFound NO_SERVICE_TO_DESTINATION)
    else Ok (option_map (fun a => (best, ntd_node a)) a, reverse_finish c st, rev_access st);
  of_best : forall g, a = Some g -> is_Some (rev_access st !! ntd_node g) /\
    leaves p c (rwindow p c margin) (ntd_node g) best;
  of_near : departureTimeSeconds c = -1 ->
    forall n' t', leaves p c (rwindow p c margin) n' t' -> 2 * slack <= t' ->
      arrivalTimeSeconds c - t' + 2 * slack <= getMaxTotalTravelTimeSeconds p ->
      is_Some a /\ t' <= best + 2 * slack
}.

Lemma reverse_origin_run slack :
  rquery_ok p c -> access_end_ok p c ->
  Forall (fun conn => minWaiting p conn <= slack) (getReverseConnections (connectionSet c)) ->
  exists st seen best a, origin_found slack st seen best a.
Proof.
  intros Hq Hao Hslack.
  destruct (reverseCalculation_scan p c Hq Hao)
    as (st & seen & late & Hwin & Hscan & HS & HC & Hlate & best & a & Hbest & Heq).
  pose proof (rwindow_sorted p c margin Hq) as Hws. pose proof (rwindow_ok p c margin Hq) as Hwo.
  assert (forall x, x ∈ rwindow p c margin -> x ∈ getReverseConnections (connectionSet c) /\
            getArrivalTime x <= MAX_INT) as Hsub.
  { intros x [(Hx & _) ?]%list_elem_of_filter. pose proof (ro_arrival _ _ Hq).
    pose proof (ao_margin _ _ Hao). split; [done|lia]. }
  pose proof Hwin as Hwin'. rewrite Hwin in Hws, Hwo, Hsub.
  assert (Forall (rconn_ok p c) seen) as Hso by (by apply Forall_app in Hwo as [? _]).
  assert (seen ⊆ getReverseConnections (connectionSet c)) as Hss
    by (intros x Hx; apply Hsub; set_solver).
  assert (Forall (fun conn => getArrivalTime conn <= MAX_INT /\ minWaiting p conn <= slack) seen) as Hbound.
  { rewrite Forall_forall in Hslack |- *. intros x Hx. split; [apply Hsub; set_solver|]. auto. }
  destruct (best_access_sound p c (rev_access st) Hao) as (best' & a' & Hbest' & Hin & Hmax).
  { intros n s Hn. destruct (rs_access _ _ _ _ HS n s Hn) as (e & x & -> & _). by exists e. }
  rewrite Hbest in Hbest'. injection Hbest' as <- <-.
  exists st, seen, best, a. split; [by exists late|done|done|rewrite Hwin..].
  - intros g ->. destruct (Hin g eq_refl) as (s & e & a0 & Hs & He & Ha0 & _ & -> & H0 & Hm & _).
    destruct (rs_access _ _ _ _ HS _ _ Hs) as (e0 & x & -> & Hleg & Hnode & _ & Hat).
    cbn in He. injection He as ->. split; [by eexists|]. exists e, x, a0. split_and!; try done.
    destruct (before_in_elem _ _ _ (rleg_order _ _ _ Hleg)) as [Hx _].
    apply rrides_app. split; [done|]. apply (RSound_leaving p c seen st); try done.
    rewrite Forall_forall in Hso. by apply Hso.
  - intros Hdep n' t' (e & x & g & Hride & Hn & Hg & -> & H0 & Hm) Hpos Hslackm. subst n'.
    assert (exists e0 x0 g0, rrides p c seen e0 x0 /\
      nodesAccess c !! node_uid (getDepartureNode e0) = Some g0 /\
      getDepartureTime e - ntd_time g - minWaiting p e <=
        getDepartureTime e0 - ntd_time g0 - minWaiting p e0 + slack) as (e0 & x0 & g0 & Hr0 & Hg0 & Hle0).
    { rewrite Forall_forall in Hwo, Hbound.
      destruct (rrides_window_split seen late e x Hws ltac:(by apply Forall_forall) Hride) as [Hr|He].
      - exists e, x, g. split_and!; [done..|].
        destruct (before_in_elem _ _ _ (rleg_order _ _ _ (proj1 Hr))) as [_ Hin0].
        destruct (Hbound e Hin0), (Hwo e ltac:(set_solver)). lia.
      - destruct Hlate as [-> | (Hpos0 & T & (e0 & x0 & g0 & Hr0 & Hg0 & <-) & Hafter)];
          [by apply elem_of_nil in He|].
        exists e0, x0, g0. split_and!; [done..|]. rewrite Forall_forall in Hafter.
        specialize (Hafter e He). destruct (Hwo e ltac:(set_solver)).
        destruct (before_in_elem _ _ _ (rleg_order _ _ _ (proj1 Hr0))) as [_ Hin0].
        destruct (Hbound e0 Hin0), (Hwo e0 ltac:(set_solver)).
        destruct (ao_nodes _ _ Hao _ _ Hg0) as [G0 _]. destruct (ao_nodes _ _ Hao _ _ Hg) as [G1 _]. lia. }
    assert (0 <= minWaiting p e0 <= slack) as Hw0.
    { destruct (before_in_elem _ _ _ (rleg_order _ _ _ (proj1 Hr0))) as [_ Hin0].
      rewrite Forall_forall in Hbound, Hso. destruct (Hbound e0 Hin0), (Hso e0 Hin0). lia. }
    destruct (rcandidate_of_ride seen st e0 x0 g0 slack Hao Hdep HS HC Hss Hso Hbound Hr0 Hg0)
      as (t & Hcand & Hle); [lia..|].
    destruct (ao_nodes _ _ Hao _ _ Hg0) as (_ & fp & Hfp & Hnode). rewrite <- Hnode in Hcand.
    destruct (Hmax fp t Hfp Hcand) as [? Hb]. split; [done|lia].
Qed.
(** C14: The departure [reverseCalculation] returns is that of a journey. For a calculator
    without a departure time (a query by arrival time), and with [slack] a bound of the
    waiting times, when a journey has [2 * slack] to spare of midnight and of the
    maximal travel time, a departure is returned, at most [2 * slack] earlier than that
    journey's; with no waiting time it is the latest one. (The scan back of a query by
    departure time filters its access stops, and nothing is said of it here.) *)
Theorem reverse_departure_near_latest result c' access slack :
  rquery_ok p c -> access_end_ok p c ->
  Forall (fun conn => minWaiting p conn <= slack) (getReverseConnections (connectionSet c)) ->
  reverseCalculation p c = Ok (result, c', access) ->
  (forall t n, result = Some (t, n) -> leaves p c (rwindow p c margin) n t) /\
  (departureTimeSeconds c = -1 ->
   forall n' t', leaves p c (rwindow p c margin) n' t' -> 2 * slack <= t' ->
     arrivalTimeSeconds c - t' + 2 * slack <= getMaxTotalTravelTimeSeconds p ->
     exists t n, result = Some (t, n) /\ t' <= t + 2 * slack).
Proof.
  intros Hq Hao Hslack Hrun.
  destruct (reverse_origin_run slack Hq Hao Hslack) as (st & seen & best & a & [_ _ Heq Hbest Hnear]).
  rewrite Heq in Hrun. destruct (_ =? 0); [done|]. injection Hrun as <- _ _. split.
  - intros t n Hres. destruct a as [g|]; [|done]. injection Hres as <- <-. by apply Hbest.
  - intros Hdep n' t' Hl Hpos Hmax. destruct (Hnear Hdep n' t' Hl Hpos Hmax) as [[g ->] Hle]. by eexists _, _.
Qed.
End RTheorems.

(** ** Instances on the small timetable *)

Definition demo_rp : CommonParameters := demo_parameters false 31500 180 (-1).
Definition reverse_reset (srv : Server) (p : CommonParameters) : Calculator :=
  value_or Calculator_new
    (prepare_reverse_query srv (demo_reset srv p (Some demo_origin) (Some demo_destination))).
Definition demo_rc : Calculator := reverse_reset demo_server demo_rp.

Lemma demo_reverse : getReverseConnections (connectionSet demo_rc) = [conn_BD; conn_CD; conn_AB].
Proof. vm_compute. reflexivity. Qed.

Lemma demo_rtimes : nodesReverseTentativeTime demo_rc = [-1; -1; -1; -1; 31260].
Proof. vm_compute. reflexivity. Qed.

Lemma demo_rconn_ok conn : conn ∈ [conn_BD; conn_CD; conn_AB] -> rconn_ok demo_rp demo_rc conn.
Proof.
  assert (length (tripsQueryOverlay demo_rc) = 3%nat) as Ht by (vm_compute; reflexivity).
  intros Hin. repeat (apply elem_of_cons in Hin as [-> | Hin]); [..|by apply elem_of_nil in Hin];
    (split; rewrite ?demo_rtimes, ?Ht;
     [cbn; lia | by vm_compute | cbn; lia | cbn; lia |];
     repeat (apply Forall_cons_2; [cbn; lia|]); apply Forall_nil_2).
Qed.

Lemma demo_rquery_ok : rquery_ok demo_rp demo_rc.
Proof.
  split.
  - split; [vm_compute; reflexivity|..]; apply Forall_forall; vm_compute; intros s Hs;
      repeat (apply elem_of_cons in Hs as [-> | Hs]); try (by apply elem_of_nil in Hs); by repeat split.
  - exists [trip_1; trip_2], [conn_AB; conn_BD; conn_CD]. vm_compute. reflexivity.
  - rewrite demo_reverse. exact demo_reverse_sorted.
  - rewrite demo_reverse. apply Forall_forall. exact demo_rconn_ok.
  - assert (arrivalTimeSeconds demo_rc = 31500) as -> by (vm_compute; reflexivity). unfold MAX_INT. lia.
Qed.

Lemma demo_access_end_ok : access_end_ok demo_rp demo_rc.
Proof.
  assert (nodesAccess demo_rc = {[ 1%nat := mkNTD 1 300 380 ]}) as Ha by (vm_compute; reflexivity).
  assert (accessFootpaths demo_rc = [mkNTD 1 300 380]) as Hf by (vm_compute; reflexivity).
  assert (maxAccessTravelTime demo_rc = 300) as Hm by (vm_compute; reflexivity).
  split; rewrite ?Ha, ?Hf, ?Hm.
  - intros n a [<- <-]%lookup_singleton_Some. cbn. split; [lia|]. eexists. split; [left|done].
  - intros fp ->%list_elem_of_singleton. eexists. split; [apply lookup_singleton_eq|done].
  - intros conn Hin. rewrite demo_reverse in Hin.
    repeat (apply elem_of_cons in Hin as [-> | Hin]); [..|by apply elem_of_nil in Hin];
      (eexists; split; [left | cbn; lia]).
  - vm_compute. discriminate.
Qed.

Definition demo_rall : Calculator * gmap uid JourneyStep :=
  value_or (demo_rc, ∅) (reverseCalculationAllNodes demo_rp demo_rc).
Definition demo_rsingle : option (Z * uid) * Calculator * gmap uid JourneyStep :=
  value_or (None, demo_rc, ∅) (reverseCalculation demo_rp demo_rc).

Lemma demo_rall_run : reverseCalculationAllNodes demo_rp demo_rc = Ok (demo_rall.1, demo_rall.2).
Proof. vm_compute. reflexivity. Qed.

Lemma demo_rsingle_run :
  reverseCalculation demo_rp demo_rc = Ok (Some (28320, 1%nat), demo_rsingle.1.2, demo_rsingle.2).
Proof. vm_compute. reflexivity. Qed.

Lemma reverse_calculations_do_not_fault_witness :
  (forall e, reverseCalculationAllNodes demo_rp demo_rc = Throw e -> e = NoRoutingFound NO_SERVICE_TO_DESTINATION) /\
  (forall e, reverseCalculation demo_rp demo_rc = Throw e -> e = NoRoutingFound NO_SERVICE_TO_DESTINATION).
Proof. exact (reverse_calculations_do_not_fault demo_rp demo_rc demo_rquery_ok demo_access_end_ok). Defined.

Lemma reverse_tentative_times_latest_witness :
  departs demo_rp demo_rc (rwindow demo_rp demo_rc 0) 3 29820 /\
  forall t', departs demo_rp demo_rc (rwindow demo_rp demo_rc 0) 3 t' -> t' <= 29820.
Proof.
  apply (reverse_tentative_times_latest demo_rp demo_rc demo_rall.1 demo_rall.2 3 29820).
  - exact demo_rquery_ok.
  - exact demo_rall_run.
  - lia.
  - vm_compute. reflexivity.
Defined.

Lemma reverse_departure_near_latest_witness :
  leaves demo_rp demo_rc (rwindow demo_rp demo_rc (minEgressTravelTime demo_rc)) 1 28320 /\
  forall n' t', leaves demo_rp demo_rc (rwindow demo_rp demo_rc (minEgressTravelTime demo_rc)) n' t' ->
    2 * 180 <= t' -> 31500 - t' + 2 * 180 <= MAX_INT ->
    exists t n, Some (28320, 1%nat) = Some (t, n) /\ t' <= t + 2 * 180.
Proof.
  destruct (reverse_departure_near_latest demo_rp demo_rc (Some (28320, 1%nat)) demo_rsingle.1.2
              demo_rsingle.2 180 demo_rquery_ok demo_access_end_ok) as [H1 H2].
  - rewrite demo_reverse. repeat (apply Forall_cons_2; [vm_compute; discriminate|]). apply Forall_nil_2.
  - exact demo_rsingle_run.
  - split; [exact (H1 _ _ eq_refl) | exact (H2 eq_refl)].
Defined.

(** Two lines from A to D: the one that arrives last leaves first, one minute before
    the other one. *)
Definition conn_AD_1 : Connection := demo_conn trip_1 node_A node_D 28800 31200 1.
Definition conn_AD_2 : Connection := demo_conn trip_2 node_A node_D 28860 31000 1.
Definition two_lines_server : Server :=
  mkServer (demo_data_with [node_A; node_B; node_C; node_D] [trip_1; trip_2] [conn_AD_1; conn_AD_2]) 4 2.
Definition two_lines_c : Calculator := reverse_reset two_lines_server demo_rp.

(** An access step is only replaced by a connection that leaves a minimal waiting
    time later: here the result leaves at 28320, although one can leave at 28380. *)
Theorem reverse_departure_not_latest :
  (fun r => r.1.1) <$> reverseCalculation demo_rp two_lines_c = Ok (Some (28320, 1%nat)) /\
  leaves demo_rp two_lines_c (rwindow demo_rp two_lines_c (minEgressTravelTime two_lines_c)) 1 28380.
Proof.
  split; [vm_compute; reflexivity|].
  exists conn_AD_2, conn_AD_2, (mkNTD 1 300 380). split_and!; try (vm_compute; reflexivity || discriminate).
  split.
  - split; [|done..]. exists 1%nat, 1%nat. split_and!; [done | vm_compute; reflexivity..].
  - exists 31260. split; [|vm_compute; discriminate]. apply departs_walk; vm_compute; [reflexivity | discriminate].
Qed.
