(* ===== verification/ReverseJourney.v ===== *)
(** * From the reverse scan to a result

    [reverse_journey.cpp]. A journey is recreated from its first ride by following
    [reverseJourneysSteps] to a node that leads to the destination on foot, freed of
    its detours, and summed up. *)

From Stdlib Require Import ZArith Lia Sorted.
From stdpp Require Import base list gmap strings.
From S2P Require Import Prelude.
From S2P Require Import Data.
From S2P Require Import RoutingResult.
From S2P Require Import ConnectionSet.
From S2P Require Import TransitData.
From S2P Require Import Calculator.
From S2P Require Import Demo.
From S2P Require Import ForwardCalculation.
From S2P Require Import ForwardCorrect.
From S2P Require Import ReverseCalculation.
From S2P Require Import ReverseCorrect.
From S2P Require Import OptimizeJourney.
From S2P Require Import OptimizeCorrect.
From S2P Require Import JourneyAccounts.

Local Open Scope Z_scope.

(** [trip.forwardConnections] and [trip.reverseConnections]. *)
Definition trip_forward (td : TransitData) (t : Trip) : list Connection :=
  default [] (tripForwardConnections td !! trip_uid t).
Definition trip_reverse (td : TransitData) (t : Trip) : list Connection :=
  default [] (tripReverseConnections td !! trip_uid t).

(** The node the journey goes on from: [getFinalExitConnection()...getArrivalNode()]. *)
Definition reverse_next (enter exit : Connection) : uid := node_uid (getArrivalNode exit).

(** [if (journey.size() > 0) journey[journey.size() - 1].copyTransferTimeDistance(step);
    journey.push_back(step);]: the transfer before a ride moves after the ride before it. *)
Definition append_ride (step : JourneyStep) (journey : list JourneyStep) : list JourneyStep :=
  update_step (length journey - 1) (copyTransferTimeDistance step) journey ++ [step].

(** The rides of the journey that starts with [step], and the last node. *)
Definition reverse_rides (c : Calculator) (step : JourneyStep) : calc (list JourneyStep * option uid) :=
  unwind reverse_next (reverseJourneysSteps c) (fun j journey => Ok (append_ride j journey))
    (unwind_fuel (reverseJourneysSteps c)) step [] None.

Definition walk_of (footpath : NodeTimeDistance) : JourneyStep :=
  mkJourneyStep None None None (ntd_time footpath) false (ntd_distance footpath).

(** [reverseJourneyStep]. When the access node has no journey step the result keeps
    its uninitialised fields. *)
Definition reverseJourneyStep (td : TransitData) (p : CommonParameters) (c : Calculator)
    (bestDepartureTime : Z) (bestAccessNode : option uid) (accessSteps : gmap uid JourneyStep)
    : calc SingleCalculationResult :=
  match bestAccessNode with
  | None => Throw (NoRoutingFound NO_ROUTING_FOUND)
  | Some resultingNode =>
      match accessSteps !! resultingNode with
      | None => Throw Undefined
      | Some step =>
          '(rides, bestEgressNode) ← reverse_rides c step;
          access ← map_at (nodesAccess c) resultingNode;
          egressNode ← opt_value bestEgressNode;
          egress ← map_at (nodesEgress c) egressNode;
          '(journey, _) ← optimizeJourney (trip_forward td) (trip_reverse td)
                            (walk_of access :: rides ++ [walk_of egress]);
          journey_result false bestDepartureTime (getMinWaitingTimeSeconds p) journey
      end
  end.

(** [if (hasConnections()) if (!isTransferable()) numberOfTransfers += 1;] *)
Definition count_ride (j : JourneyStep) (numberOfTransfers : Z) : calc Z :=
  if hasConnections j then
    trip ← opt_value (getFinalTrip j);
    Ok (if negb (isTransferable (line_mode (trip_line trip)))
        then numberOfTransfers + 1 else numberOfTransfers)
  else Ok numberOfTransfers.

(** The body of the loop over the nodes. The departure of the first ride is reduced
    by [getMinWaitingTime()], without a default for [-1]. *)
Definition reverse_node (td : TransitData) (p : CommonParameters) (c : Calculator)
    (accessSteps : gmap uid JourneyStep) (resultingNode : Node) (nodes : list AccessibleNodes)
    : calc (list AccessibleNodes) :=
  match accessSteps !! node_uid resultingNode with
  | None => Ok nodes
  | Some step =>
      '(rides, bestEgressNode) ← reverse_rides c step;
      egressNode ← opt_value bestEgressNode;
      egress ← map_at (nodesEgress c) egressNode;
      '(journey, _) ← optimizeJourney (trip_forward td) (trip_reverse td) (rides ++ [walk_of egress]);
      transfers ← for_each count_ride journey (-1);
      match getFinalEnterConnection step with
      | None => Ok nodes
      | Some enter =>
          let departureTimeD := getDepartureTime enter - getMinWaitingTime enter in
          Ok (if arrivalTimeSeconds c - departureTimeD <=? getMaxTotalTravelTimeSeconds p then
                nodes ++ [mkAccessibleNodes resultingNode (arrivalTimeSeconds c)
                            (arrivalTimeSeconds c - departureTimeD) transfers]
              else nodes)
      end
  end.

(** [reverseJourneyStepAllNodes]. *)
Definition reverseJourneyStepAllNodes (td : TransitData) (p : CommonParameters) (c : Calculator)
    (accessSteps : gmap uid JourneyStep) : calc AllNodesResult :=
  nodes ← for_each (reverse_node td p c accessSteps) (getNodes td) [];
  Ok (mkAllNodesResult nodes (Z.of_nat (length nodes)) (Z.of_nat (length (getNodes td)))).

(** ** Lists in the order of the scan *)

Lemma before_in_cons y l a b : before_in (y :: l) a b <-> (y = a /\ b ∈ y :: l) \/ before_in l a b.
Proof.
  split.
  - intros (i & j & Hij & Hi & Hj). destruct i as [|i].
    + injection Hi as ->. left. split; [done|]. by eapply list_elem_of_lookup_2.
    + right. destruct j as [|j]; [lia|]. exists i, j. split_and!; [lia|done|done].
  - intros [[-> (j & Hj)%list_elem_of_lookup] | (i & j & Hij & Hi & Hj)].
    + exists 0%nat, j. split_and!; [lia|done|done].
    + exists (S i), (S j). split_and!; [lia|done|done].
Qed.

Lemma before_in_sublist l l' a b : sublist l l' -> before_in l a b -> before_in l' a b.
Proof.
  induction 1 as [|y l l' Hs IH|y l l' Hs IH]; [done|..]; rewrite ?before_in_cons.
  - intros [[-> Hb] | H]; [left|right; by apply IH]. split; [done|].
    eapply elem_of_sublist; [exact Hb|]. by apply sublist_skip.
  - intros H. right. by apply IH.
Qed.

Lemma before_in_filter (P : Connection -> Prop) `{!forall c, Decision (P c)} l a b :
  P a -> P b -> before_in l a b -> before_in (filter P l) a b.
Proof.
  intros Ha Hb. induction l as [|y l IH]; [done|]. rewrite before_in_cons, filter_cons.
  intros [[-> Hin] | Hl].
  - rewrite decide_True by done. rewrite before_in_cons. left. split; [done|].
    apply elem_of_cons in Hin as [-> | Hin]; [left|right]. by apply list_elem_of_filter.
  - case_decide; [rewrite before_in_cons; right|]; by apply IH.
Qed.

Lemma before_in_rev l a b :
  before_in (rev l) a b -> exists i j, (i <= j)%nat /\ l !! i = Some b /\ l !! j = Some a.
Proof.
  intros (i & j & Hij & Hi & Hj).
  assert (forall k y, rev l !! k = Some y -> (k < length l)%nat /\ l !! (length l - S k)%nat = Some y) as Hrev.
  { intros k y Hk. rewrite rev_alt in Hk. by apply reverse_lookup_Some in Hk as [? ?]. }
  apply Hrev in Hi as [? Hi], Hj as [? Hj]. exists (length l - S j)%nat, (length l - S i)%nat.
  split_and!; [lia|done|done].
Qed.

(** ** The journeys of the scan *)

(** ** The rides of a journey, whatever their transfers *)

Definition same_ride (j j' : JourneyStep) : Prop :=
  getFinalEnterConnection j' = getFinalEnterConnection j /\
  getFinalExitConnection j' = getFinalExitConnection j /\ getFinalTrip j' = getFinalTrip j.

#[export] Instance same_ride_refl : Reflexive same_ride.
Proof. done. Qed.
#[export] Instance same_ride_trans : Transitive same_ride.
Proof. intros ??? (?&?&?) (?&?&?). split_and!; congruence. Qed.

Lemma same_ride_of j j' : same_ride j j' -> ride_of j' = ride_of j.
Proof. unfold ride_of. by intros (-> & -> & ->). Qed.

Lemma same_rides_of l l' : Forall2 same_ride l l' -> omap ride_of l' = omap ride_of l.
Proof.
  induction 1 as [|j j' l l' Hj _ IH]; [done|]. cbn [omap list_omap]. by rewrite (same_ride_of _ _ Hj), IH.
Qed.

Lemma append_ride_same j l : Forall2 same_ride (l ++ [j]) (append_ride j l).
Proof.
  unfold append_ride, update_step. apply Forall2_app; [|by repeat constructor].
  apply Forall2_same_length_lookup_2; [by rewrite length_alter|]. intros i x y Hx Hy.
  destruct (decide (length l - 1 = i)%nat) as [<-|Hne].
  - rewrite list_lookup_alter_eq, Hx in Hy. by injection Hy as <-.
  - rewrite list_lookup_alter_ne in Hy by done. by assert (y = x) as -> by congruence.
Qed.

Lemma append_rides path : forall l,
  exists l', for_each (fun j journey => Ok (E := exn) (append_ride j journey)) path l = Ok l' /\
    Forall2 same_ride (l ++ path) l'.
Proof.
  induction path as [|j path IH]; intros l; cbn [for_each].
  - exists l. rewrite app_nil_r. split; [done|reflexivity].
  - destruct (IH (append_ride j l)) as (l' & Hrun & Hsame). exists l'. split; [done|].
    etrans; [|exact Hsame]. rewrite (app_assoc l [j] path : l ++ j :: path = _).
    apply Forall2_app; [apply append_ride_same|reflexivity].
Qed.

Section Journeys.
Context (p : CommonParameters) (c : Calculator) (td : TransitData) (known : Node -> Prop)
  (Hknown : forall m n, known m -> known n -> node_uid m = node_uid n -> node_uuid m = node_uuid n).

Notation all_connections := (getReverseConnections (connectionSet c)).
Notation step_valid := (step_valid (trip_forward td) (trip_reverse td) known).
Notation rides_trip := (rides_trip (trip_forward td) (trip_reverse td) known).

(** The vectors of the trips of the connection set, as the transit data builds them. *)
Record trips_ok : Prop := {
  to_trip : forall conn, conn ∈ all_connections ->
    trip_ok (trip_forward td) (trip_reverse td) known (getTrip conn);
  to_vector : forall conn, conn ∈ all_connections ->
    trip_reverse td (getTrip conn) = filter (of_trip (trip_uid (getTrip conn))) all_connections
}.

(** Every stop the destination is reached from on foot is an egress node. *)
Definition egress_end_ok : Prop :=
  forall n t, nodesReverseTentativeTime c !! n = Some t -> 0 <= t ->
    exists eg, nodesEgress c !! n = Some eg /\ ntd_node eg = n /\
      t + ntd_time eg <= arrivalTimeSeconds c.

Context (Htrips : trips_ok) (Hegress : egress_end_ok).

(** The rides of a journey, the first one first: a footpath and the waiting time lie
    between two of them, and the last one leads to the destination in time. *)
Inductive ritinerary (L : list Connection) : list (Connection * Connection) -> Prop :=
| ritinerary_last e x t :
    rleg L e x -> nodesReverseTentativeTime c !! node_uid (getArrivalNode x) = Some t ->
    getArrivalTime x <= t -> ritinerary L [(e, x)]
| ritinerary_next e x e' x' f rest :
    rleg L e x -> ritinerary L ((e', x') :: rest) ->
    f ∈ reverseTransferableNodes (getDepartureNode e') -> ntd_node f = node_uid (getArrivalNode x) ->
    ntd_time f <= getMaxTransferWalkingTravelTimeSeconds p ->
    getArrivalTime x + ntd_time f + minWaiting p e' <= getDepartureTime e' ->
    ritinerary L ((e, x) :: (e', x') :: rest).

Lemma ritinerary_app L L' l : ritinerary L l -> ritinerary (L ++ L') l.
Proof.
  induction 1; [eapply ritinerary_last | eapply ritinerary_next]; eauto using rleg_app.
Qed.

(** Boarding and exit of the rides of a journey. *)
Definition ride_pairs (rides : list JourneyStep) : list (Connection * Connection) :=
  (fun r => (r.1.2, r.2)) <$> omap ride_of rides.

(** A journey step that is a ride of the scan. *)
Record ride_link (L : list Connection) (times : list Z) (j : JourneyStep) (e x : Connection) : Prop := {
  rl_enter : getFinalEnterConnection j = Some e;
  rl_exit : getFinalExitConnection j = Some x;
  rl_trip : getFinalTrip j = Some (getTrip e);
  rl_leg : rleg L e x;
  rl_leave : at_least times (node_uid (getArrivalNode x)) (getArrivalTime x)
}.

Definition rlink_ok (L : list Connection) (times : list Z) (j : JourneyStep) : Prop :=
  hasConnections j = false \/ exists e x, ride_link L times j e x.

Lemma ride_link_of L times j e x : ride_link L times j e x -> ride_of j = Some (getTrip e, e, x).
Proof. intros []. unfold ride_of. by rewrite rl_enter0, rl_exit0, rl_trip0. Qed.

(** A ride of the scan is a piece of its trip. *)
Lemma ride_link_valid L times j e x :
  sublist L all_connections -> ride_link L times j e x -> exists a b, rides_trip j (getTrip e) e x a b.
Proof.
  intros Hsub [He Hx Ht [Ho Htrip Hb Hu] _].
  destruct (before_in_elem _ _ _ Ho) as [_ Hin]. apply (elem_of_sublist _ _ _ Hin) in Hsub as Hin'.
  pose proof (to_trip Htrips e Hin') as Hok.
  apply (before_in_sublist _ _ _ _ Hsub) in Ho.
  apply (before_in_filter (of_trip (trip_uid (getTrip e)))) in Ho; [|done|done].
  rewrite <- (to_vector Htrips e Hin'), (tk_reverse _ _ _ _ Hok) in Ho.
  destruct (before_in_rev _ _ _ Ho) as (a & b & Hab & Ha & Hb'). exists a, b. by split.
Qed.

(** *** Following the steps *)

Section Sound.
Context (L : list Connection) (st : ReverseState)
  (Hs : reverse_sorted L) (Hok : Forall (rconn_ok p c) L) (HS : RSound p c L st).

Lemma rstep_link n s : rev_steps st !! n = Some s -> rlink_ok L (rev_times st) s.
Proof.
  intros [(He & Hx & _) | (e & x & f & -> & Hleg & _ & _ & _ & _ & Hat)]%(rs_steps _ _ _ _ HS).
  - left. unfold hasConnections. by rewrite He.
  - right. by exists e, x.
Qed.

Lemma access_link n s :
  rev_access st !! n = Some s ->
  exists e x, ride_link L (rev_times st) s e x /\ node_uid (getDepartureNode e) = n /\
    access_departure_ok p c e = true.
Proof.
  intros (e & x & -> & Hleg & Hn & Hd & Hat)%(rs_access _ _ _ _ HS). by exists e, x.
Qed.

Lemma rlink_closed j n :
  rlink_ok L (rev_times st) j -> follows reverse_next j n ->
  exists j', rev_steps st !! n = Some j' /\ rlink_ok L (rev_times st) j'.
Proof.
  intros [Hj | (e & x & [He Hx _ _ (t & Ht & _)])] (e' & x' & He' & Hx' & ->).
  - unfold hasConnections in Hj. by rewrite He', Hx' in Hj.
  - assert (x' = x) as -> by congruence. unfold reverse_next.
    destruct (lookup_lt_is_Some_2 (rev_steps st) (node_uid (getArrivalNode x))) as [j' Hj'].
    { rewrite (rs_steps_len _ _ _ _ HS), <- (rs_times_len _ _ _ _ HS). by apply lookup_lt_Some in Ht. }
    exists j'. split; [done | by eapply rstep_link].
Qed.

Lemma link_lasts j e x : ride_link L (rev_times st) j e x -> 0 <= getDepartureTime e < getArrivalTime x.
Proof.
  intros [_ _ _ [Ho _ _ _] _]. pose proof (rsorted_before L x e Hs Ho).
  destruct (before_in_elem _ _ _ Ho) as [_ Hin]. rewrite Forall_forall in Hok. destruct (Hok e Hin). lia.
Qed.

(** A ride and the next one: the footpath between them leaves the time to wait. *)
Lemma link_next j e x j' e' x' :
  ride_link L (rev_times st) j e x -> rev_steps st !! node_uid (getArrivalNode x) = Some j' ->
  ride_link L (rev_times st) j' e' x' ->
  exists f, f ∈ reverseTransferableNodes (getDepartureNode e') /\ ntd_node f = node_uid (getArrivalNode x) /\
    ntd_time f <= getMaxTransferWalkingTravelTimeSeconds p /\
    getArrivalTime x + ntd_time f + minWaiting p e' <= getDepartureTime e' /\
    getArrivalTime x <= getDepartureTime e'.
Proof.
  intros [_ _ _ _ (t & Ht & Hle)] Hj' [He' Hx' _ _ _].
  destruct (rs_steps _ _ _ _ HS _ _ Hj') as
    [(He & _) | (e0 & x0 & f & -> & [Ho _ _ _] & Hf & Hn & Hmax & Hat & _)]; [congruence|].
  cbn in He'. injection He' as ->.
  destruct (before_in_elem _ _ _ Ho) as [_ Hin]. rewrite Forall_forall in Hok. destruct (Hok e' Hin).
  rewrite Forall_forall in rconn_transfers. destruct (rconn_transfers f Hf).
  assert (t = getDepartureTime e' - ntd_time f - minWaiting p e') by congruence.
  exists f. split_and!; (done || lia).
Qed.

(** Going on along a journey goes on in time. *)
Lemma rlink_rank m j n :
  rev_steps st !! m = Some j -> rlink_ok L (rev_times st) j -> follows reverse_next j n ->
  - default 0 (rev_times st !! n) < - default 0 (rev_times st !! m).
Proof.
  intros Hm _ (e' & x' & He' & Hx' & ->). unfold reverse_next.
  destruct (rs_steps _ _ _ _ HS m j Hm) as
    [(He & _) | (e & x & f & -> & Hleg & Hf & _ & _ & Hat & t & Ht & Hle)]; [congruence|].
  cbn in He', Hx'. injection He' as <-. injection Hx' as <-. rewrite Hat, Ht. cbn.
  pose proof (rsorted_before L x e Hs (rleg_order _ _ _ Hleg)).
  destruct (before_in_elem _ _ _ (rleg_order _ _ _ Hleg)) as [_ Hin].
  rewrite Forall_forall in Hok. destruct (Hok e Hin) as [? Hw _ _ Htr].
  rewrite Forall_forall in Htr. destruct (Htr f Hf) as (_ & ?). lia.
Qed.

(** What holds of the rides of a journey from a step on. *)
Record journey_rides (e x : Connection) (path : list JourneyStep) (last : option uid) : Prop := {
  jr_links : Forall (fun s => exists e x, ride_link L (rev_times st) s e x) path;
  jr_ordered : ordered path;
  jr_after : Forall (fun r => getDepartureTime e <= getDepartureTime r.1.2) (omap ride_of path);
  jr_first : first_boarding path = Some e;
  jr_itinerary : exists rest, ride_pairs path = (e, x) :: rest /\ ritinerary L ((e, x) :: rest);
  jr_last : exists n t ta, last = Some n /\ last_unboarding path = Some n /\
    nodesReverseTentativeTime c !! n = Some t /\ last_exit_time path = Some ta /\ 0 <= ta <= t
}.

Lemma chain_rides j path last e x :
  chain reverse_next (rev_steps st) j path last -> ride_link L (rev_times st) j e x ->
  journey_rides e x path last.
Proof.
  intros Hc. revert e x.
  induction Hc as [j Hend | j j' n path last (e' & x' & He' & Hx' & ->) Hn Hc IH]; intros e x Hj.
  - exfalso. destruct Hj as [He Hx _ _ _]. unfold hasConnections in Hend. by rewrite He, Hx in Hend.
  - assert (x' = x) as -> by (destruct Hj; congruence). unfold reverse_next in *. clear He' Hx' e'.
    pose proof (ride_link_of _ _ _ _ _ Hj) as Hof. pose proof (link_lasts _ _ _ Hj) as Htime.
    destruct (rstep_link _ _ Hn) as [Hend | (e' & x' & Hj')].
    + inversion Hc; subst; [|by destruct H as (? & ? & He & Hx & _); unfold hasConnections in Hend;
                               rewrite He, Hx in Hend].
      destruct (rs_steps _ _ _ _ HS _ _ Hn) as [(_ & _ & Hini) | (e1 & x1 & f & -> & _)]; [|done].
      destruct (rl_leave _ _ _ _ _ Hj) as (t & Ht & Hle).
      split; unfold ordered, first_boarding, last_unboarding, last_exit_time, ride_pairs; cbn [omap list_omap];
        rewrite ?Hof.
      * constructor; [by exists e, x | constructor].
      * repeat constructor.
      * constructor; [cbn; lia | constructor].
      * done.
      * exists []. split; [done|]. apply (ritinerary_last L e x t); [apply Hj | congruence | done].
      * exists (node_uid (getArrivalNode x)), t, (getArrivalTime x). split_and!; try done; [congruence|lia].
    + destruct (link_next _ _ _ _ _ _ Hj Hn Hj') as (f & Hf & Hfn & Hfmax & Hfw & Hnext).
      destruct (IH e' x' Hj') as [H1 H2 H3 H4 (rest & H5 & H6) (n & t & ta & -> & G1 & G2 & G3 & G4)].
      split; unfold ordered, first_boarding, last_unboarding, last_exit_time, ride_pairs in *;
        cbn [omap list_omap]; rewrite ?Hof.
      * constructor; [by exists e, x | done].
      * constructor; [done|]. eapply Forall_impl; [exact H3|]. unfold ride_before. cbn. lia.
      * constructor; [cbn; lia|]. eapply Forall_impl; [exact H3|]. cbn. lia.
      * done.
      * exists ((e', x') :: rest). cbn [fmap list_fmap fst snd]. rewrite H5. split; [done|].
        eapply ritinerary_next; [apply Hj|exact H6|exact Hf|done..].
      * exists n, t, ta. destruct G4. destruct (omap ride_of path) as [|r l]; [done|]. by split_and!.
Qed.

(** A step that rides the trip of its first connection. *)
Definition own_ride (j : JourneyStep) : Prop := exists e x a b, rides_trip j (getTrip e) e x a b.

Lemma own_rides_valid rides :
  Forall own_ride rides -> Forall step_valid rides /\ Forall (fun j => is_Some (ride_of j)) rides.
Proof.
  intros H. split; (eapply Forall_impl; [exact H|]); intros j (e & x & a & b & Hj).
  - right. by exists (getTrip e), e, x, a, b.
  - rewrite (rides_trip_of _ _ _ _ _ _ _ _ _ Hj). by eexists.
Qed.

(** The rides recreated from an access step. *)
Record recreated (s : JourneyStep) (rides : list JourneyStep) (eg : NodeTimeDistance) : Prop := {
  rj_own : Forall own_ride rides;
  rj_first : first_boarding rides = getFinalEnterConnection s;
  rj_last : last_unboarding rides = Some (ntd_node eg);
  rj_ordered : ordered rides;
  rj_itinerary : ritinerary L (ride_pairs rides);
  rj_time : exists t, last_exit_time rides = Some t /\ t + ntd_time eg <= arrivalTimeSeconds c
}.

Lemma reverse_rides_ok n s :
  sublist L all_connections -> rev_access st !! n = Some s ->
  exists rides eg, reverse_rides (reverse_finish c st) s = Ok (rides, Some (ntd_node eg)) /\
    nodesEgress c !! ntd_node eg = Some eg /\ recreated s rides eg.
Proof.
  intros Hsub Hn. destruct (access_link _ _ Hn) as (e & x & Hride & _).
  destruct (chain_exists reverse_next (rev_steps st)
              (fun n => - default 0 (rev_times st !! n)) (rlink_ok L (rev_times st))
              rlink_closed rlink_rank s) as (path & last & Hc & Hlen); [right; eauto|].
  destruct (chain_rides _ _ _ _ _ Hc Hride) as [H1 H2 _ H4 (rest & H5 & H6) (m & t & ta & -> & G1 & G2 & G3 & G4)].
  destruct (Hegress m t G2 ltac:(lia)) as (eg & Heg & <- & Hle).
  destruct (append_rides path []) as (rides & Hrun & Hsame). cbn [app] in Hsame.
  pose proof (same_rides_of _ _ Hsame) as Homap. exists rides, eg. split; [|split; [done|split]].
  - unfold reverse_rides. cbn [reverse_finish reverseJourneysSteps].
    rewrite (unwind_chain _ _ _ _ _ _ Hc) by done. by rewrite Hrun.
  - apply Forall_lookup. intros i j Hj. destruct (Forall2_lookup_r _ _ _ _ _ Hsame Hj) as (j0 & Hj0 & E1 & E2 & E3).
    destruct (Forall_lookup_1 _ _ _ _ H1 Hj0) as (e0 & x0 & Hl).
    destruct (ride_link_valid _ _ _ _ _ Hsub Hl) as (a & b & []).
    exists e0, x0, a, b. split; congruence.
  - unfold first_boarding in *. rewrite Homap, H4. symmetry. apply Hride.
  - unfold last_unboarding in *. by rewrite Homap.
  - unfold ordered in *. by rewrite Homap.
  - unfold ride_pairs in *. rewrite Homap, H5. done.
  - exists ta. unfold last_exit_time in *. rewrite Homap. split; [done|lia].
Qed.
End Sound.

(** *** The removal of detours, and the sums *)

Lemma omap_walks A : Forall (fun j => ride_of j = None) A -> omap ride_of A = [].
Proof. induction 1 as [|j A Hj _ IH]; [done|]. cbn [omap list_omap]. by rewrite Hj. Qed.

Record improved (rides rides' : list JourneyStep) : Prop := {
  im_valid : Forall step_valid rides';
  im_rides : Forall (fun j => is_Some (ride_of j)) rides';
  im_some : rides' <> [];
  im_length : (length rides' <= length rides)%nat;
  im_first : first_boarding rides' = first_boarding rides;
  im_last : last_unboarding rides' = last_unboarding rides;
  im_ordered : ordered rides';
  im_time : (forall t, last_exit_time rides = Some t ->
    exists t', last_exit_time rides' = Some t' /\ t' <= t);
  im_within : forall r', r' ∈ omap ride_of rides' -> exists r, r ∈ omap ride_of rides /\ within r r'
}.

Lemma optimize_rides A B rides :
  Forall (fun j => ride_of j = None) A -> Forall (fun j => ride_of j = None) B ->
  Forall step_valid rides -> Forall (fun j => is_Some (ride_of j)) rides -> rides <> [] ->
  ordered rides ->
  exists rides' used,
    optimizeJourney (trip_forward td) (trip_reverse td) (A ++ rides ++ B) = Ok (A ++ rides' ++ B, used) /\
    improved rides rides'.
Proof.
  intros HA HB Hv Hr Hne Hord.
  assert (Forall step_valid (A ++ rides ++ B)) as Hall.
  { rewrite !Forall_app. split_and!; [|done|]; (eapply Forall_impl; [done|]; by left). }
  assert (forall l, omap ride_of (A ++ l ++ B) = omap ride_of l) as Homap.
  { intros l. by rewrite !omap_app, (omap_walks A), (omap_walks B), app_nil_r. }
  destruct (optimizeJourney_run (trip_forward td) (trip_reverse td) known Hknown _ Hall)
    as (J & used & Hrun & HvJ & Hlen & _ & [K1 K2 K3 K4 K6 K5] & _).
  destruct (K3 A B HA HB) as (rides' & -> & Hne' & Hr'); [by exists rides|].
  exists rides', used. split; [done|].
  unfold first_boarding, last_unboarding, ordered, last_exit_time in *. rewrite !Homap in *.
  rewrite !Forall_app in HvJ. rewrite !length_app in Hlen. split; [tauto|done|done|lia|done|done|by apply K4|by apply K5|done].
Qed.

Lemma valid_countable rides :
  Forall step_valid rides -> Forall (fun j => is_Some (ride_of j)) rides -> Forall countable rides.
Proof.
  intros Hv Hr. apply Forall_lookup. intros i j Hj.
  destruct (Forall_lookup_1 _ _ _ _ Hv Hj) as [Hn | (t & e & x & a & b & [])].
  - destruct (Forall_lookup_1 _ _ _ _ Hr Hj) as [r Hsome]. congruence.
  - exists e, x, t. split; [done..|]. rewrite (tk_sequence _ _ _ _ rt_ok _ _ rt_a). lia.
Qed.

Lemma last_arrival_rides rides :
  Forall (fun j => is_Some (ride_of j)) rides -> last_arrival rides = last_exit_time rides.
Proof.
  intros Hr. unfold last_arrival, last_exit_time.
  destruct rides as [|j rides _] using rev_ind; [done|].
  rewrite Forall_app, Forall_singleton in Hr. destruct Hr as [_ [[[t e] x] Hj]].
  rewrite omap_app, last_snoc. cbn [omap list_omap]. rewrite Hj, last_snoc.
  unfold ride_of in Hj. destruct (getFinalTrip j), (getFinalEnterConnection j) as [e0|], (getFinalExitConnection j) eqn:E;
    try done. injection Hj as _ _ ->. cbn. by rewrite E.
Qed.

(** A journey whose numbers are those of the result: it starts with the connection of
    the access step, ends at the egress footpath, and is there in time. *)
Record reverse_journey (L : list Connection) (s : JourneyStep) (time : Z) (a eg : NodeTimeDistance)
    (res : SingleCalculationResult) (rides : list JourneyStep) : Prop := {
  rv_valid : Forall step_valid rides;
  rv_rides : Forall (fun j => is_Some (ride_of j)) rides;
  rv_first : first_boarding rides = getFinalEnterConnection s;
  rv_last : last_unboarding rides = Some (ntd_node eg);
  rv_ordered : ordered rides;
  rv_within : exists rides0, ritinerary L (ride_pairs rides0) /\ Forall own_ride rides0 /\
    first_boarding rides0 = first_boarding rides /\
    forall r', r' ∈ omap ride_of rides -> exists r, r ∈ omap ride_of rides0 /\ within r r';
  rv_balanced : balanced time (walk_of a) (walk_of eg) rides res;
  rv_arrival : res_arrivalTime res <= arrivalTimeSeconds c
}.

Lemma reverse_journey_app L L' s time a eg res rides :
  reverse_journey L s time a eg res rides -> reverse_journey (L ++ L') s time a eg res rides.
Proof.
  intros [? ? ? ? ? (rides0 & Hit & Hr) ? ?]. split; try done. exists rides0. split; [|done].
  by apply ritinerary_app.
Qed.

Lemma reverseJourneyStep_ok L st n s time a :
  reverse_sorted L -> Forall (rconn_ok p c) L -> RSound p c L st -> sublist L all_connections ->
  rev_access st !! n = Some s -> nodesAccess c !! n = Some a ->
  exists res rides eg,
    reverseJourneyStep td p (reverse_finish c st) time (Some n) (rev_access st) = Ok res /\
    nodesEgress c !! ntd_node eg = Some eg /\ reverse_journey L s time a eg res rides.
Proof.
  intros Hs Hok HS Hsub Hn Ha.
  destruct (reverse_rides_ok L st Hs Hok HS n s Hsub Hn) as (rides & eg & Hrun & Heg & [Hown H3 H4 H5 H8 (t & H6 & H7)]).
  destruct (own_rides_valid _ Hown) as [H1 H2].
  assert (rides <> []) as Hne by by intros ->.
  destruct (optimize_rides [walk_of a] [walk_of eg] rides) as (rides' & used & Hopt & [K1 K2 K3 K4 K5 K6 K7 K8 K9]);
    [by repeat constructor | by repeat constructor | done..|].
  destruct (journey_balanced time (getMinWaitingTimeSeconds p) (walk_of a) (walk_of eg) rides' eq_refl eq_refl
              (valid_countable _ K1 K2) K3) as (res & Hres & Hbal).
  exists res, rides', eg. split; [|split; [done|]].
  - unfold reverseJourneyStep. rewrite Hn, Hrun. cbn [mbind result_bind reverse_finish nodesAccess nodesEgress].
    unfold map_at. rewrite Ha. cbn [mbind result_bind opt_value]. rewrite Heg. cbn [mbind result_bind].
    cbn [app] in Hopt. by rewrite Hopt.
  - destruct (K8 t H6) as (t' & Ht' & Hle). pose proof (bl_arrival _ _ _ _ _ Hbal) as Harr.
    rewrite last_arrival_rides, Ht' in Harr by done. cbn in Harr. injection Harr as Harr.
    split; [done|done|congruence|congruence|done| |done|lia]. by exists rides.
Qed.

(** *** The nodes that lead to a place *)

Lemma count_rides l : Forall countable l -> forall k, for_each count_ride l k = Ok (k + boardings l).
Proof.
  unfold boardings. induction 1 as [|j l (e & x & t & [He Hx Ht _]) _ IH]; intros k; [cbn; f_equal; lia|].
  cbn [for_each]. unfold count_ride at 2, hasConnections. rewrite He, Hx, Ht. cbn [opt_value mbind result_bind].
  rewrite filter_cons.
  assert (isTransferable (line_mode (trip_line t)) = ride_transferable j) as ->
    by (unfold ride_transferable; by rewrite Ht).
  rewrite !bool_decide_eq_true_2 by by eexists. cbn [andb mbind result_bind]. rewrite IH. f_equal.
  destruct (ride_transferable j); case_decide; try done; cbn [negb length]; lia.
Qed.

(** What [reverse_node] adds for a node: the time from the departure of its access
    step and the transfers of a journey that starts with it. *)
Definition rnode_entry (access : gmap uid JourneyStep) (node : Node) (a : AccessibleNodes) : Prop :=
  exists s e rides, access !! node_uid node = Some s /\ getFinalEnterConnection s = Some e /\
    node_uid (getDepartureNode e) = node_uid node /\
    Forall step_valid rides /\ first_boarding rides = Some e /\ ordered rides /\
    (exists eg, nodesEgress c !! ntd_node eg = Some eg /\ last_unboarding rides = Some (ntd_node eg) /\
       exists t, last_exit_time rides = Some t /\ t + ntd_time eg <= arrivalTimeSeconds c) /\
    let time := arrivalTimeSeconds c - (getDepartureTime e - getMinWaitingTime e) in
    time <= getMaxTotalTravelTimeSeconds p /\
    a = mkAccessibleNodes node (arrivalTimeSeconds c) time (boardings rides - 1).

Definition rnode_left_out (access : gmap uid JourneyStep) (node : Node) : Prop :=
  forall s e, access !! node_uid node = Some s -> getFinalEnterConnection s = Some e ->
    getMaxTotalTravelTimeSeconds p < arrivalTimeSeconds c - (getDepartureTime e - getMinWaitingTime e).

Lemma reverse_node_spec L st node nodes :
  reverse_sorted L -> Forall (rconn_ok p c) L -> RSound p c L st -> sublist L all_connections ->
  (exists a, reverse_node td p (reverse_finish c st) (rev_access st) node nodes = Ok (nodes ++ [a]) /\
     rnode_entry (rev_access st) node a) \/
  (reverse_node td p (reverse_finish c st) (rev_access st) node nodes = Ok nodes /\
     rnode_left_out (rev_access st) node).
Proof.
  intros Hs Hok HS Hsub. unfold reverse_node, rnode_left_out.
  destruct (rev_access st !! node_uid node) as [s|] eqn:E; [|by right].
  destruct (access_link L st HS _ _ E) as (e & x & Hride & Hnode & _).
  destruct (reverse_rides_ok L st Hs Hok HS _ s Hsub E) as (rides & eg & Hrun & Heg & [Hown H3 H4 H5 H8 (t & H6 & H7)]).
  destruct (own_rides_valid _ Hown) as [H1 H2].
  assert (rides <> []) as Hne.
  { intros ->. cbn in H3. destruct Hride. congruence. }
  destruct (optimize_rides [] [walk_of eg] rides) as (rides' & used & Hopt & [K1 K2 K3 K4 K5 K6 K7 K8 K9]);
    [by constructor | by repeat constructor | done..|].
  rewrite Hrun. cbn [mbind result_bind opt_value reverse_finish nodesEgress arrivalTimeSeconds].
  unfold map_at. rewrite Heg. cbn [mbind result_bind]. cbn [app] in Hopt. rewrite Hopt. cbn [mbind result_bind].
  rewrite for_each_app, (count_rides rides') by by apply valid_countable. cbn [mbind result_bind for_each].
  match goal with |- context [count_ride (walk_of eg) ?k] =>
    change (count_ride (walk_of eg) k) with (Ok (E := exn) k) end.
  cbn [mbind result_bind]. rewrite (rl_enter _ _ _ _ _ Hride).
  destruct (Z.leb_spec (arrivalTimeSeconds c - (getDepartureTime e - getMinWaitingTime e))
              (getMaxTotalTravelTimeSeconds p)).
  - left. eexists. split; [done|]. exists s, e, rides'. split_and!; try done.
    + apply Hride.
    + rewrite K5, H3. apply Hride.
    + exists eg. split_and!; [done|congruence|]. destruct (K8 t H6) as (t' & Ht' & Hle).
      exists t'. split; [done|lia].
    + by replace (boardings rides' - 1) with (-1 + boardings rides') by lia.
  - right. split; [done|]. intros s' e' [= <-] He'.
    assert (e' = e) as -> by (destruct Hride; congruence). done.
Qed.

Lemma reverse_nodes_spec L st l :
  reverse_sorted L -> Forall (rconn_ok p c) L -> RSound p c L st -> sublist L all_connections ->
  exists nodes, for_each (reverse_node td p (reverse_finish c st) (rev_access st)) l [] = Ok nodes /\
    sublist (an_node <$> nodes) l /\
    (forall a, a ∈ nodes -> exists node, node ∈ l /\ rnode_entry (rev_access st) node a) /\
    (forall node, node ∈ l -> (exists a, a ∈ nodes /\ rnode_entry (rev_access st) node a) \/
       rnode_left_out (rev_access st) node).
Proof.
  intros Hs Hok HS Hsub.
  destruct (for_each_ok (reverse_node td p (reverse_finish c st) (rev_access st))
    (fun pre nodes => sublist (an_node <$> nodes) pre /\
      (forall a, a ∈ nodes -> exists node, node ∈ pre /\ rnode_entry (rev_access st) node a) /\
      (forall node, node ∈ pre -> (exists a, a ∈ nodes /\ rnode_entry (rev_access st) node a) \/
         rnode_left_out (rev_access st) node)) l)
    with (s := @nil AccessibleNodes) as (nodes & Hrun & H0 & H1 & H2); [| |by exists nodes].
  - intros pre node post nodes _ (Hsl & Hin & Hout).
    destruct (reverse_node_spec L st node nodes Hs Hok HS Hsub) as [(a & -> & Ha) | [-> Hno]];
      (eexists; split; [done|]).
    + split_and!; [|set_solver|].
      * destruct Ha as (s & e & rides & _ & _ & _ & _ & _ & _ & _ & _ & ->). rewrite fmap_app.
        by apply sublist_app.
      * intros node' [Hn%Hout | ->%list_elem_of_singleton]%elem_of_app; set_solver.
    + split_and!; [by apply sublist_inserts_r|set_solver|].
      intros node' [Hn%Hout | ->%list_elem_of_singleton]%elem_of_app; [done|auto].
  - split_and!; [constructor|..]; intros ? Hx; by apply elem_of_nil in Hx.
Qed.

Lemma rwindow_sublist margin seen late :
  rwindow p c margin = seen ++ late -> sublist seen all_connections.
Proof.
  intros Hw. etrans; [|apply (sublist_filter (in_rwindow p c margin))]. fold (rwindow p c margin).
  rewrite Hw. by apply sublist_inserts_r.
Qed.

(** The result made from a departure found. *)
Lemma reverse_journey_run t n c' access :
  rquery_ok p c -> access_end_ok p c ->
  reverseCalculation p c = Ok (Some (t, n), c', access) ->
  exists s e a res rides eg,
    access !! n = Some s /\ getFinalEnterConnection s = Some e /\ node_uid (getDepartureNode e) = n /\
    0 <= minWaiting p e /\ access_departure_ok p c e = true /\
    nodesAccess c !! n = Some a /\ t = getDepartureTime e - ntd_time a - minWaiting p e /\
    reverseJourneyStep td p c' t (Some n) access = Ok res /\
    nodesEgress c !! ntd_node eg = Some eg /\
    reverse_journey (rwindow p c (minEgressTravelTime c)) s t a eg res rides.
Proof.
  intros Hq Hao Hrun.
  destruct (reverseCalculation_scan p c Hq Hao)
    as (st & seen & late & Hwin & _ & HS & _ & _ & best & g & Hbest & Heq).
  rewrite Heq in Hrun. destruct (_ =? 0); [done|]. destruct g as [g|]; [|done].
  injection Hrun as <- <- <- <-.
  destruct (best_access_sound p c (rev_access st) Hao) as (best' & g' & Hbest' & Hin & _).
  { intros m s Hm. destruct (rs_access _ _ _ _ HS m s Hm) as (e & x & -> & _). by exists e. }
  rewrite Hbest in Hbest'. injection Hbest' as <- <-.
  destruct (Hin g eq_refl) as (s & e & a & Hs & He & Ha & _ & -> & _).
  pose proof (rwindow_sorted p c (minEgressTravelTime c) Hq) as Hws.
  pose proof (rwindow_ok p c (minEgressTravelTime c) Hq) as Hwo. rewrite Hwin in Hws, Hwo.
  apply StronglySorted_app_inv in Hws as [Hws _]. apply Forall_app in Hwo as [Hwo _].
  destruct (reverseJourneyStep_ok seen st (ntd_node g) s
              (getDepartureTime e - ntd_time a - minWaiting p e) a Hws Hwo HS)
    as (res & rides & eg & Hres & Heg & Hj); [by eapply rwindow_sublist|done|done|].
  destruct (access_link seen st HS _ _ Hs) as (e' & x & [He' _ _ [Hord _ _ _] _] & Hnode & Hdep).
  assert (e' = e) as -> by congruence.
  destruct (before_in_elem _ _ _ Hord) as [_ Hein].
  exists s, e, a, res, rides, eg. split_and!; try done; [by eapply rconn_wait, Forall_forall|].
  rewrite Hwin. by apply reverse_journey_app.
Qed.


(** What the result lists, for the access steps of a scan. *)
Record departures_listed (access : gmap uid JourneyStep) (res : AllNodesResult) : Prop := {
  dl_total : totalNodeCount res = Z.of_nat (length (getNodes td));
  dl_count : numberOfReachableNodes res = Z.of_nat (length (all_nodes res));
  dl_list : sublist (an_node <$> all_nodes res) (getNodes td);
  dl_entries : forall a, a ∈ all_nodes res -> exists node, node ∈ getNodes td /\ rnode_entry access node a;
  dl_nodes : forall node, node ∈ getNodes td ->
    (exists a, a ∈ all_nodes res /\ rnode_entry access node a) \/ rnode_left_out access node
}.

Lemma reverse_all_answer :
  rquery_ok p c ->
  exists st res, for_each (reverse_scan_step p c) (rwindow p c 0) (reverse_start c) = Ok st /\
    RSound p c (rwindow p c 0) st /\ RComplete p c (rwindow p c 0) st /\
    reverseCalculationAllNodes p c =
      (if rev_reachable st =? 0 then Throw (NoRoutingFound NO_SERVICE_TO_DESTINATION)
       else Ok (reverse_finish c st, rev_access st)) /\
    reverseJourneyStepAllNodes td p (reverse_finish c st) (rev_access st) = Ok res /\
    departures_listed (rev_access st) res.
Proof.
  intros Hq. destruct (reverseCalculationAllNodes_scan p c Hq) as (st & Hscan & HS & HC & Heq).
  destruct (reverse_nodes_spec (rwindow p c 0) st (getNodes td) (rwindow_sorted p c 0 Hq)
              (rwindow_ok p c 0 Hq) HS) as (nodes & Hnodes & Hlist & Hin & Hout);
    [by apply (rwindow_sublist 0 _ []); rewrite app_nil_r|].
  exists st. eexists. unfold reverseJourneyStepAllNodes. rewrite Hnodes. by split_and!.
Qed.

End Journeys.

(** ** Instances on the small timetable *)

(** The stops of the timetable are known by their identifiers. *)
Definition stop_known (n : Node) : Prop := N.of_nat (node_uid n) = node_uuid n.

Lemma stop_known_uuid m n :
  stop_known m -> stop_known n -> node_uid m = node_uid n -> node_uuid m = node_uuid n.
Proof. unfold stop_known. congruence. Qed.

Lemma demo_trips_ok : trips_ok demo_rc demo_data stop_known.
Proof.
  split; intros conn Hin; rewrite demo_reverse in Hin.
  - repeat (apply elem_of_cons in Hin as [-> | Hin]); [..|by apply elem_of_nil in Hin]; (split;
      [ vm_compute; reflexivity | vm_compute; reflexivity
      | intros [|[|k]] x Hx; vm_compute in Hx; simplify_eq; reflexivity
      | intros [|[|k]] x y Hx Hy; vm_compute in Hx, Hy; simplify_eq;
        (split; [reflexivity | vm_compute; discriminate])
      | intros x Hx; vm_compute in Hx;
        repeat (apply elem_of_cons in Hx as [-> | Hx]; [vm_compute; discriminate|]); by apply elem_of_nil in Hx
      | intros x Hx; vm_compute in Hx;
        repeat (apply elem_of_cons in Hx as [-> | Hx]; [split; reflexivity|]); by apply elem_of_nil in Hx ]).
  - rewrite demo_reverse.
    repeat (apply elem_of_cons in Hin as [-> | Hin]); [..|by apply elem_of_nil in Hin];
      vm_compute; reflexivity.
Qed.

Lemma demo_egress_end_ok : egress_end_ok demo_rc.
Proof.
  intros n t Hn Ht. rewrite demo_rtimes in Hn.
  destruct n as [|[|[|[|[|n]]]]]; cbn in Hn; try (injection Hn as <-; lia); [|done].
  injection Hn as <-. exists (mkNTD 4 240 300). split_and!; [vm_compute; reflexivity | done | vm_compute; discriminate].
Qed.


Definition demo_rnodes : AllNodesResult :=
  value_or (mkAllNodesResult [] 0 0) (reverseJourneyStepAllNodes demo_data demo_rp demo_rall.1 demo_rall.2).


(** The travel time of an accessible node comes from the departure less
    [getMinWaitingTime()], which is -1 when the connection has no waiting time of its
    own: a connection that leaves at 28,800 counts as leaving at 28,801, whatever the
    minimal waiting time of the query. *)
Theorem reverse_accessible_departure_shifted :
  getMinWaitingTimeSeconds demo_rp = 180 /\ getDepartureTime conn_AB = 28800 /\ arrivalTimeSeconds demo_rc = 31500 /\
  exists a, reverseJourneyStepAllNodes demo_data demo_rp demo_rall.1 demo_rall.2 = Ok demo_rnodes /\
    all_nodes demo_rnodes !! 0%nat = Some a /\ an_node a = node_A /\ an_totalTravelTime a = 31500 - 28801.
Proof. split_and!; [vm_compute; reflexivity..|]. eexists. split_and!; vm_compute; reflexivity. Qed.
