(* ===== verification/Calculation.v ===== *)
(** * The calculation of a query

    [calculator.cpp]: [reset], a scan, or a scan and a scan back, and the result.
    Each function returns the calculator it leaves with its result; the cache of
    connection sets, shared by the calculators of a server, is threaded through. *)

From Stdlib Require Import ZArith Lia.
From stdpp Require Import base list gmap strings.
From S2P Require Import Prelude.
From S2P Require Import Data.
From S2P Require Import RoutingResult.
From S2P Require Import ConnectionSet.
From S2P Require Import ConnectionCache.
From S2P Require Import TransitData.
From S2P Require Import Calculator.
From S2P Require Import ForwardCalculation.
From S2P Require Import ForwardJourney.
From S2P Require Import ReverseCalculation.
From S2P Require Import ReverseJourney.

Local Open Scope Z_scope.

(** [routeToAccessibilityParameters]. *)
Definition routeToAccessibilityParameters (parameters : RouteParameters) : AccessibilityParameters :=
  let p := route_common parameters in
  mkAccessibilityParameters
    (CommonParameters_new (getScenario p) (getTimeOfTrip p) (getMinWaitingTimeSeconds p)
       (getMaxTotalTravelTimeSeconds p) (getMaxAccessWalkingTravelTimeSeconds p)
       (getMaxEgressWalkingTravelTimeSeconds p) (getMaxTransferWalkingTravelTimeSeconds p)
       (getMaxFirstWaitingTimeSeconds p) (isForwardCalculation p))
    (if isForwardCalculation p then getOrigin parameters else getDestination parameters).

Section Calculation.
Context `{!GeoFilter} {C : Type} `{!ScenarioConnectionCache C} (srv : Server).
Notation td := (transitData srv).

(** [calculateSingleReverse]. *)
Definition calculateSingleReverse (p : CommonParameters) (c : Calculator)
    : calc (SingleCalculationResult * Calculator) :=
  '(resultCalculation, c', reverseAccessJourneysSteps) ← reverseCalculation p c;
  let bestDepartureTime := from_option fst (-1) resultCalculation in
  let bestAccessNode := snd <$> resultCalculation in
  result ← reverseJourneyStep td p c' bestDepartureTime bestAccessNode reverseAccessJourneysSteps;
  Ok (result, c').

(** [calculateSingle]. The result is null when the query has no time. *)
Definition calculateSingle (c : Calculator) (parameters : RouteParameters)
    (resetAccessPaths resetFilters : bool) (cache : C)
    : calc (option SingleCalculationResult * Calculator * C) :=
  let p := route_common parameters in
  '(c1, cache') ← reset srv c p (Some (getOrigin parameters)) (Some (getDestination parameters))
                    resetAccessPaths resetFilters cache;
  if (departureTimeSeconds c1 >? -1) && isForwardCalculation p then
    '(resultCalculation, c2, forwardEgressJourneysSteps) ← forwardCalculation p c1;
    let bestArrivalTime := from_option fst MAX_INT resultCalculation in
    let bestEgressNode := snd <$> resultCalculation in
    if bestArrivalTime <? MAX_INT then
      c3 ← prepare_reverse_pass bestArrivalTime c2;
      '(result, c4) ← calculateSingleReverse p c3;
      Ok (Some result, c4, cache')
    else
      _ ← forwardJourneyStep p c2 bestEgressNode forwardEgressJourneysSteps;
      Throw AssertionFailed
  else if arrivalTimeSeconds c1 >? -1 then
    c2 ← prepare_reverse_query srv c1;
    '(result, c3) ← calculateSingleReverse p c2;
    Ok (Some result, c3, cache')
  else Ok (None, c1, cache').

(** [calculateAllNodes]. *)
Definition calculateAllNodes (c : Calculator) (parameters : AccessibilityParameters) (cache : C)
    : calc (option AllNodesResult * Calculator * C) :=
  let p := access_common parameters in
  '(c1, cache') ← reset srv c p
                    (if isForwardCalculation p then Some (getPlace parameters) else None)
                    (if isForwardCalculation p then None else Some (getPlace parameters))
                    true true cache;
  if (departureTimeSeconds c1 >? -1) && isForwardCalculation p then
    '(c2, forwardEgressJourneysSteps) ← forwardCalculationAllNodes p c1;
    result ← forwardJourneyStepAllNodes td p c2 forwardEgressJourneysSteps;
    Ok (Some result, c2, cache')
  else if arrivalTimeSeconds c1 >? -1 then
    c2 ← prepare_reverse_query srv c1;
    '(c3, reverseAccessJourneysSteps) ← reverseCalculationAllNodes p c2;
    result ← reverseJourneyStepAllNodes td p c3 reverseAccessJourneysSteps;
    Ok (Some result, c3, cache')
  else Ok (None, c1, cache').
End Calculation.
