(* ===== verification/CalculationCorrect.v ===== *)
(** * The calculation of a query is right

    A query by departure time is a scan forward, which gives the earliest arrival, and
    a scan back from it, over the trips that the first one boarded. The two scans see
    the same connections in opposite orders: a journey of one is a journey of the
    other, so the second scan finds a journey whenever the first one does, and its
    result arrives at the earliest time. *)

From Stdlib Require Import ZArith Lia Sorted.
From stdpp Require Import base list gmap strings.
From S2P Require Import Prelude.
From S2P Require Import Data.
From S2P Require Import RoutingResult.
From S2P Require Import ConnectionSet.
From S2P Require Import ConnectionCache.
From S2P Require Import TransitData.
From S2P Require Import Calculator.
From S2P Require Import Demo.
From S2P Require Import ForwardCalculation.
From S2P Require Import ForwardCorrect.
From S2P Require Import ResetCorrect.
From S2P Require Import ForwardJourney.
From S2P Require Import ReverseCalculation.
From S2P Require Import ReverseCorrect.
From S2P Require Import OptimizeJourney.
From S2P Require Import OptimizeCorrect.
From S2P Require Import JourneyAccounts.
From S2P Require Import ReverseJourney.
From S2P Require Import Calculation.

Local Open Scope Z_scope.

(** ** The trips after the forward scan *)

(** A trip that was not left, and is usable once it was boarded. *)
Definition overlay_ok (q : TripQueryData) : Prop :=
  exitConnection q = None /\ (is_Some (enterConnection q) -> usable q = true).

Section Overlays.
Context (p : CommonParameters) (c : Calculator).

Lemma forward_transfer_trips conn enter f st st' :
  forward_transfer p conn enter f st = Ok st' -> fwd_trips st' = fwd_trips st.
Proof.
  unfold forward_transfer, vec_at. intros H.
  repeat (inv_ok; cbn [mbind result_bind] in *; try case_match; try done).
Qed.

Lemma forward_transfers_trips conn enter l : forall st st',
  for_each (forward_transfer p conn enter) l st = Ok st' -> fwd_trips st' = fwd_trips st.
Proof.
  induction l as [|f l IH]; cbn [for_each]; intros st st' Hrun; [by injection Hrun as <-|].
  apply bind_Ok_inv in Hrun as (st1 & H1 & Hrun).
  rewrite (IH _ _ Hrun). by eapply forward_transfer_trips.
Qed.

Lemma forward_board_overlays conn overlay st overlay' st' :
  forward_board conn overlay st = Ok (overlay', st') ->
  overlay_ok overlay -> Forall overlay_ok (fwd_trips st) -> Forall overlay_ok (fwd_trips st').
Proof.
  unfold forward_board. intros Hrun Ho Hst. destruct (_ && _); [|by injection Hrun as <- <-].
  apply bind_Ok_inv in Hrun as (step & _ & Hrun). apply bind_Ok_inv in Hrun as (trips & Hset & Hrun).
  injection Hrun as <- <-. unfold vec_set in Hset. destruct (fwd_trips st !! _); [|done].
  injection Hset as <-. cbn. apply Forall_insert; [done|]. split; [apply Ho | done].
Qed.

Lemma forward_visit_overlays conn overlay st st' b :
  forward_visit p c conn overlay st = Ok (st', b) ->
  overlay_ok overlay -> Forall overlay_ok (fwd_trips st) -> Forall overlay_ok (fwd_trips st').
Proof.
  unfold forward_visit. intros Hrun Ho Hst.
  apply bind_Ok_inv in Hrun as (reachable & _ & Hrun).
  destruct reachable; [|by injection Hrun as <- <-].
  apply bind_Ok_inv in Hrun as ([overlay' st1] & Hboard & Hrun).
  pose proof (forward_board_overlays _ _ _ _ _ Hboard Ho Hst) as H1.
  destruct (_ && _); [|by injection Hrun as <- <-].
  apply bind_Ok_inv in Hrun as (st2 & Htr & Hrun). injection Hrun as <- <-. cbn.
  by rewrite (forward_transfers_trips _ _ _ _ _ Htr).
Qed.

Lemma scan_overlays l : forall st st',
  for_each (forward_scan_step p c) l st = Ok st' ->
  Forall overlay_ok (fwd_trips st) -> Forall overlay_ok (fwd_trips st').
Proof.
  induction l as [|conn l IH]; cbn [for_each]; intros st st' Hrun Hst; [by injection Hrun as <-|].
  apply bind_Ok_inv in Hrun as (st1 & H1 & Hrun). apply (IH _ _ Hrun).
  unfold forward_scan_step in H1. apply bind_Ok_inv in H1 as (overlay & Hget & H1).
  apply bind_Ok_inv in H1 as ([st2 b] & Hvisit & H1). injection H1 as <-.
  eapply forward_visit_overlays; [exact Hvisit| |done].
  unfold vec_at in Hget. destruct (fwd_trips st !! _) as [q|] eqn:E; [|done]. injection Hget as <-.
  by eapply Forall_lookup_1.
Qed.
End Overlays.

(** ** Counting the connections *)

Section Counts.
Context (p : CommonParameters) (c : Calculator).

(** Without a reachable connection there is no step to go on from. *)
Definition rcount_ok (st : ReverseState) : Prop :=
  0 <= rev_reachable st /\ (rev_reachable st = 0 -> rev_access st = ∅).

Lemma reverse_transfer_count conn exit f st st' :
  reverse_transfer p c conn exit f st = Ok st' -> rev_reachable st' = rev_reachable st.
Proof.
  unfold reverse_transfer, vec_at. intros H.
  repeat (inv_ok; cbn [mbind result_bind] in *; try case_match; try done).
Qed.

Lemma reverse_transfers_count conn exit l : forall st st',
  for_each (reverse_transfer p c conn exit) l st = Ok st' -> rev_reachable st' = rev_reachable st.
Proof.
  induction l as [|f l IH]; cbn [for_each]; intros st st' Hrun; [by injection Hrun as <-|].
  apply bind_Ok_inv in Hrun as (st1 & H1 & Hrun).
  rewrite (IH _ _ Hrun). by eapply reverse_transfer_count.
Qed.

Lemma reverse_visit_count conn overlay st st' b :
  reverse_visit p c conn overlay st = Ok (st', b) -> rcount_ok st -> rcount_ok st'.
Proof.
  unfold reverse_visit. intros Hrun [H0 Hst].
  apply bind_Ok_inv in Hrun as (reachable & _ & Hrun).
  destruct reachable; [|by injection Hrun as <- <-].
  apply bind_Ok_inv in Hrun as ([overlay' st1] & Hun & Hrun).
  assert (rev_reachable st1 = rev_reachable st) as Heq.
  { unfold reverse_unboard in Hun. destruct (canUnboard conn); [|by injection Hun as <- <-].
    apply bind_Ok_inv in Hun as (step & _ & Hun). apply bind_Ok_inv in Hun as (t & _ & Hun).
    match type of Hun with (if ?b then _ else _) = _ => destruct b end; [|by injection Hun as <- <-].
    apply bind_Ok_inv in Hun as (trips & _ & Hun). by injection Hun as <- <-. }
  destruct (_ && _).
  - apply bind_Ok_inv in Hrun as (st2 & Htr & Hrun). injection Hrun as <- <-.
    pose proof (reverse_transfers_count _ _ _ _ _ Htr). split; cbn; lia.
  - injection Hrun as <- <-. split; cbn; lia.
Qed.

Lemma rscan_count l : forall st st',
  for_each (reverse_scan_step p c) l st = Ok st' -> rcount_ok st -> rcount_ok st'.
Proof.
  induction l as [|conn l IH]; cbn [for_each]; intros st st' Hrun Hst; [by injection Hrun as <-|].
  apply bind_Ok_inv in Hrun as (st1 & H1 & Hrun). apply (IH _ _ Hrun).
  unfold reverse_scan_step in H1. apply bind_Ok_inv in H1 as (overlay & _ & H1).
  apply bind_Ok_inv in H1 as ([st2 b] & Hvisit & H1). injection H1 as <-.
  by eapply reverse_visit_count.
Qed.

Definition count_ok (st : ForwardState) : Prop :=
  0 <= fwd_reachable st /\ (fwd_reachable st = 0 -> fwd_egress st = ∅).

Lemma forward_transfer_count conn enter f st st' :
  forward_transfer p conn enter f st = Ok st' -> fwd_reachable st' = fwd_reachable st.
Proof.
  unfold forward_transfer, vec_at. intros H.
  repeat (inv_ok; cbn [mbind result_bind] in *; try case_match; try done).
Qed.

Lemma forward_transfers_count conn enter l : forall st st',
  for_each (forward_transfer p conn enter) l st = Ok st' -> fwd_reachable st' = fwd_reachable st.
Proof.
  induction l as [|f l IH]; cbn [for_each]; intros st st' Hrun; [by injection Hrun as <-|].
  apply bind_Ok_inv in Hrun as (st1 & H1 & Hrun).
  rewrite (IH _ _ Hrun). by eapply forward_transfer_count.
Qed.

Lemma forward_visit_count conn overlay st st' b :
  forward_visit p c conn overlay st = Ok (st', b) -> count_ok st -> count_ok st'.
Proof.
  unfold forward_visit. intros Hrun [H0 Hst].
  apply bind_Ok_inv in Hrun as (reachable & _ & Hrun).
  destruct reachable; [|by injection Hrun as <- <-].
  apply bind_Ok_inv in Hrun as ([overlay' st1] & Hboard & Hrun).
  assert (fwd_reachable st1 = fwd_reachable st) as Heq.
  { unfold forward_board in Hboard. destruct (_ && _); [|by injection Hboard as <- <-].
    apply bind_Ok_inv in Hboard as (step & _ & Hboard). apply bind_Ok_inv in Hboard as (trips & _ & Hboard).
    by injection Hboard as <- <-. }
  destruct (_ && _).
  - apply bind_Ok_inv in Hrun as (st2 & Htr & Hrun). injection Hrun as <- <-.
    pose proof (forward_transfers_count _ _ _ _ _ Htr). split; cbn; lia.
  - injection Hrun as <- <-. split; cbn; lia.
Qed.

Lemma scan_count l : forall st st',
  for_each (forward_scan_step p c) l st = Ok st' -> count_ok st -> count_ok st'.
Proof.
  induction l as [|conn l IH]; cbn [for_each]; intros st st' Hrun Hst; [by injection Hrun as <-|].
  apply bind_Ok_inv in Hrun as (st1 & H1 & Hrun). apply (IH _ _ Hrun).
  unfold forward_scan_step in H1. apply bind_Ok_inv in H1 as (overlay & _ & H1).
  apply bind_Ok_inv in H1 as ([st2 b] & Hvisit & H1). injection H1 as <-.
  by eapply forward_visit_count.
Qed.
End Counts.
