(* ===== verification/BothWays.v ===== *)
(** * The two scans of a query see the same journeys

    A query by departure time scans forward to find the earliest arrival, then back
    from it. A ride of one scan is a ride of the other, because the vectors of a trip
    are the same connections in opposite orders, and the footpaths are listed at both
    of their ends. So the journey the first scan found leads the second one back to
    the origin, and what the second one makes is a journey of the first. *)

From Stdlib Require Import ZArith Lia Sorted.
From stdpp Require Import base list gmap strings.
From S2P Require Import Prelude.
From S2P Require Import Data.
From S2P Require Import RoutingResult.
From S2P Require Import ConnectionSet.
From S2P Require Import TransitData.
From S2P Require Import Calculator.
From S2P Require Import ForwardCalculation.
From S2P Require Import ForwardCorrect.
From S2P Require Import ReverseCalculation.
From S2P Require Import ReverseCorrect.
From S2P Require Import OptimizeJourney.
From S2P Require Import OptimizeCorrect.
From S2P Require Import JourneyAccounts.
From S2P Require Import ReverseJourney.
From S2P Require Import CalculationCorrect.

Local Open Scope Z_scope.

Lemma before_in_reversed l a b : before_in l a b -> before_in (rev l) b a.
Proof. intros H. rewrite <- (rev_involutive l) in H. exact (before_in_rev _ _ _ H). Qed.

Lemma sublist_before L F e x : sublist L F -> before_in L e x -> before_in F e x /\ e ∈ L /\ x ∈ L.
Proof.
  intros Hs Hb. split; [by eapply before_in_sublist|]. by apply before_in_elem.
Qed.

Section BothWays.
Context (p : CommonParameters) (c : Calculator) (td : TransitData) (known : Node -> Prop).
Notation F := (getForwardConnections (connectionSet c)).
Notation R := (getReverseConnections (connectionSet c)).

(** The two lists of connections: the same ones, those of a trip in its order and in
    the opposite one, with footpaths listed at both of their ends. *)
Record lists_agree : Prop := {
  la_members : forall conn, conn ∈ F <-> conn ∈ R;
  la_trips : trips_ok c td known;
  la_vector : forall conn, conn ∈ F ->
    trip_forward td (getTrip conn) = filter (of_trip (trip_uid (getTrip conn))) F;
  la_back : forall x e f, x ∈ F -> e ∈ F ->
    f ∈ transferableNodes (getArrivalNode x) -> ntd_node f = node_uid (getDepartureNode e) ->
    exists g, g ∈ reverseTransferableNodes (getDepartureNode e) /\
      ntd_node g = node_uid (getArrivalNode x) /\ ntd_time g = ntd_time f;
  la_forth : forall x e g, x ∈ F -> e ∈ F ->
    g ∈ reverseTransferableNodes (getDepartureNode e) -> ntd_node g = node_uid (getArrivalNode x) ->
    exists f, f ∈ transferableNodes (getArrivalNode x) /\
      ntd_node f = node_uid (getDepartureNode e) /\ ntd_time f = ntd_time g
}.

Context (Hlists : lists_agree).

Lemma order_reversed e x :
  e ∈ F -> trip_uid (getTrip e) = trip_uid (getTrip x) -> before_in F e x <-> before_in R x e.
Proof using Hlists.
  intros He Ht. pose proof (la_vector Hlists e He) as Hf.
  apply (la_members Hlists) in He. pose proof (to_vector _ _ _ (la_trips Hlists) e He) as Hr.
  pose proof (tk_reverse _ _ _ _ (to_trip _ _ _ (la_trips Hlists) e He)) as Hrev.
  rewrite Hf, Hr in Hrev. split; intros Hb.
  - apply (before_in_sublist (rev (filter (of_trip (trip_uid (getTrip e))) F))).
    + rewrite <- Hrev. apply sublist_filter.
    + apply before_in_reversed, before_in_filter; done.
  - apply (before_in_sublist (rev (filter (of_trip (trip_uid (getTrip e))) R))).
    + rewrite Hrev, rev_involutive. apply sublist_filter.
    + apply before_in_reversed, before_in_filter; done.
Qed.

(** A ride of one list is a ride of the other, among connections taken into account. *)
Lemma leg_rleg L (P : Connection -> Prop) `{!forall conn, Decision (P conn)} e x :
  sublist L F -> leg L e x -> P e -> P x -> rleg (filter P R) e x.
Proof using Hlists.
  intros Hs [Ho Ht Hb Hu] He Hx. destruct (sublist_before _ _ _ _ Hs Ho) as (Ho' & Hein & _).
  split; try done. apply before_in_filter; [done..|]. apply order_reversed; try done.
  by eapply elem_of_sublist.
Qed.

Lemma rleg_leg L (P : Connection -> Prop) `{!forall conn, Decision (P conn)} e x :
  sublist L R -> rleg L e x -> P e -> P x -> leg (filter P F) e x.
Proof using Hlists.
  intros Hs [Ho Ht Hb Hu] He Hx. destruct (sublist_before _ _ _ _ Hs Ho) as (Ho' & _ & Hein).
  split; try done. apply before_in_filter; [done..|]. apply order_reversed; try done.
  apply (la_members Hlists). by eapply elem_of_sublist.
Qed.
End BothWays.

(** ** From the scan forward to the scan back *)

(** The calculator between the two scans, from the state [st] the first one ended in:
    [times] are the reverse tentative times for the arrival time found. *)
Definition pass_back (c : Calculator) (arrival : Z) (st : ForwardState) (times : list Z) : Calculator :=
  mkCalculator (departureTimeSeconds c) arrival (minAccessTravelTime c) (maxEgressTravelTime c)
    (maxAccessTravelTime c) (minEgressTravelTime c) (odTripGlob c) (fwd_times st) times
    (nodesAccess c) (nodesEgress c) (tripsDisabled c) (fwd_trips st) (connectionSet c)
    (accessFootpaths c) (egressFootpaths c) (fwd_steps st) (reverseJourneysSteps c).

Section PassBack.
Context (p : CommonParameters) (c : Calculator) (td : TransitData) (known : Node -> Prop).
Context (arrival : Z) (L : list Connection) (st : ForwardState) (times : list Z).
Notation F := (getForwardConnections (connectionSet c)).
Notation c' := (pass_back c arrival st times).
Notation margin := (minEgressTravelTime c).
Notation back := (rwindow p c' margin).

Context (Hlists : lists_agree c td known) (Hq : query_ok p c).
Context (HL : sublist L (window p c)) (HC : Complete p c L st) (Hover : Forall overlay_ok (fwd_trips st)).
Context (Hsorted : reverse_sorted (getReverseConnections (connectionSet c))).
Context (Hlimit : arrival - departureTimeSeconds c <= getMaxTotalTravelTimeSeconds p).

Lemma scanned_in_data : sublist L F.
Proof using HL. etrans; [exact HL|]. apply sublist_filter. Qed.

Lemma scanned_ok e : e ∈ L -> e ∈ F /\ conn_ok p c e /\ in_window p c e.
Proof using HL Hq.
  intros He. pose proof (elem_of_sublist _ _ _ He HL) as Hw.
  apply list_elem_of_filter in Hw as [Hin HeF]. split_and!; [done| |done].
  pose proof (qo_conns _ _ Hq) as Hall. rewrite Forall_forall in Hall. auto.
Qed.

Lemma boarded_usable u :
  boarded st u -> from_option usable false (fwd_trips st !! u) = true.
Proof using Hover.
  intros (q & Hu & Hen). rewrite Hu. cbn. by apply (Forall_lookup_1 _ _ _ _ Hover Hu).
Qed.

(** A ride that can be boarded is in the window of the scan back. *)
Lemma boarded_ride_back e x t :
  leg L e x -> reaches p c L (node_uid (getDepartureNode e)) t -> t + minWaiting p e <= getDepartureTime e ->
  getArrivalTime x <= arrival - margin -> rleg back e x.
Proof using Hlists Hq HL HC Hover Hsorted Hlimit.
  intros Hleg Hr Hw Hx. pose proof Hleg as [Ho Ht Hb Hu].
  destruct (before_in_elem _ _ _ Ho) as [He Hxin].
  destruct (scanned_ok e He) as (HeF & Heok & He1 & He2 & _), (scanned_ok x Hxin) as (HxF & Hxok & Hx1 & Hx2 & _).
  pose proof (boarded_usable _ (cp_trips _ _ _ _ HC e t He Hb Hr Hw)) as Hus.
  apply (before_in_sublist _ _ _ _ scanned_in_data) in Ho.
  apply (order_reversed c td known Hlists) in Ho; [|done|done].
  apply rsorted_before in Ho; [|done]. pose proof (qo_access _ _ Hq).
  destruct (conn_time _ _ _ Heok), (conn_time _ _ _ Hxok).
  apply (leg_rleg c td known Hlists L); [exact scanned_in_data|done| |];
    (split_and!; cbn [pass_back arrivalTimeSeconds tripsQueryOverlay]; [lia | congruence | done | lia]).
Qed.

(** A ride that leads to the destination and can be reached from the origin leads
    back to a first ride, which starts where the origin is left on foot. *)
Lemma trace_back n t :
  reaches p c L n t -> forall e x, e ∈ L -> node_uid (getDepartureNode e) = n ->
  t + minWaiting p e <= getDepartureTime e -> getDepartureTime e <= arrival - margin ->
  rrides p c' back e x ->
  exists e1 x1 t1, rrides p c' back e1 x1 /\ nodesTentativeTime c !! node_uid (getDepartureNode e1) = Some t1 /\
    t1 < MAX_INT /\ t1 + minWaiting p e1 <= getDepartureTime e1.
Proof using Hlists Hq HL HC Hover Hsorted Hlimit.
  induction 1 as [n t Hn Ht | e' x' f t Hleg Hr IH Hw Hf Hmax]; intros e x He Hnode Hwe Hearly [Hback (te & Hte & Hle)].
  { exists e, x, t. subst n. split_and!; try done. split; eauto. }
  destruct (before_in_elem _ _ _ (leg_order _ _ _ Hleg)) as [He' Hx'].
  destruct (scanned_ok e He) as (HeF & Heok & _), (scanned_ok x' Hx') as (HxF & Hxok & _).
  destruct (la_back _ _ _ Hlists x' e f HxF HeF Hf) as (g & Hg & Hgn & Hgt); [done|].
  pose proof (conn_transfers _ _ _ Hxok) as Hall. rewrite Forall_forall in Hall.
  destruct (Hall f Hf) as (_ & Hf0 & _). pose proof (conn_wait _ _ _ Heok).
  assert (rleg back e' x') as Hrleg by (eapply boarded_ride_back; try done; lia).
  pose proof (rsorted_before _ _ _ (StronglySorted_filter _ _ _ Hsorted) (rleg_order _ _ _ Hrleg)).
  destruct (scanned_ok e' He') as (_ & Heok' & _). destruct (conn_time _ _ _ Heok').
  apply (IH e' x'); [done|done|done|lia|]. split; [done|].
  exists (getDepartureTime e - ntd_time g - minWaiting p e). rewrite <- Hgn. split; [|lia].
  by eapply departs_ride; [exact Hback|exact Hte|done|exact Hg|lia].
Qed.

(** *** The departure that the scan back finds *)

(** The stops reached from the origin on foot are the access nodes. *)
Record access_agrees : Prop := {
  aa_reached : forall n t, nodesTentativeTime c !! n = Some t -> t < MAX_INT ->
    exists a, nodesAccess c !! n = Some a /\ t = departureTimeSeconds c + ntd_time a;
  aa_walk : forall n a, nodesAccess c !! n = Some a ->
    nodesTentativeTime c !! n = Some (departureTimeSeconds c + ntd_time a) /\
    departureTimeSeconds c + ntd_time a < MAX_INT /\ minAccessTravelTime c <= ntd_time a
}.

Context (Haccess : access_agrees) (Hao : access_end_ok p c') (Hrq : rquery_ok p c').
Context (Hfirst : getMaxFirstWaitingTimeSeconds p < 0).

Lemma access_departure_spec e a :
  0 <= minWaiting p e -> nodesAccess c !! node_uid (getDepartureNode e) = Some a ->
  access_departure_ok p c' e = true <->
  departureTimeSeconds c + ntd_time a + minWaiting p e <= getDepartureTime e.
Proof using Hq Hfirst.
  intros Hwait Ha. unfold access_departure_ok. cbn [pass_back departureTimeSeconds nodesAccess]. rewrite Ha.
  pose proof (qo_departure _ _ Hq).
  destruct (Z.eqb_spec (departureTimeSeconds c) (-1)); [lia|].
  destruct (Z.ltb_spec (getMaxFirstWaitingTimeSeconds p) (minWaiting p e)); [|lia].
  cbn. rewrite andb_true_r, Z.geb_le. lia.
Qed.

Lemma back_in_data margin' seen late conn :
  rwindow p c' margin' = seen ++ late -> conn ∈ seen -> 0 <= margin' ->
  conn ∈ F /\ conn_ok p c conn /\ getArrivalTime conn <= arrival /\
  conn ∈ getReverseConnections (connectionSet c).
Proof using Hlists Hq.
  intros Hwin Hin Hpos. assert (conn ∈ rwindow p c' margin') as Hw by (rewrite Hwin; apply elem_of_app; by left).
  apply list_elem_of_filter in Hw as [(Harr & _) HinR]. cbn [pass_back connectionSet arrivalTimeSeconds] in *.
  apply (la_members _ _ _ Hlists) in HinR as HinF. pose proof (qo_conns _ _ Hq) as Hall.
  rewrite Forall_forall in Hall. split_and!; [done|auto|lia|done].
Qed.

(** A ride that can be boarded from the origin gives a departure. *)
Lemma recorded_departure seen late st' e x a :
  back = seen ++ late -> RSound p c' seen st' -> RComplete p c' seen st' ->
  rrides p c' seen e x -> nodesAccess c !! node_uid (getDepartureNode e) = Some a ->
  departureTimeSeconds c + ntd_time a + minWaiting p e <= getDepartureTime e ->
  exists t, rcandidate p c' (rev_access st') (node_uid (getDepartureNode e)) t.
Proof using Hlists Hq Hfirst Hao Hlimit Hrq.
  intros Hwin HS HCo Hride Ha Hdep. pose proof (ao_margin _ _ Hao) as Hmar. cbn in Hmar.
  destruct (before_in_elem _ _ _ (rleg_order _ _ _ (proj1 Hride))) as [_ He].
  destruct (back_in_data _ _ _ e Hwin He Hmar) as (HeF & Heok & _ & HeR).
  destruct (ao_self _ _ Hao e HeR) as (f & Hf & Hself & Hfmax).
  destruct (rc_rides _ _ _ _ HCo e x Hride f Hf Hfmax) as [_ Hex].
  destruct (Hex Hself (proj2 (access_departure_spec e a (conn_wait _ _ _ Heok) Ha) Hdep)) as (s & e0 & Hs & He0 & _).
  rewrite Hself in Hs.
  destruct (rs_access _ _ _ _ HS _ _ Hs) as (e1 & x1 & -> & Hleg1 & Hn1 & Hd1 & _). cbn in He0. injection He0 as ->.
  destruct (before_in_elem _ _ _ (rleg_order _ _ _ Hleg1)) as [_ He1].
  destruct (back_in_data _ _ _ e0 Hwin He1 Hmar) as (_ & Hok0 & Harr0 & _).
  assert (nodesAccess c !! node_uid (getDepartureNode e0) = Some a) as Ha0 by (by rewrite Hn1).
  apply (access_departure_spec e0 a (conn_wait _ _ _ Hok0) Ha0) in Hd1.
  destruct (ao_nodes _ _ Hao _ _ Ha) as ((Ha1 & _) & fp & Hfp & Hnode).
  destruct (ao_footpaths _ _ Hao fp Hfp) as (a' & Ha' & Hnode'). cbn [pass_back nodesAccess] in Ha'.
  assert (a' = a) as -> by congruence.
  pose proof (qo_departure _ _ Hq). pose proof (ro_arrival _ _ Hrq) as Harr. cbn in Harr.
  destruct Hok0. exists (getDepartureTime e0 - ntd_time a - minWaiting p e0).
  exists (mkJourneyStep (Some e0) (Some x1) (Some (getTrip e0)) 0 true 0), e0, a.
  cbn [pass_back nodesAccess arrivalTimeSeconds]. split_and!; (done || lia || congruence).
Qed.

(** The scan back stops early only when a departure was found: with one waiting time
    for all connections, a ride that is late enough to end the scan is late enough
    for the origin. *)
Lemma departure_found w e1 x1 t1 :
  Forall (fun conn => minWaiting p conn = w) F ->
  rrides p c' back e1 x1 -> nodesTentativeTime c !! node_uid (getDepartureNode e1) = Some t1 ->
  t1 < MAX_INT -> t1 + minWaiting p e1 <= getDepartureTime e1 ->
  exists seen late st' e x a, back = seen ++ late /\
    for_each (reverse_scan_step p c') seen (reverse_start c') = Ok st' /\
    RSound p c' seen st' /\ RComplete p c' seen st' /\ rrides p c' seen e x /\
    nodesAccess c !! node_uid (getDepartureNode e) = Some a /\
    departureTimeSeconds c + ntd_time a + minWaiting p e <= getDepartureTime e /\
    exists best g,
      for_each (reverse_best_access p c' (rev_access st')) (accessFootpaths c) (-1, None) = Ok (best, g) /\
      reverseCalculation p c' =
        if rev_reachable st' =? 0 then Throw (NoRoutingFound NO_SERVICE_TO_DESTINATION)
        else Ok (option_map (fun a => (best, ntd_node a)) g, reverse_finish c' st', rev_access st').
Proof using Hlists Hq Hfirst Hao Hrq Haccess.
  intros Hw Hride Hn Ht Hdep. destruct (aa_reached Haccess _ _ Hn Ht) as (a & Ha & ->).
  destruct (reverseCalculation_scan p c' Hrq Hao)
    as (st' & seen & late & Hwin & Hscan & HS & HCo & Hlate & best & g & Hbest & Heq).
  pose proof (rwindow_sorted p c' margin Hrq) as Hws. pose proof (rwindow_ok p c' margin Hrq) as Hwo.
  pose proof (ao_margin _ _ Hao) as Hmar. cbn in Hmar. cbn [pass_back minEgressTravelTime] in Hwin.
  pose proof Hwin as Hwin'. rewrite Hwin in Hws, Hwo, Hride. rewrite Forall_forall in Hw.
  destruct (rrides_window_split p c' seen late e1 x1 Hws Hwo Hride) as [Hr | Hin].
  { exists seen, late, st', e1, x1, a. split_and!; try done. by exists best, g. }
  destruct Hlate as [-> | (Hmax & T & (e & x & a' & Hr & Ha' & <-) & Hafter)]; [by apply elem_of_nil in Hin|].
  cbn [pass_back nodesAccess] in Ha'. exists seen, late, st', e, x, a'. split_and!; try done; [|by exists best, g].
  destruct (before_in_elem _ _ _ (rleg_order _ _ _ (proj1 Hr))) as [_ He].
  rewrite <- (app_nil_r (seen ++ late)) in Hwin'.
  destruct (back_in_data _ _ _ e Hwin' (proj2 (elem_of_app _ _ _) (or_introl He)) Hmar) as (HeF & _).
  destruct (back_in_data _ _ _ e1 Hwin' (proj2 (elem_of_app _ _ _) (or_intror Hin)) Hmar) as (HeF1 & Hok1 & _).
  rewrite Forall_forall in Hafter. specialize (Hafter e1 Hin). cbn in Hafter, Hmax.
  rewrite (Hw e HeF) in *. rewrite (Hw e1 HeF1) in *. destruct Hok1.
  destruct (ao_nodes _ _ Hao _ _ Ha') as ((? & ?) & _). destruct (ao_nodes _ _ Hao _ _ Ha) as ((? & ?) & _).
  cbn in *. lia.
Qed.

(** The calculation back returns a departure that is not before the one asked for. *)
Lemma back_returns w e1 x1 t1 :
  Forall (fun conn => minWaiting p conn = w) F ->
  rrides p c' back e1 x1 -> nodesTentativeTime c !! node_uid (getDepartureNode e1) = Some t1 ->
  t1 < MAX_INT -> t1 + minWaiting p e1 <= getDepartureTime e1 ->
  exists t n c2 access, reverseCalculation p c' = Ok (Some (t, n), c2, access).
Proof using Hlists Hq Hfirst Hao Hrq Haccess Hlimit.
  intros Hw Hride Hn Ht Hdep.
  destruct (departure_found w e1 x1 t1 Hw Hride Hn Ht Hdep)
    as (seen & late & st' & e & x & a & Hwin & Hscan & HS & HCo & Hr & Ha & Hd & best & g & Hbest & Heq).
  destruct (recorded_departure seen late st' e x a Hwin HS HCo Hr Ha Hd) as (t & Hcand).
  destruct (best_access_sound p c' (rev_access st') Hao) as (best' & g' & Hbest' & _ & Hmax).
  { intros n s Hs. destruct (rs_access _ _ _ _ HS n s Hs) as (e' & x' & -> & _). by exists e'. }
  cbn [pass_back accessFootpaths] in Hbest'. rewrite Hbest in Hbest'. injection Hbest' as <- <-.
  destruct (ao_nodes _ _ Hao _ _ Ha) as (_ & fp & Hfp & Hnode). rewrite <- Hnode in Hcand.
  destruct (Hmax fp t Hfp Hcand) as [[g' ->] _].
  assert (rcount_ok (reverse_start c')) as H0 by by split.
  destruct (rscan_count p c' seen _ _ Hscan H0) as [Hpos Hzero].
  destruct Hcand as (s & _ & _ & Hs & _). rewrite Heq.
  destruct (Z.eqb_spec (rev_reachable st') 0) as [Hz|_]; [|by eexists _, _, _, _].
  by rewrite (Hzero Hz), lookup_empty in Hs.
Qed.

(** *** The journey made is a journey of the scan forward *)

Notation forth := (window p c).
Notation own_ride := (own_ride td known).

(** A connection of the scan back that leaves late enough for the origin. *)
Lemma back_in_window conn :
  conn ∈ back -> departureTimeSeconds c + minAccessTravelTime c <= getDepartureTime conn ->
  in_window p c conn /\ conn ∈ F /\ conn_ok p c conn.
Proof using Hlists Hq Hlimit Hao.
  intros Hin Hdep. rewrite <- (app_nil_r back) in Hin.
  pose proof (ao_margin _ _ Hao) as Hmar. cbn in Hmar.
  destruct (back_in_data margin back [] conn (eq_sym (app_nil_r _))) as (HF & Hok & Harr & _);
    [by rewrite app_nil_r in Hin|done|].
  rewrite app_nil_r in Hin. apply list_elem_of_filter in Hin as [(_ & _ & Hdis & _) _].
  pose proof (conn_time _ _ _ Hok). split_and!; [split_and!; [done|exact Hdis|lia]|done|done].
Qed.

Lemma back_leg e x :
  rleg back e x -> departureTimeSeconds c + minAccessTravelTime c <= getDepartureTime e ->
  leg forth e x /\ getDepartureTime e < getArrivalTime x.
Proof using Hlists Hq Hlimit Hao.
  intros Hleg Hdep. pose proof Hleg as [Ho Ht _ _]. destruct (before_in_elem _ _ _ Ho) as [Hx He].
  assert (sublist back (getReverseConnections (connectionSet c))) as Hsub by apply sublist_filter.
  apply (before_in_sublist _ _ _ _ Hsub) in Ho.
  destruct (back_in_window e He Hdep) as (Hwe & HeF & [He1 _ _ _ _ _]).
  apply (order_reversed c td known Hlists) in Ho; [|done|done].
  pose proof (sorted_before _ _ _ (qo_sorted _ _ Hq) Ho).
  destruct (back_in_window x Hx ltac:(lia)) as (Hwx & HxF & [Hx1 _ _ _ _ _]).
  split; [|lia]. by apply (rleg_leg c td known Hlists back).
Qed.

Lemma itinerary_head e x rest : ritinerary p c' back ((e, x) :: rest) -> conn_ok p c e.
Proof using Hlists Hq Hao.
  intros Hit. assert (e ∈ back) as He.
  { inversion Hit; subst; by destruct (before_in_elem _ _ _ (rleg_order _ _ _ ltac:(eassumption))). }
  pose proof (ao_margin _ _ Hao) as Hmar. cbn in Hmar.
  by destruct (back_in_data margin back [] e (eq_sym (app_nil_r _)) He Hmar) as (_ & ? & _).
Qed.

Lemma itinerary_forward l :
  ritinerary p c' back l -> forall e x rest t, l = (e, x) :: rest ->
  reaches p c forth (node_uid (getDepartureNode e)) t -> t + minWaiting p e <= getDepartureTime e ->
  departureTimeSeconds c + minAccessTravelTime c <= getDepartureTime e ->
  Forall (fun r => rides p c forth r.1 r.2) l.
Proof using Hlists Hq Hlimit Hao.
  induction 1 as [e x te Hleg | e x e2 x2 g rest Hleg Hit IH Hg Hgn Hgmax Hw2];
    intros e0 x0 rest0 t Hl Hr Hw Hdep; injection Hl as <- <- <-;
    destruct (back_leg e x Hleg Hdep) as [Hl Htime]; constructor; try done; try (by split; [|exists t]).
  destruct (before_in_elem _ _ _ (leg_order _ _ _ Hl)) as [_ Hx].
  apply list_elem_of_filter in Hx as [_ HxF].
  pose proof (itinerary_head _ _ _ Hit) as Hok2.
  assert (e2 ∈ F) as He2F.
  { assert (e2 ∈ back) as [_ He2]%list_elem_of_filter; [|by apply (la_members _ _ _ Hlists)].
    inversion Hit; subst; by destruct (before_in_elem _ _ _ (rleg_order _ _ _ ltac:(eassumption))). }
  pose proof (qo_conns _ _ Hq) as Hall. rewrite Forall_forall in Hall.
  destruct (la_forth _ _ _ Hlists x e2 g HxF He2F Hg Hgn) as (f & Hf & Hfn & Hft).
  pose proof (conn_transfers _ _ _ (Hall x HxF)) as Htr. rewrite Forall_forall in Htr.
  destruct (Htr f Hf) as (_ & Hpos & _). pose proof (conn_wait _ _ _ Hok2).
  apply (IH e2 x2 rest (getArrivalTime x + ntd_time f)); [done| |lia|lia].
  rewrite <- Hfn. by eapply reaches_ride; [| |exact Hw| |lia].
Qed.

(** Getting off a ride earlier, at the end of a ride within it. *)
Lemma ride_cut_short j j' r r' :
  own_ride j -> step_valid (trip_forward td) (trip_reverse td) known j' ->
  ride_of j = Some r -> ride_of j' = Some r' -> within r r' ->
  getArrivalTime r'.2 <= arrival -> rides p c forth r.1.2 r.2 -> rides p c forth r.1.2 r'.2.
Proof using Hlists Hq Hlimit.
  intros (e & x & a & b & Hj) Hj' Hr Hr' Hin Hlast [Hleg Hfrom].
  rewrite (rides_trip_of _ _ _ _ _ _ _ _ _ Hj) in Hr. injection Hr as <-.
  destruct r' as [[t' e'] x']. destruct (step_valid_ride _ _ _ _ _ _ _ Hj' Hr') as (a' & b' & Hj2).
  destruct Hin as [Ht Hdep Harr]. cbn in *. subst t'.
  destruct (before_in_elem _ _ _ (leg_order _ _ _ Hleg)) as [[Hwe HeF]%list_elem_of_filter [Hwx HxF]%list_elem_of_filter].
  pose proof (la_vector _ _ _ Hlists e HeF) as Hvec.
  assert (x' ∈ filter (of_trip (trip_uid (getTrip e))) F) as [Hx't Hx'F]%list_elem_of_filter.
  { rewrite <- Hvec. eapply list_elem_of_lookup_2, (rt_b _ _ _ _ _ _ _ _ _ Hj2). }
  pose proof (qo_conns _ _ Hq) as Hall. rewrite Forall_forall in Hall.
  pose proof (conn_time _ _ _ (Hall x' Hx'F)) as Htime. pose proof (conn_time _ _ _ (Hall x HxF)) as Htimex.
  destruct Hj as [_ _ _ Hok Ha Hb _ Hbo _], Hj2 as [_ _ _ _ Ha' Hb' Hle' _ Hun].
  assert (a <= b')%nat as Hab.
  { destruct (decide (a <= b')%nat) as [|Hlt]; [done|]. exfalso.
    assert (getArrivalTime x' <= getDepartureTime e) by
      (apply (trip_departs _ _ _ _ b' (a - S b')%nat x' e Hok Hb');
       by replace (b' + S (a - S b'))%nat with a by lia).
    destruct (trip_times _ _ _ _ a' e' Hok Ha' (b' - a')%nat x') as [? _];
      [by replace (a' + (b' - a'))%nat with b' by lia|]. lia. }
  assert (before_in F e x') as Ho.
  { eapply before_in_sublist; [apply (sublist_filter (of_trip (trip_uid (getTrip e))))|].
    rewrite <- Hvec. by exists a, b'. }
  pose proof (sorted_before _ _ _ (qo_sorted _ _ Hq) Ho).
  split; [|done]. split; [|done|apply Hleg|done]. apply before_in_filter; [done| |done].
  destruct Hwe as (? & Hdis & _), Hwx as (_ & _ & ?). unfold of_trip in Hx't.
  split_and!; [lia|by rewrite Hx't|]. cbn in *. lia.
Qed.

(** *** The result of the scan back *)

Context (Hknown : forall m n, known m -> known n -> node_uid m = node_uid n -> node_uuid m = node_uuid n).
Context (Hend : egress_end_ok c').

(** The last ride of a result arrives, for the scan forward as well. *)
Lemma result_arrives s t a eg res rides0 :
  reverse_journey p c' td known back s t a eg res rides0 ->
  (exists e, getFinalEnterConnection s = Some e /\ nodesAccess c !! node_uid (getDepartureNode e) = Some a /\
     departureTimeSeconds c + ntd_time a + minWaiting p e <= getDepartureTime e) ->
  nodesEgress c !! ntd_node eg = Some eg -> 0 <= ntd_time eg -> arrival <= MAX_INT - 1 ->
  arrives p c forth (ntd_node eg) (res_arrivalTime res).
Proof using Hlists Hq Hlimit Hao Haccess.
  intros [Hvalid Hrides Hhead Hlast _ (r0 & Hit & Hown & Hsame & Hin) Hbal Harr] (e & He & Ha & Hdep) Heg Hpos Hmaxint.
  cbn [pass_back arrivalTimeSeconds] in Harr.
  destruct (aa_walk Haccess _ _ Ha) as (Hn & Hlt & Hmin).
  pose proof (bl_arrival _ _ _ _ _ Hbal) as Hres. rewrite last_arrival_rides in Hres by done.
  unfold last_unboarding, last_exit_time in *.
  destruct (last (omap ride_of rides0)) as [r'|] eqn:Hr'; [|done].
  injection Hlast as Hnode. injection Hres as Htime. cbn in Htime.
  apply last_Some in Hr' as [before Hr'].
  assert (r' ∈ omap ride_of rides0) as Hr0 by (rewrite Hr'; apply elem_of_app; right; left).
  destruct (Hin r' Hr0) as (r & Hr & Hwithin).
  apply list_elem_of_omap in Hr0 as (j' & Hj' & Hride'), Hr as (j & Hj & Hride).
  rewrite Forall_forall in Hown, Hvalid.
  assert (rides p c forth r.1.2 r.2) as Hforth.
  { rewrite <- Hsame in Hhead. rewrite He in Hhead. unfold first_boarding, ride_pairs in *.
    assert ((r.1.2, r.2) ∈ (fun r => (r.1.2, r.2)) <$> omap ride_of r0) as Hrin.
    { apply list_elem_of_fmap. exists r. split; [done|]. apply list_elem_of_omap. eauto. }
    destruct (omap ride_of r0) as [|r1 rest]; [done|]. injection Hhead as <-.
    assert (Forall (fun r => rides p c forth r.1 r.2) ((fun r => (r.1.2, r.2)) <$> (r1 :: rest))) as Hall.
    { pose proof (itinerary_head _ _ _ Hit) as Hok1. pose proof (conn_wait _ _ _ Hok1).
      eapply itinerary_forward; [exact Hit|done| |exact Hdep|lia]. by apply reaches_walk. }
    rewrite Forall_forall in Hall. apply (Hall _ Hrin). }
  exists r.1.2, r'.2, eg. split_and!; [|done..|lia|lia].
  eapply ride_cut_short; [by apply Hown|by apply Hvalid|done|done|done|lia|done].
Qed.

(** From the best ride of the scan forward, the scan back makes a journey that arrives
    when it does, and no earlier journey exists. *)
Lemma pass_back_earliest w e x eg :
  Forall (fun conn => minWaiting p conn = w) F ->
  rides p c L e x -> nodesEgress c !! node_uid (getArrivalNode x) = Some eg ->
  arrival = getArrivalTime x + ntd_time eg -> margin <= ntd_time eg ->
  times !! node_uid (getArrivalNode x) = Some (getArrivalTime x) ->
  (forall n eg, nodesEgress c !! n = Some eg -> 0 <= ntd_time eg) ->
  (forall n t, arrives p c forth n t -> arrival <= t) -> arrival < MAX_INT ->
  exists t n c2 access res, reverseCalculation p c' = Ok (Some (t, n), c2, access) /\
    reverseJourneyStep td p c2 t (Some n) access = Ok res /\
    res_arrivalTime res = arrival /\ departureTimeSeconds c <= res_departureTime res /\
    (exists n, arrives p c forth n arrival) /\
    exists s a eg rides, reverse_journey p c' td known back s t a eg res rides.
Proof using All.
  intros Hw [Hleg (t0 & Hr & Hwe)] Heg Harr Hmargin Htimes Hpos Hbest Hmax.
  destruct (before_in_elem _ _ _ (leg_order _ _ _ Hleg)) as [He Hx].
  destruct (scanned_ok e He) as (HeF & Heok & _), (scanned_ok x Hx) as (HxF & Hxok & _).
  assert (rleg back e x) as Hback by (eapply boarded_ride_back; try done; lia).
  pose proof (rsorted_before _ _ _ (StronglySorted_filter _ _ _ Hsorted) (rleg_order _ _ _ Hback)).
  destruct (conn_time _ _ _ Heok), (conn_time _ _ _ Hxok).
  destruct (trace_back _ _ Hr e x He eq_refl Hwe ltac:(lia)) as (e1 & x1 & t1 & Hr1 & Hn1 & Ht1 & Hw1).
  { split; [done|]. exists (getArrivalTime x). split; [|lia]. apply departs_walk; [done|lia]. }
  destruct (back_returns w e1 x1 t1 Hw Hr1 Hn1 Ht1 Hw1) as (t & n & c2 & access & Hrun).
  destruct (reverse_journey_run p c' td known Hknown) with (t := t) (n := n) (c' := c2) (access := access)
    as (s & e' & a & res & rides0 & eg' & Hs & He' & Hn & Hwait & Hdok & Ha & Ht & Hres & Heg' & Hj); [|done..|].
  { destruct (la_trips _ _ _ Hlists). by split. }
  cbn [pass_back nodesAccess nodesEgress minEgressTravelTime] in *.
  assert (departureTimeSeconds c + ntd_time a + minWaiting p e' <= getDepartureTime e') as Hdep
    by (apply access_departure_spec; [done| |done]; congruence).
  assert (arrives p c forth (ntd_node eg') (res_arrivalTime res)) as Ha_.
  { eapply result_arrives; [exact Hj| |done|by eapply Hpos|lia]. exists e'. split_and!; [done|congruence|done]. }
  pose proof (Hbest _ _ Ha_). pose proof (rv_arrival _ _ _ _ _ _ _ _ _ _ _ Hj) as Harr'. cbn in Harr'.
  assert (res_arrivalTime res = arrival) as Heqa by lia. rewrite Heqa in Ha_.
  pose proof (bl_departure _ _ _ _ _ (rv_balanced _ _ _ _ _ _ _ _ _ _ _ Hj)).
  exists t, n, c2, access, res. split_and!; [done|done|done|lia|by eexists|].
  by exists s, a, eg', rides0.
Qed.
End PassBack.
