(* ===== verification/QuerySetup.v ===== *)
(** * What a query finds before its scan back

    [ResetCorrect] gives the hypotheses of the theorems on the forward scan; this file
    gives those on the scan back, from the data of the network, after the reset and
    after the steps of [calculator.cpp] between the two scans. *)

From Stdlib Require Import ZArith Lia Sorted.
From stdpp Require Import base list gmap strings.
From S2P Require Import Prelude.
From S2P Require Import Data.
From S2P Require Import RoutingResult.
From S2P Require Import ConnectionSet.
From S2P Require Import ConnectionCache.
From S2P Require Import TransitData.
From S2P Require Import Calculator.
From S2P Require Import ForwardCalculation.
From S2P Require Import ForwardCorrect.
From S2P Require Import ResetCorrect.
From S2P Require Import ReverseCalculation.
From S2P Require Import ReverseCorrect.
From S2P Require Import OptimizeJourney.
From S2P Require Import OptimizeCorrect.
From S2P Require Import ReverseJourney.
From S2P Require Import CalculationCorrect.
From S2P Require Import BothWays.

Local Open Scope Z_scope.

Lemma filter_filter_implied {A} (P Q : A -> Prop) `{!forall x, Decision (P x)} `{!forall x, Decision (Q x)} (l : list A) :
  (forall x, x ∈ l -> P x -> Q x) -> filter P (filter Q l) = filter P l.
Proof.
  induction l as [|x l IH]; intros Himp; [done|]. rewrite !filter_cons.
  specialize (IH ltac:(intros; apply Himp; [by right|done])).
  pose proof (Himp x ltac:(left)).
  repeat (case_decide; rewrite ?filter_cons); try done; try (by rewrite IH); tauto.
Qed.

(** The vectors of the trips, as the transit data makes them. *)
Lemma generated_vectors td u :
  tripForwardConnections td = ∅ -> tripReverseConnections td = ∅ ->
  let td' := (generateForwardAndReverseConnections td).2 in
  default [] (tripForwardConnections td' !! u) = filter (of_trip u) (forwardConnections td') /\
  default [] (tripReverseConnections td' !! u) = filter (of_trip u) (reverseConnections td').
Proof. intros Hf Hr. cbn. by rewrite !push_trip_connections_lookup, Hf, Hr, !lookup_empty. Qed.

(** ** The times of the stops of an end *)

(** [prepare_reverse_pass] sets the time of each egress stop. *)
Definition set_end_time (timeAt : Z -> Z) (f : NodeTimeDistance) (times : list Z) : calc (list Z) :=
  vec_set (ntd_node f) (timeAt (ntd_time f)) times.

Record times_set (timeAt : Z -> Z) (l : list NodeTimeDistance) (times0 times : list Z) : Prop := {
  ts_length : length times = length times0;
  ts_times : forall n t, times !! n = Some t ->
    (times0 !! n = Some t /\ forall f, f ∈ l -> ntd_node f <> n) \/
    exists f, f ∈ l /\ ntd_node f = n /\ t = timeAt (ntd_time f)
}.

Lemma set_end_times timeAt l times0 :
  Forall (fun f => (ntd_node f < length times0)%nat) l ->
  exists times, for_each (set_end_time timeAt) l times0 = Ok times /\ times_set timeAt l times0 times.
Proof.
  intros Hl. apply (for_each_ok (set_end_time timeAt) (fun pre times => times_set timeAt pre times0 times)).
  - intros pre f post times -> [Hlen Htimes]. apply Forall_app in Hl as [_ [Hf _]%Forall_cons].
    unfold set_end_time, vec_set.
    destruct (lookup_lt_is_Some_2 times (ntd_node f)) as [old Hold]; [by rewrite Hlen|]. rewrite Hold.
    eexists. split; [done|]. split; [by rewrite length_insert|]. intros n t.
    destruct (decide (ntd_node f = n)) as [<-|Hne].
    + rewrite list_lookup_insert_eq by (by eapply lookup_lt_Some). intros [= <-]. right. exists f.
      split_and!; [set_solver|done|done].
    + rewrite list_lookup_insert_ne by done.
      intros [[Hn Hno] | (g & Hg & Hgn)]%Htimes; [left|right; exists g; set_solver].
      split; [done|]. intros g [Hg | ->%list_elem_of_singleton]%elem_of_app; [by apply Hno|done].
  - split; [done|]. intros n t Hn. left. split; [done|]. intros f Hf. by apply elem_of_nil in Hf.
Qed.

(** [prepare_reverse_query] makes the trips usable. *)
Record trips_used (l : list Trip) (overlay0 overlay : list TripQueryData) : Prop := {
  tu_length : length overlay = length overlay0;
  tu_exit : Forall (fun q => exitConnection q = None) overlay;
  tu_usable : forall t, t ∈ l -> from_option usable false (overlay !! trip_uid t) = true
}.

Lemma use_trips l overlay0 :
  Forall (fun t => (trip_uid t < length overlay0)%nat) l ->
  Forall (fun q => exitConnection q = None) overlay0 ->
  exists overlay, for_each use_trip l overlay0 = Ok overlay /\ trips_used l overlay0 overlay.
Proof.
  intros Hl Hexit. apply (for_each_ok use_trip (fun pre overlay => trips_used pre overlay0 overlay)).
  - intros pre t post overlay -> [Hlen Hex Hus]. apply Forall_app in Hl as [_ [Ht _]%Forall_cons].
    unfold use_trip, vec_get, vec_set.
    destruct (lookup_lt_is_Some_2 overlay (trip_uid t)) as [q Hq]; [by rewrite Hlen|].
    rewrite Hq. cbn [mbind result_bind]. eexists. split; [done|].
    split; [by rewrite length_insert|apply Forall_insert; [done|by apply (Forall_lookup_1 _ _ _ _ Hex Hq)]|].
    intros t' Hin. destruct (decide (trip_uid t' = trip_uid t)) as [->|Hne].
    + by rewrite list_lookup_insert_eq by (by eapply lookup_lt_Some).
    + rewrite list_lookup_insert_ne by done. apply elem_of_app in Hin as [Hin | ->%list_elem_of_singleton]; [auto|done].
  - split; [done|done|]. intros t Ht. by apply elem_of_nil in Ht.
Qed.

(** The calculator of a query by arrival time, before its scan. *)
Definition reverse_query (c : Calculator) (trips : list TripQueryData) : Calculator :=
  mkCalculator (-1) (arrivalTimeSeconds c) (minAccessTravelTime c) (maxEgressTravelTime c)
    (maxAccessTravelTime c) (minEgressTravelTime c) (odTripGlob c) (nodesTentativeTime c)
    (nodesReverseTentativeTime c) (nodesAccess c) (nodesEgress c) (tripsDisabled c) trips
    (connectionSet c) (accessFootpaths c) (egressFootpaths c) (forwardJourneysSteps c)
    (reverseJourneysSteps c).

Section Setup.
Context {geo : GeoFilter} {C : Type} `{ScenarioConnectionCacheLaws C}.
Context (srv : Server) (p : CommonParameters) (known : list Scenario) (stop : Node -> Prop).
Notation td := (transitData srv).

(** What the scan back asks of a connection of the data. *)
Record back_data_ok (conn : Connection) : Prop := {
  bd_arr_uid : (node_uid (getArrivalNode conn) <= Node_getMaxUid srv)%nat;
  bd_transfers :
    Forall (fun f => (ntd_node f <= Node_getMaxUid srv)%nat /\ 0 <= ntd_time f)
      (reverseTransferableNodes (getDepartureNode conn));
  bd_self : exists f, f ∈ reverseTransferableNodes (getDepartureNode conn) /\
    ntd_node f = node_uid (getDepartureNode conn) /\
    ntd_time f <= getMaxTransferWalkingTravelTimeSeconds p;
  bd_trip : trip_ok (trip_forward td) (trip_reverse td) stop (getTrip conn)
}.

(** A footpath from the arrival of [x] to the departure of [e], and the same footpath
    as the departure of [e] lists it. *)
Definition walk_out (x e : Connection) (time : Z) : Prop :=
  exists f, f ∈ transferableNodes (getArrivalNode x) /\
    ntd_node f = node_uid (getDepartureNode e) /\ ntd_time f = time.
Definition walk_in (x e : Connection) (time : Z) : Prop :=
  exists g, g ∈ reverseTransferableNodes (getDepartureNode e) /\
    ntd_node g = node_uid (getArrivalNode x) /\ ntd_time g = time.

(** The data of the server, as they are loaded. *)
Record network_ok : Prop := {
  nw_server : server_ok srv p known;
  nw_back : Forall back_data_ok (connections td);
  nw_trips : Forall (fun t => (trip_uid t <= Trip_getMaxUid srv)%nat) (getTrips td);
  nw_forward : forall u, default [] (tripForwardConnections td !! u) = filter (of_trip u) (forwardConnections td);
  nw_reverse : forall u, default [] (tripReverseConnections td !! u) = filter (of_trip u) (reverseConnections td);
  nw_walks : forall x e time, x ∈ connections td -> e ∈ connections td -> walk_out x e time <-> walk_in x e time
}.

Context (Hnet : network_ok).
Notation cs := (computeConnectionsForScenario td (getScenario p)).

Lemma network_members conn :
  (conn ∈ getForwardConnections cs <-> conn ∈ connections td /\ conn_enabled_for (getScenario p) conn) /\
  (conn ∈ getReverseConnections cs <-> conn ∈ connections td /\ conn_enabled_for (getScenario p) conn).
Proof using Hnet.
  pose proof (so_data _ _ _ (nw_server Hnet)) as Hwf. rewrite (computeConnections_spec td _ Hwf).
  cbn. rewrite (wf_forward _ Hwf), (wf_reverse _ Hwf), !list_elem_of_filter.
  assert (forall lt, conn ∈ stable_sort lt (connections td) <-> conn ∈ connections td) as Hin.
  { intros lt. by rewrite stable_sort_perm. }
  rewrite !Hin. tauto.
Qed.

(** The connections of a trip of the scenario are all in its set. *)
Lemma trip_connections (l : list Connection) conn :
  l ⊆ connections td -> conn ∈ l -> conn_enabled_for (getScenario p) conn ->
  filter (of_trip (trip_uid (getTrip conn))) (filter (conn_enabled_for (getScenario p)) l) =
  filter (of_trip (trip_uid (getTrip conn))) l.
Proof using Hnet.
  intros Hsub Hin Hen. apply filter_filter_implied. intros y Hy Hyt.
  pose proof (so_data _ _ _ (nw_server Hnet)) as Hwf.
  pose proof (wf_trips _ Hwf) as Htrips. rewrite Forall_forall in Htrips.
  unfold conn_enabled_for, of_trip in *.
  by rewrite (NoDup_fmap_inj trip_uid (getTrips td) (getTrip y) (getTrip conn) (wf_uids _ Hwf)
                (Htrips _ (Hsub _ Hy)) (Htrips _ (Hsub _ Hin)) Hyt).
Qed.

(** An end has one time for each of its stops. *)
Lemma end_time timeAt initial l st n e :
  NoDup (ntd_node <$> l) -> end_ok (Node_getMaxUid srv) timeAt initial l st -> end_nodes st !! n = Some e ->
  ntd_node e = n /\ exists f, f ∈ l /\ ntd_node f = n /\ ntd_time f = ntd_time e /\
    forall f', f' ∈ l -> ntd_node f' = n -> f' = f.
Proof.
  intros Hnd Hst Hn. destruct (en_nodes _ _ _ _ _ Hst n e Hn) as (Hen & f & Hf & Hfn & Hft).
  split; [done|]. exists f. split_and!; try done. intros f' Hf' Hn'.
  eapply (NoDup_fmap_inj ntd_node); [exact Hnd|done..|congruence].
Qed.

(** Every stop where a connection of the scenario starts has a footpath from itself. *)
Lemma back_self c : connectionSet c = cs -> rself_transfers p c.
Proof using Hnet.
  intros Hcs conn Hin. rewrite Hcs in Hin. apply network_members in Hin as [Hin _].
  pose proof (nw_back Hnet) as Hb. rewrite Forall_forall in Hb. by apply bd_self, Hb.
Qed.

(** *** After a reset, whatever the ends *)

Section Ends.
Context (origin dest : option Point) (access egress : EndState) (disabled : gmap uid bool).
Context (Hread : ends_read srv p known origin dest access egress disabled).
Notation c1 := (after_reset srv p origin dest access egress disabled).

Lemma setup_trips : trips_ok c1 td stop.
Proof using Hnet.
  pose proof (so_data _ _ _ (nw_server Hnet)) as Hwf. split; cbn; intros conn Hin;
    apply network_members in Hin as [Hin Hen].
  - pose proof (nw_back Hnet) as Hb. rewrite Forall_forall in Hb. by apply bd_trip, Hb.
  - unfold trip_reverse. rewrite (nw_reverse Hnet), (computeConnections_spec td _ Hwf). cbn.
    rewrite trip_connections; [done| | |done]; rewrite (wf_reverse _ Hwf); [intros y|];
      by rewrite stable_sort_perm.
Qed.

Lemma setup_lists : lists_agree c1 td stop.
Proof using Hnet.
  pose proof (so_data _ _ _ (nw_server Hnet)) as Hwf. split; cbn.
  - intros conn. by rewrite (proj1 (network_members conn)), (proj2 (network_members conn)).
  - apply setup_trips.
  - intros conn [Hin Hen]%network_members.
    unfold trip_forward. rewrite (nw_forward Hnet), (computeConnections_spec td _ Hwf). cbn.
    rewrite trip_connections; [done| | |done]; rewrite (wf_forward _ Hwf); [intros y|];
      by rewrite stable_sort_perm.
  - intros x e f [Hx _]%network_members [He _]%network_members Hf Hn.
    apply (nw_walks Hnet); [done..|]. by exists f.
  - intros x e g [Hx _]%network_members [He _]%network_members Hg Hn.
    apply (nw_walks Hnet); [done..|]. by exists g.
Qed.

(** The hypotheses on the scan back, from the fields a calculator has after the reset. *)
Lemma rquery_from d c' :
  dest = Some d -> connectionSet c' = cs -> reverseJourneysSteps c' = end_steps egress ->
  length (nodesReverseTentativeTime c') = (Node_getMaxUid srv + 1)%nat ->
  length (tripsQueryOverlay c') = (Trip_getMaxUid srv + 1)%nat ->
  Forall (fun q => exitConnection q = None) (tripsQueryOverlay c') ->
  0 <= arrivalTimeSeconds c' <= MAX_INT -> rquery_ok p c'.
Proof using Hnet Hread.
  intros Hd Hcs Hsteps Hlen Htrips Hexit Harr. pose proof (er_egress _ _ _ _ _ _ _ _ Hread d Hd) as He.
  destruct (after_reverse_conns _ _ _ _ _ _ _ _ Hread) as [Hsr Hor].
  split; rewrite ?Hcs; [split; rewrite ?Hsteps| | | |done].
  - by rewrite (en_steps_len _ _ _ _ _ He), Hlen.
  - apply (en_steps _ _ _ _ _ He).
  - done.
  - eexists _, _. exact (after_set _ _ _ _ _ _ _ _ Hread).
  - done.
  - rewrite Forall_forall in Hor |- *. intros conn Hin. destruct (Hor conn Hin).
    apply network_members in Hin as [Hin _]. pose proof (nw_back Hnet) as Hb. rewrite Forall_forall in Hb.
    destruct (Hb conn Hin) as [Hauid Htr _ _]. split; [done|done|rewrite Hlen; lia|rewrite Htrips; lia|].
    eapply Forall_impl; [exact Htr|]. cbn. intros f [? ?]. rewrite Hlen. split; lia.
Qed.

Lemma setup_access_end o d : origin = Some o -> dest = Some d -> access_end_ok p c1.
Proof using Hnet Hread.
  intros Ho Hd. pose proof (er_access _ _ _ _ _ _ _ _ Hread o Ho) as Ha.
  pose proof (er_egress _ _ _ _ _ _ _ _ Hread d Hd) as He.
  pose proof (ok_access _ _ _ _ (er_ends _ _ _ _ _ _ _ _ Hread) o Ho) as Hok. rewrite Forall_forall in Hok.
  split; cbn; rewrite ?Ho; cbn; [| | |apply (en_min_pos _ _ _ _ _ He)].
  - intros n a Hn. destruct (en_nodes _ _ _ _ _ Ha n a Hn) as (_ & f & Hf & Hfn & <-).
    pose proof (en_max _ _ _ _ _ Ha f Hf). destruct (Hok f Hf). split; [lia|by exists f].
  - intros f Hf. destruct (en_known _ _ _ _ _ Ha f Hf) as [a Hn]. exists a. split; [done|].
    by destruct (en_nodes _ _ _ _ _ Ha _ a Hn).
  - by apply back_self.
Qed.
End Ends.

Section Query.
Context (o d : Point) (access egress : EndState) (disabled : gmap uid bool).
Context (Hread : ends_read srv p known (Some o) (Some d) access egress disabled).
Context (Hforward : isForwardCalculation p = true) (Htime : 0 <= getTimeOfTrip p < 32 * 3600).
Context (Hnda : NoDup (ntd_node <$> access_of srv p o)) (Hnde : NoDup (ntd_node <$> egress_of srv p d)).
Notation c1 := (after_reset srv p (Some o) (Some d) access egress disabled).

Lemma departure_is : departure_of p = getTimeOfTrip p.
Proof using Hforward. unfold departure_of. by rewrite Hforward. Qed.

Lemma setup_access : access_agrees c1.
Proof using Hread Hforward Htime Hnda.
  pose proof (er_access _ _ _ _ _ _ _ _ Hread o eq_refl) as Ha.
  pose proof (ok_access _ _ _ _ (er_ends _ _ _ _ _ _ _ _ Hread) o eq_refl) as Hok. rewrite Forall_forall in Hok.
  split; cbn; rewrite departure_is in *.
  - intros n t Hn Ht. destruct (en_times _ _ _ _ _ Ha n t Hn) as [[-> _] | (f & Hf & <- & ->)]; [lia|].
    destruct (en_known _ _ _ _ _ Ha f Hf) as [a Hna]. exists a. split; [done|].
    destruct (end_time _ _ _ _ _ _ Hnda Ha Hna) as (_ & f' & Hf' & _ & <- & Huniq). by rewrite (Huniq f Hf).
  - intros n a Hn. destruct (end_time _ _ _ _ _ _ Hnda Ha Hn) as (_ & f & Hf & Hfn & Hft & Huniq).
    destruct (Hok f Hf). pose proof (en_min _ _ _ _ _ Ha f Hf). unfold MAX_INT in *.
    split_and!; [|lia|lia].
    destruct (lookup_lt_is_Some_2 (end_times access) n) as [t Ht].
    { rewrite (en_times_len _ _ _ _ _ Ha). lia. }
    destruct (en_times _ _ _ _ _ Ha n t Ht) as [[_ Hno] | (f' & Hf' & Hfn' & ->)]; [by destruct (Hno f Hf)|].
    rewrite Ht. by rewrite (Huniq f' Hf' Hfn'), Hft.
Qed.

(** *** Before the scan back *)

Context (arrival : Z) (st : ForwardState).
Context (Htrips_len : length (fwd_trips st) = (Trip_getMaxUid srv + 1)%nat).
Context (Hover : Forall overlay_ok (fwd_trips st)) (Harrival : 0 <= arrival <= MAX_INT).
Notation c' times := (pass_back c1 arrival st times).

Lemma setup_times :
  exists times, prepare_reverse_pass arrival (forward_finish c1 st) = Ok (c' times) /\
    length times = (Node_getMaxUid srv + 1)%nat /\
    (forall n t, times !! n = Some t -> t < 0 \/ exists eg, nodesEgress c1 !! n = Some eg /\ t = arrival - ntd_time eg) /\
    (forall n eg, nodesEgress c1 !! n = Some eg ->
       ntd_node eg = n /\ minEgressTravelTime c1 <= ntd_time eg /\ times !! n = Some (arrival - ntd_time eg)).
Proof using Hread Hnde Hforward Htrips_len.
  pose proof (er_egress _ _ _ _ _ _ _ _ Hread d eq_refl) as He.
  pose proof (ok_egress _ _ _ _ (er_ends _ _ _ _ _ _ _ _ Hread) d eq_refl) as Hok.
  destruct (set_end_times (fun t => arrival - t) (egress_of srv p d) (end_times egress)) as (times & Hrun & [Hlen Htimes]).
  { eapply Forall_impl; [exact Hok|]. intros f [Hf _]. rewrite (en_times_len _ _ _ _ _ He). lia. }
  rewrite (en_times_len _ _ _ _ _ He) in Hlen. rewrite Forall_forall in Hok.
  exists times. split_and!; [|done|..]; cbn.
  - unfold prepare_reverse_pass. cbn [forward_finish after_reset egressFootpaths nodesReverseTentativeTime from_option].
    unfold set_end_time in Hrun. by rewrite Hrun.
  - intros n t [[Hn Hno] | (f & Hf & <- & ->)]%Htimes; [left|right].
    + unfold arrival_of in He. rewrite Hforward in He.
      destruct (en_times _ _ _ _ _ He n t Hn) as [[-> _] | (f & Hf & Hfn & ->)]; [lia|].
      destruct (Hok f Hf). lia.
    + destruct (en_known _ _ _ _ _ He f Hf) as [eg Heg]. exists eg. split; [done|].
      destruct (end_time _ _ _ _ _ _ Hnde He Heg) as (_ & f' & Hf' & _ & <- & Huniq). by rewrite (Huniq f Hf).
  - intros n eg Heg. destruct (end_time _ _ _ _ _ _ Hnde He Heg) as (Hen & f & Hf & Hfn & <- & Huniq).
    split_and!; [done|by apply (en_min _ _ _ _ _ He)|].
    destruct (Hok f Hf). destruct (lookup_lt_is_Some_2 times n) as [t Ht]; [rewrite Hlen; lia|].
    destruct (Htimes n t Ht) as [[_ Hno] | (f' & Hf' & Hfn' & ->)]; [by destruct (Hno f Hf)|].
    by rewrite Ht, (Huniq f' Hf' Hfn').
Qed.

Lemma setup_rquery times : length times = (Node_getMaxUid srv + 1)%nat -> rquery_ok p (c' times).
Proof using Hnet Hread Htrips_len Hover Harrival.
  intros Hlen. apply (rquery_from _ _ _ _ _ Hread d); cbn; try done.
  eapply Forall_impl; [exact Hover|]. by intros q [Hq _].
Qed.

Lemma setup_access_back times : access_end_ok p (c' times).
Proof using Hnet Hread. by destruct (setup_access_end _ _ _ _ _ Hread o d eq_refl eq_refl). Qed.

(** The conditions for the scan back of a query by departure time. *)
Record pass_ready (times : list Z) : Prop := {
  pr_run : prepare_reverse_pass arrival (forward_finish c1 st) = Ok (c' times);
  pr_query : rquery_ok p (c' times);
  pr_access : access_end_ok p (c' times);
  pr_trips : trips_ok (c' times) td stop;
  pr_egress : egress_end_ok (c' times);
  pr_times : forall n eg, nodesEgress c1 !! n = Some eg ->
    minEgressTravelTime c1 <= ntd_time eg /\ times !! n = Some (arrival - ntd_time eg)
}.

Lemma setup_pass : exists times, pass_ready times.
Proof using All.
  destruct setup_times as (times & Hpass & Htlen & Hback & Hegr). exists times.
  split; [exact Hpass|exact (setup_rquery times Htlen)|exact (setup_access_back times)| | |].
  - destruct (setup_trips (Some o) (Some d) access egress disabled) as [H1 H2]. split; assumption.
  - intros m t Hm Ht. cbn in *. destruct (Hback m t Hm) as [|(eg & Heg & ->)]; [lia|].
    exists eg. destruct (Hegr m eg Heg). split_and!; [done|done|lia].
  - intros n eg Heg. by destruct (Hegr n eg Heg).
Qed.
End Query.

(** ** A query by arrival time *)

Section ReverseQuery.
Context (origin : option Point) (d : Point) (access egress : EndState) (disabled : gmap uid bool).
Context (Hread : ends_read srv p known origin (Some d) access egress disabled).
Context (Hback : isForwardCalculation p = false) (Htime : 0 <= getTimeOfTrip p <= MAX_INT).
Context (Hnde : NoDup (ntd_node <$> egress_of srv p d)).
Notation c1 := (after_reset srv p origin (Some d) access egress disabled).

Lemma arrival_is : arrival_of p = getTimeOfTrip p.
Proof using Hback. unfold arrival_of. by rewrite Hback. Qed.

(** The conditions for the scan back of a query by arrival time. *)
Record reverse_ready (c' : Calculator) : Prop := {
  rr_prepare : prepare_reverse_query srv c1 = Ok c';
  rr_query : rquery_ok p c';
  rr_trips : trips_ok c' td stop;
  rr_egress : egress_end_ok c';
  rr_access : forall o, origin = Some o -> access_end_ok p c';
  rr_departure : departureTimeSeconds c' = -1;
  rr_arrival : arrivalTimeSeconds c' = getTimeOfTrip p;
  rr_usable : forall conn, conn ∈ getReverseConnections (connectionSet c') ->
    from_option usable false (tripsQueryOverlay c' !! trip_uid (getTrip conn)) = true
}.

Lemma reverse_query_ready : exists trips, reverse_ready (reverse_query c1 trips).
Proof using Hnet Hread Hback Htime Hnde.
  pose proof (er_egress _ _ _ _ _ _ _ _ Hread d eq_refl) as He.
  destruct (use_trips (getTrips td) (tripsQueryOverlay c1)) as (trips & Hrun & [Hlen Hexit Hus]).
  { eapply Forall_impl; [exact (nw_trips Hnet)|]. intros t Ht. cbn in Ht |- *. rewrite length_replicate. lia. }
  { apply Forall_forall. intros q Hq. cbn in Hq. by apply elem_of_replicate in Hq as [-> _]. }
  cbn in Hlen. rewrite length_replicate in Hlen. exists trips.
  split; cbn; [| | | | |done|apply arrival_is|].
  - unfold prepare_reverse_query. cbn in Hrun |- *. by rewrite Hrun.
  - apply (rquery_from _ _ _ _ _ Hread d); cbn; try done.
    + apply (en_times_len _ _ _ _ _ He).
    + by rewrite arrival_is.
  - by destruct (setup_trips origin (Some d) access egress disabled).
  - intros n t Hn Ht. cbn in *. rewrite arrival_is in *.
    destruct (en_times _ _ _ _ _ He n t Hn) as [[-> _] | (f & Hf & <- & ->)]; [lia|].
    destruct (en_known _ _ _ _ _ He f Hf) as [eg Heg]. exists eg. rewrite Heg.
    destruct (end_time _ _ _ _ _ _ Hnde He Heg) as (Hen & f' & Hf' & _ & <- & Huniq).
    rewrite <- (Huniq f Hf eq_refl) in *. split_and!; [done|done|lia].
  - intros o Ho. by destruct (setup_access_end _ _ _ _ _ Hread o d Ho eq_refl).
  - intros conn [Hin _]%network_members. apply Hus.
    pose proof (wf_trips _ (so_data _ _ _ (nw_server Hnet))) as Hw. rewrite Forall_forall in Hw. by apply Hw.
Qed.
End ReverseQuery.
End Setup.

