(* ===== verification/QueryCorrect.v ===== *)
(** * The answers to queries are right

    The theorems on [calculateSingle] and [calculateAllNodes], from the data of the
    server and the parameters to the result or the reason why there is none. *)

From Stdlib Require Import ZArith Lia Sorted.
From Corelib Require Import SpecFloat.
From stdpp Require Import base list gmap strings.
From S2P Require Import Prelude.
From S2P Require Import Data.
From S2P Require Import RoutingResult.
From S2P Require Import ConnectionSet.
From S2P Require Import ConnectionCache.
From S2P Require Import TransitData.
From S2P Require Import Calculator.
From S2P Require Import Demo.
From S2P Require Import ForwardCalculation.
From S2P Require Import ForwardCorrect.
From S2P Require Import ResetCorrect.
From S2P Require Import ForwardJourney.
From S2P Require Import ReverseCalculation.
From S2P Require Import ReverseCorrect.
From S2P Require Import OptimizeJourney.
From S2P Require Import OptimizeCorrect.
From S2P Require Import JourneyAccounts.
From S2P Require Import ReverseJourney.
From S2P Require Import Calculation.
From S2P Require Import CalculationCorrect.
From S2P Require Import BothWays.
From S2P Require Import QuerySetup.

Local Open Scope Z_scope.

Section Route.
Context {geo : GeoFilter} {C : Type} `{ScenarioConnectionCacheLaws C}.
Context (srv : Server) (known : list Scenario) (stop : Node -> Prop)
  (Hstop : forall m n, stop m -> stop n -> node_uid m = node_uid n -> node_uuid m = node_uuid n).
Context (parameters : RouteParameters).
Notation p := (route_common parameters).
Notation td := (transitData srv).

Section Forward.
Context (c1 : Calculator) (access egress : EndState) (disabled : gmap uid bool).
Notation o := (getOrigin parameters).
Notation d := (getDestination parameters).
Context (Hread : ends_read srv p known (Some o) (Some d) access egress disabled).
Context (Hc1 : c1 = after_reset srv p (Some o) (Some d) access egress disabled).
Context (Hnet : network_ok srv p known stop).
Context (Hforward : isForwardCalculation p = true) (Htime : 0 <= getTimeOfTrip p < 32 * 3600).
Context (Hfirst : getMaxFirstWaitingTimeSeconds p < 0).
Context (Hnda : NoDup (ntd_node <$> access_of srv p o)) (Hnde : NoDup (ntd_node <$> egress_of srv p d)).
Context (w : Z) (Hwait : Forall (fun conn => minWaiting p conn = w) (connections td)).

(** The scan back from the best arrival. *)
Lemma route_back st seen best g :
  destination_found p c1 st seen best (Some g) ->
  exists times res c4, prepare_reverse_pass best (forward_finish c1 st) = Ok (pass_back c1 best st times) /\
    calculateSingleReverse srv p (pass_back c1 best st times) = Ok (res, c4) /\
    res_arrivalTime res = best /\ departureTimeSeconds c1 <= res_departureTime res /\
    (exists n, arrives p c1 (window p c1) n best) /\
    exists s a eg rides,
      reverse_journey p (pass_back c1 best st times) td stop
        (rwindow p (pass_back c1 best st times) (minEgressTravelTime c1)) s
        (res_departureTime res) a eg res rides.
Proof using All.
  intros [(late & Hwin) Hscan HS HC _ Hbest Hleast].
  rewrite within_first_wait_all in HC, Hleast by lia.
  destruct (Hbest g eq_refl) as (_ & e & x & eg & Hride & Hn & Heg & Harr & Hlimit & Hmax).
  pose proof (after_query_ok _ _ _ _ _ _ _ _ Hread o eq_refl Hforward Htime) as Hq. rewrite <- Hc1 in Hq.
  pose proof (after_egress_ok _ _ _ _ _ _ _ _ Hread d eq_refl) as Heo. rewrite <- Hc1 in Heo.
  destruct (eo_nodes _ _ Heo _ _ Heg) as ((Heg0 & _) & _).
  assert (Forall overlay_ok (fwd_trips st)) as Hover.
  { eapply scan_overlays; [exact Hscan|]. rewrite Hc1. cbn. apply Forall_forall.
    intros q [-> _]%elem_of_replicate. split; [done|by intros [? ?]]. }
  assert (length (fwd_trips st) = (Trip_getMaxUid srv + 1)%nat) as Hlen.
  { rewrite (sd_trips_len _ _ _ _ HS), Hc1. apply length_replicate. }
  assert (0 <= best <= MAX_INT) as Hrange.
  { destruct (before_in_elem _ _ _ (leg_order _ _ _ (proj1 Hride))) as [_ Hx].
    pose proof (window_ok _ _ Hq) as Hall. rewrite Hwin, Forall_app in Hall. destruct Hall as [Hall _].
    rewrite Forall_forall in Hall. destruct (conn_time _ _ _ (Hall x Hx)). lia. }
  pose proof (setup_lists srv p known stop Hnet (Some o) (Some d) access egress disabled) as Hlists.
  pose proof (setup_access srv p known o d access egress disabled Hread Hforward Htime Hnda) as Haccess.
  destruct (setup_pass srv p known stop Hnet o d access egress disabled Hread Hforward Htime Hnda Hnde best st
              Hlen Hover Hrange) as (times & [Hpass Hrq Hao _ Hend Hegr]).
  destruct (after_reverse_conns _ _ _ _ _ _ _ _ Hread) as [Hsr _].
  rewrite <- Hc1 in *.
  assert (Forall (fun conn => minWaiting p conn = w) (getForwardConnections (connectionSet c1))) as Hw.
  { rewrite Forall_forall in Hwait |- *. intros conn Hin. apply Hwait.
    rewrite Hc1 in Hin. by apply (network_members srv p known stop Hnet) in Hin as [Hin _]. }
  assert (sublist seen (window p c1)) as Hsub by (rewrite Hwin; by apply sublist_inserts_r).
  assert (reverse_sorted (getReverseConnections (connectionSet c1))) as Hsorted by by rewrite Hc1.
  rewrite <- Hn in Heg. destruct (Hegr _ _ Heg) as (Hmin & Hxt).
  destruct (pass_back_earliest p c1 td stop best seen st times Hlists Hq Hsub HC Hover Hsorted Hlimit
              Haccess Hao Hrq Hfirst Hstop Hend w e x eg Hw Hride Heg Harr Hmin)
    as (t & m & c2 & steps & res & Hrun & Hstep & Hres & Hdep & Harrives & s & a & eg' & rides & Hj);
    [rewrite Hxt; f_equal; lia|..|done|].
  - intros m eg' Heg'. by destruct (eo_nodes _ _ Heo _ _ Heg') as ((? & _) & _).
  - intros m t Ha. by destruct (Hleast m t Ha).
  - exists times, res, c2. split_and!; try done.
    + unfold calculateSingleReverse. rewrite Hrun. cbn [mbind result_bind from_option fst fmap option_fmap option_map snd].
      by rewrite Hstep.
    + rewrite (bl_departure _ _ _ _ _ (rv_balanced _ _ _ _ _ _ _ _ _ _ _ Hj)). by exists s, a, eg', rides.
Qed.

(** A route query by departure time either has its answer or no journey arrives. *)
Lemma forward_answer c cache cache1 :
  reset srv c p (Some o) (Some d) true true cache = Ok (c1, cache1) ->
  match calculateSingle srv c parameters true true cache with
  | Ok (Some res, _, cache') => cache' = cache1 /\
      (exists n, arrives p c1 (window p c1) n (res_arrivalTime res)) /\
      (forall n t, arrives p c1 (window p c1) n t -> res_arrivalTime res <= t) /\
      getTimeOfTrip p <= res_departureTime res /\
      exists st times s a eg rides, let c' := pass_back c1 (res_arrivalTime res) st times in
        reverse_journey p c' td stop (rwindow p c' (minEgressTravelTime c')) s (res_departureTime res) a eg res rides
  | Ok (None, _, _) => False
  | Throw (NoRoutingFound NO_SERVICE_FROM_ORIGIN) => forall n t, ~ arrives p c1 (window p c1) n t
  | Throw (NoRoutingFound NO_ROUTING_FOUND) => forall n t, ~ arrives p c1 (window p c1) n t
  | Throw _ => False
  end.
Proof using All.
  intros Hreset. unfold calculateSingle. rewrite Hreset. cbn [mbind result_bind].
  assert (departureTimeSeconds c1 = getTimeOfTrip p) as Hdep by (rewrite Hc1; by apply departure_is).
  rewrite Hdep, Hforward. destruct (Z.gtb_spec (getTimeOfTrip p) (-1)); [|lia]. cbn [andb].
  pose proof (after_query_ok _ _ _ _ _ _ _ _ Hread o eq_refl Hforward Htime) as Hq.
  pose proof (after_egress_ok _ _ _ _ _ _ _ _ Hread d eq_refl) as Heo. rewrite <- Hc1 in Hq, Heo.
  destruct (forward_destination_run p c1 Hq Heo) as (st & seen & best & eg & Hfound).
  pose proof Hfound as [_ Hscan _ _ Hrun Hbest Hleast]. rewrite Hrun.
  rewrite within_first_wait_all in Hleast by lia.
  destruct (Z.eqb_spec (fwd_reachable st) 0) as [Hzero|_].
  { intros n t Ha. destruct (Hleast n t Ha) as [[g ->] _]. destruct (Hbest g eq_refl) as [(s & x & eg & Hs & _) _].
    destruct (scan_count p c1 seen _ _ Hscan) as [_ Hempty]; [by split|].
    by rewrite (Hempty Hzero), lookup_empty in Hs. }
  cbn [mbind result_bind].
  destruct eg as [g|]; cbn [option_map from_option fst fmap option_fmap snd].
  - destruct (route_back st seen best g Hfound)
      as (times & res & c4 & Hpass & Hrev & Hres & Hd & Harr & s & a & eg & rides & Hj).
    destruct (Hbest g eq_refl) as [_ (_ & _ & _ & _ & _ & _ & _ & _ & Hmax)].
    destruct (Z.ltb_spec best MAX_INT); [|lia]. rewrite Hpass. cbn [mbind result_bind]. rewrite Hrev.
    cbn [mbind result_bind]. rewrite Hres. split_and!; [done|done| |lia|].
    + intros n t Ha. by destruct (Hleast n t Ha).
    + by exists st, times, s, a, eg, rides.
  - destruct (Z.ltb_spec MAX_INT MAX_INT); [lia|]. cbn. intros n t Ha. by destruct (Hleast n t Ha) as [[? ?] _].
Qed.
End Forward.

(** What a route query by departure time is asked of: loaded data, one waiting time for
    all connections, no limit on the first wait, and stops listed once at each end. *)
Record route_ok (w : Z) (c : Calculator) (cache : C) : Prop := {
  ro_network : network_ok srv p known stop;
  ro_no_trip : odTripGlob c = None;
  ro_cache : cache_valid td known cache;
  ro_ends : ends_ok srv p (Some (getOrigin parameters)) (Some (getDestination parameters));
  ro_access : NoDup (ntd_node <$> access_of srv p (getOrigin parameters));
  ro_egress : NoDup (ntd_node <$> egress_of srv p (getDestination parameters));
  ro_wait : Forall (fun conn => minWaiting p conn = w) (connections td);
  ro_first : getMaxFirstWaitingTimeSeconds p < 0;
  ro_time : 0 <= getTimeOfTrip p < 32 * 3600
}.

(** The answer to a route query by departure time. *)
Lemma route_answer w c cache c1 cache1 :
  route_ok w c cache -> isForwardCalculation p = true ->
  reset srv c p (Some (getOrigin parameters)) (Some (getDestination parameters)) true true cache = Ok (c1, cache1) ->
  match calculateSingle srv c parameters true true cache with
  | Ok (Some res, _, cache') => cache_valid td known cache' /\
      (exists n, arrives p c1 (window p c1) n (res_arrivalTime res)) /\
      (forall n t, arrives p c1 (window p c1) n t -> res_arrivalTime res <= t) /\
      getTimeOfTrip p <= res_departureTime res /\
      exists st times s a eg rides, let c' := pass_back c1 (res_arrivalTime res) st times in
        reverse_journey p c' td stop (rwindow p c' (minEgressTravelTime c')) s (res_departureTime res) a eg res rides
  | Ok (None, _, _) => False
  | Throw (NoRoutingFound NO_SERVICE_FROM_ORIGIN) => forall n t, ~ arrives p c1 (window p c1) n t
  | Throw (NoRoutingFound NO_ROUTING_FOUND) => forall n t, ~ arrives p c1 (window p c1) n t
  | Throw _ => False
  end.
Proof.
  intros [Hnet Hod Hcache Hends Hnda Hnde Hw Hfirst Htime] Hfwd Hreset.
  destruct (reset_returns srv p known c _ _ cache c1 cache1 Hod (nw_server _ _ _ _ Hnet) Hcache Hends Hreset)
    as (access & egress & disabled & Hread & Heq & Hvalid).
  pose proof (forward_answer c1 access egress disabled Hread Heq Hnet Hfwd Htime Hfirst Hnda Hnde w Hw
                c cache cache1 Hreset) as Hans.
  destruct (calculateSingle srv c parameters true true cache) as [[[[res|] c'] cache']|[]]; try done.
  destruct Hans as (-> & Hans). by split.
Qed.

(** C18: A route query by departure time (before 32:00), without a limit on the first wait
    and with one minimal waiting time for all connections, is answered with the
    earliest arrival. After a reset that returns, [calculateSingle] either returns a
    result that leaves no earlier than asked and arrives when no journey arrives
    before, its rides being time-ordered pieces of the rides of a connected journey
    of the timetable; or it reports that no journey was found (by either of two
    reasons), and none exists. It returns no null pointer, reports nothing else, and
    keeps the cache valid. *)
Theorem calculateSingle_earliest w c cache c1 cache1 :
  route_ok w c cache -> isForwardCalculation p = true ->
  reset srv c p (Some (getOrigin parameters)) (Some (getDestination parameters)) true true cache = Ok (c1, cache1) ->
  match calculateSingle srv c parameters true true cache with
  | Ok (Some res, _, cache') => cache_valid td known cache' /\
      (exists n, arrives p c1 (window p c1) n (res_arrivalTime res)) /\
      (forall n t, arrives p c1 (window p c1) n t -> res_arrivalTime res <= t) /\
      getTimeOfTrip p <= res_departureTime res /\
      exists st times s a eg rides, let c' := pass_back c1 (res_arrivalTime res) st times in
        reverse_journey p c' td stop (rwindow p c' (minEgressTravelTime c')) s (res_departureTime res) a eg res rides
  | Ok (None, _, _) => False
  | Throw (NoRoutingFound NO_SERVICE_FROM_ORIGIN) => forall n t, ~ arrives p c1 (window p c1) n t
  | Throw (NoRoutingFound NO_ROUTING_FOUND) => forall n t, ~ arrives p c1 (window p c1) n t
  | Throw _ => False
  end.
Proof. exact (route_answer w c cache c1 cache1). Qed.

(** *** By arrival time *)

(** What a route query by arrival time is asked of; [slack] bounds the waiting times. *)
Record route_back_ok (slack : Z) (c : Calculator) (cache : C) : Prop := {
  rb_network : network_ok srv p known stop;
  rb_no_trip : odTripGlob c = None;
  rb_cache : cache_valid td known cache;
  rb_ends : ends_ok srv p (Some (getOrigin parameters)) (Some (getDestination parameters));
  rb_egress : NoDup (ntd_node <$> egress_of srv p (getDestination parameters));
  rb_wait : Forall (fun conn => minWaiting p conn <= slack) (connections td);
  rb_time : 0 <= getTimeOfTrip p <= MAX_INT
}.

(** The calculation back from a prepared calculator. *)
Lemma back_answer slack c' :
  rquery_ok p c' -> access_end_ok p c' -> trips_ok c' td stop -> egress_end_ok c' ->
  departureTimeSeconds c' = -1 ->
  Forall (fun conn => minWaiting p conn <= slack) (getReverseConnections (connectionSet c')) ->
  let back := rwindow p c' (minEgressTravelTime c') in
  let near t := 2 * slack <= t /\ arrivalTimeSeconds c' - t + 2 * slack <= getMaxTotalTravelTimeSeconds p in
  match calculateSingleReverse srv p c' with
  | Ok (res, _) => (exists n, leaves p c' back n (res_departureTime res)) /\
      (forall n t, leaves p c' back n t -> near t -> t <= res_departureTime res + 2 * slack) /\
      res_arrivalTime res <= arrivalTimeSeconds c' /\
      exists s a eg rides, reverse_journey p c' td stop back s (res_departureTime res) a eg res rides
  | Throw (NoRoutingFound NO_SERVICE_TO_DESTINATION) => forall n t, leaves p c' back n t -> ~ near t
  | Throw (NoRoutingFound NO_ROUTING_FOUND) => forall n t, leaves p c' back n t -> ~ near t
  | Throw _ => False
  end.
Proof using Hstop.
  intros Hq Hao Htrips Hend Hdep Hw. cbv zeta.
  destruct (reverse_origin_run p c' slack Hq Hao Hw) as (st & seen & best & a & [_ Hscan Hrun Hbest Hnear]).
  specialize (Hnear Hdep). pose proof (reverse_journey_run p c' td stop Hstop Htrips Hend) as Hmade.
  unfold calculateSingleReverse. rewrite Hrun in *.
  destruct (Z.eqb_spec (rev_reachable st) 0) as [Hzero|_].
  { intros n t Hl [H1 H2]. destruct (Hnear n t Hl H1 H2) as [[g ->] _].
    destruct (Hbest g eq_refl) as [[s Hs] _].
    destruct (rscan_count p c' seen _ _ Hscan) as [_ Hempty]; [by split|].
    by rewrite (Hempty Hzero), lookup_empty in Hs. }
  cbn [mbind result_bind].
  destruct a as [g|]; cbn [option_map from_option fst fmap option_fmap snd].
  - destruct (Hmade best (ntd_node g) _ _ Hq Hao eq_refl)
      as (s & e & a & res & rides & eg & _ & _ & _ & _ & _ & _ & _ & Hres & _ & Hj).
    rewrite Hres. cbn [mbind result_bind].
    rewrite (bl_departure _ _ _ _ _ (rv_balanced _ _ _ _ _ _ _ _ _ _ _ Hj)).
    destruct (Hbest g eq_refl) as [_ Hl]. split_and!; [by exists (ntd_node g)| |by eapply rv_arrival|by exists s, a, eg, rides].
    intros n t Hlt [H1 H2]. by destruct (Hnear n t Hlt H1 H2).
  - cbn. intros n t Hl [H1 H2]. by destruct (Hnear n t Hl H1 H2) as [[? ?] _].
Qed.

(** C19: A route query by arrival time, after a reset that returns, is answered with a
    result that is at the destination in time, its rides being time-ordered pieces of
    the rides of a connected journey of the timetable. With [slack] a bound of the
    waiting times: no journey with a margin of twice the slack to midnight and to the
    maximal travel time departs later than the result by more than twice the slack;
    and when the query reports that none was found, by either of two reasons, no
    journey with those margins exists. *)
Theorem calculateSingle_by_arrival slack c cache c0 cache1 :
  route_back_ok slack c cache -> isForwardCalculation p = false ->
  reset srv c p (Some (getOrigin parameters)) (Some (getDestination parameters)) true true cache = Ok (c0, cache1) ->
  exists c', prepare_reverse_query srv c0 = Ok c' /\
  let back := rwindow p c' (minEgressTravelTime c') in
  let near t := 2 * slack <= t /\ getTimeOfTrip p - t + 2 * slack <= getMaxTotalTravelTimeSeconds p in
  match calculateSingle srv c parameters true true cache with
  | Ok (Some res, _, cache') => cache_valid td known cache' /\
      (exists n, leaves p c' back n (res_departureTime res)) /\
      (forall n t, leaves p c' back n t -> near t -> t <= res_departureTime res + 2 * slack) /\
      res_arrivalTime res <= getTimeOfTrip p /\
      exists s a eg rides, reverse_journey p c' td stop back s (res_departureTime res) a eg res rides
  | Ok (None, _, _) => False
  | Throw (NoRoutingFound NO_SERVICE_TO_DESTINATION) => forall n t, leaves p c' back n t -> ~ near t
  | Throw (NoRoutingFound NO_ROUTING_FOUND) => forall n t, leaves p c' back n t -> ~ near t
  | Throw _ => False
  end.
Proof.
  intros [Hnet Hod Hcache Hends Hnde Hw Htime] Hback Hreset.
  destruct (reset_returns srv p known c _ _ cache c0 cache1 Hod (nw_server _ _ _ _ Hnet) Hcache Hends Hreset)
    as (access & egress & disabled & Hread & -> & Hvalid).
  destruct (reverse_query_ready srv p known stop Hnet _ _ access egress disabled Hread Hback Htime Hnde)
    as (trips & [Hprep Hq Htrips Hend Hao Hdep Harr _]).
  eexists. split; [exact Hprep|]. cbv zeta.
  unfold calculateSingle. rewrite Hreset. cbn [mbind result_bind]. rewrite Hback, andb_false_r.
  match goal with |- context [arrivalTimeSeconds ?c >? -1] =>
    replace (arrivalTimeSeconds c) with (getTimeOfTrip p) by (symmetry; by apply arrival_is) end.
  destruct (Z.gtb_spec (getTimeOfTrip p) (-1)); [|lia]. rewrite Hprep. cbn [mbind result_bind].
  assert (Forall (fun conn => minWaiting p conn <= slack)
            (getReverseConnections (computeConnectionsForScenario td (getScenario p)))) as Hslack.
  { rewrite Forall_forall in Hw |- *. intros conn Hin. apply Hw.
    by apply (network_members srv p known stop Hnet) in Hin as [Hin _]. }
  pose proof (back_answer slack _ Hq (Hao _ eq_refl) Htrips Hend Hdep Hslack) as Hans. rewrite Harr in Hans.
  destruct (calculateSingleReverse srv p _) as [[res c2]|[]]; cbn [mbind result_bind]; try done.
Qed.
End Route.

(** ** Instances on the small timetable *)

Definition demo_route : RouteParameters := mkRouteParameters demo_p demo_origin demo_destination false.

Lemma walk_out_list x e time :
  walk_out x e time <->
  (node_uid (getDepartureNode e), time) ∈
    (fun f => (ntd_node f, ntd_time f)) <$> transferableNodes (getArrivalNode x).
Proof.
  unfold walk_out. rewrite list_elem_of_fmap. split.
  - intros (f & Hf & <- & <-). by exists f.
  - intros (f & [= -> ->] & Hf). by exists f.
Qed.

Lemma walk_in_list x e time :
  walk_in x e time <->
  (node_uid (getArrivalNode x), time) ∈
    (fun g => (ntd_node g, ntd_time g)) <$> reverseTransferableNodes (getDepartureNode e).
Proof.
  unfold walk_in. rewrite list_elem_of_fmap. split.
  - intros (f & Hf & <- & <-). by exists f.
  - intros (f & [= -> ->] & Hf). by exists f.
Qed.

Lemma demo_network_ok forward time :
  network_ok demo_server (demo_parameters forward time 180 (-1)) [demo_scenario] stop_known.
Proof.
  split.
  - apply demo_server_ok.
  - apply Forall_forall. intros conn Hin.
    assert (conn ∈ getReverseConnections (connectionSet demo_rc)) as Hr.
    { rewrite demo_reverse. cbn in Hin. set_solver. }
    pose proof (to_trip _ _ _ demo_trips_ok conn Hr) as Htrip.
    repeat (apply elem_of_cons in Hin as [-> | Hin]); [..|by apply elem_of_nil in Hin];
      (split; [cbn; lia | repeat (apply Forall_cons_2; [cbn; lia|]); apply Forall_nil_2
              | eexists; split; [left | cbn; lia] | exact Htrip]).
  - repeat (apply Forall_cons_2; [cbn; lia|]). apply Forall_nil_2.
  - intros u. by apply generated_vectors.
  - intros u. by apply generated_vectors.
  - intros x e t Hx He. rewrite walk_out_list, walk_in_list.
    repeat (apply elem_of_cons in Hx as [-> | Hx]); [..|by apply elem_of_nil in Hx];
      (repeat (apply elem_of_cons in He as [-> | He]); [..|by apply elem_of_nil in He]);
      cbn; set_solver by congruence.
Qed.

Lemma demo_route_ok :
  route_ok (C := AnyScenarioConnectionCache) demo_server [demo_scenario] stop_known demo_route 180
    Calculator_new (CacheOne CacheOne_new).
Proof.
  split.
  - apply demo_network_ok.
  - reflexivity.
  - intros s cs _ Hget. discriminate Hget.
  - apply demo_ends_ok.
  - apply NoDup_ListNoDup. repeat constructor; cbn; intuition congruence.
  - apply NoDup_ListNoDup. repeat constructor; cbn; intuition congruence.
  - repeat (apply Forall_cons_2; [vm_compute; reflexivity|]). apply Forall_nil_2.
  - vm_compute. reflexivity.
  - cbn. lia.
Qed.

Definition demo_answer : calc (option SingleCalculationResult * Calculator * AnyScenarioConnectionCache) :=
  calculateSingle demo_server Calculator_new demo_route true true (CacheOne CacheOne_new).

(** The answer at the timetable: trip 1 to B, the walk to C, trip 2, at 8:34:00. *)
Lemma calculateSingle_earliest_witness :
  exists res c' cache', demo_answer = Ok (Some res, c', cache') /\ res_arrivalTime res = 30840 /\
    forall n t, arrives demo_p demo_c (window demo_p demo_c) n t -> 30840 <= t.
Proof.
  pose proof (calculateSingle_earliest (C := AnyScenarioConnectionCache) demo_server [demo_scenario] stop_known
    stop_known_uuid demo_route 180 Calculator_new (CacheOne CacheOne_new) demo_c
    (value_or (demo_c, CacheOne CacheOne_new) (reset demo_server Calculator_new demo_p (Some demo_origin)
       (Some demo_destination) true true (CacheOne CacheOne_new))).2 demo_route_ok eq_refl) as Hans.
  specialize (Hans ltac:(vm_compute; reflexivity)). fold demo_answer in Hans.
  assert (exists res c' cache', demo_answer = Ok (Some res, c', cache') /\ res_arrivalTime res = 30840)
    as (res & c' & cache' & Heq & Harr) by (eexists _, _, _; split; vm_compute; reflexivity).
  rewrite Heq in Hans. destruct Hans as (_ & _ & Hmin & _). rewrite Harr in Hmin.
  exists res, c', cache'. split; [exact Heq|]. split; [exact Harr | exact Hmin].
Defined.

Definition demo_route_back : RouteParameters := mkRouteParameters demo_rp demo_origin demo_destination false.

Lemma demo_route_back_ok :
  route_back_ok (C := AnyScenarioConnectionCache) demo_server [demo_scenario] stop_known demo_route_back 180
    Calculator_new (CacheOne CacheOne_new).
Proof.
  split.
  - apply demo_network_ok.
  - reflexivity.
  - intros s cs _ Hget. discriminate Hget.
  - apply demo_ends_ok.
  - apply NoDup_ListNoDup. repeat constructor; cbn; intuition congruence.
  - repeat (apply Forall_cons_2; [vm_compute; discriminate|]). apply Forall_nil_2.
  - unfold MAX_INT. cbn. lia.
Qed.

Definition demo_reset_back : Calculator * AnyScenarioConnectionCache :=
  value_or (Calculator_new, CacheOne CacheOne_new)
    (reset demo_server Calculator_new demo_rp (Some demo_origin) (Some demo_destination) true true (CacheOne CacheOne_new)).

(** To be there at 8:45:00, leave at 7:52:00. *)
Lemma calculateSingle_by_arrival_witness :
  exists res c' cache', calculateSingle demo_server Calculator_new demo_route_back true true (CacheOne CacheOne_new)
      = Ok (Some res, c', cache') /\ res_departureTime res = 28320 /\ res_arrivalTime res <= 31500.
Proof.
  destruct (calculateSingle_by_arrival (C := AnyScenarioConnectionCache) demo_server [demo_scenario] stop_known
    stop_known_uuid demo_route_back 180 Calculator_new (CacheOne CacheOne_new) demo_reset_back.1 demo_reset_back.2
    demo_route_back_ok eq_refl ltac:(vm_compute; reflexivity)) as (c' & _ & Hans).
  assert (exists res c' cache', calculateSingle demo_server Calculator_new demo_route_back true true (CacheOne CacheOne_new)
      = Ok (Some res, c', cache') /\ res_departureTime res = 28320)
    as (res & c2 & cache' & Heq & Hdep) by (eexists _, _, _; split; vm_compute; reflexivity).
  rewrite Heq in Hans. destruct Hans as (_ & _ & _ & Harr & _).
  exists res, c2, cache'. split; [exact Heq|]. split; [exact Hdep | exact Harr].
Defined.

(** ** A line of the transferable mode *)

(** A moving walkway from A to B, boarded without a wait, and a bus A - B - D that a
    traveller who walks to A is too late for, by its waiting time of three minutes,
    but can board at B. *)
Definition near_filter : GeoFilter := fun point _ _ _ =>
  match longitude point with
  | S754_zero true => Ok [mkNTD 4 240 300]
  | _ => Ok [mkNTD 1 10 12]
  end.
Definition walkway_line : Line :=
  mkLine 3 demo_agency (mkMode "transferable" "Transferable" 1 100) "W" "Walkway" "W" 0 3.
Definition walkway_path : Path := mkPath 3 walkway_line "out" "W" [node_A; node_B] [80] [60].
Definition walkway_trip : Trip :=
  mkTrip 1 demo_agency walkway_line walkway_path (line_mode walkway_line) demo_service 0 (-1) (-1) 1.
Definition bus_trip : Trip := demo_trip 2 [node_A; node_B; node_D] [3000; 9000].
Definition walkway_AB : Connection :=
  mkConnection node_A node_B 28210 28270 walkway_trip true true 1 false 0.
Definition bus_AB : Connection := demo_conn bus_trip node_A node_B 28300 28500 1.
Definition bus_BD : Connection := demo_conn bus_trip node_B node_D 28560 30600 2.
Definition walkway_server : Server :=
  mkServer (demo_data_with [node_A; node_B; node_D] [walkway_trip; bus_trip] [walkway_AB; bus_AB; bus_BD]) 4 2.
Definition walkway_c : Calculator :=
  @demo_reset near_filter walkway_server demo_p (Some demo_origin) (Some demo_destination).

(** With waiting times that differ (a line of the transferable mode has none), the
    scan back can stop at a departure that is of no use to the origin. Here a journey
    arrives at the destination, by the walkway and the bus, and the query reports
    that no routing was found. *)
Theorem transferable_line_loses_route :
  arrives demo_p walkway_c (window demo_p walkway_c) 4 30840 /\
  isTransferable (trip_mode walkway_trip) = true /\
  @calculateSingle near_filter AnyScenarioConnectionCache _ walkway_server Calculator_new demo_route
    true true (CacheOne CacheOne_new) = Throw (NoRoutingFound NO_ROUTING_FOUND).
Proof.
  split_and!; [|vm_compute; reflexivity..].
  assert (window demo_p walkway_c = [walkway_AB; bus_AB; bus_BD]) as Hw by (vm_compute; reflexivity).
  exists bus_BD, bus_BD, (mkNTD 4 240 300).
  split_and!; try (vm_compute; reflexivity || discriminate). rewrite Hw. split.
  - split; [exists 2%nat, 2%nat; by split_and! | reflexivity..].
  - exists 28270. split; [|vm_compute; discriminate].
    apply (reaches_ride demo_p walkway_c _ walkway_AB walkway_AB (mkNTD 2 0 0) 28210).
    + split; [exists 0%nat, 0%nat; by split_and! | reflexivity..].
    + apply reaches_walk; vm_compute; reflexivity.
    + vm_compute. discriminate.
    + left.
    + vm_compute. discriminate.
Qed.
