(* ===== verification/AccessibilityCorrect.v ===== *)
(** * The answers to accessibility queries are right

    [calculateAllNodes], from the data of the server and the parameters to the list of
    nodes or the reason why there is none. *)

From Stdlib Require Import ZArith Lia Sorted.
From stdpp Require Import base list gmap strings.
From S2P Require Import Prelude.
From S2P Require Import Data.
From S2P Require Import RoutingResult.
From S2P Require Import ConnectionSet.
From S2P Require Import ConnectionCache.
From S2P Require Import TransitData.
From S2P Require Import Calculator.
From S2P Require Import Demo.
From S2P Require Import ForwardCalculation.
From S2P Require Import ForwardCorrect.
From S2P Require Import ResetCorrect.
From S2P Require Import ForwardJourney.
From S2P Require Import ReverseCalculation.
From S2P Require Import ReverseCorrect.
From S2P Require Import OptimizeJourney.
From S2P Require Import OptimizeCorrect.
From S2P Require Import JourneyAccounts.
From S2P Require Import ReverseJourney.
From S2P Require Import Calculation.
From S2P Require Import CalculationCorrect.
From S2P Require Import QuerySetup.
From S2P Require Import QueryCorrect.

Local Open Scope Z_scope.

(** Without a reachable connection nothing is reached by a ride. *)
Lemma unreachable_no_ride p c L st n t :
  for_each (forward_scan_step p c) L (forward_start c) = Ok st ->
  Complete p c (within_first_wait p c L) st ->
  self_transfers p c -> L ⊆ getForwardConnections (connectionSet c) ->
  fwd_reachable st = 0 -> ~ ride_arrival p c (within_first_wait p c L) n t.
Proof.
  intros Hscan HC Hself Hsub Hzero Hride.
  destruct (ride_recorded p c L st n t Hself Hsub HC Hride) as (s & y & Hs & _).
  destruct (scan_count p c L _ _ Hscan) as [_ Hempty]; [by split|].
  by rewrite (Hempty Hzero), lookup_empty in Hs.
Qed.

Lemma unreachable_no_rride p c L st :
  for_each (reverse_scan_step p c) L (reverse_start c) = Ok st ->
  rev_reachable st = 0 -> rev_access st = ∅.
Proof.
  intros Hscan Hzero. destruct (rscan_count p c L _ _ Hscan) as [_ Hempty]; [by split|]. auto.
Qed.

Lemma rwindow_data p c m : rwindow p c m ⊆ getReverseConnections (connectionSet c).
Proof. intros y Hy. by apply list_elem_of_filter in Hy as [_ ?]. Qed.

Section Accessibility.
Context {geo : GeoFilter} {C : Type} `{ScenarioConnectionCacheLaws C}.
Context (srv : Server) (known : list Scenario) (stop : Node -> Prop)
  (Hstop : forall m n, stop m -> stop n -> node_uid m = node_uid n -> node_uuid m = node_uuid n).
Context (parameters : AccessibilityParameters).
Notation p := (access_common parameters).
Notation td := (transitData srv).

(** What an accessibility query by departure time is asked of. *)
Record place_ok (c : Calculator) (cache : C) : Prop := {
  pl_server : server_ok srv p known;
  pl_no_trip : odTripGlob c = None;
  pl_cache : cache_valid td known cache;
  pl_ends : ends_ok srv p (Some (getPlace parameters)) None;
  pl_time : 0 <= getTimeOfTrip p < 32 * 3600
}.

(** The answer to it. *)
Lemma place_answer c cache c1 cache1 :
  place_ok c cache -> isForwardCalculation p = true ->
  reset srv c p (Some (getPlace parameters)) None true true cache = Ok (c1, cache1) ->
  match calculateAllNodes srv c parameters cache with
  | Ok (Some res, _, cache') => cache_valid td known cache' /\ accessible_answer p c1 td res
  | Ok (None, _, _) => False
  | Throw (NoRoutingFound NO_SERVICE_FROM_ORIGIN) =>
      (forall n t, ~ ride_arrival p c1 (within_first_wait p c1 (window p c1)) n t) /\
      (getMaxFirstWaitingTimeSeconds p <= 0 -> forall n t, ~ ride_arrival p c1 (window p c1) n t)
  | Throw _ => False
  end.
Proof.
  intros [Hs Hod Hcache Hends Htime] Hfwd Hreset.
  destruct (reset_returns srv p known c _ _ cache c1 cache1 Hod Hs Hcache Hends Hreset)
    as (access & egress & disabled & Hread & Heq & Hvalid).
  pose proof (after_query_ok _ _ _ _ _ _ _ _ Hread _ eq_refl Hfwd Htime) as Hq.
  pose proof (after_self_transfers _ _ _ _ _ _ _ _ Hread) as Hself. rewrite <- Heq in Hq, Hself.
  destruct (forward_all_answer p c1 td Hq) as (st & res & Hscan & HC & Hrun & Hres & Hans).
  unfold calculateAllNodes. rewrite Hfwd, Hreset. cbn [mbind result_bind].
  assert (departureTimeSeconds c1 = getTimeOfTrip p) as -> by (rewrite Heq; by apply departure_is).
  destruct (Z.gtb_spec (getTimeOfTrip p) (-1)); [|lia]. cbn [andb]. rewrite Hrun.
  destruct (Z.eqb_spec (fwd_reachable st) 0) as [Hzero|_]; cbn [mbind result_bind].
  - assert (forall n t, ~ ride_arrival p c1 (within_first_wait p c1 (window p c1)) n t) as Hno.
    { intros n t. eapply unreachable_no_ride; [exact Hscan|done|done| |done].
      intros x Hx. by apply list_elem_of_filter in Hx as [_ ?]. }
    split; [done|]. intros Hfirst. by rewrite (within_first_wait_all _ _ _ Hfirst) in Hno.
  - rewrite Hres. cbn [mbind result_bind]. by split.
Qed.

(** C20: An accessibility query by departure time (before 32:00), after a reset that
    returns, lists nodes in the order of the data, each with the journey behind its
    times. Whatever the limit on the first wait, every node that a ride within the
    limit reaches within the maximal travel time is listed, no later than that ride,
    and the query reports that no service leaves the place only when no ride within
    the limit reaches any node. Without a limit the nodes listed are exactly those
    that a ride reaches within the maximal travel time, each with its earliest
    arrival, and that report is made only when no ride at all reaches any. *)
Theorem calculateAllNodes_forward c cache c1 cache1 :
  place_ok c cache -> isForwardCalculation p = true ->
  reset srv c p (Some (getPlace parameters)) None true true cache = Ok (c1, cache1) ->
  match calculateAllNodes srv c parameters cache with
  | Ok (Some res, _, cache') => cache_valid td known cache' /\ accessible_answer p c1 td res
  | Ok (None, _, _) => False
  | Throw (NoRoutingFound NO_SERVICE_FROM_ORIGIN) =>
      (forall n t, ~ ride_arrival p c1 (within_first_wait p c1 (window p c1)) n t) /\
      (getMaxFirstWaitingTimeSeconds p <= 0 -> forall n t, ~ ride_arrival p c1 (window p c1) n t)
  | Throw _ => False
  end.
Proof. exact (place_answer c cache c1 cache1). Qed.

(** What an accessibility query by arrival time is asked of; [slack] bounds the waiting
    times. *)
Record place_back_ok (slack : Z) (c : Calculator) (cache : C) : Prop := {
  pb_network : network_ok srv p known stop;
  pb_no_trip : odTripGlob c = None;
  pb_cache : cache_valid td known cache;
  pb_ends : ends_ok srv p None (Some (getPlace parameters));
  pb_egress : NoDup (ntd_node <$> egress_of srv p (getPlace parameters));
  pb_wait : Forall (fun conn => minWaiting p conn <= slack) (connections td);
  pb_time : 0 <= getTimeOfTrip p <= MAX_INT
}.

Lemma getMinWaitingTime_le conn : 0 <= minWaiting p conn -> getMinWaitingTime conn <= minWaiting p conn.
Proof.
  unfold minWaiting, getMinWaitingTimeOrDefault, getMinWaitingTime. intros Hw. repeat case_match; lia.
Qed.

(** A ride that leads to the place is recorded, up to its waiting time. *)
Lemma rride_recorded c' L st e x :
  departureTimeSeconds c' = -1 -> rself_transfers p c' -> L ⊆ getReverseConnections (connectionSet c') ->
  RComplete p c' L st -> rrides p c' L e x ->
  leaves_by (rev_access st) (node_uid (getDepartureNode e)) (getDepartureTime e - minWaiting p e).
Proof.
  intros Hdep Hself Hsub HC Hride.
  destruct (before_in_elem _ _ _ (rleg_order _ _ _ (proj1 Hride))) as [_ He].
  destruct (Hself e (Hsub e He)) as (f & Hf & Hn & Hmax).
  destruct (rc_rides _ _ _ _ HC e x Hride f Hf Hmax) as [_ Hex]. rewrite <- Hn.
  apply Hex; [done|by apply access_departure_any].
Qed.

(** The two halves of the answer, from the access steps of a scan. *)
Lemma listed_departs c' st a node :
  rquery_ok p c' -> RSound p c' (rwindow p c' 0) st ->
  rnode_entry p c' td stop (rev_access st) node a ->
  an_node a = node /\ exists e x, rrides p c' (rwindow p c' 0) e x /\
    node_uid (getDepartureNode e) = node_uid node /\ an_arrivalTime a = arrivalTimeSeconds c' /\
    an_totalTravelTime a = arrivalTimeSeconds c' - (getDepartureTime e - getMinWaitingTime e) /\
    an_totalTravelTime a <= getMaxTotalTravelTimeSeconds p.
Proof.
  intros Hq HS (s & e & rides & Hs & He & Hn & _ & _ & _ & _ & Hmax & ->). split; [done|].
  destruct (rs_access _ _ _ _ HS _ _ Hs) as (e' & x & -> & Hleg & _ & _ & Hat).
  cbn in He. injection He as ->. exists e, x. split_and!; try done. split; [done|].
  destruct (before_in_elem _ _ _ (rleg_order _ _ _ Hleg)) as [Hx _].
  eapply RSound_leaving; [exact HS| |exact Hat].
  pose proof (rwindow_ok p c' 0 Hq) as Hok. rewrite Forall_forall in Hok. by apply Hok.
Qed.

Lemma departs_entry slack c' st node a e x :
  departureTimeSeconds c' = -1 -> rself_transfers p c' -> rquery_ok p c' ->
  RSound p c' (rwindow p c' 0) st -> RComplete p c' (rwindow p c' 0) st ->
  Forall (fun conn => minWaiting p conn <= slack) (getReverseConnections (connectionSet c')) ->
  rrides p c' (rwindow p c' 0) e x -> node_uid (getDepartureNode e) = node_uid node ->
  arrivalTimeSeconds c' - getDepartureTime e + 2 * slack <= getMaxTotalTravelTimeSeconds p ->
  (rnode_entry p c' td stop (rev_access st) node a ->
     an_totalTravelTime a <= arrivalTimeSeconds c' - getDepartureTime e + 2 * slack) /\
  ~ rnode_left_out p c' (rev_access st) node.
Proof.
  intros Hdep Hself Hq HS HC Hslack Hride Hn Hnear.
  pose proof (rwindow_data p c' 0) as Hsub.
  pose proof (rwindow_ok p c' 0 Hq) as Hok. rewrite Forall_forall in Hok, Hslack.
  destruct (rride_recorded c' _ st e x Hdep Hself Hsub HC Hride) as (s & e0 & Hs & He0 & Hle).
  rewrite Hn in Hs.
  assert (getDepartureTime e - slack <= getDepartureTime e0 /\ getMinWaitingTime e0 <= slack) as [H1 H2].
  { destruct (before_in_elem _ _ _ (rleg_order _ _ _ (proj1 Hride))) as [_ He].
    pose proof (Hslack e (Hsub e He)).
    destruct (rs_access _ _ _ _ HS _ _ Hs) as (e1 & x1 & -> & Hleg1 & _). cbn in He0. injection He0 as ->.
    destruct (before_in_elem _ _ _ (rleg_order _ _ _ Hleg1)) as [_ He1].
    pose proof (getMinWaitingTime_le e0 (rconn_wait _ _ _ (Hok e0 He1))). pose proof (Hslack e0 (Hsub e0 He1)). lia. }
  split.
  - intros (s' & e' & rides & Hs' & He' & _ & _ & _ & _ & _ & _ & ->). cbn.
    assert (e' = e0) as -> by congruence. lia.
  - intros Hno. specialize (Hno s e0 Hs He0). lia.
Qed.

(** The answer to it. *)
Lemma place_back_answer slack c cache c0 cache1 :
  place_back_ok slack c cache -> isForwardCalculation p = false ->
  reset srv c p None (Some (getPlace parameters)) true true cache = Ok (c0, cache1) ->
  exists c', prepare_reverse_query srv c0 = Ok c' /\
  let back := rwindow p c' 0 in
  match calculateAllNodes srv c parameters cache with
  | Ok (Some res, _, cache') => cache_valid td known cache' /\
      sublist (an_node <$> all_nodes res) (getNodes td) /\
      (forall a, a ∈ all_nodes res -> exists e x, rrides p c' back e x /\
         node_uid (getDepartureNode e) = node_uid (an_node a) /\ an_arrivalTime a = getTimeOfTrip p /\
         an_totalTravelTime a = getTimeOfTrip p - (getDepartureTime e - getMinWaitingTime e) /\
         an_totalTravelTime a <= getMaxTotalTravelTimeSeconds p) /\
      (forall node e x, node ∈ getNodes td -> rrides p c' back e x ->
         node_uid (getDepartureNode e) = node_uid node ->
         let time := getTimeOfTrip p - getDepartureTime e + 2 * slack in
         time <= getMaxTotalTravelTimeSeconds p ->
         exists a, a ∈ all_nodes res /\ an_node a = node /\ an_totalTravelTime a <= time)
  | Ok (None, _, _) => False
  | Throw (NoRoutingFound NO_SERVICE_TO_DESTINATION) => forall e x, ~ rrides p c' back e x
  | Throw _ => False
  end.
Proof.
  intros [Hnet Hod Hcache Hends Hnde Hw Htime] Hback Hreset.
  destruct (reset_returns srv p known c _ _ cache c0 cache1 Hod (nw_server _ _ _ _ Hnet) Hcache Hends Hreset)
    as (access & egress & disabled & Hread & -> & Hvalid).
  destruct (reverse_query_ready srv p known stop Hnet _ _ access egress disabled Hread Hback Htime Hnde)
    as (trips & [Hprep Hq Htrips Hend _ Hdep Harr _]).
  eexists. split; [exact Hprep|]. cbv zeta.
  unfold calculateAllNodes. rewrite Hback, Hreset. cbn [mbind result_bind]. rewrite andb_false_r.
  match goal with |- context [arrivalTimeSeconds ?c >? -1] =>
    replace (arrivalTimeSeconds c) with (getTimeOfTrip p) by (symmetry; by apply arrival_is) end.
  destruct (Z.gtb_spec (getTimeOfTrip p) (-1)); [|lia]. rewrite Hprep. cbn [mbind result_bind].
  match type of Hprep with _ = Ok ?x => set (c' := x) in * end.
  destruct (reverse_all_answer p c' td stop Hstop Htrips Hend Hq)
    as (st & res & Hscan & HS & HC & Hrun & Hres & [_ _ Hlist Hin Hout]).
  rewrite Hrun. rewrite <- Harr.
  pose proof (back_self srv p known stop Hnet c' eq_refl) as Hself.
  assert (Forall (fun conn => minWaiting p conn <= slack) (getReverseConnections (connectionSet c'))) as Hslack.
  { rewrite Forall_forall in Hw |- *. intros conn Hcin. apply Hw.
    by apply (network_members srv p known stop Hnet) in Hcin as [Hcin _]. }
  destruct (Z.eqb_spec (rev_reachable st) 0) as [Hzero|_]; cbn [mbind result_bind].
  - intros e x Hride.
    destruct (rride_recorded c' _ st e x Hdep Hself (rwindow_data _ _ _) HC Hride) as (s & _ & Hs & _).
    by rewrite (unreachable_no_rride p c' _ st Hscan Hzero), lookup_empty in Hs.
  - rewrite Hres. cbn [mbind result_bind]. split_and!; [done|done|..].
    + intros a Ha. destruct (Hin a Ha) as (node & _ & Hentry).
      by destruct (listed_departs c' st a node Hq HS Hentry) as [-> Hr].
    + intros node e x Hnode Hride Hn Htm.
      destruct (Hout node Hnode) as [(a & Ha & Hentry) | Hno].
      * exists a. destruct (listed_departs c' st a node Hq HS Hentry) as [-> _].
        split_and!; [done|done|]. by eapply departs_entry.
      * exfalso. revert Hno. by eapply departs_entry.
Qed.

End Accessibility.

(** ** Instances on the small timetable *)

Notation no_cache := (CacheOne CacheOne_new).

Definition demo_place : AccessibilityParameters := mkAccessibilityParameters demo_p demo_origin.
Definition demo_place_back : AccessibilityParameters := mkAccessibilityParameters demo_rp demo_destination.

Lemma demo_cache_valid : cache_valid (C := AnyScenarioConnectionCache) demo_data [demo_scenario] no_cache.
Proof. intros s cs _ Hget. discriminate Hget. Qed.

Lemma demo_place_ok :
  place_ok (C := AnyScenarioConnectionCache) demo_server [demo_scenario] demo_place Calculator_new no_cache.
Proof.
  split; [apply demo_server_ok | reflexivity | apply demo_cache_valid | | cbn; lia].
  split; intros ? [= <-]; repeat constructor; cbn; lia.
Qed.

Lemma demo_place_back_ok :
  place_back_ok (C := AnyScenarioConnectionCache) demo_server [demo_scenario] stop_known demo_place_back 180
    Calculator_new no_cache.
Proof.
  split; [apply demo_network_ok | reflexivity | apply demo_cache_valid | | | |].
  - split; intros ? [= <-]; repeat constructor; cbn; lia.
  - apply NoDup_ListNoDup. repeat constructor; cbn; intuition congruence.
  - repeat (apply Forall_cons_2; [vm_compute; discriminate|]). apply Forall_nil_2.
  - unfold MAX_INT. cbn. lia.
Qed.

(** The reset of an accessibility query. *)
Definition place_reset (p : CommonParameters) (origin dest : option Point) : Calculator * AnyScenarioConnectionCache :=
  value_or (Calculator_new, no_cache) (reset demo_server Calculator_new p origin dest true true no_cache).

Lemma calculateAllNodes_forward_witness :
  exists res c' cache', calculateAllNodes demo_server Calculator_new demo_place no_cache = Ok (Some res, c', cache') /\
    an_arrivalTime <$> all_nodes res = [29400; 30600] /\
    accessible_answer demo_p (place_reset demo_p (Some demo_origin) None).1 demo_data res.
Proof.
  pose proof (calculateAllNodes_forward (C := AnyScenarioConnectionCache) demo_server [demo_scenario] demo_place
    Calculator_new no_cache (place_reset demo_p (Some demo_origin) None).1
    (place_reset demo_p (Some demo_origin) None).2 demo_place_ok eq_refl ltac:(vm_compute; reflexivity)) as Hans.
  assert (exists res c' cache', calculateAllNodes demo_server Calculator_new demo_place no_cache = Ok (Some res, c', cache') /\
    an_arrivalTime <$> all_nodes res = [29400; 30600])
    as (res & c' & cache' & Heq & Htimes) by (eexists _, _, _; split; vm_compute; reflexivity).
  rewrite Heq in Hans. exists res, c', cache'. split; [exact Heq|]. split; [exact Htimes | apply Hans].
Defined.

