(* ===== verification/Combinations.v ===== *)
(** * The combinations of a list

    [include/combinations.hpp], used by the search for alternatives: the recursive
    [generate] fills the slots of [partial] in place and copies it to [out]. The loops
    over positions are loops over [seqZ]; the recursion has one unit of fuel for each
    slot, [M - 1] at the start. *)

From Stdlib Require Import ZArith Lia.
From stdpp Require Import base list numbers.
From S2P Require Import Prelude.
From S2P Require Import Data.

Local Open Scope Z_scope.

Section Combinations.
Context {T : Type}.

(** [v[i]] and [v[i] = x] for an [int] index. *)
Definition vec_get_int {A} (l : list A) (i : Z) : calc A :=
  if i <? 0 then Throw Undefined else vec_get l (Z.to_nat i).
Definition vec_set_int {A} (i : Z) (x : A) (l : list A) : calc (list A) :=
  if i <? 0 then Throw Undefined else vec_set (Z.to_nat i) x l.

(** The members [partial] and [out] that [generate] changes. *)
Definition Slots : Type := list (option T) * list (list T).

(** The copy of [partial] without its optionals. *)
Definition fullPartial (partial : list (option T)) : calc (list T) :=
  for_each (fun t full => x ← opt_value t; Ok (full ++ [x])) partial [].

(** [generate(i, j, m)]. *)
Fixpoint generate (M : Z) (set : list T) (fuel : nat) (i j m : Z) (st : Slots) : calc Slots :=
  if m >? 0 then
    match fuel with
    | O => Throw OutOfFuel
    | S fuel' =>
        for_each (fun z st =>
            x ← vec_get_int set z;
            partial ← vec_set_int (M - m - 1) (Some x) st.1;
            generate M set fuel' (z + 1) j (m - 1) (partial, st.2))
          (seqZ i (j - m + 1 - i)) st
    end
  else
    for_each (fun z st =>
        x ← vec_get_int set z;
        partial ← vec_set_int (M - m - 1) (Some x) st.1;
        full ← fullPartial partial;
        Ok (partial, st.2 ++ [full]))
      (seqZ i (j - m + 1 - i)) st.

(** The constructor [Combinations(s, m)] and the vectors between [begin] and [end]. *)
Definition Combinations_new (s : list T) (m : Z) : calc (list (list T)) :=
  let N := Z.of_nat (length s) in
  '(_, out) ← generate m s (Z.to_nat (m - 1)) 0 (N - 1) (m - 1) (replicate (Z.to_nat m) None, []);
  Ok out.

(** ** The reference: the sublists of a size, in lexicographic order of positions *)

Fixpoint choose (m : nat) (l : list T) : list (list T) :=
  match m with
  | O => [[]]
  | S m' =>
      match l with
      | [] => []
      | x :: l' => (cons x <$> choose m' l') ++ choose m l'
      end
  end.

Lemma choose_0 l : choose 0 l = [[]].
Proof. destruct l; reflexivity. Qed.

Lemma choose_short m l : (length l < m)%nat -> choose m l = [].
Proof.
  revert m. induction l as [|x l IH]; intros [|m] Hlen; simpl in *; try lia; [reflexivity|].
  rewrite (IH (S m)) by lia. destruct l as [|y l].
  - destruct m; [lia|reflexivity].
  - rewrite (IH m) by (simpl in *; lia). reflexivity.
Qed.

Lemma elem_of_choose m l c : c ∈ choose m l <-> sublist c l /\ length c = m.
Proof.
  revert m c. induction l as [|x l IH]; intros m c; destruct m as [|m]; simpl.
  - rewrite list_elem_of_singleton. split.
    + intros ->. split; [constructor|reflexivity].
    + intros [_ Hlen]. apply nil_length_inv. exact Hlen.
  - split; [intros Hin; inversion Hin|]. intros [Hsub Hlen].
    apply sublist_nil_r in Hsub. subst c. done.
  - rewrite list_elem_of_singleton. split.
    + intros ->. split; [apply sublist_nil_l|reflexivity].
    + intros [_ Hlen]. apply nil_length_inv. exact Hlen.
  - rewrite elem_of_app, list_elem_of_fmap, IH. setoid_rewrite IH. rewrite sublist_cons_r. split.
    + intros [(c' & -> & Hsub & <-)|[Hsub Hlen]].
      * split; [right; exists c'; done|reflexivity].
      * split; [left; exact Hsub|exact Hlen].
    + intros [[Hsub|(c' & -> & Hsub)] Hlen].
      * right. done.
      * left. exists c'. injection Hlen as Hlen. done.
Qed.

Lemma choose_NoDup m l : NoDup l -> NoDup (choose m l).
Proof.
  revert m. induction l as [|x l IH]; intros [|m] Hnd; simpl; [apply NoDup_singleton|constructor|apply NoDup_singleton|].
  - apply list.NoDup_cons in Hnd as [Hx Hnd]. apply list.NoDup_app. split_and!.
    + apply NoDup_fmap_2; [intros ?? [= ->]; reflexivity|]. apply IH. exact Hnd.
    + intros c Hc Hc'. apply list_elem_of_fmap in Hc as (c' & -> & _).
      apply elem_of_choose in Hc' as [Hsub _].
      apply Hx. eapply elem_of_sublist; [|exact Hsub]. left.
    + apply IH. exact Hnd.
Qed.

(** ** [generate] fills [out] with the combinations *)

Lemma vec_get_int_nat {A} (l : list A) (i : nat) : vec_get_int l (Z.of_nat i) = vec_get l i.
Proof. unfold vec_get_int. destruct (Z.ltb_spec (Z.of_nat i) 0); [lia|]. rewrite Nat2Z.id. reflexivity. Qed.

Lemma vec_set_int_nat {A} (i : nat) (x : A) l : vec_set_int (Z.of_nat i) x l = vec_set i x l.
Proof. unfold vec_set_int. destruct (Z.ltb_spec (Z.of_nat i) 0); [lia|]. rewrite Nat2Z.id. reflexivity. Qed.

Lemma fullPartial_ok full : fullPartial (Some <$> full) = Ok full.
Proof.
  unfold fullPartial.
  enough (forall acc, for_each (fun t full => x ← opt_value t; Ok (full ++ [x])) (Some <$> full) acc =
                      @Ok exn _ (acc ++ full)) as Hacc by (rewrite Hacc; reflexivity).
  induction full as [|x full IH]; intros acc; simpl; [rewrite app_nil_r; reflexivity|].
  rewrite IH, <- app_assoc. reflexivity.
Qed.

(** The first slots hold [prefix]. *)
Definition holds (M : nat) (prefix : list T) (partial : list (option T)) : Prop :=
  length partial = M /\ take (length prefix) partial = Some <$> prefix.

Lemma holds_set M prefix partial x :
  holds M prefix partial -> (length prefix < M)%nat ->
  exists partial', vec_set (length prefix) (Some x) partial = Ok partial' /\
    holds M (prefix ++ [x]) partial'.
Proof.
  intros [Hlen Htake] Hlt. unfold vec_set.
  destruct (lookup_lt_is_Some_2 partial (length prefix)) as [y Hy]; [lia|]. rewrite Hy.
  eexists. split; [reflexivity|]. split; [rewrite length_insert; exact Hlen|].
  rewrite length_app, fmap_app. cbn [length].
  rewrite Nat.add_1_r, (take_S_r _ _ (Some x)) by (apply list_lookup_insert_eq; lia).
  rewrite take_insert_ge by lia. rewrite Htake. reflexivity.
Qed.

Lemma holds_prefix M prefix rest partial : holds M (prefix ++ rest) partial -> holds M prefix partial.
Proof.
  intros [Hlen Htake]. split; [exact Hlen|].
  rewrite length_app in Htake.
  replace (take (length prefix) partial)
    with (take (length prefix) (take (length prefix + length rest) partial))
    by (rewrite take_take; f_equal; lia).
  rewrite Htake, fmap_app. apply take_app_length'. rewrite length_fmap. reflexivity.
Qed.

(** What a call for the slots from [length prefix] on adds to [out]. *)
Definition adds (M : nat) (prefix : list T) (new : list (list T)) (st : Slots) (r : calc Slots) : Prop :=
  exists partial, r = Ok (partial, st.2 ++ ((prefix ++.) <$> new)) /\ holds M prefix partial.

(** One round of a loop, and the rounds that follow it. *)
Lemma generate_loop (step : Z -> Slots -> calc Slots) M prefix (set : list T) (m : nat) :
  (forall (z : nat) x st, set !! z = Some x -> holds M prefix st.1 ->
     adds M prefix (cons x <$> choose m (drop (S z) set)) st (step (Z.of_nat z) st)) ->
  forall (k i : nat) st, (i + k + m = length set)%nat -> holds M prefix st.1 ->
  adds M prefix (choose (S m) (drop i set)) st (for_each step (seqZ (Z.of_nat i) (Z.of_nat k)) st).
Proof.
  intros Hstep. induction k as [|k IH]; intros i st Hk Hst.
  - rewrite choose_short by (rewrite length_drop; lia).
    exists st.1. split; [|exact Hst]. cbn. rewrite app_nil_r. destruct st; reflexivity.
  - destruct (lookup_lt_is_Some_2 set i) as [x Hx]; [lia|].
    rewrite (drop_S _ x) by exact Hx.
    rewrite seqZ_cons by lia. cbn [for_each].
    destruct (Hstep i x st Hx Hst) as (partial & -> & Hpartial). cbn [mbind result_bind].
    replace (Z.succ (Z.of_nat i)) with (Z.of_nat (S i)) by lia.
    replace (Z.pred (Z.of_nat (S k))) with (Z.of_nat k) by lia.
    destruct (IH (S i) (partial, st.2 ++ ((prefix ++.) <$> (cons x <$> choose m (drop (S i) set)))))
      as (partial' & -> & Hpartial'); [lia|exact Hpartial|].
    exists partial'. split; [|exact Hpartial']. cbn [choose snd].
    rewrite fmap_app, <- app_assoc. reflexivity.
Qed.

(** A loop with no round. *)
Lemma generate_none (step : Z -> Slots -> calc Slots) M prefix (set : list T) (m i : nat) n st :
  n <= 0 -> (length set < i + S m)%nat -> holds M prefix st.1 ->
  adds M prefix (choose (S m) (drop i set)) st (for_each step (seqZ (Z.of_nat i) n) st).
Proof.
  intros Hn Hlen Hst. rewrite choose_short by (rewrite length_drop; lia).
  rewrite seqZ_nil by exact Hn. exists st.1. split; [|exact Hst]. cbn. rewrite app_nil_r.
  destruct st. reflexivity.
Qed.

Lemma generate_adds (M : nat) (set : list T) : forall (m i : nat) prefix st,
  M = (length prefix + S m)%nat -> holds M prefix st.1 ->
  adds M prefix (choose (S m) (drop i set)) st
    (generate (Z.of_nat M) set m (Z.of_nat i) (Z.of_nat (length set) - 1) (Z.of_nat m) st).
Proof.
  induction m as [|m IH]; intros i prefix st HM Hst; cbn [generate].
  - change (Z.of_nat 0 >? 0) with false. cbn iota.
    destruct (decide (i < length set)%nat) as [Hi|Hi];
      [|apply generate_none; [lia|lia|exact Hst]].
    replace (Z.of_nat (length set) - 1 - Z.of_nat 0 + 1 - Z.of_nat i)
      with (Z.of_nat (length set - i)) by lia.
    apply generate_loop; [|lia|exact Hst].
    intros z x st' Hx Hst'. rewrite vec_get_int_nat, (proj2 (vec_get_Ok _ _ _) Hx).
    replace (Z.of_nat M - Z.of_nat 0 - 1) with (Z.of_nat (length prefix)) by lia.
    cbn [mbind result_bind]. rewrite vec_set_int_nat.
    destruct (holds_set M prefix st'.1 x Hst') as (partial & -> & Hpartial); [lia|].
    cbn [mbind result_bind].
    assert (partial = Some <$> (prefix ++ [x])) as ->.
    { destruct Hpartial as [Hlen Htake]. rewrite <- Htake. symmetry. apply take_ge.
      rewrite length_app. cbn. lia. }
    rewrite fullPartial_ok, choose_0. cbn [mbind result_bind].
    eexists. split; [reflexivity|]. exact (holds_prefix _ _ _ _ Hpartial).
  - replace (Z.of_nat (S m) >? 0) with true by (symmetry; apply Z.gtb_lt; lia).
    destruct (decide (i + S m < length set)%nat) as [Hi|Hi];
      [|apply generate_none; [lia|lia|exact Hst]].
    replace (Z.of_nat (length set) - 1 - Z.of_nat (S m) + 1 - Z.of_nat i)
      with (Z.of_nat (length set - S m - i)) by lia.
    apply generate_loop; [|lia|exact Hst].
    intros z x st' Hx Hst'. rewrite vec_get_int_nat, (proj2 (vec_get_Ok _ _ _) Hx).
    replace (Z.of_nat M - Z.of_nat (S m) - 1) with (Z.of_nat (length prefix)) by lia.
    cbn [mbind result_bind]. rewrite vec_set_int_nat.
    destruct (holds_set M prefix st'.1 x Hst') as (partial & -> & Hpartial); [lia|].
    cbn [mbind result_bind].
    replace (Z.of_nat z + 1) with (Z.of_nat (S z)) by lia.
    replace (Z.of_nat (S m) - 1) with (Z.of_nat m) by lia.
    destruct (IH (S z) (prefix ++ [x]) (partial, st'.2)) as (partial' & -> & Hpartial');
      [rewrite length_app; cbn; lia|exact Hpartial|].
    exists partial'. split; [|exact (holds_prefix _ _ _ _ Hpartial')].
    cbn [snd]. do 3 f_equal. rewrite <- list_fmap_compose. apply list_fmap_ext.
    intros _ c _. cbn. rewrite <- app_assoc. reflexivity.
Qed.

Lemma Combinations_choose (s : list T) (m : nat) :
  Combinations_new s (Z.of_nat (S m)) = Ok (choose (S m) s).
Proof.
  unfold Combinations_new. cbv zeta.
  replace (Z.of_nat (S m) - 1) with (Z.of_nat m) by lia. rewrite !Nat2Z.id.
  destruct (generate_adds (S m) s m 0 [] (replicate (S m) None, [])) as (partial & Hrun & _);
    [reflexivity|split; [apply length_replicate|reflexivity]|].
  change (Z.of_nat 0) with 0 in Hrun. cbv beta in Hrun. rewrite Hrun. cbn.
  rewrite list_fmap_id. reflexivity.
Qed.

(** C24: For every size from 1 on, the constructor fills the vector with the
    combinations of that size, within its fuel and its bounds: each list of elements
    that are in [s] in this order is there, no list is there twice when no element is,
    and they are in the order of their positions. For the size 0 it accesses its
    empty vectors out of bounds. *)
Theorem Combinations_all (s : list T) (m : nat) :
  (exists out, Combinations_new s (Z.of_nat (S m)) = Ok out /\ out = choose (S m) s /\
     (forall c, c ∈ out <-> sublist c s /\ length c = S m) /\ (NoDup s -> NoDup out)) /\
  Combinations_new s 0 = Throw Undefined.
Proof.
  split.
  - exists (choose (S m) s). rewrite Combinations_choose. split_and!; [reflexivity|reflexivity| |].
    + intros c. apply elem_of_choose.
    + apply choose_NoDup.
  - unfold Combinations_new. change (Z.to_nat (0 - 1)) with O. cbn [generate].
    change (0 - 1 >? 0) with false. cbn iota. rewrite seqZ_cons by lia.
    destruct s; reflexivity.
Qed.
End Combinations.

(** The pairs of three elements. *)
Lemma Combinations_all_witness :
  Combinations_new [1; 2; 3] 2 = Ok [[1; 2]; [1; 3]; [2; 3]] /\ NoDup [[1; 2]; [1; 3]; [2; 3]].
Proof.
  destruct (Combinations_all [1; 2; 3] 1) as [(out & Hrun & Hout & _ & Hnd) _].
  change (choose 2 [1; 2; 3]) with [[1; 2]; [1; 3]; [2; 3]] in Hout. subst out. split; [exact Hrun|].
  apply Hnd. apply (bool_decide_unpack _). reflexivity.
Defined.
