(* ===== verification/Alternatives.v ===== *)
(** * The search for alternative routes

    [alternatives_routing.cpp]: the fastest route, then routes that avoid combinations
    of the lines of those found so far, one calculation for each combination, within
    limits on the calculations and on the routes. The maps from lists of lines are keyed
    by the [uid]s, which is how they compare lines; what is only written to the log is
    left out. *)

From Stdlib Require Import ZArith Lia Sorted.
From stdpp Require Import base list gmap strings.
From S2P Require Import Prelude.
From S2P Require Import Data.
From S2P Require Import RoutingResult.
From S2P Require Import ConnectionSet.
From S2P Require Import ConnectionCache.
From S2P Require Import TransitData.
From S2P Require Import Calculator.
From S2P Require Import Calculation.
From S2P Require Import Numbers.
From S2P Require Import Parameters.
From S2P Require Import Combinations.

Local Open Scope Z_scope.

(** ** The lines of a result *)

(** [LineStepVisitor]. *)
Definition LineStepVisitor : StepVisitor (option Line) (option Line) := {|
  visitBoardingStep := fun trip _ _ _ _ _ _ => Some (trip_line trip);
  visitUnboardingStep := fun _ _ _ _ _ _ _ _ => None;
  visitWalkingStep := fun _ _ _ _ _ _ _ => None;
  step_getResult := fun stepLine => stepLine
|}.

(** [LineVisitor]: the list of lines and the visitor of steps. *)
Definition LineVisitor : ResultVisitor (list Line * option Line) (list Line) := {|
  visitSingleCalculationResult := fun result st =>
    foldl (fun '(linesList, stepVisitor) step =>
             let '(stepLine, stepVisitor') := step_accept LineStepVisitor step stepVisitor in
             (match stepLine with Some line => linesList ++ [line] | None => linesList end, stepVisitor'))
      st (res_steps result);
  visitAlternativesResult := fun _ st => st;
  visitAllNodesResult := fun _ st => st;
  getResult := fst
|}.

(** [result.accept(visitor)] followed by the sort. *)
Definition foundLines (result : SingleCalculationResult) : list Line :=
  stable_sort line_ltb (result_accept LineVisitor (SINGLE_CALCULATION result) ([], None)).1.

(** What the maps compare of a vector of lines. *)
Definition line_key (lines : list Line) : list uid := line_uid <$> lines.

(** ** The maximal travel time of an alternative *)

Definition getMaxAlternatives : Z := 200.
Definition getMinAlternativeMaxTravelTimeSeconds : Z := 30 * 60.
Definition getAlternativesMaxAddedTravelTimeSeconds : Z := 60 * 60.
Definition getMaxValidAlternatives : Z := 50.

(** [1.75f * total + extra] in binary32, then converted to [int]: the numbers are
    counted in quarters, which rounding to 24 significant bits does not change. *)
Definition ratio_time (total extra : Z) : calc Z :=
  let quarters := float_of_int (float_of_int (7 * float_of_int total) + 4 * float_of_int extra) in
  let t := Z.quot quarters 4 in
  if (MIN_INT <=? t) && (t <=? MAX_INT) then Ok t else Throw Undefined.

(** The block that sets [maxTravelTime]. *)
Definition alternatives_maxTravelTime (p : CommonParameters) (routingResult : SingleCalculationResult)
    : calc Z :=
  maxTravelTime ← ratio_time (res_totalTravelTime routingResult)
    (if isForwardCalculation p then res_departureTime routingResult - getTimeOfTrip p else 0);
  let maxTravelTime :=
    if float_of_int maxTravelTime <? getMinAlternativeMaxTravelTimeSeconds
    then getMinAlternativeMaxTravelTimeSeconds
    else if maxTravelTime >? res_totalTravelTime routingResult + getAlternativesMaxAddedTravelTimeSeconds
    then res_totalTravelTime routingResult + getAlternativesMaxAddedTravelTimeSeconds
    else maxTravelTime in
  Ok (Z.min maxTravelTime (getMaxTotalTravelTimeSeconds p)).

(** [commonAlternativeParameters] and [alternativeParameters]. *)
Definition alternativeParameters (parameters : RouteParameters) (maxTravelTime : Z) : RouteParameters :=
  let p := route_common parameters in
  RouteParameters_new (getOrigin parameters) (getDestination parameters) (isWithAlternatives parameters)
    (CommonParameters_new (getScenario p) (getTimeOfTrip p) (getMinWaitingTimeSeconds p) maxTravelTime
       (getMaxAccessWalkingTravelTimeSeconds p) (getMaxEgressWalkingTravelTimeSeconds p)
       (getMaxTransferWalkingTravelTimeSeconds p) (getMaxFirstWaitingTimeSeconds p)
       (isForwardCalculation p)).

(** [parameters.exceptLines = lines]. *)
Definition set_exceptLines (lines : list Line) (parameters : RouteParameters) : RouteParameters :=
  let p := route_common parameters in
  mkRouteParameters
    (mkCommonParameters (getScenario p) (getTimeOfTrip p) (getMinWaitingTimeSeconds p)
       (getMaxTotalTravelTimeSeconds p) (getMaxAccessWalkingTravelTimeSeconds p)
       (getMaxEgressWalkingTravelTimeSeconds p) (getMaxTransferWalkingTravelTimeSeconds p)
       (getMaxFirstWaitingTimeSeconds p) (getOnlyServices p) (getOnlyLines p) (getOnlyAgencies p)
       (getOnlyModes p) (getOnlyNodes p) (getExceptServices p) lines (getExceptAgencies p)
       (getExceptModes p) (getExceptNodes p) (isForwardCalculation p))
    (getOrigin parameters) (getDestination parameters) (isWithAlternatives parameters).

(** ** The combinations to try *)

(** The local variables that the search changes, but for the calculator. *)
Record Search := mkSearch {
  s_alternatives : list SingleCalculationResult;
  s_allCombinations : list (list Line);
  s_failedCombinations : list (list Line);
  s_calculated : gset (list uid);
  s_foundLines : gset (list uid);
  s_alternativeSequence : Z;
  s_calculatedCount : Z
}.

(** [k = 1, ..., foundLines.size()]. *)
Definition sizes (lines : list Line) : list Z := seqZ 1 (Z.of_nat (length lines)).

(** The combinations of the lines of the fastest route, all of them. *)
Definition add_first_combination (newCombination : list Line) (st : list (list Line) * gset (list uid))
    : list (list Line) * gset (list uid) :=
  let '(allCombinations, calculated) := st in
  let newCombination := stable_sort line_ltb newCombination in
  (allCombinations ++ [newCombination], {[line_key newCombination]} ∪ calculated).

Definition first_combinations (lines : list Line)
    : calc (list (list Line) * gset (list uid)) :=
  for_each (fun k st =>
      combinations ← Combinations_new lines k;
      for_each (fun newCombination st => Ok (add_first_combination newCombination st)) combinations st)
    (sizes lines) ([], ∅).

(** Whether every line of a failed combination is in the new one. *)
Definition matches_failed (failedCombinations : list (list Line)) (newCombination : list Line) : bool :=
  existsb (fun failedCombination =>
             forallb (fun failedLine => std_find line_eqb failedLine newCombination) failedCombination)
    failedCombinations.

(** One combination of the lines of a new alternative, with the lines excluded for it. *)
Definition add_combination (failedCombinations : list (list Line)) (combination newCombination : list Line)
    (st : list (list Line) * gset (list uid)) : list (list Line) * gset (list uid) :=
  let '(allCombinations, calculated) := st in
  let newCombination := stable_sort line_ltb (newCombination ++ combination) in
  if decide (line_key newCombination ∈ calculated) then st
  else
    (if matches_failed failedCombinations newCombination then allCombinations
     else allCombinations ++ [newCombination],
     {[line_key newCombination]} ∪ calculated).

Definition new_combinations (failedCombinations : list (list Line)) (combination lines : list Line)
    (st : list (list Line) * gset (list uid)) : calc (list (list Line) * gset (list uid)) :=
  for_each (fun k st =>
      combinations ← Combinations_new lines k;
      for_each (fun newCombination st =>
          Ok (add_combination failedCombinations combination newCombination st)) combinations st)
    (sizes lines) st.

(** What a new result is made of: an alternative when its lines are new. *)
Definition add_result (combination : list Line) (result : SingleCalculationResult) (s : Search)
    : calc Search :=
  let lines := foundLines result in
  if (0 <? length lines)%nat && negb (bool_decide (line_key lines ∈ s_foundLines s)) then
    '(allCombinations, calculated) ←
      new_combinations (s_failedCombinations s) combination lines
        (s_allCombinations s, s_calculated s);
    Ok (mkSearch (s_alternatives s ++ [result]) allCombinations (s_failedCombinations s) calculated
          ({[line_key lines]} ∪ s_foundLines s) (s_alternativeSequence s + 1) (s_calculatedCount s))
  else Ok s.

Definition add_failed (combination : list Line) (s : Search) : Search :=
  mkSearch (s_alternatives s) (s_allCombinations s) (s_failedCombinations s ++ [combination])
    (s_calculated s) (s_foundLines s) (s_alternativeSequence s) (s_calculatedCount s).

(** [alternativesCalculatedCount++]. *)
Definition count_calculation (s : Search) : Search :=
  mkSearch (s_alternatives s) (s_allCombinations s) (s_failedCombinations s) (s_calculated s)
    (s_foundLines s) (s_alternativeSequence s) (s_calculatedCount s + 1).

(** [alternativesCalculatedCount < maxAlternatives && alternativeSequence - 1 < maxValid]. *)
Definition within_limits (s : Search) : bool :=
  (s_calculatedCount s <? getMaxAlternatives) && (s_alternativeSequence s - 1 <? getMaxValidAlternatives).

Section Search.
Context `{!GeoFilter} {C : Type} `{!ScenarioConnectionCache C} (srv : Server).

(** The calculator and the cache when a calculation that keeps the access paths ended
    with an exception. The fields that the scans changed before the exception are left
    as the reset made them: the next reset sets them again ([calculateSingle_reads]). *)
Definition after_exception (c : Calculator) (parameters : RouteParameters) (cache : C) : Calculator * C :=
  match reset srv c (route_common parameters) (Some (getOrigin parameters))
          (Some (getDestination parameters)) false true cache with
  | Ok (c', cache') => (c', cache')
  | Throw _ => (c, cache)
  end.

(** One combination of the loop, within the limits. *)
Definition try_combination (parameters altParameters : RouteParameters) (combination : list Line)
    (st : Search * Calculator * C) : calc (Search * Calculator * C) :=
  let '(s, c, cache) := st in
  let altParameters' :=
    set_exceptLines (getExceptLines (route_common parameters) ++ combination) altParameters in
  match calculateSingle srv c altParameters' false true cache with
  | Ok (Some result, c', cache') =>
      s' ← add_result combination result s;
      Ok (count_calculation s', c', cache')
  | Ok (None, _, _) => Throw Undefined
  | Throw (NoRoutingFound _) =>
      let '(c', cache') := after_exception c altParameters' cache in
      Ok (count_calculation (add_failed combination s), c', cache')
  | Throw e => Throw e
  end.

(** [for (size_t i = 0; i < allCombinations.size(); i++)]: the vector grows in the
    loop. A round beyond the limits changes nothing, nor do those that follow it. Each
    round within them uses one unit of fuel. *)
Fixpoint search_loop (parameters altParameters : RouteParameters) (fuel : nat) (i : nat)
    (st : Search * Calculator * C) : calc (Search * Calculator * C) :=
  let s := st.1.1 in
  if (i <? length (s_allCombinations s))%nat && within_limits s then
    match fuel with
    | O => Throw OutOfFuel
    | S fuel' =>
        combination ← vec_at (s_allCombinations s) i;
        st' ← try_combination parameters altParameters combination st;
        search_loop parameters altParameters fuel' (S i) st'
    end
  else Ok st.

(** The state of the search after the fastest route. *)
Definition search_start (result : SingleCalculationResult) : calc Search :=
  let lines := foundLines result in
  '(allCombinations, calculated) ← first_combinations lines;
  Ok (mkSearch [result] allCombinations [] calculated {[line_key lines]} 2 2).

(** [alternativesRouting]. *)
Definition alternativesRouting (c : Calculator) (parameters : RouteParameters) (cache : C)
    : calc (AlternativesResult * Calculator * C) :=
  '(result, c1, cache1) ← calculateSingle srv c parameters true true cache;
  match result with
  | None => Throw Undefined
  | Some routingResult =>
      maxTravelTime ← alternatives_maxTravelTime (route_common parameters) routingResult;
      let altParameters := alternativeParameters parameters maxTravelTime in
      s ← search_start routingResult;
      '(s', c', cache') ←
        search_loop parameters altParameters (Z.to_nat getMaxAlternatives) 0 (s, c1, cache1);
      Ok (mkAlternativesResult (s_calculatedCount s') (s_alternatives s'), c', cache')
  end.
End Search.

(** ** The lines of a result, as its steps board them *)

Lemma visited_lines l st :
  foldl (fun '(linesList, stepVisitor) step =>
           let '(stepLine, stepVisitor') := step_accept LineStepVisitor step stepVisitor in
           (match stepLine with Some line => linesList ++ [line] | None => linesList end, stepVisitor'))
    st l =
  (st.1 ++ (trip_line <$> boarded_trips l), foldl (fun s step => (step_accept LineStepVisitor step s).2) st.2 l).
Proof.
  revert st. induction l as [|step l IH]; intros [lines visitor]; cbn [foldl fst snd].
  - cbn. rewrite app_nil_r. reflexivity.
  - rewrite IH. destruct step; cbn; rewrite <- ?app_assoc; reflexivity.
Qed.

Lemma foundLines_perm result : foundLines result ≡ₚ trip_line <$> boarded_trips (res_steps result).
Proof.
  unfold foundLines, result_accept, LineVisitor.
  cbn [visitSingleCalculationResult getResult fst]. rewrite visited_lines. apply stable_sort_perm.
Qed.

(** ** The invariant of the search *)

Definition alternative_key (r : SingleCalculationResult) : list uid := line_key (foundLines r).

(** The lines of the routes found so far. *)
Definition lines_found (l : list SingleCalculationResult) : list Line := l ≫= foundLines.

(** What holds of a vector of combinations and of the map of those calculated; [unique]
    tells when no combination is there twice. *)
Record combinations_ok (unique : Prop) (lines : list Line) (st : list (list Line) * gset (list uid))
    : Prop := {
  co_lines : Forall (fun l => l <> [] /\ l ⊆ lines) st.1;
  co_calculated : Forall (fun l => line_key l ∈ st.2) st.1;
  co_once : unique -> NoDup (line_key <$> st.1)
}.

Lemma combinations_ok_weaken unique lines lines' st :
  lines ⊆ lines' -> combinations_ok unique lines st -> combinations_ok unique lines' st.
Proof.
  intros Hsub [H1 H2 H3]. split; [|exact H2|exact H3]. eapply Forall_impl; [exact H1|].
  intros l [Hne Hl]. split; [exact Hne|]. intros x Hx. exact (Hsub x (Hl x Hx)).
Qed.

(** A combination that is not in the map is added to the vector, or only to the map. *)
Lemma combinations_ok_snoc unique lines all calculated new :
  combinations_ok unique lines (all, calculated) -> new <> [] -> new ⊆ lines ->
  (unique -> line_key new ∉ calculated) ->
  combinations_ok unique lines (all ++ [new], {[line_key new]} ∪ calculated).
Proof.
  intros [H1 H2 H3] Hne Hsub Hnew. split; cbn in *.
  - apply Forall_app. split; [exact H1|]. repeat constructor; assumption.
  - apply Forall_app. split; [|repeat constructor; apply elem_of_union_l, elem_of_singleton; reflexivity].
    eapply Forall_impl; [exact H2|]. intros l Hl. apply elem_of_union_r. exact Hl.
  - intros Hu. rewrite fmap_app. apply list.NoDup_app.
    split_and!; [exact (H3 Hu)| |apply NoDup_singleton].
    intros key Hkey Hkey'. apply list_elem_of_singleton in Hkey'. subst key. apply (Hnew Hu).
    apply list_elem_of_fmap in Hkey as (l & -> & Hl). rewrite Forall_forall in H2. exact (H2 l Hl).
Qed.

Lemma combinations_ok_map unique lines all calculated key :
  combinations_ok unique lines (all, calculated) -> combinations_ok unique lines (all, {[key]} ∪ calculated).
Proof.
  intros [H1 H2 H3]. split; [exact H1| |exact H3].
  eapply Forall_impl; [exact H2|]. intros l Hl. apply elem_of_union_r. exact Hl.
Qed.

(** Sorting keeps the elements of a combination. *)
Lemma sorted_elem (l : list Line) x : x ∈ stable_sort line_ltb l <-> x ∈ l.
Proof. rewrite stable_sort_perm. reflexivity. Qed.

Lemma sorted_nonempty (l : list Line) : l <> [] -> stable_sort line_ltb l <> [].
Proof.
  intros Hne Hnil. apply Hne. pose proof (stable_sort_perm line_ltb l) as Hp. rewrite Hnil in Hp.
  apply Permutation_nil_l in Hp. congruence.
Qed.

(** The combinations of a list of lines: they are not empty and have its lines. *)
Lemma combinations_of lines k :
  k ∈ sizes lines -> Combinations_new lines k = Ok (choose (Z.to_nat k) lines) /\
    Forall (fun c => c <> [] /\ c ⊆ lines) (choose (Z.to_nat k) lines).
Proof.
  intros Hk. apply elem_of_seqZ in Hk.
  destruct (Z_of_nat_complete (k - 1)) as [m Hm]; [lia|].
  replace k with (Z.of_nat (S m)) by lia. rewrite Combinations_choose, Nat2Z.id.
  split; [reflexivity|].
  apply Forall_forall. intros c Hc. apply elem_of_choose in Hc as [Hsub Hlen]. split.
  - intros ->. done.
  - intros x Hx. exact (elem_of_sublist _ _ _ Hx Hsub).
Qed.

Lemma add_combination_ok unique failed combination new lines st :
  combinations_ok unique lines st -> new <> [] -> new ⊆ lines -> combination ⊆ lines ->
  combinations_ok unique lines (add_combination failed combination new st).
Proof.
  intros Hst Hne Hnew Hcomb. destruct st as [all calculated]. unfold add_combination.
  case_decide as Hkey; [exact Hst|].
  destruct (matches_failed _ _); [apply combinations_ok_map; exact Hst|].
  apply combinations_ok_snoc; [exact Hst|apply sorted_nonempty; destruct new; done| |intros _; exact Hkey].
  intros x Hx. rewrite sorted_elem, elem_of_app in Hx.
  destruct Hx as [Hx|Hx]; [exact (Hnew x Hx)|exact (Hcomb x Hx)].
Qed.

Lemma new_combinations_ok unique failed combination lines all_lines st :
  combinations_ok unique all_lines st -> lines ⊆ all_lines -> combination ⊆ all_lines ->
  exists st', new_combinations failed combination lines st = Ok st' /\ combinations_ok unique all_lines st'.
Proof.
  intros Hst Hlines Hcomb. unfold new_combinations.
  apply (for_each_ok _ (fun _ st => combinations_ok unique all_lines st)); [|exact Hst].
  intros pre k post st1 Hl Hst1.
  destruct (combinations_of lines k) as (-> & Hout); [rewrite Hl; set_solver|].
  cbn [mbind result_bind].
  apply (for_each_ok _ (fun _ st => combinations_ok unique all_lines st)); [|exact Hst1].
  intros pre' new post' st2 Hl' Hst2. eexists. split; [reflexivity|].
  rewrite Hl', Forall_app, Forall_cons in Hout. destruct Hout as (_ & [Hne Hsub] & _).
  apply add_combination_ok; [exact Hst2|exact Hne| |exact Hcomb].
  intros x Hx. exact (Hlines x (Hsub x Hx)).
Qed.

(** *** The combinations of the fastest route *)

#[export] Instance line_order : StrictWeakOrder line_ltb.
Proof.
  split; unfold line_ltb; intros *; rewrite ?Nat.ltb_lt, ?Nat.ltb_ge; try apply Nat.ltb_irrefl; lia.
Qed.

Lemma sublist_sorted {A} (R : relation A) l l' : sublist l l' -> StronglySorted R l' -> StronglySorted R l.
Proof.
  induction 1 as [|x l l' Hsub IH|x l l' Hsub IH]; intros Hs; [constructor|..];
    apply StronglySorted_inv in Hs as [Hs Hx].
  - constructor; [exact (IH Hs)|]. rewrite Forall_forall in *. intros y Hy.
    exact (Hx y (elem_of_sublist _ _ _ Hy Hsub)).
  - exact (IH Hs).
Qed.

(** The combinations of a sorted list are sorted. *)
Lemma choose_sorted lines m :
  StronglySorted (not_after line_ltb) lines -> stable_sort line_ltb <$> choose m lines = choose m lines.
Proof.
  intros Hs. rewrite <- (list_fmap_id (choose m lines)) at 2. apply list_fmap_ext.
  intros i c Hc. apply list_elem_of_lookup_2, elem_of_choose in Hc as [Hsub _].
  apply stable_sort_id. exact (sublist_sorted _ _ _ Hsub Hs).
Qed.

Lemma choose_fmap {A B} (f : A -> B) m (l : list A) :
  (fun c : list A => f <$> c) <$> choose m l = choose m (f <$> l).
Proof.
  revert m. induction l as [|x l IH]; intros [|m]; try reflexivity. cbn.
  rewrite fmap_app, <- !IH, <- !list_fmap_compose. reflexivity.
Qed.

(** All the combinations of the sizes [ks]. *)
Definition all_combinations (lines : list Line) (ks : list Z) : list (list Line) :=
  ks ≫= fun k => choose (Z.to_nat k) lines.

Lemma fmap_bind {A B D} (g : B -> D) (f : A -> list B) l : g <$> (l ≫= f) = l ≫= (fun x => g <$> f x).
Proof. induction l as [|x l IH]; [reflexivity|]. cbn. rewrite fmap_app, IH. reflexivity. Qed.

Lemma all_combinations_once lines :
  NoDup (line_key lines) -> NoDup (line_key <$> all_combinations lines (sizes lines)).
Proof.
  intros Hnd. unfold all_combinations. rewrite fmap_bind. apply NoDup_bind.
  - intros k k' key Hk Hk' Hin Hin'. unfold line_key in Hin, Hin'. rewrite choose_fmap in Hin, Hin'.
    apply elem_of_choose in Hin as [_ Hin], Hin' as [_ Hin'].
    apply elem_of_seqZ in Hk, Hk'. lia.
  - intros k _. unfold line_key. rewrite choose_fmap. apply choose_NoDup. exact Hnd.
  - apply NoDup_seqZ.
Qed.

Definition add_keys (l : list (list Line)) (calculated : gset (list uid)) : gset (list uid) :=
  foldl (fun calculated c => {[line_key c]} ∪ calculated) calculated l.

Lemma add_sorted (l : list (list Line)) st :
  Forall (fun c => stable_sort line_ltb c = c) l ->
  for_each (fun newCombination st => @Ok exn _ (add_first_combination newCombination st)) l st =
  Ok (st.1 ++ l, add_keys l st.2).
Proof.
  intros Hl. revert st. induction Hl as [|c l Hc _ IH]; intros [all calculated]; cbn [for_each].
  - rewrite app_nil_r. reflexivity.
  - cbn [mbind result_bind]. rewrite IH. unfold add_first_combination. rewrite Hc.
    cbn. rewrite <- app_assoc. reflexivity.
Qed.

Lemma elem_of_add_keys (l : list (list Line)) (calculated : gset (list uid)) key :
  key ∈ add_keys l calculated <-> key ∈ calculated \/ key ∈ line_key <$> l.
Proof.
  unfold add_keys. revert calculated. induction l as [|c l IH]; intros calculated; cbn; [set_solver|].
  rewrite IH, elem_of_union, elem_of_singleton, elem_of_cons. tauto.
Qed.

Lemma first_combinations_ok lines :
  StronglySorted (not_after line_ltb) lines ->
  exists st, first_combinations lines = Ok st /\ combinations_ok (NoDup (line_key lines)) lines st.
Proof.
  intros Hsorted. unfold first_combinations.
  destruct (for_each_ok (fun k st =>
      combinations ← Combinations_new lines k;
      for_each (fun newCombination st => Ok (add_first_combination newCombination st)) combinations st)
    (fun pre (st : list (list Line) * gset (list uid)) => st.1 = all_combinations lines pre /\
       Forall (fun l => l <> [] /\ l ⊆ lines) st.1 /\ Forall (fun l => line_key l ∈ st.2) st.1)
    (sizes lines)) with (s := (@nil (list Line), @empty (gset (list uid)) _))
    as (st & Hrun & Hall & Hlines & Hcalc).
  - intros pre k post st Hl (Hall & Hlines & Hcalc).
    destruct (combinations_of lines k) as (-> & Hout); [rewrite Hl; set_solver|]. cbn [mbind result_bind].
    rewrite add_sorted.
    + eexists. split; [reflexivity|]. cbn [fst snd]. split_and!.
      * unfold all_combinations in *. rewrite Hall, bind_app. cbn. rewrite app_nil_r. reflexivity.
      * apply Forall_app. split; assumption.
      * rewrite Forall_forall in Hcalc |- *. intros c Hc. apply elem_of_add_keys.
        apply elem_of_app in Hc as [Hc|Hc]; [left; exact (Hcalc c Hc)|right].
        apply list_elem_of_fmap_2. exact Hc.
    + apply Forall_forall. intros c Hc. apply elem_of_choose in Hc as [Hsub _].
      apply stable_sort_id. exact (sublist_sorted _ _ _ Hsub Hsorted).
  - split_and!; [reflexivity|constructor|constructor].
  - exists st. split; [exact Hrun|]. split; [exact Hlines|exact Hcalc|].
    rewrite Hall. apply all_combinations_once.
Qed.

(** *** The search *)

Record search_ok (first : SingleCalculationResult) (s : Search) : Prop := {
  so_first : exists rest, s_alternatives s = first :: rest /\ Forall (fun r => foundLines r <> []) rest;
  so_sequence : s_alternativeSequence s = Z.of_nat (length (s_alternatives s)) + 1;
  so_valid : Z.of_nat (length (s_alternatives s)) <= getMaxValidAlternatives;
  so_count : Z.of_nat (length (s_alternatives s)) + 1 <= s_calculatedCount s <= getMaxAlternatives;
  so_distinct : NoDup (alternative_key <$> s_alternatives s);
  so_found : Forall (fun r => alternative_key r ∈ s_foundLines s) (s_alternatives s);
  so_combinations : combinations_ok (NoDup (alternative_key first)) (lines_found (s_alternatives s))
    (s_allCombinations s, s_calculated s)
}.

Lemma foundLines_sorted r : StronglySorted (not_after line_ltb) (foundLines r).
Proof. apply stable_sort_sorted. exact line_order. Qed.

Lemma search_start_ok r :
  exists s, search_start r = Ok s /\ search_ok r s /\ s_calculatedCount s = 2 /\ s_alternatives s = [r].
Proof.
  unfold search_start.
  destruct (first_combinations_ok (foundLines r) (foundLines_sorted r)) as ([all calculated] & -> & Hok).
  cbn [mbind result_bind]. eexists. split; [reflexivity|]. split; [|split; reflexivity].
  split; unfold getMaxValidAlternatives, getMaxAlternatives; cbn; try lia.
  - exists []. done.
  - apply NoDup_singleton.
  - repeat constructor. apply elem_of_singleton. reflexivity.
  - apply (combinations_ok_weaken _ (foundLines r)); [|exact Hok].
    intros x Hx. unfold lines_found. cbn. rewrite app_nil_r. exact Hx.
Qed.

Section Round.
Context (first : SingleCalculationResult) (s : Search) (combination : list Line).
Context (Hs : search_ok first s) (Hlimits : within_limits s = true)
  (Hcomb : combination ∈ s_allCombinations s).

Lemma round_limits :
  s_calculatedCount s + 1 <= getMaxAlternatives /\
  Z.of_nat (length (s_alternatives s)) + 1 <= getMaxValidAlternatives.
Proof using Hs Hlimits.
  unfold within_limits in Hlimits. apply andb_true_iff in Hlimits as [H1 H2].
  apply Z.ltb_lt in H1, H2. rewrite (so_sequence _ _ Hs) in H2. lia.
Qed.

Lemma count_calculation_ok : search_ok first (count_calculation s).
Proof using Hs Hlimits.
  destruct round_limits as [Hc _].
  destruct Hs as [H1 H2 H3 H4 H5 H6 H7]. split; try assumption. cbn. lia.
Qed.

Lemma add_failed_ok : search_ok first (count_calculation (add_failed combination s)).
Proof using Hs Hlimits.
  destruct count_calculation_ok as [H1 H2 H3 H4 H5 H6 H7]. split; assumption.
Qed.

Lemma add_result_ok result :
  exists s', add_result combination result s = Ok s' /\ search_ok first (count_calculation s') /\
    s_calculatedCount s' = s_calculatedCount s /\
    (s' = s \/ s_alternatives s' = s_alternatives s ++ [result]).
Proof using Hs Hlimits Hcomb.
  unfold add_result. cbv zeta.
  destruct (Nat.ltb_spec 0 (length (foundLines result))) as [Hne|Hne]; cbn [andb];
    [case_bool_decide as Hnew; cbn [negb]|];
    [exists s; split_and!; [reflexivity|exact count_calculation_ok|reflexivity|left; reflexivity]
    | |exists s; split_and!; [reflexivity|exact count_calculation_ok|reflexivity|left; reflexivity]].
  destruct round_limits as [Hc Hv].
  destruct Hs as [(rest & Hrest & Hlines) H2 H3 H4 H5 H6 H7].
  set (all_lines := lines_found (s_alternatives s ++ [result])).
  assert (all_lines = lines_found (s_alternatives s) ++ foundLines result) as Hall.
  { unfold all_lines, lines_found. rewrite bind_app. cbn. rewrite app_nil_r. reflexivity. }
  destruct (new_combinations_ok (NoDup (alternative_key first)) (s_failedCombinations s) combination
              (foundLines result) all_lines (s_allCombinations s, s_calculated s))
    as ([all calculated] & -> & Hok).
  - apply (combinations_ok_weaken _ (lines_found (s_alternatives s))); [|exact H7]. rewrite Hall. set_solver.
  - rewrite Hall. set_solver.
  - pose proof (co_lines _ _ _ H7) as Hsub. rewrite Forall_forall in Hsub.
    destruct (Hsub combination Hcomb) as [_ Hin]. rewrite Hall. set_solver.
  - cbn [mbind result_bind]. eexists. split; [reflexivity|]. split_and!; [|reflexivity|right; reflexivity].
    assert (foundLines result <> []) as Hne' by (intros Hnil; rewrite Hnil in Hne; cbn in Hne; lia).
    split; cbn [s_alternatives s_allCombinations s_calculated s_foundLines s_alternativeSequence
      s_calculatedCount count_calculation]; rewrite ?length_app; cbn [length]; try lia.
    + exists (rest ++ [result]). rewrite Hrest. split; [reflexivity|]. apply Forall_app. split; [exact Hlines|].
      constructor; [exact Hne'|constructor].
    + rewrite fmap_app. apply list.NoDup_app. split_and!; [exact H5| |apply NoDup_singleton].
      intros key Hkey Hkey'. apply list_elem_of_singleton in Hkey'. subst key.
      apply list_elem_of_fmap in Hkey as (r & Heq & Hr). rewrite Forall_forall in H6.
      specialize (H6 r Hr). apply Hnew. change (line_key (foundLines result)) with (alternative_key result).
      rewrite Heq. exact H6.
    + apply Forall_app. split; [|repeat constructor; apply elem_of_union_l, elem_of_singleton; reflexivity].
      eapply Forall_impl; [exact H6|]. intros r Hr. apply elem_of_union_r. exact Hr.
    + exact Hok.
Qed.
End Round.

Section Loop.
Context `{!GeoFilter} {C : Type} `{!ScenarioConnectionCache C} (srv : Server).
Context (parameters altParameters : RouteParameters).
Implicit Types st : Search * Calculator * C.
Notation try := (try_combination srv parameters altParameters).

(** The parameters with the lines of a combination excluded. *)
Definition excluding (combination : list Line) : RouteParameters :=
  set_exceptLines (getExceptLines (route_common parameters) ++ combination) altParameters.

(** The error [e] comes from a calculation: the one it ended with, or the use of the
    result that it did not return. *)
Definition calculation_error (e : exn) (outcome : calc (option SingleCalculationResult * Calculator * C)) : Prop :=
  outcome = Throw e \/ e = Undefined /\ exists c cache, outcome = Ok (None, c, cache).

(** One round: the state it starts in, and the combination it tries. *)
Definition round (st : Search * Calculator * C) (combination : list Line) : Prop :=
  within_limits st.1.1 = true /\ combination ∈ s_allCombinations st.1.1.

(** The rounds of the loop from a state: round [i] tries the combination [i]. *)
Inductive searched (start : Search * Calculator * C) : nat -> Search * Calculator * C -> Prop :=
| searched_start : searched start 0 start
| searched_round i st combination st' :
    searched start i st -> within_limits st.1.1 = true ->
    s_allCombinations st.1.1 !! i = Some combination -> try combination st = Ok st' ->
    searched start (S i) st'.

(** The rule of the loop: an invariant that the rounds keep holds at the end, which is
    when the combinations or the limits are exhausted, and the error of the loop is
    that of a round; the fuel is enough. *)
Lemma search_loop_rounds (J : nat -> Search * Calculator * C -> Prop) :
  (forall i st combination st', J i st -> within_limits st.1.1 = true ->
     s_allCombinations st.1.1 !! i = Some combination -> try combination st = Ok st' ->
     J (S i) st' /\ s_calculatedCount st'.1.1 = s_calculatedCount st.1.1 + 1) ->
  forall fuel i st, J i st -> getMaxAlternatives - s_calculatedCount st.1.1 <= Z.of_nat fuel ->
  match search_loop srv parameters altParameters fuel i st with
  | Ok st' => exists i', J i' st' /\
      ((length (s_allCombinations st'.1.1) <= i')%nat \/ within_limits st'.1.1 = false)
  | Throw e => exists i' st' combination, J i' st' /\ within_limits st'.1.1 = true /\
      s_allCombinations st'.1.1 !! i' = Some combination /\ try combination st' = Throw e
  end.
Proof using Type.
  intros Hround. induction fuel as [|fuel IH]; intros i st Hst Hfuel; cbn [search_loop];
    destruct (Nat.ltb_spec i (length (s_allCombinations st.1.1))) as [Hi|Hi]; cbn [andb]; try (exists i; by auto);
    destruct (within_limits st.1.1) eqn:Hlimits; try (exists i; by auto).
  - unfold within_limits in Hlimits. apply andb_true_iff in Hlimits as [Hc _].
    apply Z.ltb_lt in Hc. lia.
  - destruct (lookup_lt_is_Some_2 _ _ Hi) as [combination Hcomb].
    rewrite (proj2 (vec_at_Ok _ _ _) Hcomb). cbn [mbind result_bind].
    destruct (try combination st) as [st'|e] eqn:Htry; cbn [mbind result_bind].
    + destruct (Hround i st combination st' Hst Hlimits Hcomb Htry) as [Hst' Hcount].
      apply IH; [exact Hst'|lia].
    + exists i, st, combination. done.
Qed.

(** The rule for an invariant that does not name the round. *)
Lemma search_loop_rule (J : Search * Calculator * C -> Prop) :
  (forall st combination st', J st -> round st combination -> try combination st = Ok st' ->
     J st' /\ s_calculatedCount st'.1.1 = s_calculatedCount st.1.1 + 1) ->
  forall fuel i st, J st -> getMaxAlternatives - s_calculatedCount st.1.1 <= Z.of_nat fuel ->
  match search_loop srv parameters altParameters fuel i st with
  | Ok st' => J st'
  | Throw e => exists st' combination, J st' /\ round st' combination /\ try combination st' = Throw e
  end.
Proof using Type.
  intros Hround fuel i st Hst Hfuel.
  pose proof (search_loop_rounds (fun _ => J)) as Hloop.
  specialize (Hloop (fun _ st combination st' HJ Hl Hc => Hround st combination st' HJ (conj Hl (list_elem_of_lookup_2 _ _ _ Hc)))
    fuel i st Hst Hfuel).
  destruct (search_loop _ _ _ _ _ _) as [st'|e]; [by destruct Hloop as (_ & ? & _)|].
  destruct Hloop as (i' & st' & combination & HJ & Hl & Hc & Htry). exists st', combination.
  split_and!; [done|split; [done|by eapply list_elem_of_lookup_2]|done].
Qed.

(** What a round does to the search. *)
Lemma try_combination_cases first combination s c cache :
  search_ok first s -> round (s, c, cache) combination ->
  match calculateSingle srv c (excluding combination) false true cache with
  | Ok (Some result, c', cache') =>
      exists s', try combination (s, c, cache) = Ok (count_calculation s', c', cache') /\
        search_ok first (count_calculation s') /\ s_calculatedCount s' = s_calculatedCount s /\
        (s' = s \/ s_alternatives s' = s_alternatives s ++ [result])
  | Ok (None, _, _) => try combination (s, c, cache) = Throw Undefined
  | Throw (NoRoutingFound _) =>
      try combination (s, c, cache) =
        Ok (count_calculation (add_failed combination s),
            (after_exception srv c (excluding combination) cache).1,
            (after_exception srv c (excluding combination) cache).2)
  | Throw e => try combination (s, c, cache) = Throw e
  end.
Proof using Type.
  intros Hs [Hlimits Hcomb]. unfold try_combination. fold (excluding combination).
  destruct (calculateSingle srv c (excluding combination) false true cache)
    as [[[[result|] c'] cache']|e]; [|reflexivity|].
  - destruct (add_result_ok first s combination Hs Hlimits Hcomb result) as (s' & -> & Hs' & Hcount & Hcase).
    exists s'. done.
  - destruct e; try reflexivity.
    destruct (after_exception srv c (excluding combination) cache). reflexivity.
Qed.

(** A round keeps the invariant of the search, or ends with an error of a calculation. *)
Lemma try_combination_ok first combination st st' :
  search_ok first st.1.1 -> round st combination -> try combination st = Ok st' ->
  search_ok first st'.1.1 /\ s_calculatedCount st'.1.1 = s_calculatedCount st.1.1 + 1.
Proof using Type.
  destruct st as [[s c] cache]. intros Hs Hr Htry.
  pose proof (try_combination_cases first combination s c cache Hs Hr) as Hcases. cbn [fst] in *.
  destruct (calculateSingle srv c (excluding combination) false true cache)
    as [[[[result|] c'] cache']|e].
  - destruct Hcases as (s' & Hrun & Hs' & Hcount & _). rewrite Hrun in Htry. injection Htry as <-.
    cbn. rewrite Hcount. split; [exact Hs'|reflexivity].
  - congruence.
  - destruct e; try congruence. rewrite Hcases in Htry. injection Htry as <-. cbn.
    split; [|reflexivity]. exact (add_failed_ok first s combination Hs (proj1 Hr)).
Qed.

Lemma try_combination_error first combination s c cache e :
  search_ok first s -> round (s, c, cache) combination -> try combination (s, c, cache) = Throw e ->
  calculation_error e (calculateSingle srv c (excluding combination) false true cache) /\
  forall reason, e <> NoRoutingFound reason.
Proof using Type.
  intros Hs Hr Htry.
  pose proof (try_combination_cases first combination s c cache Hs Hr) as Hcases.
  destruct (calculateSingle srv c (excluding combination) false true cache)
    as [[[[result|] c'] cache']|e'] eqn:Hcalc.
  - destruct Hcases as (s' & Hrun & _). congruence.
  - rewrite Hcases in Htry. injection Htry as <-. split; [right; split; [done|by eexists _, _]|done].
  - destruct e'; rewrite Hcases in Htry; try discriminate Htry; injection Htry as <-;
      (split; [by left|done]).
Qed.
End Loop.

Section Answers.
Context `{!GeoFilter} {C : Type} `{!ScenarioConnectionCache C} (srv : Server).

(** Where an error of the search comes from. *)
Inductive search_error (c : Calculator) (parameters : RouteParameters) (cache : C) (e : exn) : Prop :=
| first_calculation_error :
    calculation_error e (calculateSingle srv c parameters true true cache) ->
    search_error c parameters cache e
| travel_time_error first c1 cache1 :
    calculateSingle srv c parameters true true cache = Ok (Some first, c1, cache1) ->
    alternatives_maxTravelTime (route_common parameters) first = Throw e ->
    search_error c parameters cache e
| later_calculation_error first c1 cache1 maxTravelTime start i s' c' cache' combination :
    calculateSingle srv c parameters true true cache = Ok (Some first, c1, cache1) ->
    alternatives_maxTravelTime (route_common parameters) first = Ok maxTravelTime ->
    search_start first = Ok start ->
    searched srv parameters (alternativeParameters parameters maxTravelTime) (start, c1, cache1) i (s', c', cache') ->
    within_limits s' = true -> s_allCombinations s' !! i = Some combination ->
    calculation_error e
      (calculateSingle srv c' (excluding parameters (alternativeParameters parameters maxTravelTime) combination)
         false true cache') ->
    (forall reason, e <> NoRoutingFound reason) ->
    search_error c parameters cache e.

(** C25: The search ends, whatever the calculations return: at most 199 calculations
    give at most 50 routes, the fastest one first, no two of them with the same
    lines, each of the others with a line at least; the number reported is above
    that of the routes; and it ends in a state that its rounds lead to, with every
    combination tried or a limit reached. It ends with an error only when the first
    calculation fails or returns nothing, when the limit on the travel time that its
    result gives is not an [int], or when the calculation of a round that the search
    comes to fails otherwise than by finding no route. *)
Theorem alternatives_bounded c parameters cache :
  match alternativesRouting srv c parameters cache with
  | Ok (result, c', cache') =>
      (exists first rest c1 cache1,
         calculateSingle srv c parameters true true cache = Ok (Some first, c1, cache1) /\
         alternatives result = first :: rest /\ Forall (fun r => foundLines r <> []) rest /\
         exists maxTravelTime start i s',
           alternatives_maxTravelTime (route_common parameters) first = Ok maxTravelTime /\
           search_start first = Ok start /\
           searched srv parameters (alternativeParameters parameters maxTravelTime) (start, c1, cache1) i (s', c', cache') /\
           alternatives result = s_alternatives s' /\ totalAlternativesCalculated result = s_calculatedCount s' /\
           ((length (s_allCombinations s') <= i)%nat \/ within_limits s' = false)) /\
      Z.of_nat (length (alternatives result)) <= getMaxValidAlternatives /\
      Z.of_nat (length (alternatives result)) + 1 <= totalAlternativesCalculated result <= getMaxAlternatives /\
      NoDup (alternative_key <$> alternatives result)
  | Throw e => search_error c parameters cache e
  end.
Proof.
  unfold alternativesRouting.
  destruct (calculateSingle srv c parameters true true cache) as [[[[first|] c1] cache1]|e] eqn:Hfirst;
    cbn [mbind result_bind]; [|apply first_calculation_error; rewrite Hfirst; right; split; [done|by eexists _, _]
      |apply first_calculation_error; by left].
  destruct (alternatives_maxTravelTime (route_common parameters) first) as [maxTravelTime|e] eqn:Hmax;
    cbn [mbind result_bind]; [|by eapply travel_time_error].
  destruct (search_start_ok first) as (s & Hstart & Hs & Hcount & _). rewrite Hstart. cbn [mbind result_bind].
  set (altParameters := alternativeParameters parameters maxTravelTime).
  pose proof (search_loop_rounds srv parameters altParameters
    (fun i st => search_ok first st.1.1 /\ searched srv parameters altParameters (s, c1, cache1) i st)) as Hloop.
  specialize (Hloop ltac:(intros i st combination st' [Hst Hi] Hl Hc Htry;
    destruct (try_combination_ok srv parameters altParameters first combination st st' Hst
                (conj Hl (list_elem_of_lookup_2 _ _ _ Hc)) Htry); split; [split; [done|by eapply searched_round]|done])).
  specialize (Hloop (Z.to_nat getMaxAlternatives) 0%nat (s, c1, cache1)
    ltac:(split; [exact Hs|constructor]) ltac:(cbn [fst]; rewrite Hcount; unfold getMaxAlternatives; lia)).
  destruct (search_loop _ _ _ _ _ _) as [[[s' c'] cache']|e]; cbn [mbind result_bind].
  - destruct Hloop as (i & [[(rest & Hrest & Hlines) _ H3 H4 H5 _ _] Hi] & Hend).
    cbn in *. split_and!; try assumption; try lia.
    exists first, rest, c1, cache1. split_and!; [done..|]. by exists maxTravelTime, s, i, s'.
  - destruct Hloop as (i & [[s' c'] cache'] & combination & [Hs' Hi] & Hl & Hc & Htry).
    destruct (try_combination_error srv parameters altParameters first combination s' c' cache' e Hs'
      (conj Hl (list_elem_of_lookup_2 _ _ _ Hc)) Htry) as [Herr Hno].
    by eapply (later_calculation_error c parameters cache e first c1 cache1 maxTravelTime s i s' c' cache' combination).
Qed.
End Answers.
