(* ===== verification/AlternativesCorrect.v ===== *)
(** * The alternatives are routes that avoid lines

    The calculator keeps its access and egress paths from one calculation of the search
    to the next. With them, each calculation gives what a new calculator gives: every
    alternative is the answer to a query of its own, with a limit on the travel time
    and with lines excluded, and it boards none of these. *)

From Stdlib Require Import ZArith Lia Sorted.
From stdpp Require Import base list gmap strings.
From S2P Require Import Prelude.
From S2P Require Import Data.
From S2P Require Import RoutingResult.
From S2P Require Import ConnectionSet.
From S2P Require Import ConnectionCache.
From S2P Require Import TransitData.
From S2P Require Import Calculator.
From S2P Require Import Demo.
From S2P Require Import ForwardCalculation.
From S2P Require Import ForwardCorrect.
From S2P Require Import ResetCorrect.
From S2P Require Import ReverseCalculation.
From S2P Require Import ReverseCorrect.
From S2P Require Import OptimizeJourney.
From S2P Require Import OptimizeCorrect.
From S2P Require Import JourneyAccounts.
From S2P Require Import ReverseJourney.
From S2P Require Import Calculation.
From S2P Require Import CalculationCorrect.
From S2P Require Import BothWays.
From S2P Require Import QuerySetup.
From S2P Require Import QueryCorrect.
From S2P Require Import Parameters.
From S2P Require Import Combinations.
From S2P Require Import Alternatives.

Local Open Scope Z_scope.

(** ** The fields of the calculator that a calculation keeps *)

(** What the next reset reads of a calculator whose paths are kept. *)
Record same_paths (c c' : Calculator) : Prop := {
  sp_access : accessFootpaths c' = accessFootpaths c;
  sp_egress : egressFootpaths c' = egressFootpaths c;
  sp_trip : odTripGlob c' = odTripGlob c
}.

#[export] Instance same_paths_equiv : Equivalence same_paths.
Proof.
  split; [split; reflexivity|intros c c' []; split; congruence|intros c c' c'' [] []; split; congruence].
Qed.

(** What a reset sets and the scans keep. *)
Record same_reset (c c' : Calculator) : Prop := {
  rs_paths : same_paths c c';
  rs_set : connectionSet c' = connectionSet c;
  rs_disabled : tripsDisabled c' = tripsDisabled c
}.

Lemma forwardCalculation_paths p c r c' steps :
  forwardCalculation p c = Ok (r, c', steps) -> same_reset c c'.
Proof.
  unfold forwardCalculation. intros Hrun. apply bind_Ok_inv in Hrun as (conns & _ & Hrun).
  apply bind_Ok_inv in Hrun as ([st reached] & _ & Hrun). cbn in Hrun.
  destruct (fwd_reachable st =? 0); [done|].
  apply bind_Ok_inv in Hrun as ([best egress] & _ & Hrun). injection Hrun as _ <- _. by repeat split.
Qed.

Lemma calculateSingleReverse_paths srv p c r c' :
  calculateSingleReverse srv p c = Ok (r, c') -> same_reset c c'.
Proof.
  unfold calculateSingleReverse. intros Hrun.
  apply bind_Ok_inv in Hrun as ([[best c1] steps] & Hrev & Hrun). cbn in Hrun.
  apply bind_Ok_inv in Hrun as (result & _ & Hrun). injection Hrun as _ <-.
  unfold reverseCalculation in Hrev. apply bind_Ok_inv in Hrev as (conns & _ & Hrev).
  apply bind_Ok_inv in Hrev as ([st reached] & _ & Hrev). cbn in Hrev.
  destruct (rev_reachable st =? 0); [done|].
  apply bind_Ok_inv in Hrev as ([dep access] & _ & Hrev). injection Hrev as _ <- _. by repeat split.
Qed.

Section Paths.
Context `{!GeoFilter} {C : Type} `{!ScenarioConnectionCache C} (srv : Server).
Implicit Types (c : Calculator) (parameters : RouteParameters) (cache : C).

(** A calculation that returns leaves the paths and the cache of its reset. *)
Lemma calculateSingle_paths c parameters keep filters cache r c' cache' :
  calculateSingle srv c parameters keep filters cache = Ok (r, c', cache') ->
  exists c1, reset srv c (route_common parameters) (Some (getOrigin parameters))
    (Some (getDestination parameters)) keep filters cache = Ok (c1, cache') /\ same_reset c1 c'.
Proof using Type.
  unfold calculateSingle. intros Hrun. apply bind_Ok_inv in Hrun as ([c1 cache1] & Hreset & Hrun).
  cbn in Hrun. destruct (_ && _).
  - apply bind_Ok_inv in Hrun as ([[best c2] steps] & Hfwd & Hrun). cbn in Hrun.
    apply forwardCalculation_paths in Hfwd.
    destruct (_ <? MAX_INT); [|apply bind_Ok_inv in Hrun as (? & _ & Hrun); done].
    apply bind_Ok_inv in Hrun as (c3 & Hpass & Hrun).
    unfold prepare_reverse_pass in Hpass. apply bind_Ok_inv in Hpass as (times & _ & Hpass).
    injection Hpass as <-.
    apply bind_Ok_inv in Hrun as ([result c4] & Hrev & Hrun). injection Hrun as _ <- <-.
    apply calculateSingleReverse_paths in Hrev. exists c1. split; [exact Hreset|].
    destruct Hfwd as [[] ? ?], Hrev as [[] ? ?]. repeat split; cbn in *; congruence.
  - destruct (_ >? -1).
    + apply bind_Ok_inv in Hrun as (c2 & Hprep & Hrun).
      unfold prepare_reverse_query in Hprep. apply bind_Ok_inv in Hprep as (trips & _ & Hprep).
      injection Hprep as <-.
      apply bind_Ok_inv in Hrun as ([result c3] & Hrev & Hrun). injection Hrun as _ <- <-.
      apply calculateSingleReverse_paths in Hrev. exists c1. split; [exact Hreset|].
      destruct Hrev as [[] ? ?]. repeat split; cbn in *; congruence.
    + injection Hrun as _ <- <-. exists c1. split; [exact Hreset|by repeat split].
Qed.

(** With the paths kept and the filters set again, a calculation reads nothing else of
    the calculator it starts from. *)
Lemma calculateSingle_reads c c' parameters cache :
  same_paths c c' ->
  calculateSingle srv c parameters false true cache = calculateSingle srv c' parameters false true cache.
Proof using Type.
  intros [Ha He Ht]. unfold calculateSingle, reset, reset_departureTime. rewrite Ha, He, Ht. reflexivity.
Qed.

(** A calculator with the paths of a query, and none of an OD trip. *)
Record paths_of (parameters : RouteParameters) (c : Calculator) : Prop := {
  po_trip : odTripGlob c = None;
  po_access : accessFootpaths c = access_of srv (route_common parameters) (getOrigin parameters);
  po_egress : egressFootpaths c = egress_of srv (route_common parameters) (getDestination parameters);
  po_access_some : accessFootpaths c <> [];
  po_egress_some : egressFootpaths c <> []
}.

Lemma paths_of_same parameters c c' : same_paths c c' -> paths_of parameters c -> paths_of parameters c'.
Proof using Type. intros [Ha He Ht] [H1 H2 H3 H4 H5]. split; congruence. Qed.

(** To keep the paths of the query gives what a new calculator gives. *)
Lemma reset_kept_paths c c0 parameters cache :
  paths_of parameters c -> odTripGlob c0 = None ->
  reset srv c (route_common parameters) (Some (getOrigin parameters)) (Some (getDestination parameters))
    false true cache =
  reset srv c0 (route_common parameters) (Some (getOrigin parameters)) (Some (getDestination parameters))
    true true cache.
Proof using Type.
  intros [Ht Ha He Hna Hne] Ht0.
  unfold reset, reset_departureTime, resetAccessFootpaths, resetEgressFootpaths. rewrite Ht, Ht0.
  fold (access_read srv (route_common parameters) (getOrigin parameters)).
  fold (egress_read srv (route_common parameters) (getDestination parameters)).
  unfold access_of in Ha. destruct (access_read _ _ _) as [access|] in Ha |- *; [|done]. rewrite <- Ha.
  unfold egress_of in He. destruct (egress_read _ _ _) as [egress|] in He |- *; [|done]. rewrite <- He.
  cbn [mbind result_bind].
  destruct (Nat.eqb_spec (length (accessFootpaths c)) 0) as [Hz|_];
    [contradiction (Hna (nil_length_inv _ Hz))|].
  destruct (Nat.eqb_spec (length (egressFootpaths c)) 0) as [Hz|_];
    [contradiction (Hne (nil_length_inv _ Hz))|].
  reflexivity.
Qed.

Lemma calculateSingle_kept_paths c c0 parameters cache :
  paths_of parameters c -> odTripGlob c0 = None ->
  calculateSingle srv c parameters false true cache = calculateSingle srv c0 parameters true true cache.
Proof using Type.
  intros Hc Hc0. unfold calculateSingle. rewrite (reset_kept_paths c c0 parameters cache Hc Hc0). reflexivity.
Qed.
End Paths.

(** ** The lines that a journey boards *)

Lemma ritinerary_legs p c L l : ritinerary p c L l -> Forall (fun r => rleg L r.1 r.2) l.
Proof.
  induction 1; apply List.Forall_cons; try assumption. constructor.
Qed.

(** The steps of a result board the trips of connections of the scan. *)
Lemma journey_boards p c td stop L s time a eg res rides t :
  reverse_journey p c td stop L s time a eg res rides -> t ∈ boarded_trips (res_steps res) ->
  exists e, e ∈ L /\ getTrip e = t.
Proof.
  intros [_ _ _ _ _ (rides0 & Hit & Hown & _ & Hwithin) Hbal _] Ht.
  rewrite (bl_boarded _ _ _ _ _ Hbal), (bl_legs _ _ _ _ _ Hbal) in Ht.
  apply list_elem_of_fmap in Ht as (leg & -> & Hleg).
  apply list_elem_of_omap in Hleg as (j & Hj & Hleg). unfold ride_leg in Hleg.
  destruct (getFinalEnterConnection j) as [e|] eqn:He; [|done].
  destruct (getFinalExitConnection j) as [x|] eqn:Hx; [|done].
  destruct (getFinalTrip j) as [trip|] eqn:Htrip; [|done]. injection Hleg as <-. cbn.
  destruct (Hwithin (trip, e, x)) as (r & Hr & Hin).
  { apply list_elem_of_omap. exists j. unfold ride_of. rewrite Htrip, He, Hx. done. }
  pose proof (wi_trip _ _ Hin) as Heq. cbn in Heq. rewrite Heq.
  pose proof Hr as Hr'. apply list_elem_of_omap in Hr' as (j0 & Hj0 & Hof).
  rewrite Forall_forall in Hown. destruct (Hown j0 Hj0) as (e0 & x0 & i & k & Hride).
  rewrite (rides_trip_of _ _ _ _ _ _ _ _ _ Hride) in Hof. injection Hof as <-. cbn.
  exists e0. split; [|reflexivity].
  apply ritinerary_legs in Hit. rewrite Forall_forall in Hit.
  assert ((e0, x0) ∈ ride_pairs rides0) as Hpair.
  { apply (list_elem_of_fmap_2 (fun r => (r.1.2, r.2))) in Hr. exact Hr. }
  exact (proj2 (before_in_elem _ _ _ (rleg_order _ _ _ (Hit _ Hpair)))).
Qed.

Lemma excluded_disabled p t line :
  line ∈ getExceptLines p -> line_uid line = line_uid (trip_line t) -> parameters_trip_enabled p t = false.
Proof.
  intros Hin Heq. apply not_true_iff_false. unfold parameters_trip_enabled. cbv zeta.
  rewrite !forbid_in_spec. intros ((((_ & _) & Hlines) & _) & _). specialize (Hlines line Hin).
  unfold line_eqb in Hlines. rewrite Heq, Nat.eqb_refl in Hlines. done.
Qed.

(** ** The answer with the lines excluded *)

Section Search.
Context {geo : GeoFilter} {C : Type} `{ScenarioConnectionCacheLaws C}.
Context (srv : Server) (known : list Scenario) (stop : Node -> Prop)
  (Hstop : forall m n, stop m -> stop n -> node_uid m = node_uid n -> node_uuid m = node_uuid n).
Notation td := (transitData srv).

(** The steps of an answer board no line that its parameters exclude. *)
Lemma answer_excludes p o d access egress disabled arrival st times margin s time a eg res rides :
  network_ok srv p known stop ->
  ends_read srv p known (Some o) (Some d) access egress disabled ->
  let c := pass_back (after_reset srv p (Some o) (Some d) access egress disabled) arrival st times in
  reverse_journey p c td stop (rwindow p c margin) s time a eg res rides ->
  forall t line, t ∈ boarded_trips (res_steps res) -> line ∈ getExceptLines p ->
  line_uid line <> line_uid (trip_line t).
Proof using Type.
  intros Hnet Hread c Hj t line Ht Hline Heq.
  destruct (journey_boards _ _ _ _ _ _ _ _ _ _ _ _ Hj Ht) as (e & He & <-).
  apply list_elem_of_filter in He as [(_ & _ & Hdisabled & _) He].
  apply (network_members srv p known stop Hnet) in He as [He Hen].
  unfold isTripDisabled in Hdisabled. apply bool_decide_eq_false in Hdisabled. apply Hdisabled.
  cbn. apply (er_disabled _ _ _ _ _ _ _ _ Hread). exists (getTrip e). split_and!; [|reflexivity|].
  - pose proof (so_data _ _ _ (nw_server _ _ _ _ Hnet)) as Hwf.
    rewrite (computeConnections_spec td _ Hwf). cbn. apply list_elem_of_filter. split; [exact Hen|].
    pose proof (wf_trips _ Hwf) as Htrips. rewrite Forall_forall in Htrips. exact (Htrips e He).
  - exact (excluded_disabled p (getTrip e) line Hline Heq).
Qed.

(** Parameters that differ only in what a query may ride, and for how long. *)
Record same_query (q r : RouteParameters) : Prop := {
  sq_origin : getOrigin r = getOrigin q;
  sq_destination : getDestination r = getDestination q;
  sq_scenario : getScenario (route_common r) = getScenario (route_common q);
  sq_time : getTimeOfTrip (route_common r) = getTimeOfTrip (route_common q);
  sq_wait : getMinWaitingTimeSeconds (route_common r) = getMinWaitingTimeSeconds (route_common q);
  sq_access : getMaxAccessWalkingTravelTimeSeconds (route_common r) =
    getMaxAccessWalkingTravelTimeSeconds (route_common q);
  sq_egress : getMaxEgressWalkingTravelTimeSeconds (route_common r) =
    getMaxEgressWalkingTravelTimeSeconds (route_common q);
  sq_transfer : getMaxTransferWalkingTravelTimeSeconds (route_common r) =
    getMaxTransferWalkingTravelTimeSeconds (route_common q);
  sq_first : getMaxFirstWaitingTimeSeconds (route_common r) = getMaxFirstWaitingTimeSeconds (route_common q);
  sq_forward : isForwardCalculation (route_common r) = isForwardCalculation (route_common q)
}.

Lemma excluding_same q maxTravelTime excluded :
  same_query q (excluding q (alternativeParameters q maxTravelTime) excluded).
Proof using Type. split; reflexivity. Qed.

Lemma same_network q r :
  same_query q r -> network_ok srv (route_common q) known stop -> network_ok srv (route_common r) known stop.
Proof using Type.
  intros Hsame [[Hwf Hconns Hnd Hknown] Hback Htrips Hf Hr Hw].
  split; try assumption; [split; try assumption|].
  - eapply Forall_impl; [exact Hconns|]. intros conn [H1 H2 H3 H4 H5 H6 (f & Hf1 & Hf2 & Hf3)].
    split; try assumption.
    + unfold minWaiting. rewrite (sq_wait _ _ Hsame). exact H3.
    + exists f. rewrite (sq_transfer _ _ Hsame). done.
  - rewrite (sq_scenario _ _ Hsame). exact Hknown.
  - eapply Forall_impl; [exact Hback|]. intros conn [H1 H2 (f & Hf1 & Hf2 & Hf3) H4].
    split; try assumption. exists f. rewrite (sq_transfer _ _ Hsame). done.
Qed.

Lemma same_reads q r :
  same_query q r ->
  access_read srv (route_common r) (getOrigin r) = access_read srv (route_common q) (getOrigin q) /\
  egress_read srv (route_common r) (getDestination r) = egress_read srv (route_common q) (getDestination q).
Proof using Type.
  intros Hsame. unfold access_read, egress_read.
  rewrite (sq_access _ _ Hsame), (sq_egress _ _ Hsame), (sq_origin _ _ Hsame), (sq_destination _ _ Hsame). done.
Qed.

Lemma same_ends q r :
  same_query q r ->
  access_of srv (route_common r) (getOrigin r) = access_of srv (route_common q) (getOrigin q) /\
  egress_of srv (route_common r) (getDestination r) = egress_of srv (route_common q) (getDestination q).
Proof using Type.
  intros Hsame. unfold access_of, egress_of. by destruct (same_reads q r Hsame) as [-> ->].
Qed.

Lemma same_ends_ok q r :
  same_query q r ->
  ends_ok srv (route_common q) (Some (getOrigin q)) (Some (getDestination q)) ->
  ends_ok srv (route_common r) (Some (getOrigin r)) (Some (getDestination r)).
Proof using Type.
  intros Hsame [H1 H2 H3 H4]. destruct (same_ends q r Hsame) as [Ha He]. destruct (same_reads q r Hsame) as [Har Her].
  split; intros pt [= <-]; rewrite ?Ha, ?He, ?Har, ?Her; auto.
Qed.

Lemma same_route_ok q r w c c' cache cache' :
  same_query q r -> route_ok srv known stop q w c cache -> odTripGlob c' = None -> cache_valid td known cache' ->
  route_ok srv known stop r w c' cache'.
Proof using Type.
  intros Hsame [Hnet _ _ Hends Hnda Hnde Hw Hfirst Htime] Hod Hcache.
  destruct (same_ends q r Hsame) as [Ha He]. split; try assumption.
  - exact (same_network q r Hsame Hnet).
  - exact (same_ends_ok q r Hsame Hends).
  - rewrite Ha. exact Hnda.
  - rewrite He. exact Hnde.
  - eapply Forall_impl; [exact Hw|]. intros conn Hconn. unfold minWaiting. rewrite (sq_wait _ _ Hsame). exact Hconn.
  - rewrite (sq_first _ _ Hsame). exact Hfirst.
  - rewrite (sq_time _ _ Hsame). exact Htime.
Qed.

(** A reset that keeps the paths of a query returns. *)
Lemma kept_reset q w c cache :
  route_ok srv known stop q w c cache -> paths_of srv q c ->
  exists c1 cache1 access egress disabled,
    reset srv c (route_common q) (Some (getOrigin q)) (Some (getDestination q)) false true cache = Ok (c1, cache1) /\
    ends_read srv (route_common q) known (Some (getOrigin q)) (Some (getDestination q)) access egress disabled /\
    c1 = after_reset srv (route_common q) (Some (getOrigin q)) (Some (getDestination q)) access egress disabled /\
    cache_valid td known cache1 /\ same_paths c c1.
Proof using H0.
  intros Hq Hc. rewrite (reset_kept_paths srv c c q cache Hc (ro_no_trip _ _ _ _ _ _ _ Hq)).
  destruct Hq as [Hnet Hod Hcache Hends _ _ _ _ _]. destruct Hc as [_ Ha He Hna Hne].
  destruct (reset srv c (route_common q) (Some (getOrigin q)) (Some (getDestination q)) true true cache)
    as [[c1 cache1]|e] eqn:Hreset.
  - destruct (reset_returns srv (route_common q) known c _ _ cache c1 cache1 Hod (nw_server _ _ _ _ Hnet) Hcache Hends Hreset)
      as (access & egress & disabled & Hread & -> & Hvalid).
    exists (after_reset srv (route_common q) (Some (getOrigin q)) (Some (getDestination q)) access egress disabled), cache1,
      access, egress, disabled. split_and!; try done; split; cbn; congruence.
  - destruct (reset_spec srv (route_common q) c _ _ cache Hod Hends) as (access & egress & _ & _ & Heq).
    rewrite Heq in Hreset. cbn in Hreset. rewrite !bool_decide_eq_false_2 in Hreset by congruence. cbn in Hreset.
    destruct (resetFilters srv (route_common q) cache) as [[cs disabled] cache']. done.
Qed.

(** What holds of a route that avoids the lines [excluded]: it is the answer of a new
    calculator to the query with the limit and these lines excluded, it is within the
    limit, and it boards no line that is excluded here or in the request. *)
Record avoids (parameters : RouteParameters) (maxTravelTime : Z) (excluded : list Line)
    (r : SingleCalculationResult) : Prop := {
  av_answer : exists cache c' cache', cache_valid td known cache /\
    calculateSingle srv Calculator_new (excluding parameters (alternativeParameters parameters maxTravelTime) excluded)
      true true cache = Ok (Some r, c', cache');
  av_limit : res_arrivalTime r - getTimeOfTrip (route_common parameters) <= maxTravelTime;
  av_lines : forall t line, t ∈ boarded_trips (res_steps r) ->
    line ∈ getExceptLines (route_common parameters) ++ excluded -> line_uid line <> line_uid (trip_line t)
}.

(** A calculation of the search. *)
Lemma kept_answer parameters maxTravelTime excluded w c cache :
  let q := excluding parameters (alternativeParameters parameters maxTravelTime) excluded in
  route_ok srv known stop q w c cache -> isForwardCalculation (route_common q) = true -> paths_of srv q c ->
  match calculateSingle srv c q false true cache with
  | Ok (Some r, c', cache') => cache_valid td known cache' /\ same_paths c c' /\
      avoids parameters maxTravelTime excluded r
  | Ok (None, _, _) => False
  | Throw (NoRoutingFound _) => cache_valid td known (after_exception srv c q cache).2 /\
      same_paths c (after_exception srv c q cache).1
  | Throw _ => False
  end.
Proof using All.
  intros q Hq Hforward Hc.
  destruct (kept_reset q w c cache Hq Hc) as (c1 & cache1 & access & egress & disabled & Hreset & Hread & Hc1 & Hvalid & Hsame).
  pose proof (reset_kept_paths srv c c q cache Hc (ro_no_trip _ _ _ _ _ _ _ Hq)) as Hkept.
  rewrite Hreset in Hkept. symmetry in Hkept.
  pose proof Hq as [Hnet Hod Hcache Hends Hnda Hnde Hw Hfirst Htime].
  pose proof (forward_answer srv known stop Hstop q c1 access egress disabled Hread Hc1 Hnet Hforward Htime Hfirst
                Hnda Hnde w Hw c cache cache1 Hkept) as Hans.
  rewrite <- (calculateSingle_kept_paths srv c c q cache Hc Hod) in Hans.
  destruct (calculateSingle srv c q false true cache) as [[[[r|] c'] cache']|e] eqn:Hcalc; [|exact Hans|].
  - destruct Hans as (-> & (n & e & x & eg & _ & _ & _ & _ & Hmax & _) & _ & _ & st & times & s & a & eg' & rides & Hj).
    split_and!; [exact Hvalid| |split].
    + destruct (calculateSingle_paths srv c q false true cache _ _ _ Hcalc) as (c2 & Hreset2 & [Hpaths _ _]).
      rewrite Hreset in Hreset2. injection Hreset2 as <-. transitivity c1; assumption.
    + exists cache, c', cache1. split; [exact Hcache|].
      rewrite <- (calculateSingle_kept_paths srv c Calculator_new q cache Hc eq_refl). exact Hcalc.
    + assert (departureTimeSeconds c1 = getTimeOfTrip (route_common q)) as Hdep
        by (rewrite Hc1; apply departure_is; exact Hforward).
      rewrite Hdep in Hmax. exact Hmax.
    + intros t line Ht Hline. subst c1.
      exact (answer_excludes (route_common q) _ _ _ _ _ _ _ _ _ _ _ _ _ _ _ Hnet Hread Hj t line Ht Hline).
  - destruct e; try exact Hans. unfold after_exception. rewrite Hreset. done.
Qed.

(** The first calculation: it leaves the paths of the query, or there is no route. *)
Lemma first_answer parameters w c cache :
  route_ok srv known stop parameters w c cache -> isForwardCalculation (route_common parameters) = true ->
  match calculateSingle srv c parameters true true cache with
  | Ok (Some _, c1, cache1) => cache_valid td known cache1 /\ paths_of srv parameters c1
  | Ok (None, _, _) => False
  | Throw e => is_fault e = false
  end.
Proof using All.
  intros Hq Hforward. pose proof Hq as [Hnet Hod Hcache Hends _ _ _ _ _].
  destruct (reset_spec srv (route_common parameters) c _ _ cache Hod Hends) as (access & egress & _ & _ & Hspec).
  destruct (reset srv c (route_common parameters) (Some (getOrigin parameters)) (Some (getDestination parameters))
              true true cache) as [[c0 cache0]|e] eqn:Hreset.
  - pose proof (route_answer srv known stop Hstop parameters w c cache c0 cache0 Hq Hforward Hreset) as Hans.
    destruct (calculateSingle srv c parameters true true cache) as [[[[r|] c1] cache1]|e] eqn:Hcalc;
      [|exact Hans|destruct e; done].
    destruct Hans as [Hvalid _]. split; [exact Hvalid|].
    destruct (calculateSingle_paths srv c parameters true true cache _ _ _ Hcalc) as (c2 & Hreset2 & [Hpaths _ _]).
    rewrite Hreset in Hreset2. injection Hreset2 as <- <-.
    apply (paths_of_same srv parameters c0 c1 Hpaths). symmetry in Hspec. revert Hspec. cbn.
    case_bool_decide as He; [destruct (bool_decide _); done|]. case_bool_decide as Ha; [done|]. cbn.
    destruct (resetFilters srv (route_common parameters) cache) as [[cs disabled] cache'].
    intros [= <- _]. split; cbn; done.
  - unfold calculateSingle. rewrite Hreset. cbn [mbind result_bind]. symmetry in Hspec. revert Hspec. cbn.
    case_bool_decide; case_bool_decide; cbn;
      [intros [= <-]; reflexivity|intros [= <-]; reflexivity|intros [= <-]; reflexivity|].
    destruct (resetFilters srv (route_common parameters) cache) as [[cs disabled] cache']. done.
Qed.

(** A route found by the search, among those found so far. *)
Definition found_avoiding (parameters : RouteParameters) (maxTravelTime : Z)
    (routes : list SingleCalculationResult) (r : SingleCalculationResult) : Prop :=
  exists excluded, excluded <> [] /\ excluded ⊆ lines_found routes /\ avoids parameters maxTravelTime excluded r.

Lemma found_avoiding_app parameters maxTravelTime routes more r :
  found_avoiding parameters maxTravelTime routes r -> found_avoiding parameters maxTravelTime (routes ++ more) r.
Proof using Type.
  intros (excluded & Hne & Hsub & Hr). exists excluded. split_and!; [exact Hne| |exact Hr].
  unfold lines_found in *. rewrite bind_app. set_solver +Hsub.
Qed.

(** The invariant of the search. *)
Record searching (parameters : RouteParameters) (maxTravelTime : Z) (first : SingleCalculationResult)
    (st : Search * Calculator * C) : Prop := {
  sr_search : search_ok first st.1.1;
  sr_paths : paths_of srv parameters st.1.2;
  sr_cache : cache_valid td known st.2;
  sr_routes : Forall (found_avoiding parameters maxTravelTime (s_alternatives st.1.1)) (tail (s_alternatives st.1.1))
}.

Lemma searching_round parameters w c0 cache0 maxTravelTime first st combination :
  route_ok srv known stop parameters w c0 cache0 -> isForwardCalculation (route_common parameters) = true ->
  searching parameters maxTravelTime first st -> round st combination ->
  exists st', try_combination srv parameters (alternativeParameters parameters maxTravelTime) combination st = Ok st' /\
    searching parameters maxTravelTime first st' /\ s_calculatedCount st'.1.1 = s_calculatedCount st.1.1 + 1.
Proof using All.
  intros Hq Hforward Hst Hr. destruct st as [[s c] cache]. destruct Hst as [Hs Hpaths Hcache Hroutes].
  cbn [fst snd] in *. set (alt := alternativeParameters parameters maxTravelTime).
  pose proof (excluding_same parameters maxTravelTime combination) as Hsame. fold alt in Hsame.
  destruct (same_ends parameters (excluding parameters alt combination) Hsame) as [Ha He].
  assert (paths_of srv (excluding parameters alt combination) c) as Hc
    by (destruct Hpaths; split; congruence).
  pose proof (same_route_ok _ _ w c0 c cache0 cache Hsame Hq (po_trip _ _ _ Hc) Hcache) as Hok.
  pose proof (kept_answer parameters maxTravelTime combination w c cache Hok Hforward Hc) as Hans.
  pose proof (try_combination_cases srv parameters alt first combination s c cache Hs Hr) as Htry.
  fold alt in Hans. cbv zeta in Hans.
  destruct (calculateSingle srv c (excluding parameters alt combination) false true cache)
    as [[[[r|] c'] cache']|e]; [|done|].
  - destruct Hans as (Hvalid & Hp & Hr'). destruct Htry as (s' & -> & Hs' & Hcount & Hcase).
    eexists. split; [reflexivity|]. split; [|cbn; rewrite Hcount; reflexivity].
    split; cbn [fst snd]; [exact Hs'|exact (paths_of_same srv parameters c c' Hp Hpaths)|exact Hvalid|].
    destruct Hcase as [->|Happ]; [exact Hroutes|]. cbn [count_calculation s_alternatives]. rewrite Happ.
    destruct (so_first _ _ Hs) as (rest & Hrest & _). rewrite Hrest in Hroutes |- *. cbn [tail app] in *.
    apply Forall_app. split.
    + eapply Forall_impl; [exact Hroutes|]. intros a. apply (found_avoiding_app _ _ (first :: rest)).
    + repeat constructor. apply (found_avoiding_app _ _ (first :: rest)). exists combination.
      pose proof (co_lines _ _ _ (so_combinations _ _ Hs)) as Hlines. rewrite Forall_forall in Hlines.
      destruct (Hlines combination (proj2 Hr)) as [Hne Hsub]. rewrite Hrest in Hsub. done.
  - destruct e; try done. rewrite Htry. destruct Hans as [Hvalid Hp].
    eexists. split; [reflexivity|]. split; [|reflexivity].
    split; cbn [fst snd]; [exact (add_failed_ok first s combination Hs (proj1 Hr))
      |exact (paths_of_same srv parameters c _ Hp Hpaths)|exact Hvalid|exact Hroutes].
Qed.

(** C26: The alternatives of a route by departure time (before 32:00), without a limit on
    the first wait and with one minimal waiting time for all connections ([route_ok]):
    the fastest route, then routes that each are the answer to the same query with a limit on the travel time and
    with some lines excluded, lines of the routes found; they board none of the lines
    excluded. The search fails only as the first calculation does, when there is no
    route, or when its travel time leaves no room for the limit; and it leaves the
    cache valid. *)
Theorem alternatives_avoid_lines parameters w c cache :
  route_ok srv known stop parameters w c cache -> isForwardCalculation (route_common parameters) = true ->
  match alternativesRouting srv c parameters cache with
  | Ok (result, _, cache') => cache_valid td known cache' /\
      exists first rest maxTravelTime c1 cache1,
        calculateSingle srv c parameters true true cache = Ok (Some first, c1, cache1) /\
        alternatives_maxTravelTime (route_common parameters) first = Ok maxTravelTime /\
        alternatives result = first :: rest /\
        Forall (found_avoiding parameters maxTravelTime (alternatives result)) rest
  | Throw e =>
      (calculateSingle srv c parameters true true cache = Throw e /\ is_fault e = false) \/
      exists first c1 cache1, calculateSingle srv c parameters true true cache = Ok (Some first, c1, cache1) /\
        alternatives_maxTravelTime (route_common parameters) first = Throw e
  end.
Proof.
  intros Hq Hforward. pose proof (first_answer parameters w c cache Hq Hforward) as Hans.
  unfold alternativesRouting.
  destruct (calculateSingle srv c parameters true true cache) as [[[[first|] c1] cache1]|e] eqn:Hfirst;
    cbn [mbind result_bind]; [|done|left; done].
  destruct Hans as [Hvalid Hpaths].
  destruct (alternatives_maxTravelTime (route_common parameters) first) as [maxTravelTime|e] eqn:Hmax;
    cbn [mbind result_bind]; [|right; exists first, c1, cache1; done].
  destruct (search_start_ok first) as (s & -> & Hs & Hcount & Hroutes). cbn [mbind result_bind].
  pose proof (search_loop_rule srv parameters (alternativeParameters parameters maxTravelTime)
    (searching parameters maxTravelTime first)) as Hloop.
  specialize (Hloop ltac:(intros st comb st' Hst Hr Htry;
    destruct (searching_round parameters w c cache maxTravelTime first st comb Hq Hforward Hst Hr)
      as (st1 & Heq & H1 & H2); rewrite Htry in Heq; injection Heq as <-; done)
    (Z.to_nat getMaxAlternatives) 0%nat (s, c1, cache1)).
  specialize (Hloop ltac:(split; cbn; try assumption; rewrite Hroutes; constructor)
    ltac:(cbn; rewrite Hcount; unfold getMaxAlternatives; lia)).
  destruct (search_loop _ _ _ _ _ _) as [[[s' c'] cache']|e]; cbn [mbind result_bind].
  - destruct Hloop as [Hs' _ Hvalid' Hfound]. cbn [fst snd] in *. split; [exact Hvalid'|].
    destruct (so_first _ _ Hs') as (rest & Hrest & _).
    exists first, rest, maxTravelTime, c1, cache1. cbn [alternatives].
    rewrite Hrest in Hfound |- *. done.
  - destruct Hloop as (st' & comb & Hst' & Hr & Htry).
    destruct (searching_round parameters w c cache maxTravelTime first st' comb Hq Hforward Hst' Hr)
      as (st1 & Heq & _). congruence.
Qed.
End Search.

(** ** On the small timetable *)

Definition demo_search : calc (AlternativesResult * Calculator * AnyScenarioConnectionCache) :=
  alternativesRouting demo_server Calculator_new demo_route (CacheOne CacheOne_new).

(** The fastest route rides trips 1 and 2; without line 2, trip 1 goes to the end. *)
Lemma alternatives_avoid_lines_witness :
  exists result c' cache', demo_search = Ok (result, c', cache') /\
    res_arrivalTime <$> alternatives result = [30840; 31440] /\
    exists maxTravelTime, Forall
      (found_avoiding (C := AnyScenarioConnectionCache) demo_server [demo_scenario] demo_route maxTravelTime
         (alternatives result)) (tail (alternatives result)).
Proof.
  pose proof (alternatives_avoid_lines (C := AnyScenarioConnectionCache) demo_server [demo_scenario] stop_known
    stop_known_uuid demo_route 180 Calculator_new (CacheOne CacheOne_new) demo_route_ok eq_refl) as Hans.
  fold demo_search in Hans.
  assert (exists result c' cache', demo_search = Ok (result, c', cache') /\
    res_arrivalTime <$> alternatives result = [30840; 31440])
    as (result & c' & cache' & Heq & Harr) by (eexists _, _, _; split; vm_compute; reflexivity).
  rewrite Heq in Hans. destruct Hans as (_ & first & rest & maxTravelTime & c1 & cache1 & _ & _ & Hrest & Hall).
  exists result, c', cache'. split; [exact Heq|]. split; [exact Harr|].
  exists maxTravelTime. rewrite Hrest at 2. exact Hall.
Defined.
