(* ===== verification/QueryTotal.v ===== *)
(** * Every query is answered

    Whatever the waiting times of the connections, a query that is asked of loaded data
    gives a result or a reason why there is none: it makes no access out of range, reads
    no empty optional, fails no assertion and leaves no loop running. [QueryCorrect]
    says more of the answer and asks for more. *)

From Stdlib Require Import ZArith Lia Sorted.
From stdpp Require Import base list gmap strings.
From S2P Require Import Prelude.
From S2P Require Import Data.
From S2P Require Import RoutingResult.
From S2P Require Import ConnectionSet.
From S2P Require Import ConnectionCache.
From S2P Require Import TransitData.
From S2P Require Import Calculator.
From S2P Require Import ForwardCalculation.
From S2P Require Import ForwardCorrect.
From S2P Require Import ResetCorrect.
From S2P Require Import ForwardJourney.
From S2P Require Import ReverseCalculation.
From S2P Require Import ReverseCorrect.
From S2P Require Import OptimizeJourney.
From S2P Require Import OptimizeCorrect.
From S2P Require Import JourneyAccounts.
From S2P Require Import ReverseJourney.
From S2P Require Import Calculation.
From S2P Require Import CalculationCorrect.
From S2P Require Import BothWays.
From S2P Require Import QuerySetup.
From S2P Require Import QueryCorrect.
From S2P Require Import AccessibilityCorrect.
From S2P Require Import Parameters.
From S2P Require Import Alternatives.
From S2P Require Import AlternativesCorrect.

Local Open Scope Z_scope.

(** ** A journey lasts *)

Lemma slack_exists p (l : list Connection) : exists slack, Forall (fun conn => minWaiting p conn <= slack) l.
Proof.
  induction l as [|conn l [slack IH]]; [exists 0; constructor|].
  exists (Z.max slack (minWaiting p conn)). constructor; [lia|].
  eapply Forall_impl; [exact IH|]. cbn. intros; lia.
Qed.

(** A journey ends after the departure of its first connection. *)
Lemma ordered_lasts trip_forward trip_reverse stop rides e t :
  Forall (step_valid trip_forward trip_reverse stop) rides -> ordered rides ->
  first_boarding rides = Some e -> last_exit_time rides = Some t -> getDepartureTime e <= t.
Proof.
  intros Hv Hord Hfirst Hlast.
  assert (Forall (fun r => getDepartureTime r.1.2 <= getArrivalTime r.2) (omap ride_of rides)) as Hlasts.
  { apply Forall_forall. intros [[trip e0] x0] Hr. apply list_elem_of_omap in Hr as (j & Hj & Hr).
    rewrite Forall_forall in Hv.
    destruct (step_valid_ride _ _ _ _ _ _ _ (Hv j Hj) Hr) as (a & b & Hride).
    exact (ride_lasts _ _ _ _ _ _ _ _ _ Hride). }
  unfold ordered, first_boarding, last_exit_time in *. clear Hv.
  destruct (omap ride_of rides) as [|r l]; [discriminate|]. injection Hfirst as <-.
  apply Forall_cons in Hlasts as [Hr Hl]. apply StronglySorted_inv in Hord as [_ Hall].
  destruct l as [|r' l' _] using rev_ind; [injection Hlast as <-; exact Hr|].
  rewrite app_comm_cons, last_snoc in Hlast. injection Hlast as <-.
  apply Forall_app in Hall as [_ Hall]. apply Forall_app in Hl as [_ Hl].
  apply Forall_cons in Hall as [Hall _], Hl as [Hl _]. unfold ride_before in Hall. lia.
Qed.

(** ** The limit on the travel time of the alternatives *)

(** Rounding to binary32 changes a number by less than one part in 2^23. *)
Lemma float_of_int_near z : 1024 * Z.abs (float_of_int z) <= 1025 * Z.abs z.
Proof.
  unfold float_of_int. destruct (Z.leb_spec (Z.abs z) 16777216) as [|Hz]; [lia|]. cbv zeta.
  set (a := Z.abs z) in *. set (k := Z.log2 a - 23). set (q := Z.shiftr a k).
  match goal with |- context [Z.shiftl ?x k] => lazymatch x with q => fail | _ => set (q' := x) end end.
  assert (24 <= Z.log2 a) as Hlog by (apply (Z.log2_le_mono (2 ^ 24)); lia).
  assert (0 <= k) as Hk by lia.
  assert (0 <= q' <= q + 1) as Hq'.
  { assert (0 <= q) by (apply Z.shiftr_nonneg; lia). unfold q'. destruct (_ || _); lia. }
  rewrite Z.abs_mul, Z.shiftl_mul_pow2 by lia. rewrite Z.abs_mul, (Z.abs_eq q') by lia.
  assert (0 < 2 ^ k) as Hpow by (apply Z.pow_pos_nonneg; lia). rewrite (Z.abs_eq (2 ^ k)) by lia.
  assert (Z.abs (Z.sgn z) = 1) as -> by lia.
  assert (q * 2 ^ k <= a) as Hqa.
  { unfold q. rewrite Z.shiftr_div_pow2 by lia. pose proof (Z.mul_div_le a (2 ^ k) Hpow). lia. }
  assert (2 ^ 23 * 2 ^ k <= a) as Hka.
  { rewrite <- Z.pow_add_r by lia. replace (23 + k) with (Z.log2 a) by lia. apply Z.log2_spec. lia. }
  nia.
Qed.

Lemma ratio_time_ok total extra :
  Z.abs total <= 2 ^ 27 -> Z.abs extra <= 2 ^ 27 -> exists t, ratio_time total extra = Ok t.
Proof.
  intros Ht He. unfold ratio_time. cbv zeta.
  pose proof (float_of_int_near total). pose proof (float_of_int_near extra).
  pose proof (float_of_int_near (7 * float_of_int total)).
  set (f1 := float_of_int (7 * float_of_int total)) in *. set (f2 := float_of_int extra) in *.
  pose proof (float_of_int_near (f1 + 4 * f2)). set (f3 := float_of_int (f1 + 4 * f2)) in *.
  assert (Z.abs f3 <= 4 * 2000000000) as Hf3 by lia.
  assert (- 2000000000 <= Z.quot f3 4 <= 2000000000) as Hquot.
  { pose proof (Z.quot_rem' f3 4). pose proof (Z.rem_bound_abs f3 4). lia. }
  unfold MIN_INT, MAX_INT.
  destruct (Z.leb_spec (-2147483648) (Z.quot f3 4)); [|lia].
  destruct (Z.leb_spec (Z.quot f3 4) 2147483647); [|lia]. eexists. reflexivity.
Qed.

Section Total.
Context {geo : GeoFilter} {C : Type} `{ScenarioConnectionCacheLaws C}.
Context (srv : Server) (known : list Scenario) (stop : Node -> Prop)
  (Hstop : forall m n, stop m -> stop n -> node_uid m = node_uid n -> node_uuid m = node_uuid n).
Notation td := (transitData srv).

(** A leg of the network: from the connection [a] to the connection [b] of a trip. *)
Definition network_leg (leg : Leg) : Prop :=
  exists conn a b, conn ∈ trip_forward td (getTrip conn) /\ (a <= b < length (trip_forward td (getTrip conn)))%nat /\
    leg = mkLeg (getTrip conn) (Z.of_nat a) (Z.of_nat b).

(** The times of a result: it departs from time 0 on, and is there by [limit]. Its legs
    are those of trips of the network. *)
Record timed (limit : Z) (res : SingleCalculationResult) : Prop := {
  tm_departure : 0 <= res_departureTime res;
  tm_order : res_departureTime res <= res_arrivalTime res;
  tm_arrival : res_arrivalTime res <= limit;
  tm_travel : res_totalTravelTime res = res_arrivalTime res - res_departureTime res;
  tm_legs : Forall network_leg (res_legs res)
}.

Lemma journey_legs p c' L s time a eg res rides :
  reverse_journey p c' td stop L s time a eg res rides -> Forall network_leg (res_legs res).
Proof using Type.
  intros [Hvalid _ _ _ _ (rides0 & _ & Hown & _ & Hwithin) Hbal _]. rewrite (bl_legs _ _ _ _ _ Hbal).
  apply Forall_forall. intros leg Hleg. apply list_elem_of_omap in Hleg as (j & Hj & Hleg).
  unfold ride_leg in Hleg. destruct (getFinalEnterConnection j) as [e|] eqn:He; [|discriminate].
  destruct (getFinalExitConnection j) as [x|] eqn:Hx; [|discriminate].
  destruct (getFinalTrip j) as [t|] eqn:Ht; [|discriminate]. injection Hleg as <-.
  assert (ride_of j = Some (t, e, x)) as Hride by (unfold ride_of; by rewrite Ht, He, Hx).
  destruct (Hwithin (t, e, x)) as (r & Hr & [Htrip _ _ _ _]); [apply list_elem_of_omap; eauto|]. cbn in Htrip.
  apply list_elem_of_omap in Hr as (j0 & Hj0 & Hr). rewrite Forall_forall in Hown, Hvalid.
  destruct (Hown j0 Hj0) as (e0 & x0 & a0 & b0 & Hj0'). rewrite (rides_trip_of _ _ _ _ _ _ _ _ _ Hj0') in Hr.
  injection Hr as <-. cbn in Htrip. subst t.
  destruct (step_valid_ride _ _ _ _ _ _ _ (Hvalid j Hj) Hride) as (a1 & b1 & [_ _ _ Hok Ha Hb Hle _ _]).
  exists e0, a1, b1. split; [by eapply list_elem_of_lookup_2, (rt_a _ _ _ _ _ _ _ _ _ Hj0')|].
  split; [split; [done|by eapply lookup_lt_Some]|].
  rewrite (tk_sequence _ _ _ _ Hok _ _ Ha), (tk_sequence _ _ _ _ Hok _ _ Hb). f_equal; lia.
Qed.

(** The calculation back. *)
Lemma back_total p c' :
  rquery_ok p c' -> access_end_ok p c' -> trips_ok c' td stop -> egress_end_ok c' ->
  (forall n eg, nodesEgress c' !! n = Some eg -> 0 <= ntd_time eg) ->
  match calculateSingleReverse srv p c' with
  | Ok (res, _) => timed (arrivalTimeSeconds c') res
  | Throw e => is_fault e = false
  end.
Proof using Hstop.
  intros Hq Hao Htrips Hend Hegress.
  destruct (slack_exists p (getReverseConnections (connectionSet c'))) as [slack Hslack].
  destruct (reverse_origin_run p c' slack Hq Hao Hslack) as (st & seen & best & a & [_ _ Hrun Hbest _]).
  pose proof (reverse_journey_run p c' td stop Hstop Htrips Hend) as Hmade.
  unfold calculateSingleReverse. rewrite Hrun in *.
  destruct (rev_reachable st =? 0); [reflexivity|]. cbn [mbind result_bind].
  destruct a as [g|]; cbn [option_map from_option fst fmap option_fmap snd]; [|reflexivity].
  destruct (Hmade best (ntd_node g) _ _ Hq Hao eq_refl)
    as (s & e & a & res & rides & eg & _ & He & _ & Hw & _ & Ha & Ht & Hres & Heg & Hj).
  rewrite Hres. cbn [mbind result_bind].
  pose proof (journey_legs _ _ _ _ _ _ _ _ _ Hj) as Hlegs.
  destruct Hj as [Hv Hrides Hfirst _ Hord _ [Hdep Harr Htravel _ _ _ _ _ _ _ _ _] Hlimit].
  destruct (Hbest g eq_refl) as [_ (_ & _ & _ & _ & _ & _ & _ & Hpos & _)].
  destruct (ao_nodes _ _ Hao _ _ Ha) as [Hpa _]. pose proof (Hegress _ _ Heg).
  split; [lia| |exact Hlimit|exact Htravel|exact Hlegs].
  rewrite last_arrival_rides in Harr by exact Hrides.
  destruct (last_exit_time rides) as [t|] eqn:Hlast; [|discriminate]. injection Harr as Harr. cbn in Harr.
  rewrite He in Hfirst. pose proof (ordered_lasts _ _ _ _ _ _ Hv Hord Hfirst Hlast). lia.
Qed.

(** What a query is asked of. *)
Record request_ok (parameters : RouteParameters) (c : Calculator) (cache : C) : Prop := {
  rq_network : network_ok srv (route_common parameters) known stop;
  rq_no_trip : odTripGlob c = None;
  rq_cache : cache_valid td known cache;
  rq_ends : ends_ok srv (route_common parameters) (Some (getOrigin parameters)) (Some (getDestination parameters));
  rq_access : NoDup (ntd_node <$> access_of srv (route_common parameters) (getOrigin parameters));
  rq_egress : NoDup (ntd_node <$> egress_of srv (route_common parameters) (getDestination parameters));
  rq_time : 0 <= getTimeOfTrip (route_common parameters) < 32 * 3600;
  rq_arrivals : Forall (fun conn => getArrivalTime conn <= 2 ^ 26) (connections td)
}.

(** A bound on the times of the results: that of the connections, and the footpath of
    the egress. *)
Definition time_limit : Z := 2 ^ 27.

(** An arrival at the destination. *)
Lemma egress_limit q access egress disabled x n eg :
  let p := route_common q in
  let c1 := after_reset srv p (Some (getOrigin q)) (Some (getDestination q)) access egress disabled in
  network_ok srv p known stop ->
  ends_read srv p known (Some (getOrigin q)) (Some (getDestination q)) access egress disabled ->
  Forall (fun conn => getArrivalTime conn <= 2 ^ 26) (connections td) ->
  x ∈ getForwardConnections (connectionSet c1) -> nodesEgress c1 !! n = Some eg ->
  getArrivalTime x + ntd_time eg <= time_limit.
Proof using Type.
  intros p c1 Hnet Hread Harrivals Hx Heg.
  apply (network_members srv p known stop Hnet) in Hx as [Hx _].
  rewrite Forall_forall in Harrivals. specialize (Harrivals x Hx).
  destruct (en_nodes _ _ _ _ _ (er_egress _ _ _ _ _ _ _ _ Hread _ eq_refl) _ _ Heg) as (_ & f & Hf & _ & Hft).
  pose proof (ok_egress _ _ _ _ (er_ends _ _ _ _ _ _ _ _ Hread) _ eq_refl) as Hfo. rewrite Forall_forall in Hfo.
  destruct (Hfo f Hf) as [_ Hft']. unfold time_limit. lia.
Qed.

(** After the reset, by departure time. *)
Lemma forward_total q c cache c1 cache1 :
  request_ok q c cache -> isForwardCalculation (route_common q) = true ->
  reset srv c (route_common q) (Some (getOrigin q)) (Some (getDestination q)) true true cache = Ok (c1, cache1) ->
  match calculateSingle srv c q true true cache with
  | Ok (Some res, _, cache') => cache_valid td known cache' /\ timed time_limit res
  | Ok (None, _, _) => False
  | Throw e => is_fault e = false
  end.
Proof using All.
  intros [Hnet Hod Hcache Hends Hnda Hnde Htime Harrivals] Hforward Hreset. set (p := route_common q) in *.
  destruct (reset_returns srv p known c _ _ cache c1 cache1 Hod (nw_server _ _ _ _ Hnet) Hcache Hends Hreset)
    as (access & egress & disabled & Hread & Hc1 & Hvalid).
  pose proof (after_query_ok _ _ _ _ _ _ _ _ Hread _ eq_refl Hforward Htime) as Hq.
  pose proof (after_egress_ok _ _ _ _ _ _ _ _ Hread _ eq_refl) as Heo. rewrite <- Hc1 in Hq, Heo.
  assert (departureTimeSeconds c1 = getTimeOfTrip p) as Hdep by (rewrite Hc1; by apply departure_is).
  unfold calculateSingle. fold p. rewrite Hreset. cbn [mbind result_bind].
  rewrite Hdep, Hforward. destruct (Z.gtb_spec (getTimeOfTrip p) (-1)); [|lia]. cbn [andb].
  destruct (forwardCalculation_scan p c1 Hq Heo)
    as (st & seen & late & Hwin & Hscan & HS & _ & _ & best & eg & Hbest & Hrun).
  rewrite Hrun. destruct (fwd_reachable st =? 0); [reflexivity|]. cbn [mbind result_bind].
  destruct (best_egress_sound p c1 (fwd_egress st) Heo) as (best' & eg' & Hbest' & Hin & _).
  { intros n s Hn. destruct (sd_exits _ _ _ _ HS n s Hn) as (e & x & f & -> & _). by exists x. }
  rewrite Hbest in Hbest'. injection Hbest' as <- <-.
  destruct eg as [g|]; cbn [option_map from_option fst fmap option_fmap snd];
    [|destruct (Z.ltb_spec MAX_INT MAX_INT); [lia|]; reflexivity].
  destruct (Hin g eq_refl) as (s & x & eg & Hs & Hx & Heg & Hgn & Ht & Hpos & _ & Hmax).
  destruct (Z.ltb_spec best MAX_INT); [|lia].
  destruct (sd_exits _ _ _ _ HS _ _ Hs) as (e & x0 & f & -> & Hleg & _). cbn in Hx. injection Hx as ->.
  assert (best <= time_limit) as Hlimit.
  { rewrite Ht. destruct (before_in_elem _ _ _ (leg_order _ _ _ Hleg)) as [_ Hxin]. rewrite Hc1 in Hwin, Heg.
    apply (egress_limit q access egress disabled x (ntd_node g) eg Hnet Hread Harrivals); [|exact Heg].
    assert (x ∈ window p (after_reset srv p (Some (getOrigin q)) (Some (getDestination q)) access egress disabled))
      as Hxw by (rewrite Hwin; set_solver).
    by apply list_elem_of_filter in Hxw as [_ Hxw]. }
  assert (length (fwd_trips st) = (Trip_getMaxUid srv + 1)%nat) as Hlen.
  { rewrite (sd_trips_len _ _ _ _ HS), Hc1. apply length_replicate. }
  assert (Forall overlay_ok (fwd_trips st)) as Hover.
  { eapply scan_overlays; [exact Hscan|]. rewrite Hc1. cbn. apply Forall_forall.
    intros q0 [-> _]%elem_of_replicate. split; [done|by intros [? ?]]. }
  assert (0 <= best <= MAX_INT) as Hrange by lia.
  destruct (setup_pass srv p known stop Hnet _ _ access egress disabled Hread Hforward Htime Hnda Hnde best st
              Hlen Hover Hrange) as (times & [Hpass Hrq Hao Htrips Hend _]).
  rewrite <- Hc1 in *. rewrite Hpass. cbn [mbind result_bind].
  pose proof (back_total p (pass_back c1 best st times) Hrq Hao Htrips Hend) as Htotal.
  specialize (Htotal ltac:(intros n eg' Heg'; by destruct (eo_nodes _ _ Heo n eg' Heg') as ((? & _) & _))).
  destruct (calculateSingleReverse srv p (pass_back c1 best st times)) as [[res c4]|e0]; cbn [mbind result_bind];
    [|exact Htotal].
  split; [exact Hvalid|]. destruct Htotal as [T1 T2 T3 T4 T5]. cbn in T3. split; [lia..|exact T5].
Qed.

(** After the reset, by arrival time. *)
Lemma reverse_total q c cache c0 cache1 :
  request_ok q c cache -> isForwardCalculation (route_common q) = false ->
  reset srv c (route_common q) (Some (getOrigin q)) (Some (getDestination q)) true true cache = Ok (c0, cache1) ->
  match calculateSingle srv c q true true cache with
  | Ok (Some res, _, cache') => cache_valid td known cache' /\ timed time_limit res
  | Ok (None, _, _) => False
  | Throw e => is_fault e = false
  end.
Proof using Hstop H0.
  intros [Hnet Hod Hcache Hends Hnda Hnde Htime Harrivals] Hback Hreset. set (p := route_common q) in *.
  destruct (reset_returns srv p known c _ _ cache c0 cache1 Hod (nw_server _ _ _ _ Hnet) Hcache Hends Hreset)
    as (access & egress & disabled & Hread & -> & Hvalid).
  assert (0 <= getTimeOfTrip p <= MAX_INT) as Hrange by (unfold MAX_INT; lia).
  destruct (reverse_query_ready srv p known stop Hnet _ _ access egress disabled Hread Hback Hrange Hnde)
    as (trips & [Hprep Hq Htrips Hend Hao Hdep Harr _]).
  unfold calculateSingle. fold p. rewrite Hreset. cbn [mbind result_bind]. rewrite Hback, andb_false_r.
  match goal with |- context [arrivalTimeSeconds ?c >? -1] =>
    replace (arrivalTimeSeconds c) with (getTimeOfTrip p) by (symmetry; by apply arrival_is) end.
  destruct (Z.gtb_spec (getTimeOfTrip p) (-1)); [|lia]. rewrite Hprep. cbn [mbind result_bind].
  pose proof (after_egress_ok _ _ _ _ _ _ _ _ Hread _ eq_refl) as Heo.
  pose proof (back_total p _ Hq (Hao _ eq_refl) Htrips Hend) as Htotal. rewrite Harr in Htotal.
  specialize (Htotal ltac:(intros n eg Heg; by destruct (eo_nodes _ _ Heo n eg Heg) as ((? & _) & _))).
  destruct (calculateSingleReverse srv p _) as [[res c4]|e0]; cbn [mbind result_bind]; [|exact Htotal].
  split; [exact Hvalid|]. destruct Htotal as [T1 T2 T3 T4 T5]. unfold time_limit. split; [lia..|exact T5].
Qed.

(** A reset either reports an end without access or leaves the paths of the query. *)
Lemma reset_total q c cache :
  request_ok q c cache ->
  match reset srv c (route_common q) (Some (getOrigin q)) (Some (getDestination q)) true true cache with
  | Ok (c1, _) => paths_of srv q c1
  | Throw e => is_fault e = false
  end.
Proof using Type.
  intros [Hnet Hod Hcache Hends _ _ _ _].
  destruct (reset_spec srv (route_common q) c _ _ cache Hod Hends) as (access & egress & _ & _ & ->).
  cbn. case_bool_decide as He; case_bool_decide as Ha; cbn; try reflexivity.
  destruct (resetFilters srv (route_common q) cache) as [[cs disabled] cache']. split; cbn; done.
Qed.

(** Every calculation of a new query ends with a result or a reason. *)
Lemma single_total q c cache :
  request_ok q c cache ->
  match calculateSingle srv c q true true cache with
  | Ok (Some res, c1, cache') => cache_valid td known cache' /\ timed time_limit res /\ paths_of srv q c1
  | Ok (None, _, _) => False
  | Throw e => is_fault e = false
  end.
Proof using Hstop H0.
  intros Hq. pose proof (reset_total q c cache Hq) as Hreset.
  destruct (reset srv c (route_common q) (Some (getOrigin q)) (Some (getDestination q)) true true cache)
    as [[c1 cache1]|e] eqn:Hrun.
  - assert (match calculateSingle srv c q true true cache with
            | Ok (Some res, _, cache') => cache_valid td known cache' /\ timed time_limit res
            | Ok (None, _, _) => False
            | Throw e => is_fault e = false
            end) as Hans.
    { destruct (isForwardCalculation (route_common q)) eqn:Hforward;
        [exact (forward_total q c cache c1 cache1 Hq Hforward Hrun)|exact (reverse_total q c cache c1 cache1 Hq Hforward Hrun)]. }
    destruct (calculateSingle srv c q true true cache) as [[[[res|] c2] cache2]|e] eqn:Hcalc; try exact Hans.
    destruct Hans as [Hvalid Htimed]. split_and!; [exact Hvalid|exact Htimed|].
    destruct (calculateSingle_paths srv c q true true cache _ _ _ Hcalc) as (c3 & Hreset3 & Hpaths).
    rewrite Hrun in Hreset3. injection Hreset3 as <- <-. exact (paths_of_same srv q c1 c2 (rs_paths _ _ Hpaths) Hreset).
  - unfold calculateSingle. rewrite Hrun. exact Hreset.
Qed.

Lemma same_request_ok q r c c' cache cache' :
  same_query q r -> request_ok q c cache -> odTripGlob c' = None -> cache_valid td known cache' ->
  request_ok r c' cache'.
Proof using Type.
  intros Hsame [Hnet _ _ Hends Hnda Hnde Htime Harrivals] Hod Hcache.
  destruct (same_ends srv q r Hsame) as [Ha He]. split; try assumption.
  - exact (same_network srv known stop q r Hsame Hnet).
  - exact (same_ends_ok srv q r Hsame Hends).
  - rewrite Ha. exact Hnda.
  - rewrite He. exact Hnde.
  - rewrite (sq_time _ _ Hsame). exact Htime.
Qed.

(** The same of a calculation that keeps the paths. *)
Lemma kept_total q c cache :
  request_ok q c cache -> paths_of srv q c ->
  match calculateSingle srv c q false true cache with
  | Ok (Some _, c', cache') => cache_valid td known cache' /\ paths_of srv q c'
  | Ok (None, _, _) => False
  | Throw (NoRoutingFound _) => cache_valid td known (after_exception srv c q cache).2 /\
      paths_of srv q (after_exception srv c q cache).1
  | Throw _ => False
  end.
Proof using Hstop H0.
  intros Hq Hc. rewrite (calculateSingle_kept_paths srv c c q cache Hc (rq_no_trip _ _ _ Hq)).
  unfold after_exception. rewrite (reset_kept_paths srv c c q cache Hc (rq_no_trip _ _ _ Hq)).
  pose proof (single_total q c cache Hq) as Hans. pose proof (reset_total q c cache Hq) as Hreset.
  destruct (calculateSingle srv c q true true cache) as [[[[res|] c1] cache1]|e]; [|done|].
  - destruct Hans as (Hvalid & _ & Hp). done.
  - destruct e; try done.
    destruct (reset srv c (route_common q) (Some (getOrigin q)) (Some (getDestination q)) true true cache)
      as [[c1 cache1]|e'] eqn:Hrun; cbn [fst snd]; [|split; [exact (rq_cache _ _ _ Hq)|exact Hc]].
    destruct (reset_returns srv (route_common q) known c _ _ cache c1 cache1 (rq_no_trip _ _ _ Hq)
      (nw_server _ _ _ _ (rq_network _ _ _ Hq)) (rq_cache _ _ _ Hq) (rq_ends _ _ _ Hq) Hrun)
      as (_ & _ & _ & _ & _ & Hvalid). split; [exact Hvalid|exact Hreset].
Qed.

(** The state of the search between two rounds. *)
Record search_total (q : RouteParameters) (first : SingleCalculationResult) (st : Search * Calculator * C) : Prop := {
  st_search : search_ok first st.1.1;
  st_paths : paths_of srv q st.1.2;
  st_cache : cache_valid td known st.2
}.

Lemma round_total q c0 cache0 maxTravelTime first st combination :
  request_ok q c0 cache0 -> search_total q first st -> round st combination ->
  exists st', try_combination srv q (alternativeParameters q maxTravelTime) combination st = Ok st' /\
    search_total q first st' /\ s_calculatedCount st'.1.1 = s_calculatedCount st.1.1 + 1.
Proof using Hstop H0.
  intros Hq Hst Hr. destruct st as [[s c] cache]. destruct Hst as [Hs Hpaths Hcache]. cbn [fst snd] in *.
  set (alt := alternativeParameters q maxTravelTime).
  pose proof (excluding_same q maxTravelTime combination) as Hsame. fold alt in Hsame.
  destruct (same_ends srv q (excluding q alt combination) Hsame) as [Ha He].
  assert (paths_of srv (excluding q alt combination) c) as Hc by (destruct Hpaths; split; congruence).
  assert (forall c', paths_of srv (excluding q alt combination) c' -> paths_of srv q c') as Hkeep
    by (intros c' []; split; congruence).
  pose proof (kept_total _ c cache (same_request_ok _ _ c0 c cache0 cache Hsame Hq (po_trip _ _ _ Hc) Hcache) Hc) as Hans.
  pose proof (try_combination_cases srv q alt first combination s c cache Hs Hr) as Htry.
  destruct (calculateSingle srv c (excluding q alt combination) false true cache) as [[[[r|] c'] cache']|e]; [|done|].
  - destruct Hans as [Hvalid Hp]. destruct Htry as (s' & -> & Hs' & Hcount & _).
    eexists. split; [reflexivity|]. split; [|cbn; rewrite Hcount; reflexivity].
    split; cbn [fst snd]; [exact Hs'|exact (Hkeep _ Hp)|exact Hvalid].
  - destruct e; try done. rewrite Htry. destruct Hans as [Hvalid Hp].
    eexists. split; [reflexivity|]. split; [|reflexivity].
    split; cbn [fst snd]; [exact (add_failed_ok first s combination Hs (proj1 Hr))|exact (Hkeep _ Hp)|exact Hvalid].
Qed.

(** Every search of alternatives ends with its routes or a reason. *)
Lemma alternatives_total q c cache :
  request_ok q c cache ->
  match alternativesRouting srv c q cache with
  | Ok (_, _, cache') => cache_valid td known cache'
  | Throw e => is_fault e = false
  end.
Proof using Hstop H0.
  intros Hq. pose proof (single_total q c cache Hq) as Hans. unfold alternativesRouting.
  destruct (calculateSingle srv c q true true cache) as [[[[first|] c1] cache1]|e]; cbn [mbind result_bind];
    [|done|exact Hans].
  destruct Hans as (Hvalid & [T1 T2 T3 T4 _] & Hpaths). unfold time_limit in T3.
  assert (exists maxTravelTime, alternatives_maxTravelTime (route_common q) first = Ok maxTravelTime)
    as [maxTravelTime ->].
  { unfold alternatives_maxTravelTime. pose proof (rq_time _ _ _ Hq).
    destruct (ratio_time_ok (res_totalTravelTime first)
      (if isForwardCalculation (route_common q) then res_departureTime first - getTimeOfTrip (route_common q) else 0))
      as [t ->]; [lia|destruct (isForwardCalculation _); lia|]. cbn [mbind result_bind]. eexists. reflexivity. }
  cbn [mbind result_bind].
  destruct (search_start_ok first) as (s & -> & Hs & Hcount & _). cbn [mbind result_bind].
  pose proof (search_loop_rule srv q (alternativeParameters q maxTravelTime) (search_total q first)) as Hloop.
  specialize (Hloop ltac:(intros st comb st' Hst Hr Htry;
    destruct (round_total q c cache maxTravelTime first st comb Hq Hst Hr) as (st1 & Heq & H1 & H2);
    rewrite Htry in Heq; injection Heq as <-; done) (Z.to_nat getMaxAlternatives) 0%nat (s, c1, cache1)).
  specialize (Hloop ltac:(split; assumption) ltac:(cbn; rewrite Hcount; unfold getMaxAlternatives; lia)).
  destruct (search_loop _ _ _ _ _ _) as [[[s' c'] cache']|e]; cbn [mbind result_bind].
  - exact (st_cache _ _ _ Hloop).
  - destruct Hloop as (st & comb & Hst & Hr & Htry).
    destruct (round_total q c cache maxTravelTime first st comb Hq Hst Hr) as (st1 & Heq & _). congruence.
Qed.

(** *** Accessibility queries *)

Definition place_origin (a : AccessibilityParameters) : option Point :=
  if isForwardCalculation (access_common a) then Some (getPlace a) else None.
Definition place_destination (a : AccessibilityParameters) : option Point :=
  if isForwardCalculation (access_common a) then None else Some (getPlace a).

Record place_request_ok (a : AccessibilityParameters) (c : Calculator) (cache : C) : Prop := {
  pq_network : network_ok srv (access_common a) known stop;
  pq_no_trip : odTripGlob c = None;
  pq_cache : cache_valid td known cache;
  pq_ends : ends_ok srv (access_common a) (place_origin a) (place_destination a);
  pq_egress : NoDup (ntd_node <$> egress_of srv (access_common a) (getPlace a));
  pq_time : 0 <= getTimeOfTrip (access_common a) < 32 * 3600
}.

Lemma all_nodes_total a c cache :
  place_request_ok a c cache ->
  match calculateAllNodes srv c a cache with
  | Ok (Some _, _, cache') => cache_valid td known cache'
  | Ok (None, _, _) => False
  | Throw e => is_fault e = false
  end.
Proof using Hstop H0.
  intros [Hnet Hod Hcache Hends Hnde Htime].
  destruct (reset_spec srv (access_common a) c (place_origin a) (place_destination a) cache Hod Hends)
    as (access & egress & _ & _ & Hspec).
  destruct (reset srv c (access_common a) (place_origin a) (place_destination a) true true cache)
    as [[c1 cache1]|e] eqn:Hreset.
  - unfold place_origin, place_destination in *. destruct (isForwardCalculation (access_common a)) eqn:Hforward.
    + pose proof (place_answer srv known a c cache c1 cache1) as Hans.
      specialize (Hans ltac:(split; try assumption; apply Hnet) Hforward Hreset).
      destruct (calculateAllNodes srv c a cache) as [[[[res|] c'] cache']|e]; [apply Hans|done|destruct e; done].
    + destruct (slack_exists (access_common a) (connections td)) as [slack Hslack].
      destruct (place_back_answer srv known stop Hstop a slack c cache c1 cache1) as (c' & _ & Hans);
        [split; try assumption; unfold MAX_INT; lia|exact Hforward|exact Hreset|].
      destruct (calculateAllNodes srv c a cache) as [[[[res|] c2] cache']|e]; [apply Hans|done|destruct e; done].
  - unfold calculateAllNodes. fold (place_origin a) (place_destination a). rewrite Hreset. cbn [mbind result_bind].
    symmetry in Hspec. revert Hspec.
    destruct (no_egress _ _ _), (no_access _ _ _); cbn [andb]; try (intros [= <-]; reflexivity).
    destruct (resetFilters srv (access_common a) cache) as [[cs disabled] cache']. done.
Qed.
End Total.
