(* ===== verification/ResultToV2.v ===== *)
(** * Results as JSON

    [result_to_v2.cpp], [result_to_v2_summary.cpp] and [result_to_v2_accessibility.cpp]:
    the answers of the second version of the API. The library of JSON documents is the
    class [JsonLibrary]; [json_get] and [json_items] say what its documents hold. *)

From Stdlib Require Import ZArith Lia Sorted.
From Corelib Require Import SpecFloat.
From stdpp Require Import base list gmap strings.
From S2P Require Import Prelude.
From S2P Require Import Data.
From S2P Require Import RoutingResult.
From S2P Require Import Numbers.
From S2P Require Import Parameters.

Local Open Scope Z_scope.

(** ** Documents *)

(** [nlohmann::json]: the null document that an object starts as, values, arrays,
    [json[key] = value], [push_back], and [dump(2)], which throws when a text of the
    document is not UTF-8. *)
Class JsonLibrary (J : Type) := {
  json_null : J;
  json_int : Z -> J;
  json_double : spec_float -> J;
  json_string : string -> J;
  json_array : list J -> J;
  json_set : string -> J -> J -> J;
  json_push_back : J -> J -> J;
  json_dump : J -> option string
}.

(** What the code relies on: a key is found as it was last set, on a document that
    started as null, and an array holds what was put in it, in order. *)
Class JsonLibraryLaws (J : Type) `{!JsonLibrary J} := {
  json_get : string -> J -> option J;
  json_items : J -> list J;
  json_is_object : J -> Prop;
  json_null_object : json_is_object json_null;
  json_set_object key value o : json_is_object o -> json_is_object (json_set key value o);
  json_get_null key : json_get key json_null = None;
  json_get_set key value o : json_is_object o -> json_get key (json_set key value o) = Some value;
  json_get_set_ne key key' value o :
    json_is_object o -> key <> key' -> json_get key (json_set key' value o) = json_get key o;
  json_items_array l : json_items (json_array l) = l;
  json_push_back_array x l : json_push_back x (json_array l) = json_array (l ++ [x])
}.

Definition STATUS_SUCCESS : string := "success".
Definition STATUS_NO_ROUTING_FOUND : string := "no_routing_found".

Definition NO_ROUTING_REASON_DEFAULT : string := "NO_ROUTING_FOUND".
Definition NO_ROUTING_REASON_NO_ACCESS_AT_ORIGIN : string := "NO_ACCESS_AT_ORIGIN".
Definition NO_ROUTING_REASON_NO_ACCESS_AT_DESTINATION : string := "NO_ACCESS_AT_DESTINATION".
Definition NO_ROUTING_REASON_NO_ACCESS_AT_PLACE : string := "NO_ACCESS_AT_PLACE".
Definition NO_ROUTING_REASON_NO_ACCESS_AT_ORIGIN_AND_DESTINATION : string :=
  "NO_ACCESS_AT_ORIGIN_AND_DESTINATION".
Definition NO_ROUTING_REASON_NO_SERVICE_FROM_ORIGIN : string := "NO_SERVICE_FROM_ORIGIN".
Definition NO_ROUTING_REASON_NO_SERVICE_TO_DESTINATION : string := "NO_SERVICE_TO_DESTINATION".
Definition NO_ROUTING_REASON_NO_SERVICE_AT_PLACE : string := "NO_SERVICE_AT_PLACE".

(** The reasons of a route, and of an accessibility map. *)
Definition route_reason_code (noRoutingReason : NoRoutingReason) : string :=
  match noRoutingReason with
  | NO_ROUTING_FOUND => NO_ROUTING_REASON_DEFAULT
  | NO_ACCESS_AT_ORIGIN => NO_ROUTING_REASON_NO_ACCESS_AT_ORIGIN
  | NO_ACCESS_AT_DESTINATION => NO_ROUTING_REASON_NO_ACCESS_AT_DESTINATION
  | NO_SERVICE_FROM_ORIGIN => NO_ROUTING_REASON_NO_SERVICE_FROM_ORIGIN
  | NO_SERVICE_TO_DESTINATION => NO_ROUTING_REASON_NO_SERVICE_TO_DESTINATION
  | NO_ACCESS_AT_ORIGIN_AND_DESTINATION => NO_ROUTING_REASON_NO_ACCESS_AT_ORIGIN_AND_DESTINATION
  end.

Definition place_reason_code (noRoutingReason : NoRoutingReason) : string :=
  match noRoutingReason with
  | NO_ROUTING_FOUND => NO_ROUTING_REASON_DEFAULT
  | NO_ACCESS_AT_ORIGIN | NO_ACCESS_AT_DESTINATION => NO_ROUTING_REASON_NO_ACCESS_AT_PLACE
  | NO_SERVICE_FROM_ORIGIN | NO_SERVICE_TO_DESTINATION => NO_ROUTING_REASON_NO_SERVICE_AT_PLACE
  | NO_ACCESS_AT_ORIGIN_AND_DESTINATION => NO_ROUTING_REASON_DEFAULT
  end.

(** [LineSummary]. *)
Record LineSummary := mkLineSummary { summary_trip : Trip; summary_count : Z }.

(** The [std::map] of [SummaryResultAccumulator]: one entry for each uuid of a line. *)
Abbreviation LineSummaries := (gmap uuid LineSummary).

Section Json.
Context {J : Type} `{!JsonLibrary J, !Boost}.

(** The assignments [json[key] = value], in order, to a document that starts as null. *)
Definition json_object (fields : list (string * J)) : J :=
  foldl (fun o '(key, value) => json_set key value o) json_null fields.

(** [{ point.longitude, point.latitude }]. *)
Definition pointToJson (point : Point) : J :=
  json_array [json_double (longitude point); json_double (latitude point)].

(** ** Routes *)

(** The fields of the trip and of the node of a step. *)
Definition transit_fields (trip : Trip) (legSequenceInTrip stopSequenceInTrip : Z) (node : Node)
    : list (string * J) :=
  [("agencyAcronym", json_string (agency_acronym (trip_agency trip)));
   ("agencyName", json_string (agency_name (trip_agency trip)));
   ("agencyUuid", json_string (uuid_to_string (agency_uuid (trip_agency trip))));
   ("lineShortname", json_string (line_shortname (trip_line trip)));
   ("lineLongname", json_string (line_longname (trip_line trip)));
   ("lineUuid", json_string (uuid_to_string (line_uuid (trip_line trip))));
   ("pathUuid", json_string (uuid_to_string (path_uuid (trip_path trip))));
   ("modeName", json_string (mode_name (line_mode (trip_line trip))));
   ("mode", json_string (mode_shortname (line_mode (trip_line trip))));
   ("tripUuid", json_string (uuid_to_string (trip_uuid trip)));
   ("legSequenceInTrip", json_int legSequenceInTrip);
   ("stopSequenceInTrip", json_int stopSequenceInTrip);
   ("nodeName", json_string (node_name node));
   ("nodeCode", json_string (node_code node));
   ("nodeUuid", json_string (uuid_to_string (node_uuid node)));
   ("nodeCoordinates", pointToJson (node_point node))]%string.

Definition walking_type_name (walkingType : walking_step_type) : string :=
  match walkingType with ACCESS => "access" | EGRESS => "egress" | TRANSFER => "transfer" end.

(** [StepToV2Visitor]; its state is the document of the last step. *)
Definition StepToV2Visitor : StepVisitor J J := {|
  visitBoardingStep := fun trip leg stop node departureTime waitingTime _ =>
    json_object ([("action"%string, json_string "boarding")] ++ transit_fields trip leg stop node ++
      [("departureTime", json_int departureTime); ("waitingTime", json_int waitingTime)]%string);
  visitUnboardingStep := fun trip leg stop node arrivalTime inVehicleTime inVehicleDistance _ =>
    json_object ([("action"%string, json_string "unboarding")] ++ transit_fields trip leg stop node ++
      [("arrivalTime", json_int arrivalTime); ("inVehicleTime", json_int inVehicleTime);
       ("inVehicleDistance", json_int inVehicleDistance)]%string);
  visitWalkingStep := fun walkingType travelTime distance departureTime arrivalTime readyToBoardAt _ =>
    json_object ([("action", json_string "walking"); ("type", json_string (walking_type_name walkingType));
       ("travelTime", json_int travelTime); ("distance", json_int distance);
       ("departureTime", json_int departureTime); ("arrivalTime", json_int arrivalTime)]%string ++
      match walkingType with
      | EGRESS => []
      | _ => [("readyToBoardAt"%string, json_int readyToBoardAt)]
      end);
  step_getResult := fun response => response
|}.

(** [parametersToRouteQueryResponse], and its copy [parametersToQueryResponse]. *)
Definition parametersToRouteQueryResponse (params : RouteParameters) : J :=
  json_object
    [("origin", pointToJson (getOrigin params)); ("destination", pointToJson (getDestination params));
     ("timeOfTrip", json_int (getTimeOfTrip (route_common params)));
     ("timeType", json_int (if isForwardCalculation (route_common params) then 0 else 1))]%string.

(** The loop over the steps: the array and the visitor. *)
Definition steps_json (l : list RoutingStep) : J :=
  (foldl (fun '(array, visitor) step =>
            let '(stepJson, visitor') := step_accept StepToV2Visitor step visitor in
            (json_push_back stepJson array, visitor'))
     (json_array [], json_null) l).1.

Definition getSingleResultJsonString (result : SingleCalculationResult) : J :=
  json_object
    [("departureTime", json_int (res_departureTime result));
     ("arrivalTime", json_int (res_arrivalTime result));
     ("totalTravelTime", json_int (res_totalTravelTime result));
     ("totalDistance", json_int (res_totalDistance result));
     ("totalInVehicleTime", json_int (res_totalInVehicleTime result));
     ("totalInVehicleDistance", json_int (res_totalInVehicleDistance result));
     ("totalNonTransitTravelTime", json_int (res_totalNonTransitTravelTime result));
     ("totalNonTransitDistance", json_int (res_totalNonTransitDistance result));
     ("numberOfBoardings", json_int (res_numberOfBoardings result));
     ("numberOfTransfers", json_int (res_numberOfTransfers result));
     ("transferWalkingTime", json_int (res_transferWalkingTime result));
     ("transferWalkingDistance", json_int (res_transferWalkingDistance result));
     ("accessTravelTime", json_int (res_accessTravelTime result));
     ("accessDistance", json_int (res_accessDistance result));
     ("egressTravelTime", json_int (res_egressTravelTime result));
     ("egressDistance", json_int (res_egressDistance result));
     ("transferWaitingTime", json_int (res_transferWaitingTime result));
     ("firstWaitingTime", json_int (res_firstWaitingTime result));
     ("totalWaitingTime", json_int (res_totalWaitingTime result));
     ("steps", steps_json (res_steps result))]%string.

(** [ResultToV2Response::noRoutingFoundResponse]. *)
Definition route_noRoutingFoundResponse (params : RouteParameters) (reason : NoRoutingReason) : J :=
  json_object
    [("status", json_string STATUS_NO_ROUTING_FOUND); ("query", parametersToRouteQueryResponse params);
     ("reason", json_string (route_reason_code reason))]%string.

(** [ResultToV2Response::resultToJsonString], of alternatives and of one result. *)
Definition alternatives_resultToJsonString (result : AlternativesResult) (params : RouteParameters) : J :=
  let routes := foldl (fun array alternative => json_push_back (getSingleResultJsonString alternative) array)
                  (json_array []) (alternatives result) in
  json_object
    [("status", json_string STATUS_SUCCESS); ("query", parametersToRouteQueryResponse params);
     ("result", json_object
        [("routes", routes); ("totalRoutesCalculated", json_int (totalAlternativesCalculated result))])]%string.

Definition single_resultToJsonString (result : SingleCalculationResult) (params : RouteParameters) : J :=
  json_object
    [("status", json_string STATUS_SUCCESS); ("query", parametersToRouteQueryResponse params);
     ("result", json_object
        [("totalRoutesCalculated", json_int 1);
         ("routes", json_push_back (getSingleResultJsonString result) (json_array []))])]%string.

(** ** Summaries *)

(** [StepToV2SummaryVisitor]. *)
Definition StepToV2SummaryVisitor : StepVisitor (option LineSummary) (option LineSummary) := {|
  visitBoardingStep := fun trip _ _ _ _ _ _ => Some (mkLineSummary trip 1);
  visitUnboardingStep := fun _ _ _ _ _ _ _ _ => None;
  visitWalkingStep := fun _ _ _ _ _ _ _ => None;
  step_getResult := fun response => response
|}.

Definition add_summary (summary : LineSummary) (lineSummaries : LineSummaries) : LineSummaries :=
  let key := line_uuid (trip_line (summary_trip summary)) in
  match lineSummaries !! key with
  | None => <[key := summary]> lineSummaries
  | Some found => <[key := mkLineSummary (summary_trip found) (summary_count found + 1)]> lineSummaries
  end.

(** [processSingleCalculationResult]. *)
Definition processSingleCalculationResult (result : SingleCalculationResult) (lineSummaries : LineSummaries)
    : LineSummaries :=
  (foldl (fun '(lineSummaries, visitor) step =>
            let '(optSummary, visitor') := step_accept StepToV2SummaryVisitor step visitor in
            (match optSummary with
             | Some summary => add_summary summary lineSummaries
             | None => lineSummaries
             end, visitor'))
     (lineSummaries, None) (res_steps result)).1.

(** The entries of a [std::map] by uuid in the order of its iterators. *)
Definition uuid_before {A} (a b : uuid * A) : bool := N.ltb a.1 b.1.
Definition in_map_order {A} (m : gmap uuid A) : list (uuid * A) :=
  stable_sort uuid_before (map_to_list m).

Definition line_summary_json (summary : LineSummary) : J :=
  let line := trip_line (summary_trip summary) in
  json_object
    [("lineUuid", json_string (uuid_to_string (line_uuid line)));
     ("lineShortname", json_string (line_shortname line));
     ("lineLongname", json_string (line_longname line));
     ("agencyUuid", json_string (uuid_to_string (agency_uuid (line_agency line))));
     ("agencyAcronym", json_string (agency_acronym (line_agency line)));
     ("agencyName", json_string (agency_name (line_agency line)));
     ("alternativeCount", json_int (summary_count summary))]%string.

Definition lineSummariesToJson (lineSummaries : LineSummaries) : J :=
  foldl (fun array entry => json_push_back (line_summary_json entry.2) array) (json_array [])
    (in_map_order lineSummaries).

(** [ResultToV2SummaryResponse::noRoutingFoundResponse] and [resultToJsonString]. *)
Definition summary_response (params : RouteParameters) (nbRoutes : Z) (lines : J) : J :=
  json_object
    [("status", json_string STATUS_SUCCESS); ("query", parametersToRouteQueryResponse params);
     ("result", json_object [("nbRoutes", json_int nbRoutes); ("lines", lines)])]%string.

Definition summary_noRoutingFoundResponse (params : RouteParameters) (reason : NoRoutingReason) : J :=
  summary_response params 0 (json_array []).

Definition summary_alternatives (result : AlternativesResult) (params : RouteParameters) : J :=
  let resultParser := foldl (fun m alternative => processSingleCalculationResult alternative m) ∅
                        (alternatives result) in
  summary_response params (Z.of_nat (length (alternatives result))) (lineSummariesToJson resultParser).

Definition summary_single (result : SingleCalculationResult) (params : RouteParameters) : J :=
  summary_response params 1 (lineSummariesToJson (processSingleCalculationResult result ∅)).

(** ** Accessibility maps *)

Definition parametersToAccessibilityQueryResponse (params : AccessibilityParameters) : J :=
  json_object
    [("place", pointToJson (getPlace params));
     ("timeOfTrip", json_int (getTimeOfTrip (access_common params)));
     ("timeType", json_int (if isForwardCalculation (access_common params) then 0 else 1))]%string.

(** [ResultToV2AccessibilityResponse::noRoutingFoundResponse]. *)
Definition place_noRoutingFoundResponse (params : AccessibilityParameters) (reason : NoRoutingReason) : J :=
  json_object
    [("status", json_string STATUS_NO_ROUTING_FOUND); ("query", parametersToAccessibilityQueryResponse params);
     ("reason", json_string (place_reason_code reason))]%string.

Definition nodeToJson (isForward : bool) (node : AccessibleNodes) : J :=
  json_object
    [("nodeName", json_string (node_name (an_node node)));
     ("nodeCode", json_string (node_code (an_node node)));
     ("nodeUuid", json_string (uuid_to_string (node_uuid (an_node node))));
     ("nodeTime", json_int (if isForward then an_arrivalTime node
                            else an_arrivalTime node - an_totalTravelTime node));
     ("nodeCoordinates", pointToJson (node_point (an_node node)));
     ("totalTravelTime", json_int (an_totalTravelTime node));
     ("numberOfTransfers", json_int (an_numberOfTransfers node))]%string.

(** [ResultToV2AccessibilityResponse::resultToJsonString]. *)
Definition allNodes_resultToJsonString (result : AllNodesResult) (params : AccessibilityParameters) : J :=
  let nodes := foldl (fun array node =>
                        json_push_back (nodeToJson (isForwardCalculation (access_common params)) node) array)
                 (json_array []) (all_nodes result) in
  json_object
    [("status", json_string STATUS_SUCCESS); ("query", parametersToAccessibilityQueryResponse params);
     ("result", json_object [("totalNodeCount", json_int (totalNodeCount result)); ("nodes", nodes)])]%string.
End Json.

(** ** Reading the documents *)

Section Reading.
Context {J : Type} `{JsonLibraryLaws J} `{!Boost}.
Implicit Types (fields : list (string * J)) (o : J).

(** The last value assigned to a key. *)
Definition field (key : string) (fields : list (string * J)) : option J :=
  foldl (fun found '(k, value) => if String.eqb k key then Some value else found) None fields.

Lemma json_object_read fields key o :
  json_is_object o ->
  let o' := foldl (fun o '(k, value) => json_set k value o) o fields in
  json_is_object o' /\
  json_get key o' =
    foldl (fun found '(k, value) => if String.eqb k key then Some value else found) (json_get key o) fields.
Proof.
  revert o. induction fields as [|[k value] fields IH]; intros o Ho; cbn [foldl]; [done|].
  destruct (IH (json_set k value o) (json_set_object k value o Ho)) as [H1 H2].
  split; [exact H1|]. rewrite H2. f_equal. destruct (String.eqb_spec k key) as [->|Hne].
  - apply json_get_set. exact Ho.
  - apply json_get_set_ne; [exact Ho|congruence].
Qed.

Lemma json_get_object fields key : json_get key (json_object fields) = field key fields.
Proof.
  unfold json_object, field. rewrite <- (json_get_null key).
  apply (json_object_read fields key json_null json_null_object).
Qed.

Lemma push_all {A} (f : A -> J) l : forall pre,
  foldl (fun array x => json_push_back (f x) array) (json_array pre) l = json_array (pre ++ (f <$> l)).
Proof.
  induction l as [|x l IH]; intros pre; cbn [foldl].
  - rewrite app_nil_r. reflexivity.
  - rewrite json_push_back_array, IH, <- app_assoc. reflexivity.
Qed.
End Reading.

(** ** The summary of the lines *)

Section Summary.
Implicit Types (m : LineSummaries) (trips : list Trip).

Definition trip_line_uuid (t : Trip) : uuid := line_uuid (trip_line t).

(** The trips among [trips] of the line [u]. *)
Definition of_line (u : uuid) (trips : list Trip) : list Trip := filter (fun t => trip_line_uuid t = u) trips.

(** What the map holds once [trips] were boarded: for each line its first trip and the
    number of times it was boarded. *)
Definition summarizes trips m : Prop :=
  forall u, m !! u = match of_line u trips with
                     | [] => None
                     | first :: _ => Some (mkLineSummary first (Z.of_nat (length (of_line u trips))))
                     end.

Lemma of_line_snoc u trips t :
  of_line u (trips ++ [t]) = of_line u trips ++ (if decide (trip_line_uuid t = u) then [t] else []).
Proof. unfold of_line. rewrite filter_app, filter_cons. reflexivity. Qed.

Lemma add_summary_ok trips m t :
  summarizes trips m -> summarizes (trips ++ [t]) (add_summary (mkLineSummary t 1) m).
Proof.
  intros Hm u. rewrite of_line_snoc. unfold add_summary. cbn [summary_trip].
  change (line_uuid (trip_line t)) with (trip_line_uuid t).
  pose proof (Hm (trip_line_uuid t)) as Ht.
  destruct (decide (trip_line_uuid t = u)) as [<-|Hne].
  - destruct (of_line (trip_line_uuid t) trips) as [|first rest] eqn:Hof; rewrite Ht; rewrite lookup_insert_eq.
    + reflexivity.
    + cbn [summary_trip summary_count app]. do 2 f_equal. cbn [length]. rewrite length_app. cbn [length]. lia.
  - rewrite app_nil_r, <- Hm. destruct (m !! trip_line_uuid t); rewrite lookup_insert_ne by exact Hne; reflexivity.
Qed.

Lemma process_steps_ok l : forall trips m visitor,
  summarizes trips m ->
  summarizes (trips ++ boarded_trips l)
    (foldl (fun '(lineSummaries, visitor) step =>
              let '(optSummary, visitor') := step_accept StepToV2SummaryVisitor step visitor in
              (match optSummary with
               | Some summary => add_summary summary lineSummaries
               | None => lineSummaries
               end, visitor')) (m, visitor) l).1.
Proof.
  induction l as [|step l IH]; intros trips m visitor Hm; cbn [foldl].
  - cbn. rewrite app_nil_r. exact Hm.
  - destruct step; cbn; [|apply IH; exact Hm|apply IH; exact Hm].
    rewrite cons_middle, app_assoc. apply IH. apply add_summary_ok. exact Hm.
Qed.

Lemma processSingleCalculationResult_ok result trips m :
  summarizes trips m ->
  summarizes (trips ++ boarded_trips (res_steps result)) (processSingleCalculationResult result m).
Proof. apply process_steps_ok. Qed.

(** The trips that a list of results boards. *)
Definition all_boarded (l : list SingleCalculationResult) : list Trip :=
  l ≫= fun r => boarded_trips (res_steps r).

Lemma process_all_ok l : forall trips m,
  summarizes trips m ->
  summarizes (trips ++ all_boarded l)
    (foldl (fun m alternative => processSingleCalculationResult alternative m) m l).
Proof.
  induction l as [|r l IH]; intros trips m Hm; cbn.
  - rewrite app_nil_r. exact Hm.
  - rewrite app_assoc. apply IH. apply processSingleCalculationResult_ok. exact Hm.
Qed.

Lemma summarizes_empty : summarizes [] ∅.
Proof. intros u. reflexivity. Qed.

#[export] Instance uuid_order {A} : StrictWeakOrder (@uuid_before A).
Proof.
  split; unfold uuid_before; intros *; rewrite ?N.ltb_lt, ?N.ltb_ge; try apply N.ltb_irrefl; lia.
Qed.

(** The entries in the order of the map: by uuid, without repetition. *)
Lemma in_map_order_spec {A} (m : gmap uuid A) :
  (forall u x, (u, x) ∈ in_map_order m <-> m !! u = Some x) /\ StronglySorted N.lt (in_map_order m).*1.
Proof.
  unfold in_map_order. split.
  - intros u x. rewrite stable_sort_perm. apply elem_of_map_to_list.
  - assert (NoDup (stable_sort uuid_before (map_to_list m)).*1) as Hnd.
    { rewrite stable_sort_perm. apply NoDup_fst_map_to_list. }
    pose proof (stable_sort_sorted uuid_before (map_to_list m)) as Hsorted.
    induction Hsorted as [|[u x] l Hsorted IH Hall]; [constructor|].
    apply list.NoDup_cons in Hnd as [Hu Hnd]. constructor; [exact (IH Hnd)|].
    apply Forall_fmap. apply Forall_forall. intros [v y] Hin.
    rewrite Forall_forall in Hall. pose proof (Hall _ Hin) as Hle. unfold not_after, uuid_before in Hle. apply N.ltb_ge in Hle. cbn in *.
    assert (u <> v) as Hne by (intros ->; apply Hu; apply (list_elem_of_fmap_2 fst) in Hin; exact Hin).
    lia.
Qed.
End Summary.

Section Summaries.
Context {J : Type} `{JsonLibraryLaws J} `{!Boost}.

Lemma lineSummariesToJson_array (m : LineSummaries) :
  lineSummariesToJson m = json_array ((fun entry => line_summary_json entry.2) <$> in_map_order m).
Proof. unfold lineSummariesToJson. rewrite push_all. reflexivity. Qed.

(** The entry of a summary for the trips [trips], which are of one line. *)
Definition line_entry (trips : list Trip) : option LineSummary :=
  first ← head trips; Some (mkLineSummary first (Z.of_nat (length trips))).

Lemma line_entry_of u trips e :
  line_entry (of_line u trips) = Some e ->
  summary_trip e ∈ of_line u trips /\ summary_count e = Z.of_nat (length (of_line u trips)).
Proof.
  destruct (of_line u trips) as [|first rest]; [discriminate|]. intros He. injection He as <-.
  split; [left|reflexivity].
Qed.

Lemma summary_entries trips m (entries := (in_map_order m).*2) :
  summarizes trips m ->
  StronglySorted N.lt ((fun e => trip_line_uuid (summary_trip e)) <$> entries) /\
  forall e, e ∈ entries <-> line_entry (of_line (trip_line_uuid (summary_trip e)) trips) = Some e.
Proof.
  intros Hm. destruct (in_map_order_spec m) as [Hin Hsorted].
  assert (forall u e, m !! u = Some e ->
            trip_line_uuid (summary_trip e) = u /\ line_entry (of_line u trips) = Some e) as Hkey.
  { intros u e Hu. rewrite Hm in Hu. destruct (of_line u trips) as [|first rest] eqn:Hof; [done|].
    injection Hu as <-. split; [|reflexivity].
    assert (first ∈ of_line u trips) as Hf by (rewrite Hof; left).
    apply list_elem_of_filter in Hf as [Hf _]. exact Hf. }
  split.
  - replace ((fun e => trip_line_uuid (summary_trip e)) <$> entries) with (in_map_order m).*1; [exact Hsorted|].
    unfold entries. rewrite <- list_fmap_compose. apply list_fmap_ext. intros i [u e] Hi. cbn.
    apply list_elem_of_lookup_2, Hin, Hkey in Hi as [-> _]. reflexivity.
  - intros e. unfold entries. rewrite list_elem_of_fmap. split.
    + intros ([u e'] & -> & He). cbn. apply Hin in He. destruct (Hkey u e' He) as [-> Hentry]. exact Hentry.
    + intros He. exists (trip_line_uuid (summary_trip e), e). split; [reflexivity|]. apply Hin. rewrite Hm.
      destruct (of_line _ trips) as [|first rest]; [discriminate|]. exact He.
Qed.

(** The boardings of a line in a route, and the routes in which it appears. *)
Definition boardings_of (u : uuid) (route : SingleCalculationResult) : nat :=
  length (of_line u (boarded_trips (res_steps route))).
Definition routes_with (u : uuid) (routes : list SingleCalculationResult) : list SingleCalculationResult :=
  filter (fun route => (0 < boardings_of u route)%nat) routes.

Lemma of_line_all u routes :
  length (of_line u (all_boarded routes)) = sum_list (boardings_of u <$> routes).
Proof.
  unfold all_boarded, of_line. induction routes as [|route routes IH]; [reflexivity|]. cbn.
  rewrite filter_app, length_app. unfold all_boarded in IH. by rewrite IH.
Qed.

(** Each route with the line boards it once at least. *)
Lemma routes_with_boardings u routes :
  (length (routes_with u routes) <= sum_list (boardings_of u <$> routes))%nat /\
  (length (routes_with u routes) = sum_list (boardings_of u <$> routes) <->
   Forall (fun route => boardings_of u route <= 1)%nat routes).
Proof.
  induction routes as [|route routes [IH1 IH2]]; [by split|]. unfold routes_with in *.
  rewrite fmap_cons, Forall_cons.
  change (sum_list (boardings_of u route :: (boardings_of u <$> routes)))
    with (boardings_of u route + sum_list (boardings_of u <$> routes))%nat.
  destruct (decide (0 < boardings_of u route)%nat) as [Hpos|Hnone].
  - rewrite filter_cons_True by done. cbn [length]. split; [lia|]. rewrite <- IH2. lia.
  - rewrite filter_cons_False by done. split; [lia|]. rewrite <- IH2. lia.
Qed.

(** C27: The summary of the alternatives counts what the routes ride: [nbRoutes] is the
    number of routes, and [lines] has one entry for each line that some route boards and for
    no other line, in the order of the uuids. Its [alternativeCount] is the number of
    boardings of the line in all of the routes together: it is never below the number
    of routes in which the line appears, which is what the documentation of the
    response announces, and it is this number exactly when no route boards the line
    twice. *)
Theorem summary_counts_boardings (result : AlternativesResult) (params : RouteParameters) :
  let boarded := all_boarded (alternatives result) in
  exists answer entries,
    json_get "status" (summary_alternatives result params) = Some (json_string "success") /\
    json_get "result" (summary_alternatives result params) = Some answer /\
    json_get "nbRoutes" answer = Some (json_int (Z.of_nat (length (alternatives result)))) /\
    json_get "lines" answer = Some (json_array (line_summary_json <$> entries)) /\
    StronglySorted N.lt ((fun e => trip_line_uuid (summary_trip e)) <$> entries) /\
    (forall t, t ∈ boarded -> trip_line_uuid t ∈ (fun e => trip_line_uuid (summary_trip e)) <$> entries) /\
    Forall (fun e =>
      let line := trip_line (summary_trip e) in
      summary_trip e ∈ boarded /\
      json_get "lineUuid" (line_summary_json e) = Some (json_string (uuid_to_string (line_uuid line))) /\
      json_get "alternativeCount" (line_summary_json e) =
        Some (json_int (Z.of_nat (length (of_line (line_uuid line) boarded)))) /\
      (length (routes_with (line_uuid line) (alternatives result)) <= length (of_line (line_uuid line) boarded))%nat /\
      (length (routes_with (line_uuid line) (alternatives result)) = length (of_line (line_uuid line) boarded) <->
       Forall (fun route => boardings_of (line_uuid line) route <= 1)%nat (alternatives result))) entries.
Proof.
  intros boarded. set (m := foldl (fun m alternative => processSingleCalculationResult alternative m) ∅
                              (alternatives result)).
  assert (summarizes boarded m) as Hm by exact (process_all_ok (alternatives result) [] ∅ summarizes_empty).
  destruct (summary_entries boarded m Hm) as [Hsorted Hentries].
  eexists _, (in_map_order m).*2. split_and!.
  - unfold summary_alternatives, summary_response. rewrite json_get_object. reflexivity.
  - unfold summary_alternatives, summary_response. rewrite json_get_object. reflexivity.
  - rewrite json_get_object. reflexivity.
  - rewrite json_get_object. cbn. rewrite lineSummariesToJson_array. fold m.
    rewrite <- list_fmap_compose. reflexivity.
  - exact Hsorted.
  - intros t Ht. assert (t ∈ of_line (trip_line_uuid t) boarded) as Hof by (apply list_elem_of_filter; done).
    destruct (line_entry (of_line (trip_line_uuid t) boarded)) as [e|] eqn:He.
    + pose proof (line_entry_of _ _ _ He) as [Hin _]. apply list_elem_of_filter in Hin as [Hu _].
      apply list_elem_of_fmap. exists e. split; [congruence|]. apply Hentries. rewrite Hu. exact He.
    + destruct (of_line (trip_line_uuid t) boarded); [set_solver|discriminate].
  - apply Forall_forall. intros e He. apply Hentries in He.
    destruct (line_entry_of _ _ _ He) as [Hin Hcount]. apply list_elem_of_filter in Hin as [_ Hin].
    cbn zeta. unfold line_summary_json. rewrite !json_get_object.
    split_and!; [exact Hin|reflexivity| |unfold boarded; rewrite of_line_all; apply routes_with_boardings..].
    transitivity (Some (json_int (summary_count e))); [reflexivity|]. rewrite Hcount. reflexivity.
Qed.
End Summaries.
