(* ===== verification/OdTripsRouting.v ===== *)
(** * The report of a survey

    [od_trips_routing.cpp], and [OdTripLegacyParameters] of [legacyV1_parameters.cpp]:
    each trip of the survey is calculated, and the demand that its legs make is added to
    the profiles of the lines and of the paths. The demands are [float]s. Shuffling a
    sample is left to the standard library, and is an interface; the parameters, which
    are constants, never ask for it. *)

From Stdlib Require Import ZArith Lia.
From Corelib Require Import SpecFloat.
From stdpp Require Import base list gmap strings pretty.
From S2P Require Import Prelude.
From S2P Require Import Data.
From S2P Require Import Numbers.
From S2P Require Import Parameters.
From S2P Require Import RoutingResult.
From S2P Require Import ConnectionCache.
From S2P Require Import TransitData.
From S2P Require Import Calculator.
From S2P Require Import GeoFilters.
From S2P Require Import Calculation.
From S2P Require Import ResultToV2.

Local Open Scope Z_scope.

(** ** Parameters *)

Record OdTripLegacyParameters := mkOdTripLegacyParameters {
  batchNumber : Z;
  batchesCount : Z;
  odTripsSampleSize : Z;
  seed : N;
  onlyDataSource : option DataSource;
  odTripsPeriods : list (Z * Z);
  odTripsGenders : list string;
  odTripsAgeGroups : list string;
  odTripsOccupations : list string;
  odTripsActivities : list string;
  odTripsModes : list string;
  odTripsSampleRatio : spec_float;
  odTripUuid : option uuid;
  calculateProfiles : bool
}.

(** The constructor, at the time [now]. *)
Definition OdTripLegacyParameters_new (now : N) : OdTripLegacyParameters :=
  mkOdTripLegacyParameters 1 1 (-1) now None [] [] [] [] [] [] (float_of 1) None true.

(** [std::shuffle] with an engine of this seed. *)
Class Shuffle := shuffle : N -> list OdTrip -> list OdTrip.

(** ** Numbers *)

Declare Scope float_scope.
Delimit Scope float_scope with float.
Notation "x + y" := (SFadd 24 128 x y) : float_scope.
Notation "x * y" := (SFmul 24 128 x y) : float_scope.
Notation "x / y" := (SFdiv 24 128 x y) : float_scope.

(** [(int)round(f)]: halves away from zero. *)
Definition int_of_round (f : spec_float) : calc Z :=
  match f with
  | S754_zero _ => Ok 0
  | S754_finite s m e =>
      let n := if 0 <=? e then Z.pos m * 2 ^ e else (2 * Z.pos m + 2 ^ (- e)) / (2 * 2 ^ (- e)) in
      let z := if s then - n else n in
      if (MIN_INT <=? z) && (z <=? MAX_INT) then Ok z else Throw Undefined
  | _ => Throw Undefined
  end.

(** [Toolbox::convertSecondsToFormattedTime]. *)
Definition convertSecondsToFormattedTime (timeInSeconds : Z) : calc string :=
  let hour := Z.quot timeInSeconds 3600 in
  minute ← int_of_round (to_double (float_of timeInSeconds) / double_of 60 - to_double (float_of (hour * 60)))%double;
  let '(hour, minute) := if minute =? 60 then (hour + 1, 0) else (hour, minute) in
  let padded (z : Z) := (if (z <=? 9)%Z then "0" else "")%string +:+ pretty z in
  Ok (padded hour +:+ ":" +:+ padded minute).

(** [v[i]] with an [int] index. *)
Definition vec_index {A} (l : list A) (i : Z) : calc A :=
  if i <? 0 then Throw Undefined else vec_get l (Z.to_nat i).

(** ** The demand *)

Record OdProfiles := mkOdProfiles {
  lineProfiles : gmap uuid spec_float;
  pathProfiles : gmap uuid (list (list spec_float));
  pathTotalProfiles : gmap uuid (list spec_float);
  maximumSegmentHourlyDemand : spec_float;
  maximumSegmentTotalDemand : spec_float;
  totalTravelTimeSeconds : Z
}.

Definition float_zero : spec_float := S754_zero false.

(** 29 hours, from 0 to 28. *)
Definition demandByHourOfDay : list spec_float := replicate 29 float_zero.

Definition OdProfiles_new (lines : list Line) : OdProfiles :=
  mkOdProfiles (list_to_map ((fun line => (line_uuid line, float_zero)) <$> lines)) ∅ ∅ float_zero float_zero 0.

(** [lineProfiles.at(legLine.uuid) += correctedExpansionFactor]. *)
Definition add_line_demand (correctedExpansionFactor : spec_float) (line : Line) (st : OdProfiles) : calc OdProfiles :=
  match lineProfiles st !! line_uuid line with
  | Some demand =>
      Ok (mkOdProfiles (<[line_uuid line := (demand + correctedExpansionFactor)%float]> (lineProfiles st))
            (pathProfiles st) (pathTotalProfiles st) (maximumSegmentHourlyDemand st) (maximumSegmentTotalDemand st)
            (totalTravelTimeSeconds st))
  | None => Throw OutOfRange
  end.

(** The profiles of a path, when it is met for the first time: a path without nodes asks
    for a vector of the largest size, which throws. *)
Definition add_path (path : Path) (st : OdProfiles) : calc OdProfiles :=
  match pathProfiles st !! path_uuid path with
  | Some _ => Ok st
  | None =>
      if (length (path_nodesRef path) =? 0)%nat then Throw StdException
      else
        let segments := (length (path_nodesRef path) - 1)%nat in
        Ok (mkOdProfiles (lineProfiles st) (<[path_uuid path := replicate segments demandByHourOfDay]> (pathProfiles st))
              (<[path_uuid path := replicate segments float_zero]> (pathTotalProfiles st))
              (maximumSegmentHourlyDemand st) (maximumSegmentTotalDemand st) (totalTravelTimeSeconds st))
  end.

(** One connection of a leg. *)
Definition add_segment (correctedExpansionFactor : spec_float) (path : Path) (connectionDepartureTimes : list Z)
    (connectionIndex : Z) (st : OdProfiles) : calc OdProfiles :=
  connectionDepartureTimeSeconds ← vec_index connectionDepartureTimes connectionIndex;
  let connectionDepartureTimeHour := Z.quot connectionDepartureTimeSeconds 3600 in
  let profile := default [] (pathProfiles st !! path_uuid path) in
  hours ← vec_index profile connectionIndex;
  hourlyDemand ← vec_index hours connectionDepartureTimeHour;
  let hourlyDemand := (hourlyDemand + correctedExpansionFactor)%float in
  let hours := <[Z.to_nat connectionDepartureTimeHour := hourlyDemand]> hours in
  let totals := default [] (pathTotalProfiles st !! path_uuid path) in
  totalDemand ← vec_index totals connectionIndex;
  let totalDemand := (totalDemand + correctedExpansionFactor)%float in
  Ok (mkOdProfiles (lineProfiles st)
        (<[path_uuid path := <[Z.to_nat connectionIndex := hours]> profile]> (pathProfiles st))
        (<[path_uuid path := <[Z.to_nat connectionIndex := totalDemand]> totals]> (pathTotalProfiles st))
        (if SFltb (maximumSegmentHourlyDemand st) hourlyDemand then hourlyDemand else maximumSegmentHourlyDemand st)
        (if SFltb (maximumSegmentTotalDemand st) totalDemand then totalDemand else maximumSegmentTotalDemand st)
        (totalTravelTimeSeconds st)).

Section Report.
Context (td : TransitData).

Definition connectionDepartureTimes (trip : Trip) : list Z := default [] (tripConnectionDepartureTimes td !! trip_uid trip).

(** [for (int connectionIndex = start; connectionIndex <= end; connectionIndex++)]. *)
Definition leg_connections (leg : Leg) : list Z := seqZ (leg_start leg) (leg_end leg - leg_start leg + 1).

(** One leg. *)
Definition add_leg (correctedExpansionFactor : spec_float) (leg : Leg) (st : OdProfiles) : calc OdProfiles :=
  let legTrip := leg_tripOf leg in
  let legPath := trip_path legTrip in
  st ← add_line_demand correctedExpansionFactor (trip_line legTrip) st;
  st ← add_path legPath st;
  for_each (add_segment correctedExpansionFactor legPath (connectionDepartureTimes legTrip)) (leg_connections leg) st.

(** [totalTravelTimeSeconds += correctedExpansionFactor * visitor.getTotalTravelTime()]:
    the [int] is converted to [float], and the sum back. *)
Definition add_travel_time (correctedExpansionFactor : spec_float) (totalTravelTime : Z) (st : OdProfiles) : calc OdProfiles :=
  sum ← int_of (float_of (totalTravelTimeSeconds st) + correctedExpansionFactor * float_of totalTravelTime)%float;
  Ok (mkOdProfiles (lineProfiles st) (pathProfiles st) (pathTotalProfiles st) (maximumSegmentHourlyDemand st)
        (maximumSegmentTotalDemand st) sum).

(** [if (visitor.getLegs().size() > 0) { ... }]. *)
Definition add_demand (correctedExpansionFactor : spec_float) (totalTravelTime : Z) (l : list Leg) (st : OdProfiles)
    : calc OdProfiles :=
  if (0 <? length l)%nat then
    st ← add_travel_time correctedExpansionFactor totalTravelTime st;
    for_each (add_leg correctedExpansionFactor) l st
  else Ok st.
End Report.

(** ** The documents *)

(** The lists of a [StepToOdTripJsonVisitor]. *)
Record StepLists := mkStepLists {
  lineShortnames : list string;
  agencyAcronyms : list string;
  modeShortnames : list string;
  agencyUuids : list uuid;
  lineUuids : list uuid;
  boardingNodesUuids : list uuid;
  unboardingNodesUuids : list uuid
}.

Definition StepToOdTripJsonVisitor : StepVisitor StepLists Z := {|
  visitBoardingStep := fun trip _ _ node _ _ s =>
    mkStepLists (lineShortnames s ++ [line_shortname (trip_line trip)])
      (agencyAcronyms s ++ [agency_acronym (trip_agency trip)])
      (modeShortnames s ++ [mode_shortname (line_mode (trip_line trip))])
      (agencyUuids s ++ [agency_uuid (trip_agency trip)])
      (lineUuids s ++ [line_uuid (trip_line trip)])
      (boardingNodesUuids s ++ [node_uuid node]) (unboardingNodesUuids s);
  visitUnboardingStep := fun _ _ _ node _ _ _ s =>
    mkStepLists (lineShortnames s) (agencyAcronyms s) (modeShortnames s) (agencyUuids s) (lineUuids s)
      (boardingNodesUuids s) (unboardingNodesUuids s ++ [node_uuid node]);
  visitWalkingStep := fun _ _ _ _ _ _ s => s;
  step_getResult := fun _ => 1
|}.

Section Documents.
Context {J : Type} `{!JsonLibrary J, !Boost}.

Definition json_strings (l : list string) : J := json_array (json_string <$> l).

(** Assignments to a document that is there. *)
Definition json_update (fields : list (string * J)) (o : J) : J :=
  foldl (fun o '(key, value) => json_set key value o) o fields.

(** What a [ResultToOdTripJsonVisitor] keeps: its response, the legs and the total travel
    time, which are unset until a single result is visited. *)
Record OdTripVisit := mkOdTripVisit { visit_response : J; visit_legs : list Leg; visit_totalTravelTime : option Z }.

Definition single_odTripJson (params : RouteParameters) (result : SingleCalculationResult) : J :=
  let stepVisitor :=
    foldl (fun s step => (step_accept StepToOdTripJsonVisitor step s).2) (mkStepLists [] [] [] [] [] [] []) (res_steps result) in
  json_object
    [("status", json_string STATUS_SUCCESS);
     ("originLat", json_double (latitude (getOrigin params))); ("originLon", json_double (longitude (getOrigin params)));
     ("destinationLat", json_double (latitude (getDestination params)));
     ("destinationLon", json_double (longitude (getDestination params)));
     ("travelTimeSeconds", json_int (res_totalTravelTime result));
     ("initialLostTimeAtDepartureSeconds", json_int (res_departureTime result - getTimeOfTrip (route_common params)));
     ("departureTimeSeconds", json_int (res_departureTime result)); ("arrivalTimeSeconds", json_int (res_arrivalTime result));
     ("numberOfTransfers", json_int (res_numberOfTransfers result));
     ("inVehicleTravelTimeSeconds", json_int (res_totalInVehicleTime result));
     ("transferTravelTimeSeconds", json_int (res_transferWalkingTime result));
     ("waitingTimeSeconds", json_int (res_totalWaitingTime result));
     ("accessTravelTimeSeconds", json_int (res_accessTravelTime result));
     ("egressTravelTimeSeconds", json_int (res_egressTravelTime result));
     ("transferWaitingTimeSeconds", json_int (res_transferWaitingTime result));
     ("firstWaitingTimeSeconds", json_int (res_firstWaitingTime result));
     ("nonTransitTravelTimeSeconds", json_int (res_totalNonTransitTravelTime result));
     ("linesShortnames", json_strings (lineShortnames stepVisitor));
     ("agenciesAcronyms", json_strings (agencyAcronyms stepVisitor));
     ("modesShortnames", json_strings (modeShortnames stepVisitor));
     ("agencyUuids", json_strings (uuid_to_string <$> agencyUuids stepVisitor));
     ("lineUuids", json_strings (uuid_to_string <$> lineUuids stepVisitor));
     ("boardingNodeUuids", json_strings (uuid_to_string <$> boardingNodesUuids stepVisitor));
     ("unboardingNodeUuids", json_strings (uuid_to_string <$> unboardingNodesUuids stepVisitor))]%string.

Definition ResultToOdTripJsonVisitor (params : RouteParameters) : ResultVisitor OdTripVisit J := {|
  visitSingleCalculationResult := fun result _ =>
    mkOdTripVisit (single_odTripJson params result) (res_legs result) (Some (res_totalTravelTime result));
  visitAlternativesResult := fun _ s => mkOdTripVisit json_null (visit_legs s) (visit_totalTravelTime s);
  visitAllNodesResult := fun _ s => mkOdTripVisit json_null (visit_legs s) (visit_totalTravelTime s);
  getResult := visit_response
|}.

Definition noRoutingFoundResultToJson (params : RouteParameters) : calc J :=
  departureTime ← convertSecondsToFormattedTime (getTimeOfTrip (route_common params));
  let latlon p := json_array [json_double (latitude p); json_double (longitude p)] in
  Ok (json_object
        [("status", json_string STATUS_NO_ROUTING_FOUND);
         ("origin", latlon (getOrigin params)); ("destination", latlon (getDestination params));
         ("departureTime", json_string departureTime);
         ("departureTimeSeconds", json_int (getTimeOfTrip (route_common params)))]%string).

(** The fields of the trip, added to its document. *)
Definition odTrip_fields (odTrip : OdTrip) (correctedExpansionFactor : spec_float) : list (string * J) :=
  [("uuid", json_string (uuid_to_string (od_uuid odTrip))); ("internalId", json_string (od_internalId odTrip));
   ("originActivity", json_string (od_originActivity odTrip));
   ("destinationActivity", json_string (od_destinationActivity odTrip)); ("declaredMode", json_string (od_mode odTrip));
   ("expansionFactor", json_double (to_double correctedExpansionFactor));
   ("onlyWalkingTravelTimeSeconds", json_int (od_walkingTravelTimeSeconds odTrip));
   ("onlyCyclingTravelTimeSeconds", json_int (od_cyclingTravelTimeSeconds odTrip));
   ("onlyDrivingTravelTimeSeconds", json_int (od_drivingTravelTimeSeconds odTrip));
   ("declaredDepartureTimeSeconds", json_int (od_departureTimeSeconds odTrip));
   ("declaredArrivalTimeSeconds", json_int (od_arrivalTimeSeconds odTrip))]%string.

(** The document of the report. *)
Definition profile_json (profile : list spec_float) : J := json_array (json_double ∘ to_double <$> profile).

Definition profiles_fields (st : OdProfiles) : list (string * J) :=
  [("lineProfiles",
      json_object ((fun entry => (uuid_to_string entry.1, json_double (to_double entry.2))) <$> in_map_order (lineProfiles st)));
   ("pathProfiles",
      json_object ((fun entry => (uuid_to_string entry.1, json_array (profile_json <$> entry.2))) <$>
                     in_map_order (pathProfiles st)))]%string.

Definition report_json (params : OdTripLegacyParameters) (odTrips : list J) (st : OdProfiles) : J :=
  json_object
    ([("odTrips", json_array odTrips);
      ("maxSegmentHourlyDemand", json_double (to_double (maximumSegmentHourlyDemand st)));
      ("maxSegmentTotalDemand", json_double (to_double (maximumSegmentTotalDemand st)));
      ("totalTravelTimeSeconds", json_int (totalTravelTimeSeconds st))]%string ++
     (if calculateProfiles params then profiles_fields st else []) ++
     [("status"%string, json_string STATUS_SUCCESS)]).

(** [json.dump(2)]. *)
Definition dump (document : J) : calc string :=
  match json_dump document with Some text => Ok text | None => Throw StdException end.
End Documents.

(** ** The loop *)

(** [params.odTripsX.size() > 0 && std::find(...) == end]. *)
Definition not_among (values : list string) (value : string) : bool :=
  (0 <? length values)%nat && negb (std_find String.eqb value values).

(** The same of an attribute of the person, if the trip has one. *)
Definition person_not_among (values : list string) (attribute : Person -> string) (person : option Person) : bool :=
  (0 <? length values)%nat &&
  match person with Some person => negb (std_find String.eqb (attribute person) values) | None => true end.

Definition attributesMatches (params : OdTripLegacyParameters) (odTrip : OdTrip) : bool :=
  negb (person_not_among (odTripsAgeGroups params) person_ageGroup (od_person odTrip) ||
        person_not_among (odTripsGenders params) person_gender (od_person odTrip) ||
        person_not_among (odTripsOccupations params) person_occupation (od_person odTrip) ||
        not_among (odTripsActivities params) (od_destinationActivity odTrip) ||
        not_among (odTripsModes params) (od_mode odTrip)) &&
  match onlyDataSource params with
  | Some source => N.eqb (ds_uuid (od_dataSource odTrip)) (ds_uuid source)
  | None => true
  end.

Definition atLeastOneCompatiblePeriod (params : OdTripLegacyParameters) (odTrip : OdTrip) : bool :=
  existsb (fun period => (period.1 <=? od_departureTimeSeconds odTrip) && (od_departureTimeSeconds odTrip <? period.2))
    (odTripsPeriods params).

Definition odTrip_selected (params : OdTripLegacyParameters) (odTrip : OdTrip) : bool :=
  attributesMatches params odTrip &&
  (atLeastOneCompatiblePeriod params odTrip || (length (odTripsPeriods params) =? 0)%nat).

(** [odTripGlob = odTrip]. *)
Definition set_odTripGlob (odTrip : OdTrip) (c : Calculator) : Calculator :=
  mkCalculator (departureTimeSeconds c) (arrivalTimeSeconds c) (minAccessTravelTime c) (maxEgressTravelTime c)
    (maxAccessTravelTime c) (minEgressTravelTime c) (Some odTrip) (nodesTentativeTime c) (nodesReverseTentativeTime c)
    (nodesAccess c) (nodesEgress c) (tripsDisabled c) (tripsQueryOverlay c) (connectionSet c)
    (accessFootpaths c) (egressFootpaths c) (forwardJourneysSteps c) (reverseJourneysSteps c).

Section Routing.
Context {J : Type} `{!JsonLibrary J, !Boost, !GeoFilter, !Shuffle} {C : Type} `{!ScenarioConnectionCache C}.
Context (srv : Server) (parameters : RouteParameters) (params : OdTripLegacyParameters).
Notation td := (transitData srv).

(** The local variables of the function, with the calculator and the cache. *)
Record OdRun := mkOdRun {
  od_calculator : Calculator;
  od_cache : C;
  od_resetFilters : bool;
  od_documents : list J;
  od_profiles : OdProfiles
}.

(** The calculator and the cache after an exception of a calculation. The fields that the
    scans changed before it are left as the reset made them: the next reset sets them
    again ([od_calculation_reads]). *)
Definition after_odTrip_exception (c : Calculator) (p : RouteParameters) (resetFilters : bool) (cache : C) : Calculator * C :=
  match reset srv c (route_common p) (Some (getOrigin p)) (Some (getDestination p)) true resetFilters cache with
  | Ok (c', cache') => (c', cache')
  | Throw _ => (c, cache)
  end.

(** [calculateSingle(odTripParameters, true, resetFilters)] in its [try]: a result, or the
    exception that is caught. The calculator and the cache are those it leaves. *)
Definition od_calculation (odTripParameters : RouteParameters) (c : Calculator) (resetFilters : bool) (cache : C)
    : calc ((SingleCalculationResult + NoRoutingReason) * Calculator * C) :=
  match calculateSingle srv c odTripParameters true resetFilters cache with
  | Ok (Some result, c', cache') => Ok (inl result, c', cache')
  | Ok (None, _, _) => Throw Undefined
  | Throw (NoRoutingFound reason) =>
      let '(c', cache') := after_odTrip_exception c odTripParameters resetFilters cache in Ok (inr reason, c', cache')
  | Throw e => Throw e
  end.

(** The rest of the two blocks: the document of the trip, and the profiles. *)
Definition od_outcome (odTripParameters : RouteParameters) (correctedExpansionFactor : spec_float)
    (outcome : SingleCalculationResult + NoRoutingReason) (st : OdProfiles) : calc (J * OdProfiles) :=
  match outcome with
  | inl result =>
      let '(odTripJson, visitor) :=
        result_accept (ResultToOdTripJsonVisitor odTripParameters) (SINGLE_CALCULATION result) (mkOdTripVisit json_null [] None) in
      st ← add_demand td correctedExpansionFactor (default 0 (visit_totalTravelTime visitor)) (visit_legs visitor) st;
      Ok (odTripJson, st)
  | inr _ =>
      odTripJson ← noRoutingFoundResultToJson odTripParameters;
      Ok (odTripJson, st)
  end.

Definition od_parameters (odTrip : OdTrip) : RouteParameters :=
  RouteParameters_new (od_origin odTrip) (od_destination odTrip) (isWithAlternatives parameters) (route_common parameters).

Definition od_factor (odTrip : OdTrip) : spec_float := (od_expansionFactor odTrip / odTripsSampleRatio params)%float.

(** A trip that is selected. *)
Definition od_trip (odTrip : OdTrip) (run : OdRun) : calc OdRun :=
  '(outcome, c, cache) ← od_calculation (od_parameters odTrip) (od_calculator run) (od_resetFilters run) (od_cache run);
  '(odTripJson, profiles) ← od_outcome (od_parameters odTrip) (od_factor odTrip) outcome (od_profiles run);
  Ok (mkOdRun c cache (match outcome with inl _ => false | inr _ => od_resetFilters run end)
        (od_documents run ++ [json_update (odTrip_fields odTrip (od_factor odTrip)) odTripJson]) profiles).

(** One round of the loop. *)
Definition od_round (odTripVector : list OdTrip) (i : nat) (run : OdRun) : calc (ctl OdRun) :=
  odTrip ← vec_get odTripVector i;
  let run := mkOdRun (set_odTripGlob odTrip (od_calculator run)) (od_cache run) (od_resetFilters run)
               (od_documents run) (od_profiles run) in
  if batchesCount params =? 0 then Throw Undefined
  else if negb (Z.rem (Z.of_nat i) (batchesCount params) =? batchNumber params - 1) then Ok (Next run)
  else
    run ← (if odTrip_selected params odTrip then od_trip odTrip run else Ok run);
    if (odTripsSampleSize params >? 0) && (Z.of_nat i + 1 >=? odTripsSampleSize params) then Ok (Break run)
    else Ok (Next run).

(** [odTripsRouting], with the calculator [c]. *)
Definition odTripsRouting (c : Calculator) (cache : C) : calc (string * Calculator * C) :=
  let odTripVector := getOdTrips td in
  let odTripsCount := Z.of_nat (length odTripVector) in
  if odTripsCount =? 0 then
    text ← dump (json_object [("odTrips"%string, json_array [])]);
    Ok (text, c, cache)
  else
    let ratio := odTripsSampleRatio params in
    let odTripVector := if SFltb float_zero ratio && SFltb ratio (float_of 1) then shuffle (seed params) odTripVector
                        else odTripVector in
    sampleSize ← int_of_ceil (float_of odTripsCount * ratio)%float;
    run ← for_loop (od_round odTripVector) (seq 0 (Z.to_nat sampleSize))
            (mkOdRun c cache true [] (OdProfiles_new (getLines td)));
    text ← dump (report_json params (od_documents run) (od_profiles run));
    Ok (text, od_calculator run, od_cache run).
End Routing.
