(* ===== verification/OdTripsCorrect.v ===== *)
(** * What the report of a survey says

    The profiles are the sums of the factors of the legs, added in order as [float]s, and
    their maxima are never below an entry. The report has one document for each trip of
    the survey. *)

From Stdlib Require Import ZArith Lia.
From Corelib Require Import SpecFloat.
From stdpp Require Import base list gmap strings pretty.
From S2P Require Import Prelude.
From S2P Require Import Data.
From S2P Require Import RoutingResult.
From S2P Require Import ConnectionCache.
From S2P Require Import TransitData.
From S2P Require Import Calculator.
From S2P Require Import FloatBounds.
From S2P Require Import GeoFilters.
From S2P Require Import Parameters.
From S2P Require Import Calculation.
From S2P Require Import ResultToV2.
From S2P Require Import OdTripsRouting.

Local Open Scope Z_scope.

(** ** Comparisons *)

(** [SFltb] is transitive through what is not below. *)
Lemma SFltb_false_trans a b x : SFltb a b = true -> SFltb a x = false -> SFltb b x = false.
Proof.
  unfold SFltb, SFcompare. intros Hab Hax.
  destruct a as [sa|[]| |[] ma ea], b as [sb|[]| |[] mb eb], x as [sx|[]| |[] mx ex]; try done;
    repeat match goal with
    | H : context [Pos.compare_cont Eq ?a ?b] |- _ => change (Pos.compare_cont Eq a b) with (Pos.compare a b) in H
    | |- context [Pos.compare_cont Eq ?a ?b] => change (Pos.compare_cont Eq a b) with (Pos.compare a b)
    end;
    destruct (Z.compare_spec ea eb), (Z.compare_spec ea ex), (Z.compare_spec eb ex), (Pos.compare_spec ma mb),
      (Pos.compare_spec ma mx), (Pos.compare_spec mb mx); try done; try discriminate; lia.
Qed.

Lemma SFltb_irrefl a : SFltb a a = false.
Proof.
  unfold SFltb, SFcompare. destruct a as [s|[]| |[] m e]; try done; rewrite Z.compare_refl;
    change (Pos.compare_cont Eq m m) with (Pos.compare m m); by rewrite Pos.compare_refl.
Qed.

(** [if (maximum < v) { maximum = v; }] keeps what was not above, nor is [v]. *)
Lemma maximum_updated m v x : SFltb m x = false \/ x = v -> SFltb (if SFltb m v then v else m) x = false.
Proof.
  intros Hx. destruct (SFltb m v) eqn:Hm; destruct Hx as [Hx| ->]; try done; [by eapply SFltb_false_trans|apply SFltb_irrefl].
Qed.

(** ** The demand, by its parts *)

(** The sum of [float]s, in order. *)
Definition float_sum (l : list spec_float) : spec_float := foldl (fun a b => (a + b)%float) float_zero l.

Lemma float_sum_snoc l x : float_sum (l ++ [x]) = (float_sum l + x)%float.
Proof. unfold float_sum. by rewrite foldl_app. Qed.

(** What one connection of a leg adds: a factor, to a segment of a path and an hour. *)
Record contribution := mkContribution { c_factor : spec_float; c_path : uuid; c_segment : nat; c_hour : nat }.

Definition total_of (p : uuid) (k : nat) (cs : list contribution) : list spec_float :=
  c_factor <$> filter (fun c => c_path c = p /\ c_segment c = k) cs.

Definition hourly_of (p : uuid) (k h : nat) (cs : list contribution) : list spec_float :=
  c_factor <$> filter (fun c => c_path c = p /\ c_segment c = k /\ c_hour c = h) cs.

Definition of_line (u : uuid) (ls : list (spec_float * uuid)) : list spec_float :=
  fst <$> filter (fun l => l.2 = u) ls.

(** An element at the end of a filtered list. *)
Lemma filter_snoc {A} (P : A -> Prop) `{!forall x, Decision (P x)} (l : list A) x :
  filter P (l ++ [x]) = filter P l ++ if decide (P x) then [x] else [].
Proof. by rewrite filter_app. Qed.

Lemma total_of_snoc p k cs c :
  total_of p k (cs ++ [c]) = total_of p k cs ++ if decide (c_path c = p /\ c_segment c = k) then [c_factor c] else [].
Proof. unfold total_of. rewrite filter_snoc, fmap_app. f_equal. by case_decide. Qed.

Lemma hourly_of_snoc p k h cs c :
  hourly_of p k h (cs ++ [c]) =
    hourly_of p k h cs ++ if decide (c_path c = p /\ c_segment c = k /\ c_hour c = h) then [c_factor c] else [].
Proof. unfold hourly_of. rewrite filter_snoc, fmap_app. f_equal. by case_decide. Qed.

(** A list after the update of one entry: that entry, or another one. *)
Lemma insert_cases {A} (l : list A) i (x y : A) j : <[i := x]> l !! j = Some y -> (j = i /\ y = x) \/ (j <> i /\ l !! j = Some y).
Proof. intros H. apply list_lookup_insert_Some in H as [(<- & <- & _)|[Hne Hl]]; auto. Qed.

Lemma insert_elem {A} (l : list A) i (x y : A) : y ∈ <[i := x]> l -> y = x \/ y ∈ l.
Proof.
  intros H. apply list_elem_of_lookup in H as (j & Hj). apply insert_cases in Hj as [[_ ->]|[_ Hl]]; [by left|].
  right. by eapply list_elem_of_lookup_2.
Qed.

Section Demand.
Context (line_uuids : list uuid) (segments : uuid -> nat).

(** The profiles after the lines [ls], the paths [ps] and the connections [cs]. *)
Record demand_is (ls : list (spec_float * uuid)) (ps : list uuid) (cs : list contribution) (st : OdProfiles) : Prop := {
  di_line u : lineProfiles st !! u = if decide (u ∈ line_uuids) then Some (float_sum (of_line u ls)) else None;
  di_none p : p ∉ ps -> pathProfiles st !! p = None /\ pathTotalProfiles st !! p = None /\
    forall c, c ∈ cs -> c_path c <> p;
  di_total p : p ∈ ps -> exists l, pathTotalProfiles st !! p = Some l /\ length l = segments p /\
    forall k x, l !! k = Some x -> x = float_sum (total_of p k cs);
  di_hourly p : p ∈ ps -> exists l, pathProfiles st !! p = Some l /\ length l = segments p /\
    forall k hours, l !! k = Some hours -> length hours = 29%nat /\
      forall h x, hours !! h = Some x -> x = float_sum (hourly_of p k h cs);
  di_zero : SFltb (maximumSegmentTotalDemand st) float_zero = false /\ SFltb (maximumSegmentHourlyDemand st) float_zero = false;
  di_max_total p l x : pathTotalProfiles st !! p = Some l -> x ∈ l -> SFltb (maximumSegmentTotalDemand st) x = false;
  di_max_hourly p l hours x : pathProfiles st !! p = Some l -> hours ∈ l -> x ∈ hours ->
    SFltb (maximumSegmentHourlyDemand st) x = false
}.

Lemma demand_new (l : list Line) : line_uuid <$> l = line_uuids -> demand_is [] [] [] (OdProfiles_new l).
Proof.
  intros Hl. split; cbn; try done; try set_solver.
  intros u. rewrite <- Hl. case_decide as Hu.
  - clear Hl. apply list_elem_of_fmap in Hu as (line & -> & Hline). induction l as [|line' l IH]; [set_solver|]. cbn.
      destruct (decide (line_uuid line' = line_uuid line)) as [Heq|Hne]; [by rewrite Heq, lookup_insert_eq|].
      rewrite lookup_insert_ne by done. apply IH. apply elem_of_cons in Hline as [->|Hline]; [done|exact Hline].
  - apply not_elem_of_list_to_map_1. intros Hin. apply Hu. rewrite <- list_fmap_compose in Hin. exact Hin.
Qed.

Lemma add_line_demand_is f line ls ps cs st : line_uuid line ∈ line_uuids -> demand_is ls ps cs st ->
  exists st', add_line_demand f line st = Ok st' /\ demand_is (ls ++ [(f, line_uuid line)]) ps cs st' /\
    totalTravelTimeSeconds st' = totalTravelTimeSeconds st.
Proof.
  intros Hline [H1 H2 H3 H4 [Hz1 Hz2] H5 H6]. unfold add_line_demand. rewrite (H1 (line_uuid line)), decide_True by done.
  eexists. split; [reflexivity|]. split; [|done]. split; cbn [lineProfiles pathProfiles pathTotalProfiles maximumSegmentHourlyDemand maximumSegmentTotalDemand]; try done.
  intros u. unfold of_line. rewrite filter_app, fmap_app. destruct (decide (line_uuid line = u)) as [<-|Hne].
  - rewrite lookup_insert_eq, decide_True by done. rewrite filter_cons_True, filter_nil by done. cbn.
    by rewrite float_sum_snoc.
  - rewrite lookup_insert_ne by done. rewrite filter_cons_False, filter_nil by done. cbn. rewrite app_nil_r. apply H1.
Qed.

Lemma add_path_is path ls ps cs st : length (path_nodesRef path) = S (segments (path_uuid path)) -> demand_is ls ps cs st ->
  exists st', add_path path st = Ok st' /\ demand_is ls (path_uuid path :: ps) cs st' /\
    totalTravelTimeSeconds st' = totalTravelTimeSeconds st.
Proof.
  intros Hlen [H1 H2 H3 H4 [Hz1 Hz2] H5 H6]. unfold add_path.
  destruct (decide (path_uuid path ∈ ps)) as [Hin|Hout].
  - destruct (H4 _ Hin) as (l & -> & _). eexists. split; [reflexivity|]. split; [|done]. split; try done; intros p Hp.
    + apply H2. set_solver.
    + apply H3. set_solver.
    + apply H4. set_solver.
  - destruct (H2 _ Hout) as (-> & _ & Hcs). rewrite Hlen. cbn [Nat.eqb Nat.sub]. rewrite Nat.sub_0_r.
    eexists. split; [reflexivity|]. split; [|done].
    assert (forall k, total_of (path_uuid path) k cs = []) as Htotal.
    { intros k. unfold total_of. rewrite filter_none; [done|]. apply Forall_forall. intros c Hc [Hp _]. by apply (Hcs c). }
    assert (forall k h, hourly_of (path_uuid path) k h cs = []) as Hhourly.
    { intros k h. unfold hourly_of. rewrite filter_none; [done|]. apply Forall_forall. intros c Hc [Hp _]. by apply (Hcs c). }
    split; cbn [lineProfiles pathProfiles pathTotalProfiles maximumSegmentHourlyDemand maximumSegmentTotalDemand]; try done.
    + intros p Hp. apply not_elem_of_cons in Hp as [Hne Hp]. by rewrite !lookup_insert_ne by done; apply H2.
    + intros p Hp. destruct (decide (p = path_uuid path)) as [->|Hne].
      * rewrite lookup_insert_eq. eexists. split; [reflexivity|]. split; [by rewrite length_replicate|].
        intros k x Hx. apply lookup_replicate in Hx as [-> _]. by rewrite Htotal.
      * rewrite lookup_insert_ne by done. apply H3. set_solver.
    + intros p Hp. destruct (decide (p = path_uuid path)) as [->|Hne].
      * rewrite lookup_insert_eq. eexists. split; [reflexivity|]. split; [by rewrite length_replicate|].
        intros k hours Hx. apply lookup_replicate in Hx as [-> _]. split; [done|].
        intros h x Hx. unfold demandByHourOfDay in Hx. apply lookup_replicate in Hx as [-> _]. by rewrite Hhourly.
      * rewrite lookup_insert_ne by done. apply H4. set_solver.
    + intros p l x Hl Hx. destruct (decide (p = path_uuid path)) as [->|Hne].
      * rewrite lookup_insert_eq in Hl. injection Hl as <-. by apply elem_of_replicate in Hx as [-> _].
      * rewrite lookup_insert_ne in Hl by done. by eapply H5.
    + intros p l hours x Hl Hhours Hx. destruct (decide (p = path_uuid path)) as [->|Hne].
      * rewrite lookup_insert_eq in Hl. injection Hl as <-. apply elem_of_replicate in Hhours as [-> _].
        unfold demandByHourOfDay in Hx. by apply elem_of_replicate in Hx as [-> _].
      * rewrite lookup_insert_ne in Hl by done. by eapply H6.
Qed.

(** One connection, of a segment of the path and of an hour up to 28. *)
Lemma add_segment_is f path times k dep ls ps cs st :
  path_uuid path ∈ ps -> (k < segments (path_uuid path))%nat -> times !! k = Some dep -> 0 <= dep < 29 * 3600 ->
  demand_is ls ps cs st ->
  exists st', add_segment f path times (Z.of_nat k) st = Ok st' /\
    demand_is ls ps (cs ++ [mkContribution f (path_uuid path) k (Z.to_nat (Z.quot dep 3600))]) st' /\
    totalTravelTimeSeconds st' = totalTravelTimeSeconds st.
Proof.
  intros Hps Hk Hdep Hhour [H1 H2 H3 H4 [Hz1 Hz2] H5 H6]. unfold add_segment, vec_index, vec_get.
  destruct (H3 _ Hps) as (totals & Ht & Htn & Htv). destruct (H4 _ Hps) as (profile & Hp & Hpn & Hpv).
  rewrite !Nat2Z.id, Hdep, Ht, Hp. destruct (Z.ltb_spec (Z.of_nat k) 0); [lia|].
  change (default [] (Some totals)) with totals. change (default [] (Some profile)) with profile. cbn [mbind result_bind].
  set (h := Z.quot dep 3600). assert (0 <= h < 29) as Hh by (split; [apply Z.quot_pos; lia|apply Z.quot_lt_upper_bound; lia]).
  destruct (lookup_lt_is_Some_2 profile k) as [hours Hhours]; [lia|]. destruct (Hpv k hours Hhours) as [Hhn Hhv].
  rewrite Hhours. cbn [mbind result_bind]. destruct (Z.ltb_spec h 0); [lia|].
  destruct (lookup_lt_is_Some_2 hours (Z.to_nat h)) as [x Hx]; [lia|]. rewrite Hx. cbn [mbind result_bind].
  destruct (lookup_lt_is_Some_2 totals k) as [y Hy]; [lia|]. rewrite Hy. cbn [mbind result_bind].
  eexists. split; [reflexivity|]. split; [|done].
  pose proof (Htv k y Hy) as ->. pose proof (Hhv _ x Hx) as ->. set (p := path_uuid path) in *.
  split; cbn [lineProfiles pathProfiles pathTotalProfiles maximumSegmentHourlyDemand maximumSegmentTotalDemand].
  - exact H1.
  - intros q Hq. assert (p <> q) as Hne by (by intros <-). rewrite !lookup_insert_ne by done.
    destruct (H2 q Hq) as (-> & -> & Hcs). split_and!; [done|done|]. intros c Hc.
    apply elem_of_app in Hc as [Hc|Hc]; [by apply Hcs|]. apply list_elem_of_singleton in Hc as ->. done.
  - intros q Hq. destruct (decide (p = q)) as [<-|Hne].
    + rewrite lookup_insert_eq. eexists. split; [reflexivity|]. split; [by rewrite length_insert|]. intros j z Hz.
      rewrite total_of_snoc. cbn [c_path c_segment c_factor]. apply insert_cases in Hz as [[-> ->]|[Hj Hz]].
      * by rewrite decide_True, float_sum_snoc.
      * rewrite decide_False, app_nil_r by (intros [_ <-]; done). by apply Htv.
    + rewrite lookup_insert_ne by done. destruct (H3 q Hq) as (l & Hl & Hn & Hv). exists l. split_and!; [done|done|].
      intros j z Hz. rewrite total_of_snoc, decide_False, app_nil_r by (intros [? _]; done). by apply Hv.
  - intros q Hq. destruct (decide (p = q)) as [<-|Hne].
    + rewrite lookup_insert_eq. eexists. split; [reflexivity|]. split; [by rewrite length_insert|]. intros j hs Hhs.
      apply insert_cases in Hhs as [[-> ->]|[Hj Hhs]].
      * split; [by rewrite length_insert|]. intros g z Hz. rewrite hourly_of_snoc. cbn [c_path c_segment c_hour c_factor].
        apply insert_cases in Hz as [[-> ->]|[Hg Hz]]; [by rewrite decide_True, float_sum_snoc|].
        rewrite decide_False, app_nil_r by (intros (_ & _ & <-); done). by apply Hhv.
      * destruct (Hpv j hs Hhs) as [Hn Hv]. split; [done|]. intros g z Hz.
        rewrite hourly_of_snoc, decide_False, app_nil_r by (intros (_ & Hjk & _); by apply Hj). by apply Hv.
    + rewrite lookup_insert_ne by done. destruct (H4 q Hq) as (l & Hl & Hn & Hv). exists l. split_and!; [done|done|].
      intros j hs Hhs. destruct (Hv j hs Hhs) as [Hn' Hv']. split; [done|]. intros g z Hz.
      rewrite hourly_of_snoc, decide_False, app_nil_r by (intros [? _]; done). by apply Hv'.
  - split; apply maximum_updated; by left.
  - intros q l z Hl Hz. apply maximum_updated. destruct (decide (p = q)) as [<-|Hne].
    + rewrite lookup_insert_eq in Hl. injection Hl as <-. apply insert_elem in Hz as [->|Hz]; [by right|left; by eapply H5].
    + rewrite lookup_insert_ne in Hl by done. left. by eapply H5.
  - intros q l hs z Hl Hhs Hz. apply maximum_updated. destruct (decide (p = q)) as [<-|Hne].
    + rewrite lookup_insert_eq in Hl. injection Hl as <-. apply insert_elem in Hhs as [->|Hhs]; [|left; by eapply H6].
      apply insert_elem in Hz as [->|Hz]; [by right|left; eapply H6; [exact Hp|by eapply list_elem_of_lookup_2|exact Hz]].
    + rewrite lookup_insert_ne in Hl by done. left. by eapply H6.
Qed.

(** ** Legs *)

Context (td : TransitData).
Implicit Types (leg : Leg) (f : spec_float).

Notation leg_line leg := (line_uuid (trip_line (leg_tripOf leg))).
Notation leg_path leg := (path_uuid (trip_path (leg_tripOf leg))).

(** The departure of a connection of the trip, by its index. *)
Definition leg_departure leg (k : nat) : Z := default 0 (connectionDepartureTimes td (leg_tripOf leg) !! k).

(** A leg of the network: its line is known, and the connections between its indexes are
    those of the path, with departures before 29:00. *)
Record leg_ok leg : Prop := {
  lg_line : leg_line leg ∈ line_uuids;
  lg_path : length (path_nodesRef (trip_path (leg_tripOf leg))) = S (segments (leg_path leg));
  lg_start : 0 <= leg_start leg;
  lg_times k : leg_start leg <= k <= leg_end leg -> (Z.to_nat k < segments (leg_path leg))%nat /\
    exists dep, connectionDepartureTimes td (leg_tripOf leg) !! Z.to_nat k = Some dep /\ 0 <= dep < 29 * 3600
}.

Definition contribution_at f leg (k : nat) : contribution :=
  mkContribution f (leg_path leg) k (Z.to_nat (Z.quot (leg_departure leg k) 3600)).

Definition leg_contributions f leg : list contribution := contribution_at f leg ∘ Z.to_nat <$> leg_connections leg.

Lemma add_connections_is f leg ls ps (l : list Z) : leg_path leg ∈ ps ->
  Forall (fun k => 0 <= k /\ (Z.to_nat k < segments (leg_path leg))%nat /\
    exists dep, connectionDepartureTimes td (leg_tripOf leg) !! Z.to_nat k = Some dep /\ 0 <= dep < 29 * 3600) l ->
  forall cs st, demand_is ls ps cs st ->
  exists st', for_each (add_segment f (trip_path (leg_tripOf leg)) (connectionDepartureTimes td (leg_tripOf leg))) l st = Ok st' /\
    demand_is ls ps (cs ++ (contribution_at f leg ∘ Z.to_nat <$> l)) st' /\ totalTravelTimeSeconds st' = totalTravelTimeSeconds st.
Proof.
  intros Hps. induction 1 as [|k l (Hk0 & Hk & dep & Hdep & Hhour) _ IH]; intros cs st Hst.
  { exists st. rewrite app_nil_r. done. }
  destruct (add_segment_is f (trip_path (leg_tripOf leg)) _ (Z.to_nat k) dep ls ps cs st Hps Hk Hdep Hhour Hst)
    as (st1 & Hrun & Hst1 & Ht1).
  rewrite Z2Nat.id in Hrun by done. cbn [for_each]. rewrite Hrun. cbn [mbind result_bind].
  destruct (IH _ st1 Hst1) as (st' & Hrun' & Hst' & Ht'). exists st'. split; [exact Hrun'|]. split; [|congruence].
  rewrite fmap_cons. cbn [compose]. unfold contribution_at at 1, leg_departure. rewrite Hdep.
  by rewrite <- app_assoc in Hst'.
Qed.

Lemma add_leg_is f leg ls ps cs st : leg_ok leg -> demand_is ls ps cs st ->
  exists st', add_leg td f leg st = Ok st' /\
    demand_is (ls ++ [(f, leg_line leg)]) (leg_path leg :: ps) (cs ++ leg_contributions f leg) st' /\
    totalTravelTimeSeconds st' = totalTravelTimeSeconds st.
Proof.
  intros [Hline Hpath Hstart Htimes] Hst. unfold add_leg.
  destruct (add_line_demand_is f _ ls ps cs st Hline Hst) as (st1 & -> & Hst1 & Ht1). cbn [mbind result_bind].
  destruct (add_path_is _ _ ps cs st1 Hpath Hst1) as (st2 & -> & Hst2 & Ht2). cbn [mbind result_bind].
  destruct (add_connections_is f leg (ls ++ [(f, leg_line leg)]) (leg_path leg :: ps) (leg_connections leg)) with (cs := cs) (st := st2)
    as (st' & Hrun & Hst' & Ht'); [by left| |exact Hst2|].
  - apply Forall_forall. intros k Hk. apply elem_of_seqZ in Hk. destruct (Htimes k) as [Hk' Hdep]; [lia|]. split; [lia|done].
  - exists st'. split; [exact Hrun|]. split; [exact Hst'|congruence].
Qed.

(** The legs of the trips, in order, each with the factor of its trip. *)
Definition lines_of (ds : list (spec_float * Leg)) : list (spec_float * uuid) := (fun d => (d.1, leg_line d.2)) <$> ds.
Definition paths_of (ds : list (spec_float * Leg)) : list uuid := reverse ((fun d => leg_path d.2) <$> ds).
Definition contributions_of (ds : list (spec_float * Leg)) : list contribution := flat_map (fun d => leg_contributions d.1 d.2) ds.


Lemma all_legs_is ds' st : Forall (fun d => leg_ok d.2) ds' -> demand_is [] [] [] st ->
  exists st', for_each (fun d => add_leg td d.1 d.2) ds' st = Ok st' /\
    demand_is (lines_of ds') (paths_of ds') (contributions_of ds') st'.
Proof.
  intros Hds.
  enough (forall st ds, demand_is (lines_of ds) (paths_of ds) (contributions_of ds) st ->
            exists st', for_each (fun d => add_leg td d.1 d.2) ds' st = Ok st' /\
              demand_is (lines_of (ds ++ ds')) (paths_of (ds ++ ds')) (contributions_of (ds ++ ds')) st') as H
    by exact (H st []).
  clear st.
  induction Hds as [|[f leg] ds' Hleg _ IH]; intros st ds Hst; [exists st; by rewrite app_nil_r|].
  destruct (add_leg_is f leg _ _ _ st Hleg Hst) as (st1 & Hrun1 & Hst1 & _). cbn [for_each fst snd]. rewrite Hrun1. cbn [mbind result_bind].
  destruct (IH st1 (ds ++ [(f, leg)])) as (st' & Hrun' & Hst').
  { unfold lines_of, paths_of, contributions_of in *. rewrite !fmap_app, reverse_app, flat_map_app. cbn [flat_map fmap list_fmap fst snd].
    by rewrite app_nil_r. }
  exists st'. split; [exact Hrun'|]. by rewrite cons_middle, app_assoc.
Qed.

Lemma of_lines u ds : of_line u (lines_of ds) = fst <$> filter (fun d => leg_line d.2 = u) ds.
Proof.
  unfold of_line, lines_of. induction ds as [|[f leg] ds IH]; [done|]. rewrite fmap_cons. cbn [fst snd].
  destruct (decide (leg_line leg = u)) as [Hu|Hu].
  - rewrite !filter_cons_True by exact Hu. rewrite !fmap_cons, IH. done.
  - rewrite !filter_cons_False by exact Hu. exact IH.
Qed.
End Demand.

(** ** The legs that cover a segment *)

Section Coverage.
Context (td : TransitData).
Implicit Types (leg : Leg) (f : spec_float).

(** What a condition on one segment keeps of a leg. *)
Lemma leg_covers (Q : contribution -> Prop) `{!forall c, Decision (Q c)} f leg (k : nat) :
  0 <= leg_start leg -> (forall c, Q c -> c_segment c = k) ->
  c_factor <$> filter Q (leg_contributions td f leg) =
    if decide (leg_start leg <= Z.of_nat k <= leg_end leg /\ Q (contribution_at td f leg k)) then [f] else [].
Proof.
  intros Hstart HQ. unfold leg_contributions, leg_connections.
  assert (forall l, (forall z, z ∈ l -> 0 <= z /\ z <> Z.of_nat k) ->
            filter Q (contribution_at td f leg ∘ Z.to_nat <$> l) = []) as Hother.
  { intros l Hl. apply filter_none, Forall_forall. intros c Hc Hq. apply list_elem_of_fmap in Hc as (z & -> & Hz).
    apply HQ in Hq. cbn in Hq. specialize (Hl z Hz). lia. }
  destruct (decide (leg_start leg <= Z.of_nat k <= leg_end leg)) as [Hin|Hout].
  - replace (leg_end leg - leg_start leg + 1) with ((Z.of_nat k - leg_start leg) + (1 + (leg_end leg - Z.of_nat k))) by lia.
    rewrite seqZ_app by lia. rewrite (seqZ_app _ 1) by lia. rewrite !fmap_app, !filter_app, !fmap_app.
    rewrite Hother by (intros z Hz; apply elem_of_seqZ in Hz; lia).
    replace (leg_start leg + (Z.of_nat k - leg_start leg)) with (Z.of_nat k) by lia.
    rewrite (Hother (seqZ (Z.of_nat k + 1) _)) by (intros z Hz; apply elem_of_seqZ in Hz; lia). rewrite app_nil_r.
    change (seqZ (Z.of_nat k) 1) with [Z.of_nat 0 + Z.of_nat k]. rewrite Z.add_0_l. cbn [fmap list_fmap compose]. rewrite Nat2Z.id.
    destruct (decide (Q (contribution_at td f leg k))) as [Hq|Hq].
    + rewrite filter_cons_True, filter_nil, decide_True by done. done.
    + rewrite filter_cons_False, filter_nil, decide_False by (try done; intros [_ ?]; done). done.
  - rewrite Hother; [by rewrite decide_False by (intros [? _]; done)|]. intros z Hz. apply elem_of_seqZ in Hz. lia.
Qed.

Lemma legs_cover (Q : contribution -> Prop) `{!forall c, Decision (Q c)} (ds : list (spec_float * Leg)) (k : nat) :
  Forall (fun d => 0 <= leg_start d.2) ds -> (forall c, Q c -> c_segment c = k) ->
  c_factor <$> filter Q (contributions_of td ds) =
    fst <$> filter (fun d => leg_start d.2 <= Z.of_nat k <= leg_end d.2 /\ Q (contribution_at td d.1 d.2 k)) ds.
Proof.
  intros Hds HQ. induction Hds as [|[f leg] ds Hstart _ IH]; [done|]. unfold contributions_of in *. cbn [flat_map fst snd].
  rewrite filter_app, fmap_app, IH, (leg_covers Q f leg k Hstart HQ). case_decide as Hd.
  - by rewrite filter_cons_True by exact Hd.
  - by rewrite filter_cons_False by exact Hd.
Qed.

Notation path_is p d := (path_uuid (trip_path (leg_tripOf (snd d))) = p).
Notation covers k d := (leg_start (snd d) <= Z.of_nat k <= leg_end (snd d)).

(** C39: The profiles of a survey, from the legs of its trips in order, each with the
    factor of its trip. No access is out of range. The profile of a line is the sum of
    the factors of the legs on it; the total of a segment of a path is that of the legs
    on the path that cover it, and the demand of an hour that of those which leave the
    segment in the hour; a path that no leg takes has no profile. The sums are those of
    [float], in the order of the legs, and no entry is above the maximum. *)
Theorem demand_profiles segments (ds : list (spec_float * Leg)) :
  Forall (fun d => leg_ok (line_uuid <$> getLines td) segments td d.2) ds ->
  exists st, for_each (fun d => add_leg td d.1 d.2) ds (OdProfiles_new (getLines td)) = Ok st /\
    (forall u, lineProfiles st !! u =
       if decide (u ∈ (line_uuid <$> getLines td))
       then Some (float_sum (fst <$> filter (fun d => line_uuid (trip_line (leg_tripOf d.2)) = u) ds)) else None) /\
    (forall p, ~ (exists d, d ∈ ds /\ path_is p d) -> pathTotalProfiles st !! p = None /\ pathProfiles st !! p = None) /\
    (forall p, (exists d, d ∈ ds /\ path_is p d) -> exists totals profile,
       pathTotalProfiles st !! p = Some totals /\ pathProfiles st !! p = Some profile /\
       length totals = segments p /\ length profile = segments p /\
       (forall k x, totals !! k = Some x -> x = float_sum (fst <$> filter (fun d => covers k d /\ path_is p d) ds)) /\
       forall k hours, profile !! k = Some hours -> length hours = 29%nat /\ forall h x, hours !! h = Some x ->
         x = float_sum (fst <$> filter (fun d => covers k d /\ path_is p d /\
                                          Z.to_nat (Z.quot (leg_departure td d.2 k) 3600) = h) ds)) /\
    (forall p l x, pathTotalProfiles st !! p = Some l -> x ∈ l -> SFltb (maximumSegmentTotalDemand st) x = false) /\
    (forall p l hours x, pathProfiles st !! p = Some l -> hours ∈ l -> x ∈ hours ->
       SFltb (maximumSegmentHourlyDemand st) x = false).
Proof.
  intros Hds. set (line_uuids := line_uuid <$> getLines td) in *.
  destruct (all_legs_is line_uuids segments td ds (OdProfiles_new (getLines td)) Hds) as (st & Hrun & [H1 H2 H3 H4 _ H5 H6]).
  { by apply demand_new. }
  assert (Forall (fun d => 0 <= leg_start d.2) ds) as Hstart by (eapply Forall_impl; [exact Hds|]; intros d []; done).
  assert (forall p, (exists d, d ∈ ds /\ path_is p d) <-> p ∈ paths_of ds) as Hpaths.
  { intros p. unfold paths_of. rewrite elem_of_reverse, list_elem_of_fmap. naive_solver. }
  exists st. split_and!; [exact Hrun| | | |exact H5|exact H6].
  - intros u. rewrite H1. case_decide; [|done]. f_equal. f_equal. apply of_lines.
  - intros p Hp. rewrite Hpaths in Hp. by destruct (H2 p Hp) as (-> & -> & _).
  - intros p Hp. apply Hpaths in Hp. destruct (H3 p Hp) as (totals & Ht & Htn & Htv). destruct (H4 p Hp) as (profile & Hpr & Hpn & Hpv).
    exists totals, profile. split_and!; try done.
    + intros k x Hx. rewrite (Htv k x Hx). f_equal. unfold total_of.
      rewrite (legs_cover _ ds k Hstart) by (by intros c [_ ?]). f_equal. apply list_filter_iff. cbn. tauto.
    + intros k hours Hh. destruct (Hpv k hours Hh) as [Hn Hv]. split; [done|]. intros h x Hx. rewrite (Hv h x Hx). f_equal.
      unfold hourly_of. rewrite (legs_cover _ ds k Hstart) by (by intros c (_ & ? & _)). f_equal. apply list_filter_iff. cbn. tauto.
Qed.
End Coverage.
