(* ===== verification/SurveyReport.v ===== *)
(** * The report of a survey, from its calculations

    With the constants of [OdTripLegacyParameters], [odTripsRouting] calculates each trip
    of the survey once, in order, and reports them all. *)

From Stdlib Require Import ZArith Lia.
From Corelib Require Import SpecFloat.
From stdpp Require Import base list gmap strings pretty.
From S2P Require Import Prelude.
From S2P Require Import Data.
From S2P Require Import Parameters.
From S2P Require Import RoutingResult.
From S2P Require Import ConnectionCache.
From S2P Require Import TransitData.
From S2P Require Import Calculator.
From S2P Require Import FloatBounds.
From S2P Require Import GeoFilters.
From S2P Require Import Calculation.
From S2P Require Import ResultToV2.
From S2P Require Import OdTripsRouting.

Local Open Scope Z_scope.

(** ** The size of the sample *)

(** An integer of at most 24 digits as a [float], aligned. *)
Lemma float_of_small (p : positive) : Z.pos p < 2 ^ 24 -> exists m e,
  float_of (Z.pos p) = S754_finite false m e /\ e <= 0 /\ Z.pos m = Z.pos p * 2 ^ (- e) /\ Zdigits2 (Z.pos m) = 24.
Proof.
  intros Hp. unfold float_of, binary_normalize, binary_round. change (Z.pos (digits2_pos p)) with (Zdigits2 (Z.pos p)).
  set (d := Zdigits2 (Z.pos p)). assert (1 <= d <= 24) as Hd.
  { split; [unfold d; cbn; lia|]. apply digits_upper; lia. }
  assert (fexp 24 128 (d + 0) = d - 24) as -> by (unfold fexp, emin; lia).
  pose proof (shl_align_spec p 0 (d - 24)) as [Hm He]. destruct (shl_align p 0 (d - 24)) as [m e]. cbn [fst snd] in Hm, He.
  assert (e = d - 24) as -> by lia. replace (Z.max (0 - (d - 24)) 0) with (24 - d) in Hm by lia.
  assert (Zdigits2 (Z.pos m) = 24) as Hdm.
  { destruct (digits_spec p) as [Hlow Hhigh]. fold d in Hlow, Hhigh. destruct (digits_spec m) as [Hl Hh].
    assert (2 ^ 23 <= Z.pos m < 2 ^ 24) as Hbound.
    { assert (2 ^ (d - 1) * 2 ^ (24 - d) = 2 ^ 23) as <- by (rewrite <- Z.pow_add_r by lia; f_equal; lia).
      assert (2 ^ d * 2 ^ (24 - d) = 2 ^ 24) as <- by (rewrite <- Z.pow_add_r by lia; f_equal; lia).
      rewrite Hm. split; [apply Z.mul_le_mono_nonneg_r; lia|apply Z.mul_lt_mono_pos_r; lia]. }
    pose proof (digits_upper (Z.pos m) 24). assert (23 < Zdigits2 (Z.pos m)); [|lia].
    apply (Z.pow_lt_mono_r_iff 2); [lia|pose proof (digits_nonneg (Z.pos m)); lia|lia]. }
  exists m, (d - 24). split; [|split; [lia|split; [by replace (- (d - 24)) with (24 - d) by lia|exact Hdm]]].
  unfold binary_round_aux, shr_fexp. rewrite Hdm. replace (fexp 24 128 (24 + (d - 24)) - (d - 24)) with 0 by (unfold fexp, emin; lia).
  cbn [shr shr_record_of_loc loc_of_shr_record shr_m round_nearest_even]. rewrite Hdm.
  replace (fexp 24 128 (24 + (d - 24)) - (d - 24)) with 0 by (unfold fexp, emin; lia).
  cbn [shr shr_record_of_loc shr_m]. destruct (Z.leb_spec (d - 24) (128 - 24)); [done|lia].
Qed.

(** Times one: the digits are the same. *)
Lemma times_one m e : Zdigits2 (Z.pos m) = 24 -> -23 <= e <= 0 ->
  SFmul 24 128 (S754_finite false m e) (float_of 1) = S754_finite false m e.
Proof.
  intros Hd He. change (float_of 1) with (S754_finite false 8388608 (-23)). unfold SFmul. cbn [xorb].
  rewrite Pos.mul_comm. change (8388608 * m)%positive with (m~0~0~0~0~0~0~0~0~0~0~0~0~0~0~0~0~0~0~0~0~0~0~0)%positive.
  unfold binary_round_aux, shr_fexp.
  assert (forall q, Zdigits2 (Z.pos q~0) = Zdigits2 (Z.pos q) + 1) as Hdouble by (intros q; cbn; lia).
  rewrite !Hdouble, Hd. replace (fexp 24 128 _ - (e + -23)) with 23 by (unfold fexp, emin; lia).
  cbn [shr SpecFloat.iter_pos shr_1 shr_record_of_loc orb]. replace (e + -23 + 23) with e by lia.
  cbn [loc_of_shr_record shr_m round_nearest_even]. rewrite Hd.
  replace (fexp 24 128 (24 + e) - e) with 0 by (unfold fexp, emin; lia). cbn [shr shr_record_of_loc shr_m].
  destruct (Z.leb_spec e (128 - 24)); [done|lia].
Qed.

(** The whole survey is in the sample. *)
Lemma sample_is_all n : 0 <= n < 2 ^ 24 -> int_of_ceil (float_of n * float_of 1)%float = Ok n.
Proof.
  intros Hn. destruct n as [|p|p]; [reflexivity| |lia].
  destruct (float_of_small p (proj2 Hn)) as (m & e & -> & He & Hm & Hd).
  assert (-23 <= e) as He'.
  { destruct (digits_spec m) as [_ Hhigh]. rewrite Hd in Hhigh. assert (2 ^ (- e) < 2 ^ 24) by nia.
    assert (- e < 24); [|lia]. by apply (Z.pow_lt_mono_r_iff 2); lia. }
  rewrite times_one by lia. unfold int_of_ceil. set (z := if 0 <=? e then _ else _).
  assert (z = Z.pos p) as ->.
  { unfold z. destruct (Z.leb_spec 0 e); [replace e with 0 in * by lia; cbn in Hm |- *; lia|].
    rewrite Hm, <- Z.mul_opp_l, Z.div_mul by (pose proof (Z.pow_pos_nonneg 2 (- e)); lia). lia. }
  unfold MIN_INT, MAX_INT. destruct (Z.leb_spec (-2147483648) (Z.pos p)); [|lia]. by destruct (Z.leb_spec (Z.pos p) 2147483647); [|lia].
Qed.

(** ** Loops *)

Lemma for_each_fmap {E A B S} (body : B -> S -> result E S) (g : A -> B) l s :
  for_each body (g <$> l) s = for_each (fun x => body (g x)) l s.
Proof. revert s. induction l as [|x l IH]; intros s; [done|]. cbn. destruct (body (g x) s); cbn; [apply IH|done]. Qed.

(** ** The total time does not meet the profiles *)

Definition with_total (z : Z) (st : OdProfiles) : OdProfiles :=
  mkOdProfiles (lineProfiles st) (pathProfiles st) (pathTotalProfiles st) (maximumSegmentHourlyDemand st)
    (maximumSegmentTotalDemand st) z.

Lemma with_total_with z z' st : with_total z (with_total z' st) = with_total z st.
Proof. done. Qed.

Lemma for_each_with_total {A} (body : A -> OdProfiles -> calc OdProfiles) z :
  (forall x st, body x (with_total z st) = with_total z <$> body x st) ->
  forall l st, for_each body l (with_total z st) = with_total z <$> for_each body l st.
Proof.
  intros Hbody l. induction l as [|x l IH]; intros st; [done|]. cbn [for_each]. rewrite Hbody.
  destruct (body x st) as [st'|e]; [apply IH|done].
Qed.

Lemma add_segment_with_total f path times k z st :
  add_segment f path times k (with_total z st) = with_total z <$> add_segment f path times k st.
Proof.
  unfold add_segment. cbn [with_total lineProfiles pathProfiles pathTotalProfiles]. cbv zeta.
  destruct (vec_index times k) as [dep|]; [|done]. cbn [mbind result_bind].
  destruct (vec_index (default [] (pathProfiles st !! path_uuid path)) k) as [hours|]; [|done]. cbn [mbind result_bind].
  destruct (vec_index hours (Z.quot dep 3600)); [|done]. cbn [mbind result_bind].
  by destruct (vec_index (default [] (pathTotalProfiles st !! path_uuid path)) k).
Qed.

Lemma add_leg_with_total td f leg z st : add_leg td f leg (with_total z st) = with_total z <$> add_leg td f leg st.
Proof.
  unfold add_leg, add_line_demand. cbn [with_total lineProfiles].
  destruct (lineProfiles st !! _) as [demand|]; [|done]. cbn [mbind result_bind].
  set (st1 := mkOdProfiles (<[_ := _]> (lineProfiles st)) (pathProfiles st) _ _ _ (totalTravelTimeSeconds st)).
  change (mkOdProfiles _ (pathProfiles (with_total z st)) _ _ _ _) with (with_total z st1).
  assert (forall path st, add_path path (with_total z st) = with_total z <$> add_path path st) as Hpath.
  { intros path st0. unfold add_path. cbn [with_total pathProfiles]. destruct (pathProfiles st0 !! path_uuid path); [done|].
    by destruct (length (path_nodesRef path) =? 0)%nat. }
  rewrite Hpath. destruct (add_path _ st1) as [st2|]; [|done]. cbn [mbind result_bind fmap result_fmap].
  apply for_each_with_total. intros k st3. apply add_segment_with_total.
Qed.

(** ** The calculations, one after the other *)

Section Report.
Context {J : Type} {library : JsonLibrary J} {boost : Boost} {geo : GeoFilter} {shuffling : Shuffle}.
Context {C : Type} {cache_ops : ScenarioConnectionCache C}.
Context (srv : Server) (parameters : RouteParameters) (now : N).
Notation td := (transitData srv).
Notation params := (OdTripLegacyParameters_new now).

Abbreviation outcome := (SingleCalculationResult + NoRoutingReason)%type.

(** What a calculation of a trip reads of the calculator: the trip, and the connections of
    the scenario when it keeps them. *)
Lemma od_calculation_reads c c' p resetFilters (cache : C) :
  odTripGlob c = odTripGlob c' ->
  (resetFilters = false -> connectionSet c = connectionSet c' /\ tripsDisabled c = tripsDisabled c') ->
  calculateSingle srv c p true resetFilters cache = calculateSingle srv c' p true resetFilters cache.
Proof using Type.
  intros Hglob Hfilters. unfold calculateSingle, reset, resetAccessFootpaths, resetEgressFootpaths, reset_departureTime.
  rewrite Hglob. destruct resetFilters; [reflexivity|]. by destruct (Hfilters eq_refl) as [-> ->].
Qed.

(** The outcome of each trip. The scenario is asked for until a calculation succeeds, and
    its connections are kept from then on. *)
Fixpoint od_calculations (trips : list OdTrip) (c : Calculator) (resetFilters : bool) (cache : C)
    : calc (list (OdTrip * outcome) * Calculator * C) :=
  match trips with
  | [] => Ok ([], c, cache)
  | odTrip :: trips' =>
      '(o, c1, cache1) ← od_calculation srv (od_parameters parameters odTrip) (set_odTripGlob odTrip c) resetFilters cache;
      '(outcomes, c2, cache2) ← od_calculations trips' c1 (match o with inl _ => false | inr _ => resetFilters end) cache1;
      Ok ((odTrip, o) :: outcomes, c2, cache2)
  end.

(** The legs of the results, each with the factor of its trip. *)
Definition outcome_legs (x : OdTrip * outcome) : list (spec_float * Leg) :=
  match x.2 with
  | inl result => (fun leg => (od_factor params x.1, leg)) <$> res_legs result
  | inr _ => []
  end.

(** The total of the travel times, of the trips with a leg. *)
Fixpoint total_times (l : list (OdTrip * outcome)) (total : Z) : calc Z :=
  match l with
  | [] => Ok total
  | (odTrip, inl result) :: l' =>
      if (0 <? length (res_legs result))%nat then
        total ← int_of (float_of total + od_factor params odTrip * float_of (res_totalTravelTime result))%float;
        total_times l' total
      else total_times l' total
  | (_, inr _) :: l' => total_times l' total
  end.

(** The document of a trip; [text] is the time of the query in hours and minutes. *)
Definition outcome_json (text : string) (x : OdTrip * outcome) : J :=
  let p := od_parameters parameters x.1 in
  json_update (odTrip_fields x.1 (od_factor params x.1))
    match x.2 with
    | inl result => single_odTripJson p result
    | inr _ =>
        let latlon q := json_array [json_double (latitude q); json_double (longitude q)] in
        json_object
          [("status", json_string STATUS_NO_ROUTING_FOUND); ("origin", latlon (getOrigin p)); ("destination", latlon (getDestination p));
           ("departureTime", json_string text);
           ("departureTimeSeconds", json_int (getTimeOfTrip (route_common parameters)))]%string
    end.

Lemma odTrip_selected_default odTrip : odTrip_selected params odTrip = true.
Proof using Type. reflexivity. Qed.

(** A round with these constants. *)
Lemma od_round_default trips i odTrip run : trips !! i = Some odTrip ->
  od_round srv parameters params trips i run =
    (run' ← od_trip srv parameters params odTrip
              (mkOdRun (set_odTripGlob odTrip (od_calculator run)) (od_cache run) (od_resetFilters run)
                 (od_documents run) (od_profiles run));
     Ok (Next run')).
Proof using Type.
  intros Hi. unfold od_round, vec_get. rewrite Hi. cbn [mbind result_bind]. cbv zeta. cbn [batchesCount batchNumber OdTripLegacyParameters_new].
  rewrite Z.rem_1_r. cbn [Z.eqb negb Z.sub Z.add Z.opp Z.pos_sub]. rewrite odTrip_selected_default. reflexivity.
Qed.

(** What a trip adds to the profiles and to the documents. *)
Lemma od_outcome_run text odTrip o st st' total : convertSecondsToFormattedTime (getTimeOfTrip (route_common parameters)) = Ok text ->
  for_each (fun d => add_leg td d.1 d.2) (outcome_legs (odTrip, o)) st = Ok st' ->
  total_times [(odTrip, o)] (totalTravelTimeSeconds st) = Ok total ->
  exists json, od_outcome srv (od_parameters parameters odTrip) (od_factor params odTrip) o st = Ok (json, with_total total st') /\
    json_update (odTrip_fields odTrip (od_factor params odTrip)) json = outcome_json text (odTrip, o).
Proof using Type.
  intros Htext Hlegs Htotal. destruct o as [result|reason]; cbn [outcome_legs snd fst] in Hlegs.
  - cbn [total_times] in Htotal. unfold od_outcome, result_accept. cbn [ResultToOdTripJsonVisitor visitSingleCalculationResult getResult].
    cbn [visit_response visit_legs visit_totalTravelTime]. change (default 0 (Some (res_totalTravelTime result))) with (res_totalTravelTime result).
    rewrite for_each_fmap in Hlegs. eexists. split; [|reflexivity]. unfold add_demand.
    destruct (res_legs result) as [|leg legs] eqn:Hres.
    { injection Hlegs as <-. injection Htotal as <-. by destruct st. }
    cbn [length Nat.ltb Nat.leb] in *. inv_ok. unfold add_travel_time. rewrite Hb. cbn [mbind result_bind].
    match goal with |- context [for_each ?g ?l (mkOdProfiles ?a ?b ?c ?d ?e ?z)] =>
      change (mkOdProfiles a b c d e z) with (with_total z st) end.
    rewrite for_each_with_total by (intros; apply add_leg_with_total). change (for_each (add_leg td (od_factor params odTrip)) (leg :: legs) st = Ok st') in Hlegs. by rewrite Hlegs.
  - injection Hlegs as <-. injection Htotal as <-. unfold od_outcome, noRoutingFoundResultToJson.
    change (getTimeOfTrip (route_common (od_parameters parameters odTrip))) with (getTimeOfTrip (route_common parameters)).
    rewrite Htext. cbn [mbind result_bind]. eexists. split; [by destruct st|reflexivity].
Qed.

(** The rounds over the rest of the trips. *)
Lemma od_rounds text trips : convertSecondsToFormattedTime (getTimeOfTrip (route_common parameters)) = Ok text ->
  forall rest done c b cache docs st outcomes c' cache' st' total,
  trips = done ++ rest -> od_calculations rest c b cache = Ok (outcomes, c', cache') ->
  for_each (fun d => add_leg td d.1 d.2) (flat_map outcome_legs outcomes) st = Ok st' ->
  total_times outcomes (totalTravelTimeSeconds st) = Ok total ->
  exists b', for_loop (od_round srv parameters params trips) (seq (length done) (length rest)) (mkOdRun c cache b docs st) =
    Ok (mkOdRun c' cache' b' (docs ++ (outcome_json text <$> outcomes)) (with_total total st')).
Proof using Type.
  intros Htext. induction rest as [|odTrip rest IH]; intros done c b cache docs st outcomes c' cache' st' total Htrips Hcalc Hlegs Htotal.
  { injection Hcalc as <- <- <-. injection Hlegs as <-. injection Htotal as <-. exists b. cbn. rewrite app_nil_r. by destruct st. }
  cbn [od_calculations] in Hcalc. apply bind_Ok_inv in Hcalc as ([[o c1] cache1] & Ho & Hcalc).
  apply bind_Ok_inv in Hcalc as ([[os c2] cache2] & Hos & Hcalc). injection Hcalc as <- <- <-.
  cbn [flat_map] in Hlegs. rewrite for_each_app in Hlegs. apply bind_Ok_inv in Hlegs as (st1 & Hst1 & Hst').
  assert (exists total1, total_times [(odTrip, o)] (totalTravelTimeSeconds st) = Ok total1 /\ total_times os total1 = Ok total)
    as (total1 & Ht1 & Ht).
  { cbn [total_times] in Htotal |- *. destruct o as [result|]; [|by eexists]. destruct (_ <? _)%nat; [|by eexists].
    apply bind_Ok_inv in Htotal as (z & Hz & Htotal). rewrite Hz. cbn. by eexists. }
  destruct (od_outcome_run text odTrip o st st1 total1 Htext) as (json & Hrun & Hjson); [done|done|].
  cbn [length seq for_loop].
  rewrite (od_round_default trips (length done) odTrip) by (rewrite Htrips; by apply list_lookup_middle).
  unfold od_trip. cbn [od_calculator od_cache od_resetFilters od_documents od_profiles]. rewrite Ho. cbn [mbind result_bind].
  rewrite Hrun. cbn [mbind result_bind].
  destruct (IH (done ++ [odTrip]) c1 (match o with inl _ => false | inr _ => b end) cache1
              (docs ++ [json_update (odTrip_fields odTrip (od_factor params odTrip)) json]) (with_total total1 st1)
              os c2 cache2 (with_total total1 st') total) as (b' & Hloop); try done.
  - by rewrite <- app_assoc.
  - rewrite for_each_with_total by (intros; apply add_leg_with_total). by rewrite Hst'.
  - exists b'. rewrite length_app in Hloop. cbn [length] in Hloop. rewrite Nat.add_1_r in Hloop. rewrite Hloop, Hjson.
    by rewrite <- app_assoc.
Qed.

(** The report of a survey of less than 2^24 trips. When its calculations end with
    results or reasons, its legs are in the network and its travel times add up to an
    [int], the document has one entry for each trip of the survey, in order: its result
    or that there is none, with the declared values of the trip; the profiles are those
    of all the legs, and the total is that of the times. No sampling, no batch and no
    filter is in effect. An empty survey gives an empty list and no status. *)
Theorem survey_report text c cache outcomes c' cache' st total :
  let trips := getOdTrips td in
  Z.of_nat (length trips) < 2 ^ 24 ->
  convertSecondsToFormattedTime (getTimeOfTrip (route_common parameters)) = Ok text ->
  od_calculations trips c true cache = Ok (outcomes, c', cache') ->
  for_each (fun d => add_leg td d.1 d.2) (flat_map outcome_legs outcomes) (OdProfiles_new (getLines td)) = Ok st ->
  total_times outcomes 0 = Ok total ->
  outcomes.*1 = trips /\
  odTripsRouting srv parameters params c cache =
    (text ← dump (if decide (trips = []) then json_object [("odTrips"%string, json_array [])]
                  else report_json params (outcome_json text <$> outcomes) (with_total total st));
     Ok (text, c', cache')).
Proof using Type.
  intros trips Hsmall Htext Hcalc Hst Htotal. split.
  - clear -Hcalc. revert c cache outcomes c' cache' Hcalc. generalize true as b. induction trips as [|odTrip l IH]; intros b c cache outcomes c' cache' Hcalc.
    { by injection Hcalc as <- _ _. }
    cbn [od_calculations] in Hcalc. apply bind_Ok_inv in Hcalc as ([[o c1] cache1] & Ho & Hcalc).
    apply bind_Ok_inv in Hcalc as ([[os c2] cache2] & Hos & Hcalc). injection Hcalc as <- _ _. cbn. f_equal. by eapply IH.
  - unfold odTripsRouting. fold trips. case_decide as Hempty.
    { rewrite Hempty in *. cbn in Hcalc. by injection Hcalc as <- <- <-. }
    destruct (Z.eqb_spec (Z.of_nat (length trips)) 0) as [Hlen|_]; [destruct trips; [done|cbn in Hlen; lia]|].
    cbv zeta. cbn [odTripsSampleRatio OdTripLegacyParameters_new].
    change (SFltb float_zero (float_of 1) && SFltb (float_of 1) (float_of 1)) with false. cbv iota.
    rewrite sample_is_all by lia. cbn [mbind result_bind]. rewrite Nat2Z.id.
    destruct (od_rounds text trips Htext trips [] c true cache [] (OdProfiles_new (getLines td)) outcomes c' cache' st total)
      as (b' & Hloop); try done.
    cbn [length] in Hloop. rewrite Hloop. reflexivity.
Qed.
End Report.
