(* ===== verification/HttpServer.v ===== *)
(** * The HTTP server

    [transit_routing_http_server.cpp]: the handlers of the requests, from the fields of
    the query string to the text of the response and the state they leave. The library
    that reads requests and calls the handlers is not part of the model; a handler runs
    alone here, and Interleaving has the accesses to the cache that the threads of the
    pool share. The texts for the log are left out. *)

From Stdlib Require Import ZArith Lia Ascii.
From Corelib Require Import SpecFloat.
From stdpp Require Import base list gmap strings pretty.
From S2P Require Import Prelude.
From S2P Require Import Data.
From S2P Require Import Attempt.
From S2P Require Import RoutingResult.
From S2P Require Import ConnectionSet.
From S2P Require Import ConnectionCache.
From S2P Require Import TransitData.
From S2P Require Import Calculator.
From S2P Require Import Calculation.
From S2P Require Import Numbers.
From S2P Require Import Parameters.
From S2P Require Import Alternatives.
From S2P Require Import ResultToV2.

Local Open Scope Z_scope.

(** ** Responses *)

Definition quoted (s : string) : string := String "034" (s +:+ String "034" EmptyString).

(** [{"key": "value", ...}]. *)
Definition json_fields (fields : list (string * string)) : string :=
  "{" +:+ String.concat ", " ((fun '(key, value) => quoted key +:+ ": " +:+ value) <$> fields) +:+ "}".

Definition data_error (code : string) : string :=
  json_fields [("status", quoted "data_error"); ("errorCode", quoted code)]%string.

(** [getFastErrorResponse]. *)
Definition getFastErrorResponse (status : DataStatus) : string :=
  match status with
  | READY => ""
  | DATA_READ_ERROR => data_error "DATA_ERROR"
  | NO_AGENCIES => data_error "MISSING_DATA_AGENCIES"
  | NO_LINES => data_error "MISSING_DATA_LINES"
  | NO_NODES => data_error "MISSING_DATA_NODES"
  | NO_PATHS => data_error "MISSING_DATA_PATHS"
  | NO_SCENARIOS => data_error "MISSING_DATA_SCENARIOS"
  | NO_SCHEDULES => data_error "MISSING_DATA_SCHEDULES"
  | NO_SERVICES => data_error "MISSING_DATA_SERVICES"
  end.

Definition missing_data (what code : string) : string :=
  json_fields [("status", quoted "error");
    ("error", json_fields [("error", quoted ("No " +:+ what +:+ " found")); ("code", quoted code)])]%string.

(** [intializeResponse], which no handler calls. *)
Definition intializeResponse (status : DataStatus) : string :=
  match status with
  | READY => ""
  | DATA_READ_ERROR => json_fields [("status", quoted "data_error")]%string
  | NO_AGENCIES => missing_data "agencies" "MISSING_DATA_AGENCIES"
  | NO_LINES => missing_data "lines" "MISSING_DATA_LINES"
  | NO_NODES => missing_data "nodes" "MISSING_DATA_NODES"
  | NO_PATHS => missing_data "paths" "MISSING_DATA_PATHS"
  | NO_SCENARIOS => missing_data "scenarios" "MISSING_DATA_SCENARIOS"
  | NO_SCHEDULES => missing_data "schedules" "MISSING_DATA_SCHEDULES"
  | NO_SERVICES => missing_data "services" "MISSING_DATA_SERVICES"
  end.

(** [getResponseCode]. *)
Definition getResponseCode (type : ParameterException) : string :=
  match type with
  | EMPTY_SCENARIO => "EMPTY_SCENARIO"
  | MISSING_SCENARIO => "MISSING_PARAM_SCENARIO"
  | MISSING_ORIGIN => "MISSING_PARAM_ORIGIN"
  | MISSING_DESTINATION => "MISSING_PARAM_DESTINATION"
  | MISSING_TIME_OF_TRIP => "MISSING_PARAM_TIME_OF_TRIP"
  | INVALID_SCENARIO => "INVALID_SCENARIO"
  | INVALID_ORIGIN => "INVALID_ORIGIN"
  | INVALID_DESTINATION => "INVALID_DESTINATION"
  | INVALID_NUMERICAL_DATA => "INVALID_NUMERICAL_DATA"
  | _ => "PARAM_ERROR_UNKNOWN"
  end.

Definition crlf : string := String "013" (String "010" EmptyString).

(** What a handler writes: the status line, three headers, and the body. *)
Definition http_response (status body : string) : string :=
  "HTTP/1.1 " +:+ status +:+ crlf +:+
  "Access-Control-Allow-Origin: *" +:+ crlf +:+
  "Content-Type: application/json; charset=utf-8" +:+ crlf +:+
  "Content-Length: " +:+ pretty (Z.of_nat (String.length body)) +:+ crlf +:+ crlf +:+ body.

Definition STATUS_200 : string := "200 OK".
Definition STATUS_400 : string := "400 OK".

Definition query_error (responseCode : string) : string :=
  json_fields [("status", quoted "query_error"); ("errorCode", quoted responseCode)]%string.

(** The last handler of exceptions of a request. *)
Definition unknown_error : string := http_response STATUS_400 (query_error "PARAM_ERROR_UNKNOWN").

(** ** The requests of the second version of the API *)

(** The [std::map] of the scenarios. *)
Definition scenario_map (td : TransitData) : gmap uuid Scenario :=
  list_to_map ((fun s => (scenario_uuid s, s)) <$> getScenarios td).

(** The response to a document; a text that [dump] refuses ends in [catch (...)]. *)
Definition document_response {J} `{!JsonLibrary J} (document : J) : string :=
  match json_dump document with
  | Some response => http_response STATUS_200 response
  | None => unknown_error
  end.

Section Requests.
Context {J : Type} `{!JsonLibrary J, !Boost, !Platform, !GeoFilter} {C : Type} `{!ScenarioConnectionCache C}.
Context (srv : Server) (dataStatus : DataStatus).
Implicit Types (queryFields : list (string * string)) (cache : C).
Notation scenarios := (scenario_map (transitData srv)).

(** What the cache holds after a calculation that ended with an exception: the reset puts
    the scenario in it, unless it is the reset that throws. A calculation of alternatives
    that fails later only finds the same scenario there. *)
Definition cache_after (p : CommonParameters) (origin destination : option Point) cache : C :=
  match reset srv Calculator_new p origin destination true true cache with
  | Ok (_, cache') => cache'
  | Throw _ => cache
  end.

(** The [try] blocks of a request: [calculate] is the inner one, up to the document it
    makes, which is absent after a null result; [noRouting] is the document of a
    [NoRoutingFoundException]. *)
Definition try_request {P} (parsed : result ParameterException P) (calculate : P -> calc (option J * C))
    (noRouting : P -> NoRoutingReason -> J) (cacheAfter : P -> C) cache : calc (string * C) :=
  match parsed with
  | Throw exp => Ok (http_response STATUS_400 (query_error (getResponseCode exp)), cache)
  | Ok queryParams =>
      match calculate queryParams with
      | Ok (Some document, cache') => Ok (document_response document, cache')
      | Ok (None, cache') => Ok (http_response STATUS_200 "", cache')
      | Throw (NoRoutingFound reason) =>
          Ok (document_response (noRouting queryParams reason), cacheAfter queryParams)
      | Throw OutOfRange | Throw BadOptionalAccess | Throw StdException => Ok (unknown_error, cacheAfter queryParams)
      | Throw e => Throw e
      end
  end.

(** [if (!response.empty()) { ...; return; }]. *)
Definition unless_error (response : string) (handle : calc (string * C)) cache : calc (string * C) :=
  if String.eqb response "" then handle else Ok (http_response STATUS_200 response, cache).

(** [if (queryParams.isWithAlternatives())]: one of the two calculations of a route. *)
Definition calculate_route (alternativesDocument : AlternativesResult -> RouteParameters -> J)
    (singleDocument : SingleCalculationResult -> RouteParameters -> J) cache (queryParams : RouteParameters)
    : calc (option J * C) :=
  if isWithAlternatives queryParams then
    '(alternativeResult, _, cache') ← alternativesRouting srv Calculator_new queryParams cache;
    Ok (Some (alternativesDocument alternativeResult queryParams), cache')
  else
    '(routingResult, _, cache') ← calculateSingle srv Calculator_new queryParams true true cache;
    Ok (option_map (fun result => singleDocument result queryParams) routingResult, cache').

Definition route_cache_after cache (queryParams : RouteParameters) : C :=
  cache_after (route_common queryParams) (Some (getOrigin queryParams)) (Some (getDestination queryParams)) cache.

(** [GET /v2/route]. *)
Definition v2_route queryFields cache : calc (string * C) :=
  unless_error (getFastErrorResponse dataStatus)
    (try_request (createRouteODParameter queryFields scenarios)
       (calculate_route alternatives_resultToJsonString single_resultToJsonString cache)
       route_noRoutingFoundResponse (route_cache_after cache) cache) cache.

(** [GET /v2/summary]. *)
Definition v2_summary queryFields cache : calc (string * C) :=
  unless_error (getFastErrorResponse dataStatus)
    (try_request (createRouteODParameter queryFields scenarios)
       (calculate_route summary_alternatives summary_single cache)
       summary_noRoutingFoundResponse (route_cache_after cache) cache) cache.

(** [GET /v2/accessibility]. *)
Definition v2_accessibility queryFields cache : calc (string * C) :=
  unless_error (getFastErrorResponse dataStatus)
    (try_request (createAccessibilityParameter queryFields scenarios)
       (fun queryParams =>
          '(accessibilityResult, _, cache') ← calculateAllNodes srv Calculator_new queryParams cache;
          Ok (option_map (fun result => allNodes_resultToJsonString result queryParams) accessibilityResult, cache'))
       place_noRoutingFoundResponse
       (fun queryParams =>
          let p := access_common queryParams in
          cache_after p (if isForwardCalculation p then Some (getPlace queryParams) else None)
            (if isForwardCalculation p then None else Some (getPlace queryParams)) cache)
       cache) cache.

(** The other requests. *)
Definition default_resource : string :=
  http_response STATUS_200 (json_fields [("status", quoted "error"); ("error", quoted "missing params")]%string).

Definition exit_resource : string := http_response STATUS_200 "".

(** The table of the resources; the library finds the one a path matches. *)
Inductive request :=
| RouteRequest (queryFields : list (string * string))
| SummaryRequest (queryFields : list (string * string))
| AccessibilityRequest (queryFields : list (string * string))
| ExitRequest
| OtherRequest.

Definition handle_request (r : request) cache : calc (string * C) :=
  match r with
  | RouteRequest queryFields => v2_route queryFields cache
  | SummaryRequest queryFields => v2_summary queryFields cache
  | AccessibilityRequest queryFields => v2_accessibility queryFields cache
  | ExitRequest => Ok (exit_resource, cache)
  | OtherRequest => Ok (default_resource, cache)
  end.

(** Requests one after the other. *)
Fixpoint serve (requests : list request) cache : calc (list string * C) :=
  match requests with
  | [] => Ok ([], cache)
  | r :: requests' =>
      '(response, cache1) ← handle_request r cache;
      '(responses, cache2) ← serve requests' cache1;
      Ok (response :: responses, cache2)
  end.
End Requests.

(** ** Updating the cache of the data *)

Section Update.
Context `{!Boost} (fetcher : string -> DataFetcher).

Definition names_keys : list string := ["names"; "caches"; "cache_names"; "name"; "cache"; "cache_name"]%string.
Definition path_keys : list string := ["path"; "custom_path"; "custom_cache_path"]%string.

(** One field: the names of the caches, and the path. *)
Definition update_field (field : string * string) (st : list string * string) : calc (list string * string) :=
  let '(cacheNames, customCacheDirectoryPath) := st in
  let parameterWithValueVector := split "=" (field.1 +:+ "=" +:+ field.2) in
  key ← vec_get parameterWithValueVector 0;
  if existsb (String.eqb key) names_keys then
    value ← vec_get parameterWithValueVector 1;
    Ok (cacheNames ++ split "," value, customCacheDirectoryPath)
  else if existsb (String.eqb key) path_keys then
    value ← vec_get parameterWithValueVector 1;
    Ok (cacheNames, value)
  else Ok st.

(** The update methods in their order, each with its name. *)
Definition updates : list (string * (DataFetcher -> attempt TransitData Z)) :=
  [("data_sources", @updateDataSources); ("persons", @updatePersons); ("od_trips", @updateOdTrips);
   ("agencies", @updateAgencies); ("services", @updateServices); ("nodes", @updateNodes);
   ("lines", @updateLines); ("paths", @updatePaths); ("scenarios", @updateScenarios);
   ("schedules", @updateSchedules)]%string.

(** The local variables of the loop over the names, and the data. *)
Record UpdateState := mkUpdateState {
  u_correctCacheName : bool;
  u_cacheNamesStr : string;
  u_data : TransitData
}.

Definition set_u_data (td : TransitData) (st : UpdateState) : UpdateState :=
  mkUpdateState (u_correctCacheName st) (u_cacheNamesStr st) td.

(** [if (cacheName == name || cacheName == "all") { correctCacheName = true; update; }]:
    the code that the update returns is ignored. *)
Definition update_one (customCacheDirectoryPath cacheName : string)
    (u : string * (DataFetcher -> attempt TransitData Z)) : attempt UpdateState () :=
  if String.eqb cacheName u.1 || String.eqb cacheName "all" then
    _ ← modify (fun st => mkUpdateState true (u_cacheNamesStr st) (u_data st));
    _ ← zoom u_data set_u_data (u.2 (fetcher customCacheDirectoryPath));
    mret ()
  else mret ().

(** [if (correctCacheName) { cacheNamesStr += cacheName; cacheNamesStr += ","; }] *)
Definition add_name (cacheName : string) (st : UpdateState) : UpdateState :=
  if u_correctCacheName st
  then mkUpdateState true (u_cacheNamesStr st +:+ cacheName +:+ ",") (u_data st) else st.

Definition update_name (customCacheDirectoryPath cacheName : string) : attempt UpdateState () :=
  _ ← each (update_one customCacheDirectoryPath cacheName) updates;
  modify (add_name cacheName).

(** [pop_back], undefined on an empty string. *)
Definition pop_back (s : string) : calc string :=
  if String.eqb s "" then Throw Undefined else Ok (String.substring 0 (String.length s - 1) s).

(** The loop over the names, and the response. *)
Definition update_names (cacheNames : list string) (customCacheDirectoryPath : string) : attempt TransitData string :=
  fun td =>
    let '(r, st) := each (update_name customCacheDirectoryPath) cacheNames (mkUpdateState false "" td) in
    (_ ← r;
     if (0 <? length cacheNames)%nat then
       cacheNamesStr ← pop_back (u_cacheNamesStr st);
       Ok (http_response STATUS_200
             (json_fields [("status", quoted "success"); ("cache_names", quoted cacheNamesStr);
                           ("custom_cache_path", quoted customCacheDirectoryPath)]%string))
     else
       Ok (http_response STATUS_200
             (json_fields [("status", quoted "error"); ("error", quoted "missing or wrong cache name")]%string)),
     u_data st).

(** [GET /updateCache]: the response, and the data it leaves. *)
Definition updateCache (queryFields : list (string * string)) : attempt TransitData string :=
  '(cacheNames, customCacheDirectoryPath) ← lift (for_each update_field queryFields ([], EmptyString));
  update_names cacheNames customCacheDirectoryPath.
End Update.

(** ** What an update request does *)

Lemma string_app_assoc (a b c : string) : (a +:+ b) +:+ c = a +:+ (b +:+ c).
Proof. induction a as [|x a IH]; [reflexivity|]. change (String x ((a +:+ b) +:+ c) = String x (a +:+ (b +:+ c))). by rewrite IH. Qed.

Lemma string_app_nil (a : string) : a +:+ "" = a.
Proof. induction a as [|x a IH]; [reflexivity|]. change (String x (a +:+ "") = String x a). by rewrite IH. Qed.

Lemma pop_back_app s a : pop_back (s +:+ String a "") = Ok s.
Proof.
  unfold pop_back. destruct (String.eqb_spec (s +:+ String a "") "") as [Hs|_]; [by destruct s|]. f_equal.
  induction s as [|x s IH]; [reflexivity|].
  change (String x s +:+ String a "") with (String x (s +:+ String a "")). cbn [String.length].
  rewrite Nat.sub_succ, Nat.sub_0_r. destruct (String.length (s +:+ String a "")) eqn:Hlen; [by destruct s|].
  cbn [String.substring]. rewrite Nat.sub_succ, Nat.sub_0_r in IH. by rewrite IH.
Qed.

(** Each token followed by a comma. *)
Definition with_commas (names : list string) : string := foldr (fun name s => name +:+ "," +:+ s) "" names.

Lemma with_commas_join names : names <> [] -> with_commas names = join "," names +:+ ",".
Proof.
  induction names as [|name names IH]; [done|]. intros _. cbn [with_commas foldr].
  destruct names as [|name' names]; [reflexivity|]. fold (with_commas (name' :: names)). rewrite IH by done.
  change (join "," (name :: name' :: names)) with (name +:+ String "," (join "," (name' :: names))).
  rewrite string_app_assoc. reflexivity.
Qed.

Lemma has_char_app a s t : has_char a (s +:+ t) = has_char a s || has_char a t.
Proof.
  induction s as [|b s IH]; [reflexivity|].
  change (Ascii.eqb a b || has_char a (s +:+ t) = Ascii.eqb a b || has_char a s || has_char a t).
  rewrite IH. apply orb_assoc.
Qed.

Lemma has_char_join a separator names :
  Ascii.eqb a separator = false -> Forall (fun name => has_char a name = false) names ->
  has_char a (join separator names) = false.
Proof.
  intros Ha. induction 1 as [|name names Hname Hnames IH]; [reflexivity|].
  destruct names as [|name' names]; [exact Hname|].
  change (has_char a (name +:+ String separator (join separator (name' :: names))) = false).
  rewrite has_char_app, Hname. cbn [has_char orb]. rewrite Ha. exact IH.
Qed.

Section UpdateSpec.
Context `{!Boost} {boost_laws : BoostLaws} (fetcher : string -> DataFetcher).
Implicit Types (names : list string) (td : TransitData).

(** The names that stand for an update, and the update methods each stands for. *)
Definition known_name (name : string) : bool :=
  existsb (String.eqb name)
    ["all"; "data_sources"; "persons"; "od_trips"; "agencies"; "services"; "nodes"; "lines"; "paths";
     "scenarios"; "schedules"]%string.

Definition updates_of (name : string) : list (DataFetcher -> attempt TransitData Z) :=
  if String.eqb name "all" then
    [@updateDataSources; @updatePersons; @updateOdTrips; @updateAgencies; @updateServices; @updateNodes;
     @updateLines; @updatePaths; @updateScenarios; @updateSchedules]
  else if String.eqb name "agencies" then [@updateAgencies]
  else if String.eqb name "data_sources" then [@updateDataSources]
  else if String.eqb name "lines" then [@updateLines]
  else if String.eqb name "nodes" then [@updateNodes]
  else if String.eqb name "od_trips" then [@updateOdTrips]
  else if String.eqb name "paths" then [@updatePaths]
  else if String.eqb name "persons" then [@updatePersons]
  else if String.eqb name "scenarios" then [@updateScenarios]
  else if String.eqb name "schedules" then [@updateSchedules]
  else if String.eqb name "services" then [@updateServices]
  else [].

(** The updates of a list of names, one after the other, whatever their codes. *)
Definition apply_updates (path : string) names : attempt TransitData () :=
  each (fun u => _ ← u (fetcher path); mret ()) (flat_map updates_of names).

(** The rounds of the code that do an update. *)
Definition named (name : string) (u : string * (DataFetcher -> attempt TransitData Z)) : bool :=
  String.eqb name u.1 || String.eqb name "all".

Lemma known_name_spec name : existsb (named name) updates = known_name name.
Proof.
  unfold known_name, named, updates. cbn.
  repeat match goal with |- context [String.eqb name ?s] =>
    destruct (String.eqb_spec name s) as [->|_]; [reflexivity|] end. reflexivity.
Qed.

Lemma updates_of_spec name : (filter (fun u => named name u = true) updates).*2 = updates_of name.
Proof.
  unfold updates_of, named, updates. rewrite !filter_cons. cbn [fst].
  repeat match goal with |- context [String.eqb name ?s] =>
    destruct (String.eqb_spec name s) as [->|_]; [reflexivity|] end. reflexivity.
Qed.

Lemma each_updates {A S} (l : list (A * (DataFetcher -> attempt S Z))) f (s : S) :
  each (fun u => _ ← u.2 f; mret ()) l s = each (fun u => _ ← u f; mret ()) l.*2 s.
Proof.
  induction l as [|[x u] l IH] in s |- *; [reflexivity|]. cbn. unfold mbind, attempt_bind.
  destruct (u f s) as [[code|e] s']; [|reflexivity]. cbn. apply IH.
Qed.

(** The names from the first one that is known. *)
Fixpoint from_first_known names : list string :=
  match names with
  | [] => []
  | name :: names' => if known_name name then names else from_first_known names'
  end.

(** What a loop on the variables and the data does, by what it does to the data. *)
Definition on_data {A} (r : calc A * UpdateState) (td : calc () * TransitData) (correct : bool) (str : string) : Prop :=
  match td.1 with
  | Ok _ => exists a, r = (Ok a, mkUpdateState correct str td.2)
  | Throw e => r.1 = Throw e /\ u_data r.2 = td.2
  end.

Lemma update_loop path name l : forall correct str td,
  on_data (each (update_one fetcher path name) l (mkUpdateState correct str td))
    (each (fun u => _ ← u.2 (fetcher path); mret ()) (filter (fun u => named name u = true) l) td)
    (correct || existsb (named name) l) str.
Proof using Type.
  induction l as [|u l IH]; intros correct str td.
  - exists (). by rewrite orb_false_r.
  - rewrite filter_cons. cbn [each existsb]. unfold mbind, attempt_bind.
    change (update_one fetcher path name u) with
      (if named name u then
         _ ← modify (fun st => mkUpdateState true (u_cacheNamesStr st) (u_data st));
         _ ← zoom u_data set_u_data (u.2 (fetcher path)); mret ()
       else mret ()).
    case_decide as Hn; [rewrite Hn|apply not_true_is_false in Hn; rewrite Hn]; [|apply IH].
    cbn [each]. unfold mbind, attempt_bind, zoom, modify. cbn [u_cacheNamesStr u_data].
    destruct (u.2 (fetcher path) td) as [[code|e] td']; [|done].
    rewrite orb_true_r. exact (IH true str td').
Qed.

Lemma update_names_loop path names : forall correct str td,
  on_data (each (update_name fetcher path) names (mkUpdateState correct str td))
    (apply_updates path names td) (correct || existsb known_name names)
    (str +:+ with_commas (if correct then names else from_first_known names)).
Proof using Type.
  induction names as [|name names IH]; intros correct str td.
  - exists (). rewrite orb_false_r. destruct correct; cbn; by rewrite string_app_nil.
  - unfold apply_updates. cbn [each flat_map]. rewrite each_app.
    pose proof (update_loop path name updates correct str td) as Hloop.
    rewrite each_updates, updates_of_spec, known_name_spec in Hloop.
    unfold mbind, attempt_bind.
    change (update_name fetcher path name ?st) with
      ((each (update_one fetcher path name) updates ≫= fun _ => modify (add_name name)) st).
    unfold mbind, attempt_bind. destruct (each _ (updates_of name) td) as [[[]|e] td'].
    + destruct Hloop as ([] & ->). unfold modify, add_name.
      cbn [u_correctCacheName u_cacheNamesStr u_data existsb from_first_known]. specialize (IH (correct || known_name name)).
      destruct correct; cbn [orb] in *; [|destruct (known_name name); cbn [orb] in *].
      * specialize (IH (str +:+ name +:+ ",") td'). cbn [with_commas foldr].
        by rewrite !string_app_assoc in IH.
      * specialize (IH (str +:+ name +:+ ",") td'). cbn [with_commas foldr].
        by rewrite !string_app_assoc in IH.
      * apply IH.
    + destruct Hloop as [Hr Hdata].
      destruct (each (update_one fetcher path name) updates _) as [r st]. cbn in Hr, Hdata. subst r.
      exact (conj eq_refl Hdata).
Qed.

(** An unknown name changes nothing. *)
Lemma apply_updates_known path names td :
  apply_updates path names td = apply_updates path (filter (fun name => known_name name = true) names) td.
Proof using Type.
  unfold apply_updates.
  assert (flat_map updates_of names = flat_map updates_of (filter (fun name => known_name name = true) names)) as ->; [|done].
  induction names as [|name names IH]; [reflexivity|]. rewrite filter_cons. cbn [flat_map]. rewrite IH.
  case_decide as Hname; [done|]. apply not_true_is_false in Hname.
  assert (updates_of name = []) as ->; [|done].
  rewrite <- updates_of_spec. rewrite <- known_name_spec in Hname. revert Hname. generalize updates. intros l Hl.
  induction l as [|u l IHl]; [reflexivity|]. cbn in Hl. apply orb_false_iff in Hl as [Hu Hl].
  rewrite filter_cons. case_decide; [congruence|]. exact (IHl Hl).
Qed.

Lemma split_field key value :
  has_char "=" key = false -> has_char "=" value = false -> split "=" (key +:+ "=" +:+ value) = [key; value].
Proof using boost_laws.
  intros Hk Hv. apply (split_join "=" [key; value]); [done|repeat constructor; assumption].
Qed.

Definition plain_name (name : string) : Prop := has_char "," name = false /\ has_char "=" name = false.

Lemma update_field_names names cacheNames path :
  names <> [] -> Forall plain_name names ->
  update_field ("names"%string, join "," names) (cacheNames, path) = Ok (cacheNames ++ names, path).
Proof using boost_laws.
  intros Hne Hnames. unfold update_field. cbn [fst snd]. rewrite split_field; [|reflexivity|].
  2: { apply has_char_join; [reflexivity|]. eapply Forall_impl; [exact Hnames|]. intros name [_ Hn]. exact Hn. }
  cbn. rewrite split_join; [reflexivity|exact Hne|]. eapply Forall_impl; [exact Hnames|]. intros name [Hn _]. exact Hn.
Qed.

Lemma update_field_path path cacheNames path0 :
  has_char "=" path = false -> update_field ("path"%string, path) (cacheNames, path0) = Ok (cacheNames, path).
Proof using boost_laws.
  intros Hpath. unfold update_field. cbn [fst snd]. by rewrite split_field.
Qed.

(** C28: An update of the names given. The updates of the known names are done in the
    order of the names, each one's in the order of the code, whatever codes they return,
    up to the first that throws; the response says success and lists the names from the
    first known one on, unknown ones included; if no name is known, the last character
    is removed from an empty string, which is undefined. *)
Theorem updateCache_outcome names path td :
  names <> [] -> Forall plain_name names ->
  has_char "=" path = false ->
  updateCache fetcher [("names"%string, join "," names); ("path"%string, path)] td =
  match apply_updates path (filter (fun name => known_name name = true) names) td with
  | (Throw e, td') => (Throw e, td')
  | (Ok _, td') =>
      (match from_first_known names with
       | [] => Throw Undefined
       | reported =>
           Ok (http_response STATUS_200
                 (json_fields [("status", quoted "success"); ("cache_names", quoted (join "," reported));
                               ("custom_cache_path", quoted path)]%string))
       end, td')
  end.
Proof.
  intros Hne Hnames Hpath. rewrite <- apply_updates_known. unfold updateCache, lift, mbind, attempt_bind.
  cbn [for_each]. rewrite (update_field_names names _ _ Hne Hnames). cbn [mbind result_bind].
  rewrite (update_field_path path _ _ Hpath). cbn [app mbind result_bind].
  unfold update_names.
  pose proof (update_names_loop path names false "" td) as Hloop. unfold on_data in Hloop.
  destruct (apply_updates path names td) as [[[]|e] td']; cbn [fst snd] in Hloop.
  - destruct Hloop as ([] & ->). cbn [u_cacheNamesStr u_data]. change ("" +:+ ?s) with s. f_equal.
    destruct (Nat.ltb_spec 0 (length names)) as [_|Hlen]; [|destruct names; [done|cbn in Hlen; lia]].
    destruct (from_first_known names) as [|name reported] eqn:Hknown; [reflexivity|].
    rewrite with_commas_join by done. rewrite pop_back_app. reflexivity.
  - destruct Hloop as [Hr Hdata]. destruct (each _ names _) as [r st]. cbn in Hr, Hdata. by subst.
Qed.
End UpdateSpec.
