(* ===== verification/ServerCorrect.v ===== *)
(** * Every request is answered

    On a healthy server (data as they are loaded, footpaths as the map service is to
    give them) each request of a sequence gets its response: the document of a result
    or of the reason why there is none, or the code of what is wrong with its parameters. *)

From Stdlib Require Import ZArith Lia Sorted.
From Corelib Require Import SpecFloat.
From stdpp Require Import base list gmap strings pretty.
From S2P Require Import Prelude.
From S2P Require Import Data.
From S2P Require Import RoutingResult.
From S2P Require Import ConnectionSet.
From S2P Require Import ConnectionCache.
From S2P Require Import TransitData.
From S2P Require Import Calculator.
From S2P Require Import ForwardCorrect.
From S2P Require Import ResetCorrect.
From S2P Require Import OptimizeCorrect.
From S2P Require Import ReverseJourney.
From S2P Require Import Calculation.
From S2P Require Import QuerySetup.
From S2P Require Import Numbers.
From S2P Require Import Parameters.
From S2P Require Import Alternatives.
From S2P Require Import QueryTotal.
From S2P Require Import ResultToV2.
From S2P Require Import HttpServer.

Local Open Scope Z_scope.

Section Server.
Context {J : Type} `{!JsonLibrary J} {json_laws : JsonLibraryLaws J} `{!Boost, !Platform} {geo : GeoFilter}.
Context {C : Type} `{!ScenarioConnectionCache C} {cache_laws : ScenarioConnectionCacheLaws C}.
Context (srv : Server) (stop : Node -> Prop).
Notation td := (transitData srv).
Notation scenarios := (scenario_map td).

(** ** The healthy server *)

(** A connection as it is loaded, whatever a request asks. *)
Record loaded_connection (conn : Connection) : Prop := {
  ld_time : 0 <= getDepartureTime conn < getArrivalTime conn;
  ld_arrival : getArrivalTime conn <= 2 ^ 26;
  ld_dep_uid : (node_uid (getDepartureNode conn) <= Node_getMaxUid srv)%nat;
  ld_arr_uid : (node_uid (getArrivalNode conn) <= Node_getMaxUid srv)%nat;
  ld_trip_uid : (trip_uid (getTrip conn) <= Trip_getMaxUid srv)%nat;
  ld_transfers : Forall (footpath_ok (Node_getMaxUid srv)) (transferableNodes (getArrivalNode conn));
  ld_back : Forall (footpath_ok (Node_getMaxUid srv)) (reverseTransferableNodes (getDepartureNode conn));
  ld_self : exists f, f ∈ transferableNodes (getArrivalNode conn) /\
    ntd_node f = node_uid (getArrivalNode conn) /\ ntd_time f = 0;
  ld_back_self : exists f, f ∈ reverseTransferableNodes (getDepartureNode conn) /\
    ntd_node f = node_uid (getDepartureNode conn) /\ ntd_time f = 0;
  ld_trip : trip_ok (trip_forward td) (trip_reverse td) stop (getTrip conn)
}.

Record healthy : Prop := {
  he_data : well_formed td;
  he_conns : Forall loaded_connection (connections td);
  he_trips : Forall (fun t => (trip_uid t <= Trip_getMaxUid srv)%nat) (getTrips td);
  he_forward : forall u, default [] (tripForwardConnections td !! u) = filter (of_trip u) (forwardConnections td);
  he_reverse : forall u, default [] (tripReverseConnections td !! u) = filter (of_trip u) (reverseConnections td);
  he_walks : forall x e time, x ∈ connections td -> e ∈ connections td -> walk_out x e time <-> walk_in x e time;
  he_scenarios : NoDup (scenario_uuid <$> getScenarios td);
  he_stops : forall m n, stop m -> stop n -> node_uid m = node_uid n -> node_uuid m = node_uuid n;
  he_filter : forall point limit, 0 < limit < 65536 ->
    exists footpaths,
      getAccessibleNodesFootpathsFromPoint point (getNodes td) limit getWalkingSpeedMetersPerSecond = Ok footpaths /\
      Forall (footpath_ok (Node_getMaxUid srv)) footpaths /\ NoDup (ntd_node <$> footpaths)
}.

(** A time before 32:00, where the cache by hour ends, and a minimal waiting time that a
    [short] holds: beyond them the calculations go wrong. And less than 65536 seconds of
    walk at both ends: a [float] holds such a time. *)
Definition time_in_scope (p : CommonParameters) : Prop :=
  (getTimeOfTrip p < 32 * 3600 /\ getMinWaitingTimeSeconds p < 32768) /\
  (getMaxAccessWalkingTravelTimeSeconds p < 65536 /\ getMaxEgressWalkingTravelTimeSeconds p < 65536).

Context (Hhealthy : healthy).

Lemma scenario_of_map u s : scenarios !! u = Some s -> s ∈ getScenarios td.
Proof using Type.
  unfold scenario_map. intros Hu. apply elem_of_list_to_map_2, list_elem_of_fmap in Hu as (s' & [= _ ->] & Hs). exact Hs.
Qed.

Lemma healthy_network p :
  common_in_range scenarios p -> time_in_scope p -> network_ok srv p (getScenarios td) stop.
Proof using Hhealthy.
  intros Hp [[_ Hscope] _]. destruct Hhealthy as [Hdata Hconns Htrips Hf Hr Hwalks Hnd _ _].
  destruct (cr_scenario _ _ Hp) as [u Hu]. apply scenario_of_map in Hu.
  pose proof (cr_wait _ _ Hp). pose proof (cr_transfer _ _ Hp).
  split; try assumption; [split; try assumption|].
  - eapply Forall_impl; [exact Hconns|].
    intros conn [L1 L2 L3 L4 L5 L6 L7 (f & Hf1 & Hf2 & Hf3) _ L8].
    split; try assumption; [unfold MAX_INT; lia|apply getMinWaitingTimeOrDefault_nonneg; lia| |].
    + eapply Forall_impl; [exact L6|]. intros g [Hg1 Hg2]. split_and!; [exact Hg1|lia|unfold MAX_INT; lia].
    + exists f. split_and!; [exact Hf1|exact Hf2|lia].
  - eapply Forall_impl; [exact Hconns|].
    intros conn [L1 L2 L3 L4 L5 L6 L7 _ (f & Hf1 & Hf2 & Hf3) L8].
    split; try assumption.
    + eapply Forall_impl; [exact L7|]. intros g [Hg1 Hg2]. split; [exact Hg1|lia].
    + exists f. split_and!; [exact Hf1|exact Hf2|lia].
Qed.

(** The footpaths to the nodes near the ends of a query. *)
Lemma near_ends p : common_in_range scenarios p -> time_in_scope p -> forall point,
  (access_read srv p point = Ok (access_of srv p point) /\
   Forall (footpath_ok (Node_getMaxUid srv)) (access_of srv p point) /\ NoDup (ntd_node <$> access_of srv p point)) /\
  (egress_read srv p point = Ok (egress_of srv p point) /\
   Forall (footpath_ok (Node_getMaxUid srv)) (egress_of srv p point) /\ NoDup (ntd_node <$> egress_of srv p point)).
Proof using Hhealthy.
  intros Hp [_ [Ha He]] point. pose proof (cr_access _ _ Hp). pose proof (cr_egress _ _ Hp).
  unfold access_of, egress_of, access_read, egress_read.
  destruct (he_filter Hhealthy point (getMaxAccessWalkingTravelTimeSeconds p)) as (access & -> & Haccess); [lia|].
  destruct (he_filter Hhealthy point (getMaxEgressWalkingTravelTimeSeconds p)) as (egress & -> & Hegress); [lia|].
  auto.
Qed.

Lemma query_ends_ok p origin destination :
  common_in_range scenarios p -> time_in_scope p -> ends_ok srv p origin destination.
Proof using Hhealthy. intros Hp Hscope. split; intros pt _; by apply near_ends. Qed.

Lemma route_request_ok q cache :
  common_in_range scenarios (route_common q) -> time_in_scope (route_common q) ->
  cache_valid td (getScenarios td) cache ->
  request_ok srv (getScenarios td) stop q Calculator_new cache.
Proof using Hhealthy.
  intros Hp Hscope Hcache.
  split; [exact (healthy_network _ Hp Hscope)|reflexivity|exact Hcache|by apply query_ends_ok| | | |].
  - by apply near_ends.
  - by apply near_ends.
  - split; [apply (cr_time _ _ Hp)|apply (proj1 Hscope)].
  - eapply Forall_impl; [exact (he_conns Hhealthy)|]. intros conn. apply ld_arrival.
Qed.

Lemma place_request_ready a cache :
  common_in_range scenarios (access_common a) -> time_in_scope (access_common a) ->
  cache_valid td (getScenarios td) cache ->
  place_request_ok srv (getScenarios td) stop a Calculator_new cache.
Proof using Hhealthy.
  intros Hp Hscope Hcache.
  split; [exact (healthy_network _ Hp Hscope)|reflexivity|exact Hcache|by apply query_ends_ok| |].
  - by apply near_ends.
  - split; [apply (cr_time _ _ Hp)|apply (proj1 Hscope)].
Qed.

(** The cache after an exception is as valid as before. *)
Lemma cache_after_valid p origin destination (cache : C) :
  common_in_range scenarios p -> time_in_scope p -> cache_valid td (getScenarios td) cache ->
  cache_valid td (getScenarios td) (cache_after srv p origin destination cache).
Proof using Hhealthy cache_laws.
  intros Hp Hscope Hcache. pose proof (healthy_network _ Hp Hscope) as Hnet. unfold cache_after.
  destruct (reset srv Calculator_new p origin destination true true cache) as [[c1 cache1]|e] eqn:Hreset; [|exact Hcache].
  assert (ends_ok srv p origin destination) as Hends by (by apply query_ends_ok).
  destruct (reset_returns srv p (getScenarios td) Calculator_new origin destination cache c1 cache1 eq_refl
    (nw_server _ _ _ _ Hnet) Hcache Hends Hreset) as (_ & _ & _ & _ & _ & Hvalid). exact Hvalid.
Qed.

(** ** The responses *)

(** The document of an answer to the query [query]. *)
Record answer_document (query document : J) : Prop := {
  ad_query : json_get "query" document = Some query;
  ad_status : json_get "status" document = Some (json_string "success") \/
    json_get "status" document = Some (json_string "no_routing_found")
}.

Lemma answer_object status query key (value : J) :
  status = "success"%string \/ status = "no_routing_found"%string -> key <> "query"%string -> key <> "status"%string ->
  answer_document query
    (json_object [("status"%string, json_string status); ("query"%string, query); (key, value)]).
Proof using json_laws.
  intros Hstatus Hq Hs. split; rewrite json_get_object; unfold field; cbn;
    destruct (String.eqb_spec key "query"), (String.eqb_spec key "status"); try done.
  destruct Hstatus as [-> | ->]; [left|right]; reflexivity.
Qed.

(** What a request is to be given: the code of its first mistake, or an answer. *)
Definition parsed_response {P} (parsed : result ParameterException P) (query : P -> J) (response : string) : Prop :=
  match parsed with
  | Throw exp => response = http_response STATUS_400 (query_error (getResponseCode exp))
  | Ok queryParams =>
      exists document, answer_document (query queryParams) document /\ response = document_response document
  end.

Definition answered (r : request) (response : string) : Prop :=
  match r with
  | RouteRequest queryFields | SummaryRequest queryFields =>
      parsed_response (createRouteODParameter queryFields scenarios) parametersToRouteQueryResponse response
  | AccessibilityRequest queryFields =>
      parsed_response (createAccessibilityParameter queryFields scenarios) parametersToAccessibilityQueryResponse response
  | ExitRequest => response = exit_resource
  | OtherRequest => response = default_resource
  end.

(** The requests within the scope. *)
Definition in_scope (r : request) : Prop :=
  match r with
  | RouteRequest queryFields | SummaryRequest queryFields =>
      forall q, createRouteODParameter queryFields scenarios = Ok q -> time_in_scope (route_common q)
  | AccessibilityRequest queryFields =>
      forall a, createAccessibilityParameter queryFields scenarios = Ok a -> time_in_scope (access_common a)
  | ExitRequest | OtherRequest => True
  end.

Notation valid cache := (cache_valid td (getScenarios td) cache).

(** What the [try] blocks rely on. *)
Lemma try_request_total {P} (parsed : result ParameterException P) calculate noRouting cacheAfter (cache : C)
    (query : P -> J) :
  valid cache ->
  (forall q, parsed = Ok q ->
     match calculate q with
     | Ok (Some document, cache') => valid cache' /\ answer_document (query q) document
     | Ok (None, _) => False
     | Throw e => is_fault e = false
     end /\
     (forall reason, answer_document (query q) (noRouting q reason)) /\ valid (cacheAfter q)) ->
  exists response cache', try_request parsed calculate noRouting cacheAfter cache = Ok (response, cache') /\
    valid cache' /\ parsed_response parsed query response.
Proof using Type.
  intros Hcache Hparsed. unfold try_request, parsed_response.
  destruct parsed as [q|exp]; [|eexists _, _; split_and!; [reflexivity|exact Hcache|reflexivity]].
  destruct (Hparsed q eq_refl) as (Hcalc & Hnone & Hafter).
  destruct (calculate q) as [[[document|] cache']|e]; [|done|].
  - destruct Hcalc as [Hvalid Hdoc]. eexists _, _. split_and!; [reflexivity|exact Hvalid|]. exists document. done.
  - destruct e as [reason| | | | | | |]; try done. eexists _, _. split_and!; [reflexivity|exact Hafter|].
    exists (noRouting q reason). done.
Qed.

Lemma route_request_answered alternativesDocument singleDocument noRouting queryFields (cache : C) :
  valid cache ->
  (forall q, createRouteODParameter queryFields scenarios = Ok q -> time_in_scope (route_common q)) ->
  (forall q reason, answer_document (parametersToRouteQueryResponse q) (noRouting q reason)) ->
  (forall q res, answer_document (parametersToRouteQueryResponse q) (alternativesDocument res q)) ->
  (forall q res, answer_document (parametersToRouteQueryResponse q) (singleDocument res q)) ->
  exists response cache',
    try_request (createRouteODParameter queryFields scenarios)
      (calculate_route srv alternativesDocument singleDocument cache) noRouting (route_cache_after srv cache) cache =
    Ok (response, cache') /\ valid cache' /\
    parsed_response (createRouteODParameter queryFields scenarios) parametersToRouteQueryResponse response.
Proof using Hhealthy cache_laws.
  intros Hcache Hscope Hnone Halt Hsingle. apply try_request_total; [exact Hcache|]. intros q Hq.
  pose proof (route_parameters_typed queryFields scenarios) as Htyped. rewrite Hq in Htyped.
  destruct Htyped as [Hp _]. pose proof (Hscope q Hq) as Hs.
  pose proof (route_request_ok q cache Hp Hs Hcache) as Hok.
  split_and!; [|intros reason; apply Hnone|exact (cache_after_valid _ _ _ _ Hp Hs Hcache)].
  unfold calculate_route. destruct (isWithAlternatives q).
  - pose proof (alternatives_total srv _ stop (he_stops Hhealthy) q _ cache Hok) as Hans.
    destruct (alternativesRouting srv Calculator_new q cache) as [[[res c'] cache']|e]; cbn [mbind result_bind];
      [|exact Hans]. split; [exact Hans|apply Halt].
  - pose proof (single_total srv _ stop (he_stops Hhealthy) q _ cache Hok) as Hans.
    destruct (calculateSingle srv Calculator_new q true true cache) as [[[[res|] c'] cache']|e];
      cbn [mbind result_bind option_map]; [|done|exact Hans]. split; [apply Hans|apply Hsingle].
Qed.

Lemma place_request_answered queryFields (cache : C) :
  valid cache -> in_scope (AccessibilityRequest queryFields) ->
  exists response cache', v2_accessibility srv READY queryFields cache = Ok (response, cache') /\ valid cache' /\
    answered (AccessibilityRequest queryFields) response.
Proof using Hhealthy cache_laws json_laws.
  intros Hcache Hscope. apply try_request_total; [exact Hcache|]. intros a Ha.
  pose proof (place_parameters_typed queryFields scenarios) as Htyped. rewrite Ha in Htyped.
  destruct Htyped as [Hp _]. pose proof (Hscope a Ha) as Hs.
  pose proof (place_request_ready a cache Hp Hs Hcache) as Hok.
  split_and!; [|intros reason; apply answer_object; auto; done
    |exact (cache_after_valid _ _ _ _ Hp Hs Hcache)].
  pose proof (all_nodes_total srv _ stop (he_stops Hhealthy) a _ cache Hok) as Hans.
  destruct (calculateAllNodes srv Calculator_new a cache) as [[[[res|] c'] cache']|e];
    cbn [mbind result_bind option_map]; [|done|exact Hans]. split; [exact Hans|]. apply answer_object; auto; done.
Qed.

Lemma request_answered r (cache : C) :
  valid cache -> in_scope r ->
  exists response cache', handle_request srv READY r cache = Ok (response, cache') /\ valid cache' /\ answered r response.
Proof using Hhealthy cache_laws json_laws.
  intros Hcache Hscope. destruct r as [queryFields|queryFields|queryFields| |].
  - apply route_request_answered; [exact Hcache|exact Hscope|..]; intros; apply answer_object; auto; done.
  - apply route_request_answered; [exact Hcache|exact Hscope|..]; intros; apply answer_object; auto; done.
  - exact (place_request_answered queryFields cache Hcache Hscope).
  - eexists _, _. split_and!; [reflexivity|exact Hcache|reflexivity].
  - eexists _, _. split_and!; [reflexivity|exact Hcache|reflexivity].
Qed.

(** A sequence of requests, by induction. *)
Lemma requests_answered (requests : list request) (cache : C) :
  valid cache -> Forall in_scope requests ->
  exists responses cache', serve srv READY requests cache = Ok (responses, cache') /\ valid cache' /\
    Forall2 answered requests responses.
Proof.
  intros Hcache Hscope. revert cache Hcache.
  induction Hscope as [|r requests Hr _ IH]; intros cache Hcache; cbn [serve].
  - exists [], cache. split_and!; [reflexivity|exact Hcache|constructor].
  - destruct (request_answered r cache Hcache Hr) as (response & cache1 & -> & Hcache1 & Hans). cbn [mbind result_bind].
    destruct (IH cache1 Hcache1) as (responses & cache2 & -> & Hcache2 & Hall). cbn [mbind result_bind].
    exists (response :: responses), cache2. split_and!; [reflexivity|exact Hcache2|constructor; assumption].
Qed.

(** C29: A healthy server answers every sequence of requests within the scope: those whose
    parameters, when they parse, have a time before 32:00, a minimal waiting time below
    32768 seconds and less than 65536 seconds of walk at each end. Each handler returns,
    none of its calculations ending in an unhandled exception, undefined behaviour or a
    loop without end; the response is the one of its own request: the code of the
    mistake in its parameters with status 400, or a document with the query repeated
    and the result or the reason why there is none. *)
Theorem every_request_answered (requests : list request) (cache : C) :
  valid cache -> Forall in_scope requests ->
  exists responses cache', serve srv READY requests cache = Ok (responses, cache') /\ valid cache' /\
    Forall2 answered requests responses.
Proof. apply requests_answered. Qed.
End Server.
