(* ===== verification/ServerTransparent.v ===== *)
(** * The answers do not depend on the cache of connections

    The same request against two caches, of any kind and with any past, as long as what
    they hold is what is computed: each calculation, and each handler, does the same with
    both. So a request is answered as by a server that has just started. *)

From Stdlib Require Import ZArith Lia.
From stdpp Require Import base list gmap strings.
From S2P Require Import Prelude.
From S2P Require Import Data.
From S2P Require Import Numbers.
From S2P Require Import Parameters.
From S2P Require Import RoutingResult.
From S2P Require Import ConnectionSet.
From S2P Require Import ConnectionCache.
From S2P Require Import TransitData.
From S2P Require Import Calculator.
From S2P Require Import Calculation.
From S2P Require Import Alternatives.
From S2P Require Import ResultToV2.
From S2P Require Import HttpServer.
From S2P Require Import ServerCorrect.

Section Agreement.
Context {C1 C2 : Type} `{laws1 : ScenarioConnectionCacheLaws C1, laws2 : ScenarioConnectionCacheLaws C2} {geo : GeoFilter}.
Context (srv : Server).
Abbreviation td := (transitData srv).
Abbreviation known := (getScenarios td).
Abbreviation valid1 c := (cache_valid (C := C1) td known c).
Abbreviation valid2 c := (cache_valid (C := C2) td known c).

(** The same result, with caches that are valid again, or the same exception. *)
Definition agrees {A} (r1 : calc (A * C1)) (r2 : calc (A * C2)) : Prop :=
  match r1, r2 with
  | Ok (a1, c1), Ok (a2, c2) => a1 = a2 /\ valid1 c1 /\ valid2 c2
  | Throw e1, Throw e2 => e1 = e2
  | _, _ => False
  end.

Lemma agrees_Ok {A} (a : A) c1 c2 : valid1 c1 -> valid2 c2 -> agrees (Ok (a, c1)) (Ok (a, c2)).
Proof using Type. done. Qed.

Lemma agrees_bind {A B} (m1 : calc (A * C1)) (m2 : calc (A * C2)) (k1 : A * C1 -> calc (B * C1)) (k2 : A * C2 -> calc (B * C2)) :
  agrees m1 m2 -> (forall a c1 c2, valid1 c1 -> valid2 c2 -> agrees (k1 (a, c1)) (k2 (a, c2))) ->
  agrees (m1 ≫= k1) (m2 ≫= k2).
Proof using Type.
  destruct m1 as [[a1 c1]|e1], m2 as [[a2 c2]|e2]; cbn; try done. intros (-> & H1 & H2) Hk. auto.
Qed.

(** A step that does not see the cache. *)
Lemma agrees_shared {A B} (m : calc A) (k1 : A -> calc (B * C1)) (k2 : A -> calc (B * C2)) :
  (forall a, agrees (k1 a) (k2 a)) -> agrees (m ≫= k1) (m ≫= k2).
Proof using Type. intros Hk. destruct m; cbn; [apply Hk|done]. Qed.

Ltac agree :=
  repeat first
    [ progress cbv beta iota zeta
    | apply agrees_shared; intros ?
    | apply agrees_Ok; assumption
    | reflexivity
    | match goal with
      | |- agrees (if ?b then _ else _) _ => destruct b
      | |- agrees (match ?x with (_, _) => _ end) _ => destruct x
      | |- agrees (let '(_, _) := ?x in _) _ => destruct x
      end ].

Context (Hknown : NoDup (scenario_uuid <$> known)).

Lemma reset_agrees c p origin destination b1 b2 cache1 cache2 : getScenario p ∈ known -> valid1 cache1 -> valid2 cache2 ->
  agrees (reset srv c p origin destination b1 b2 cache1) (reset srv c p origin destination b1 b2 cache2).
Proof using Hknown laws1 laws2.
  intros Hs H1 H2. unfold reset. cbv zeta.
  apply agrees_shared. intros [access ok1]. apply agrees_shared. intros accessEnd.
  apply agrees_shared. intros [egress ok2]. apply agrees_shared. intros egressEnd.
  destruct (_ && _); [done|]. destruct (negb ok1); [done|]. destruct (negb ok2); [done|].
  destruct b2; [|by apply agrees_Ok]. unfold resetFilters.
  pose proof (getConnectionsForScenario_step td known (getScenario p) cache1 Hknown Hs H1) as [Heq1 Hv1].
  pose proof (getConnectionsForScenario_step td known (getScenario p) cache2 Hknown Hs H2) as [Heq2 Hv2].
  destruct (getConnectionsForScenario td _ cache1) as [cs1 c1], (getConnectionsForScenario td _ cache2) as [cs2 c2].
  cbn [fst snd] in *. rewrite Heq1, Heq2. by apply agrees_Ok.
Qed.

Lemma calculateSingle_agrees c q b1 b2 cache1 cache2 : getScenario (route_common q) ∈ known -> valid1 cache1 -> valid2 cache2 ->
  agrees (calculateSingle srv c q b1 b2 cache1) (calculateSingle srv c q b1 b2 cache2).
Proof using Hknown laws1 laws2.
  intros Hs H1 H2. unfold calculateSingle. cbv zeta. apply agrees_bind; [by apply reset_agrees|]. intros c1 k1 k2 Hk1 Hk2. agree.
Qed.

Lemma calculateAllNodes_agrees c a cache1 cache2 : getScenario (access_common a) ∈ known -> valid1 cache1 -> valid2 cache2 ->
  agrees (calculateAllNodes srv c a cache1) (calculateAllNodes srv c a cache2).
Proof using Hknown laws1 laws2.
  intros Hs H1 H2. unfold calculateAllNodes. cbv zeta. apply agrees_bind; [by apply reset_agrees|]. intros c1 k1 k2 Hk1 Hk2. agree.
Qed.

(** ** Alternatives *)

Lemma after_exception_agrees c q cache1 cache2 : getScenario (route_common q) ∈ known -> valid1 cache1 -> valid2 cache2 ->
  agrees (Ok (after_exception srv c q cache1)) (Ok (after_exception srv c q cache2)).
Proof using Hknown laws1 laws2.
  intros Hs H1 H2. unfold after_exception.
  pose proof (reset_agrees c (route_common q) (Some (getOrigin q)) (Some (getDestination q)) false true _ _ Hs H1 H2) as Hreset.
  by destruct (reset srv c _ _ _ _ _ cache1) as [[c1 k1]|e1], (reset srv c _ _ _ _ _ cache2) as [[c2 k2]|e2].
Qed.

Lemma try_combination_agrees q altq combination s c cache1 cache2 :
  getScenario (route_common altq) ∈ known -> valid1 cache1 -> valid2 cache2 ->
  agrees (try_combination srv q altq combination (s, c, cache1)) (try_combination srv q altq combination (s, c, cache2)).
Proof using Hknown laws1 laws2.
  intros Hs H1 H2. unfold try_combination. set (q' := set_exceptLines _ altq).
  assert (getScenario (route_common q') ∈ known) as Hs' by exact Hs.
  pose proof (calculateSingle_agrees c q' false true _ _ Hs' H1 H2) as Hcalc.
  pose proof (after_exception_agrees c q' _ _ Hs' H1 H2) as Hafter.
  destruct (calculateSingle srv c q' false true cache1) as [[[r1 c1] k1]|e1],
    (calculateSingle srv c q' false true cache2) as [[[r2 c2] k2]|e2]; cbn in Hcalc; try done.
  - destruct Hcalc as ([= -> ->] & Hk1 & Hk2). destruct r2; [|reflexivity]. agree.
  - subst e2. destruct e1; try reflexivity. cbv zeta.
    destruct (after_exception srv c q' cache1) as [c1 k1], (after_exception srv c q' cache2) as [c2 k2].
    destruct Hafter as (-> & Hk1 & Hk2). by apply agrees_Ok.
Qed.

Lemma search_loop_agrees q altq fuel : getScenario (route_common altq) ∈ known -> forall i s c cache1 cache2,
  valid1 cache1 -> valid2 cache2 ->
  agrees (search_loop srv q altq fuel i (s, c, cache1)) (search_loop srv q altq fuel i (s, c, cache2)).
Proof using Hknown laws1 laws2.
  intros Hs. induction fuel as [|fuel IH]; intros i s c cache1 cache2 H1 H2; cbn [search_loop fst snd];
    (destruct (_ && _); [|by apply agrees_Ok]); [reflexivity|].
  apply agrees_shared. intros combination. apply agrees_bind; [by apply try_combination_agrees|].
  intros [s' c'] k1 k2 Hk1 Hk2. by apply IH.
Qed.

Lemma alternativesRouting_agrees c q cache1 cache2 : getScenario (route_common q) ∈ known -> valid1 cache1 -> valid2 cache2 ->
  agrees (alternativesRouting srv c q cache1) (alternativesRouting srv c q cache2).
Proof using Hknown laws1 laws2.
  intros Hs H1 H2. unfold alternativesRouting. apply agrees_bind; [by apply calculateSingle_agrees|].
  intros [[result|] c1] k1 k2 Hk1 Hk2; [|reflexivity]. cbv zeta.
  apply agrees_shared. intros maxTravelTime. apply agrees_shared. intros s.
  apply agrees_bind; [by apply search_loop_agrees|]. intros [s' c'] k1' k2' ? ?. by apply agrees_Ok.
Qed.

(** ** Handlers *)

Context {J : Type} {library : JsonLibrary J} {boost : Boost} {platform : Platform}.
Context (dataStatus : DataStatus).
Abbreviation scenarios := (scenario_map td).

Lemma cache_after_agrees p origin destination cache1 cache2 : getScenario p ∈ known -> valid1 cache1 -> valid2 cache2 ->
  valid1 (cache_after srv p origin destination cache1) /\ valid2 (cache_after srv p origin destination cache2).
Proof using Hknown laws1 laws2.
  intros Hs H1 H2. unfold cache_after.
  pose proof (reset_agrees Calculator_new p origin destination true true _ _ Hs H1 H2) as Hreset.
  destruct (reset srv Calculator_new _ _ _ _ _ cache1) as [[c1 k1]|e1], (reset srv Calculator_new _ _ _ _ _ cache2) as [[c2 k2]|e2];
    cbn in Hreset; tauto.
Qed.

Lemma try_request_agrees {P} (parsed : result ParameterException P) calculate1 calculate2 (noRouting : P -> NoRoutingReason -> J)
    after1 after2 cache1 cache2 :
  valid1 cache1 -> valid2 cache2 ->
  (forall q, parsed = Ok q -> agrees (calculate1 q) (calculate2 q) /\ valid1 (after1 q) /\ valid2 (after2 q)) ->
  agrees (try_request parsed calculate1 noRouting after1 cache1) (try_request parsed calculate2 noRouting after2 cache2).
Proof using Type.
  intros H1 H2 Hparsed. unfold try_request. destruct parsed as [q|e]; [|by apply agrees_Ok].
  destruct (Hparsed q eq_refl) as (Hcalc & Ha1 & Ha2).
  destruct (calculate1 q) as [[[d1|] k1]|e1], (calculate2 q) as [[[d2|] k2]|e2]; cbn in Hcalc; try tauto;
    try (destruct Hcalc as ([=] & ? & ?)); subst; try (by apply agrees_Ok).
  destruct e2; try reflexivity; by apply agrees_Ok.
Qed.

Lemma scenario_known p : common_in_range scenarios p -> getScenario p ∈ known.
Proof using Type. intros Hp. destruct (cr_scenario _ _ Hp) as [u Hu]. by eapply scenario_of_map. Qed.

Lemma unless_error_agrees response h1 h2 cache1 cache2 : valid1 cache1 -> valid2 cache2 -> agrees h1 h2 ->
  agrees (unless_error response h1 cache1) (unless_error response h2 cache2).
Proof using Type. intros H1 H2 Hh. unfold unless_error. destruct (String.eqb response ""); [exact Hh|by apply agrees_Ok]. Qed.

Lemma route_request_agrees alternativesDocument singleDocument noRouting queryFields cache1 cache2 :
  valid1 cache1 -> valid2 cache2 ->
  agrees
    (try_request (createRouteODParameter queryFields scenarios)
       (calculate_route srv alternativesDocument singleDocument cache1) noRouting (route_cache_after srv cache1) cache1)
    (try_request (createRouteODParameter queryFields scenarios)
       (calculate_route srv alternativesDocument singleDocument cache2) noRouting (route_cache_after srv cache2) cache2).
Proof using Hknown laws1 laws2.
  intros H1 H2. apply try_request_agrees; [exact H1|exact H2|]. intros q Hq.
  pose proof (route_parameters_typed queryFields scenarios) as Htyped. rewrite Hq in Htyped.
  pose proof (scenario_known _ (proj1 Htyped)) as Hs. split; [|by apply cache_after_agrees].
  unfold calculate_route. destruct (isWithAlternatives q).
  - apply agrees_bind; [by apply alternativesRouting_agrees|]. intros [result c] k1 k2 ? ?. by apply agrees_Ok.
  - apply agrees_bind; [by apply calculateSingle_agrees|]. intros [result c] k1 k2 ? ?. by apply agrees_Ok.
Qed.

Lemma place_request_agrees queryFields cache1 cache2 : valid1 cache1 -> valid2 cache2 ->
  agrees (v2_accessibility srv dataStatus queryFields cache1) (v2_accessibility srv dataStatus queryFields cache2).
Proof using Hknown laws1 laws2.
  intros H1 H2. apply unless_error_agrees; [exact H1|exact H2|]. apply try_request_agrees; [exact H1|exact H2|]. intros a Ha.
  pose proof (place_parameters_typed queryFields scenarios) as Htyped. rewrite Ha in Htyped.
  pose proof (scenario_known _ (proj1 Htyped)) as Hs. split; [|by apply cache_after_agrees].
  apply agrees_bind; [by apply calculateAllNodes_agrees|]. intros [result c] k1 k2 ? ?. by apply agrees_Ok.
Qed.

Lemma handle_request_agrees r cache1 cache2 : valid1 cache1 -> valid2 cache2 ->
  agrees (handle_request srv dataStatus r cache1) (handle_request srv dataStatus r cache2).
Proof using Hknown laws1 laws2.
  intros H1 H2. destruct r; cbn [handle_request]; try (by apply agrees_Ok).
  - apply unless_error_agrees; [exact H1|exact H2|]. by apply route_request_agrees.
  - apply unless_error_agrees; [exact H1|exact H2|]. by apply route_request_agrees.
  - by apply place_request_agrees.
Qed.
End Agreement.

(** ** Requests one after the other *)

Section Fresh.
Context {C : Type} `{cache_laws : ScenarioConnectionCacheLaws C} {geo : GeoFilter}.
Context {J : Type} {library : JsonLibrary J} {boost : Boost} {platform : Platform}.
Context (srv : Server) (dataStatus : DataStatus).
Abbreviation td := (transitData srv).

Definition response_of {D} (r : calc (string * D)) : calc string := '(response, _) ← r; Ok response.

(** The response to a request of a server that has just started. *)
Definition fresh_response (r : request) : calc string :=
  response_of (handle_request (C := ScenarioConnectionCacheOne) srv dataStatus r CacheOne_new).

Lemma fresh_valid : cache_valid (C := ScenarioConnectionCacheOne) td (getScenarios td) CacheOne_new.
Proof. intros s cs _ Hget. discriminate Hget. Qed.

(** C38: Whatever requests were served before, and with either cache of connections, each
    request of a sequence is answered as by a server that has just started: the
    responses, or the first exception, are those of the requests one by one. *)
Theorem answers_independent_of_cache requests (cache : C) :
  NoDup (scenario_uuid <$> getScenarios td) -> cache_valid td (getScenarios td) cache ->
  ('(responses, _) ← serve srv dataStatus requests cache; Ok responses) = mapM fresh_response requests.
Proof.
  intros Hknown. revert cache. induction requests as [|r requests IH]; intros cache Hcache; [done|]. cbn [serve mapM].
  pose proof (handle_request_agrees srv Hknown dataStatus r cache CacheOne_new Hcache fresh_valid) as Hr.
  change (fresh_response r) with (response_of (handle_request srv dataStatus r CacheOne_new)). unfold response_of, agrees in Hr |- *.
  destruct (handle_request srv dataStatus r cache) as [[response c1]|e1],
    (handle_request srv dataStatus r CacheOne_new) as [[response' c2]|e2]; try done; cbn [mbind result_bind]; [|by subst].
  destruct Hr as (-> & Hc1 & _). cbn [mbind result_bind]. rewrite <- (IH c1 Hc1).
  destruct (serve srv dataStatus requests c1) as [[responses c']|e]; reflexivity.
Qed.
End Fresh.
