(* ===== verification/SurveyQuery.v ===== *)
(** * The calculation of a trip of a survey is a query

    A trip of a survey brings its own footpaths and its own departure. Its calculation is
    that of an ordinary query whose filter gives these footpaths and whose time is this
    departure, by a new calculator: the calculator that goes from trip to trip, the
    connections that it keeps and the cache make no difference. So what is proved of
    queries holds of the trips of a survey, and a healthy server reports all of them. *)

From Stdlib Require Import ZArith Lia.
From Corelib Require Import SpecFloat.
From stdpp Require Import base list gmap strings.
From S2P Require Import Prelude.
From S2P Require Import Data.
From S2P Require Import Numbers.
From S2P Require Import Parameters.
From S2P Require Import RoutingResult.
From S2P Require Import ConnectionSet.
From S2P Require Import ConnectionCache.
From S2P Require Import TransitData.
From S2P Require Import Calculator.
From S2P Require Import ForwardCalculation.
From S2P Require Import ForwardJourney.
From S2P Require Import ReverseCalculation.
From S2P Require Import ReverseJourney.
From S2P Require Import ResetCorrect.
From S2P Require Import Calculation.
From S2P Require Import QuerySetup.
From S2P Require Import AlternativesCorrect.
From S2P Require Import QueryTotal.
From S2P Require Import GeoFilters.
From S2P Require Import ResultToV2.
From S2P Require Import OdTripsRouting.
From S2P Require Import OdTripsCorrect.
From S2P Require Import SurveyReport.
From S2P Require Import HttpServer.
From S2P Require Import ServerCorrect.
From S2P Require Import ServerTransparent.

Local Open Scope Z_scope.

(** ** The query of a trip *)

(** Two points that tell the ends apart. *)
Definition home : Point := mkPoint (S754_zero false) (S754_zero false).
Definition away : Point := mkPoint (S754_zero true) (S754_zero false).

(** The footpaths that the trip declares. *)
Definition declared_filter (odTrip : OdTrip) : GeoFilter := fun point _ _ _ =>
  match latitude point with
  | S754_zero false => Ok (originNodes odTrip)
  | _ => Ok (destinationNodes odTrip)
  end.

Definition with_time (time : Z) (p : CommonParameters) : CommonParameters :=
  mkCommonParameters (getScenario p) time (getMinWaitingTimeSeconds p)
    (getMaxTotalTravelTimeSeconds p) (getMaxAccessWalkingTravelTimeSeconds p)
    (getMaxEgressWalkingTravelTimeSeconds p) (getMaxTransferWalkingTravelTimeSeconds p)
    (getMaxFirstWaitingTimeSeconds p) (getOnlyServices p) (getOnlyLines p) (getOnlyAgencies p)
    (getOnlyModes p) (getOnlyNodes p) (getExceptServices p) (getExceptLines p) (getExceptAgencies p)
    (getExceptModes p) (getExceptNodes p) (isForwardCalculation p).

(** By departure time, a trip leaves when it declares; by arrival time it arrives when it
    is asked to. *)
Definition declared_time (odTrip : OdTrip) (p : CommonParameters) : Z :=
  if isForwardCalculation p then od_departureTimeSeconds odTrip else getTimeOfTrip p.

Definition declared_query (odTrip : OdTrip) (q : RouteParameters) : RouteParameters :=
  mkRouteParameters (with_time (declared_time odTrip (route_common q)) (route_common q)) home away (isWithAlternatives q).

Definition with_trip (o : option OdTrip) (c : Calculator) : Calculator :=
  mkCalculator (departureTimeSeconds c) (arrivalTimeSeconds c) (minAccessTravelTime c) (maxEgressTravelTime c)
    (maxAccessTravelTime c) (minEgressTravelTime c) o (nodesTentativeTime c) (nodesReverseTentativeTime c)
    (nodesAccess c) (nodesEgress c) (tripsDisabled c) (tripsQueryOverlay c) (connectionSet c)
    (accessFootpaths c) (egressFootpaths c) (forwardJourneysSteps c) (reverseJourneysSteps c).

(** ** The scans do not read the trip *)

Section Scans.
Context (time : Z) (p : CommonParameters) (o : option OdTrip) (c : Calculator).

Lemma forwardCalculation_trip :
  forwardCalculation p (with_trip o c) =
  '(r, c', steps) ← forwardCalculation (with_time time p) c; Ok (r, with_trip o c', steps).
Proof.
  unfold forwardCalculation. change (forward_connections (with_trip o c)) with (forward_connections c).
  destruct (forward_connections c) as [conns|e]; [|done]. cbn [mbind result_bind].
  change (for_loop (forward_body p (with_trip o c)) conns (forward_start (with_trip o c), mkEgressReached false MAX_INT))
    with (for_loop (forward_body (with_time time p) c) conns (forward_start c, mkEgressReached false MAX_INT)).
  destruct (for_loop _ conns _) as [[st reached]|e]; [|done]. cbn [mbind result_bind].
  destruct (fwd_reachable st =? 0); [done|].
  change (for_each (forward_best_egress p (with_trip o c) (fwd_egress st)) (egressFootpaths (with_trip o c)) (MAX_INT, None))
    with (for_each (forward_best_egress (with_time time p) c (fwd_egress st)) (egressFootpaths c) (MAX_INT, None)).
  by destruct (for_each _ (egressFootpaths c) _) as [[best egress]|e].
Qed.

Lemma calculateSingleReverse_trip srv :
  calculateSingleReverse srv p (with_trip o c) =
  '(r, c') ← calculateSingleReverse srv (with_time time p) c; Ok (r, with_trip o c').
Proof.
  unfold calculateSingleReverse, reverseCalculation. change (reverse_connections (with_trip o c)) with (reverse_connections c).
  destruct (reverse_connections c) as [conns|e]; [|done]. cbn [mbind result_bind].
  change (for_loop (reverse_body p (with_trip o c)) conns (reverse_start (with_trip o c), mkAccessReached false (-1)))
    with (for_loop (reverse_body (with_time time p) c) conns (reverse_start c, mkAccessReached false (-1))).
  destruct (for_loop _ conns _) as [[st reached]|e]; [|done]. cbn [mbind result_bind].
  destruct (rev_reachable st =? 0); [done|].
  change (for_each (reverse_best_access p (with_trip o c) (rev_access st)) (accessFootpaths (with_trip o c)) (-1, None))
    with (for_each (reverse_best_access (with_time time p) c (rev_access st)) (accessFootpaths c) (-1, None)).
  destruct (for_each _ (accessFootpaths c) _) as [[best access]|e]; [|done]. cbn [mbind result_bind].
  match goal with |- context [reverseJourneyStep ?td p (reverse_finish (with_trip o c) st) ?t ?n ?s] =>
    change (reverseJourneyStep td p (reverse_finish (with_trip o c) st) t n s)
      with (reverseJourneyStep td (with_time time p) (reverse_finish c st) t n s);
    by destruct (reverseJourneyStep td (with_time time p) (reverse_finish c st) t n s) end.
Qed.
End Scans.

(** ** The reset of a trip *)

(** What a calculator keeps of the filters of a query. *)
Record kept (td : TransitData) (p : CommonParameters) (c : Calculator) : Prop := {
  kp_set : connectionSet c = computeConnectionsForScenario td (getScenario p);
  kp_disabled : tripsDisabled c = foldl (disable_trip p) ∅
    (ConnectionSet.getTrips (computeConnectionsForScenario td (getScenario p)))
}.

Section Trip.
Context {geo : GeoFilter} {C : Type} `{cache_laws : ScenarioConnectionCacheLaws C}.
Context (srv : Server) (known : list Scenario) (odTrip : OdTrip) (q : RouteParameters).
Notation td := (transitData srv).
Notation p := (route_common q).
Context (Hknown : NoDup (scenario_uuid <$> known)) (Hscenario : getScenario p ∈ known).
Context (Horigin : originNodes odTrip <> []) (Hdestination : destinationNodes odTrip <> []).
Abbreviation valid cache := (cache_valid td known cache).
Abbreviation cs := (computeConnectionsForScenario td (getScenario p)).

(** The reset of a new calculator for the query of the trip. *)
Definition declared_reset : calc (Calculator * ScenarioConnectionCacheOne) :=
  @reset (declared_filter odTrip) ScenarioConnectionCacheOne _ srv Calculator_new (route_common (declared_query odTrip q))
    (Some home) (Some away) true true CacheOne_new.

(** The calculation of the query of the trip, by a new calculator. *)
Definition declared_calculation : calc (option SingleCalculationResult * Calculator * ScenarioConnectionCacheOne) :=
  @calculateSingle (declared_filter odTrip) ScenarioConnectionCacheOne _ srv Calculator_new (declared_query odTrip q)
    true true CacheOne_new.

Lemma filters_read {D} `{ScenarioConnectionCacheLaws D} (cache : D) : cache_valid td known cache ->
  exists cache', resetFilters srv p cache = (cs, foldl (disable_trip p) ∅ (ConnectionSet.getTrips cs), cache') /\
    cache_valid td known cache'.
Proof using Hknown Hscenario.
  intros Hcache. unfold resetFilters. destruct (getConnectionsForScenario_step td known (getScenario p) cache Hknown Hscenario Hcache) as [Hcs Hvalid].
  destruct (getConnectionsForScenario td (getScenario p) cache) as [cs' cache']. cbn in Hcs, Hvalid. subst cs'. by exists cache'.
Qed.

(** The same reset, but for the trip that the calculator has. *)
Lemma reset_trip c b cache : odTripGlob c = Some odTrip -> (b = false -> kept td p c) -> valid cache ->
  match reset srv c p (Some (getOrigin q)) (Some (getDestination q)) true b cache, declared_reset with
  | Ok (c', cache'), Ok (c0, _) => c' = with_trip (Some odTrip) c0 /\ valid cache' /\ kept td p c'
  | Throw e, Throw e0 => e = e0
  | _, _ => False
  end.
Proof using cache_laws Hknown Hscenario Horigin Hdestination.
  intros Hod Hkept Hcache. unfold declared_reset, reset, resetAccessFootpaths, resetEgressFootpaths, reset_departureTime. rewrite Hod.
  cbn [Calculator_new odTripGlob declared_query route_common with_time isForwardCalculation getTimeOfTrip].
  unfold getAccessibleNodesFootpathsFromPoint, declared_filter. cbn [home away latitude mbind result_bind].
  replace (if isForwardCalculation p then declared_time odTrip p else -1) with (if isForwardCalculation p then od_departureTimeSeconds odTrip else -1)
    by (unfold declared_time; by destruct (isForwardCalculation p)).
  replace (reset_arrivalTime (with_time (declared_time odTrip p) p)) with (reset_arrivalTime p)
    by (unfold reset_arrivalTime, declared_time; cbn; by destruct (isForwardCalculation p)).
  destruct (reset_access srv _ (originNodes odTrip)) as [access|]; [|done]. cbn [mbind result_bind].
  destruct (reset_egress srv _ (destinationNodes odTrip)) as [egress|]; [|done]. cbn [mbind result_bind].
  destruct (Nat.eqb_spec (length (originNodes odTrip)) 0) as [Hz|_]; [contradiction (Horigin (nil_length_inv _ Hz))|].
  destruct (Nat.eqb_spec (length (destinationNodes odTrip)) 0) as [Hz|_]; [contradiction (Hdestination (nil_length_inv _ Hz))|].
  cbn [negb andb].
  change (resetFilters srv (with_time (declared_time odTrip p) p) CacheOne_new) with (resetFilters srv p CacheOne_new).
  destruct (filters_read CacheOne_new) as (cache1 & -> & _); [intros s cs' _ Hget; discriminate Hget|].
  destruct b.
  - destruct (filters_read cache Hcache) as (cache' & -> & Hvalid). by split_and!.
  - destruct (Hkept eq_refl) as [Hset Hdisabled]. rewrite Hset, Hdisabled. by split_and!.
Qed.

(** The same calculation. *)
Lemma calculateSingle_trip c b cache : odTripGlob c = Some odTrip -> (b = false -> kept td p c) -> valid cache ->
  match calculateSingle srv c q true b cache, declared_calculation with
  | Ok (r, c', cache'), Ok (r0, _, _) => r = r0 /\ valid cache' /\ kept td p c'
  | Throw e, Throw e0 => e = e0
  | _, _ => False
  end.
Proof using cache_laws Hknown Hscenario Horigin Hdestination.
  intros Hod Hkept Hcache. pose proof (reset_trip c b cache Hod Hkept Hcache) as Hreset.
  assert (forall r c1 cache1, calculateSingle srv c q true b cache = Ok (r, c1, cache1) -> valid cache1 /\ kept td p c1) as Hafter.
  { intros r c1 cache1 Hrun. destruct (calculateSingle_paths srv c q true b cache _ _ _ Hrun) as (c2 & Hrun2 & [_ Hset Hdis]).
    rewrite Hrun2 in Hreset. destruct declared_reset as [[c0 k0]|]; [|done]. destruct Hreset as (_ & Hvalid & [Hk1 Hk2]).
    split; [exact Hvalid|]. split; congruence. }
  enough (match calculateSingle srv c q true b cache, declared_calculation with
          | Ok (r, _, _), Ok (r0, _, _) => r = r0 | Throw e, Throw e0 => e = e0 | _, _ => False end) as Hsame.
  { destruct (calculateSingle srv c q true b cache) as [[[r c1] cache1]|e]; [|exact Hsame].
    destruct declared_calculation as [[[r0 c0] k0]|e0]; [|done]. split; [exact Hsame|]. by eapply Hafter. }
  clear Hafter. unfold declared_calculation, calculateSingle.
  change (@reset (declared_filter odTrip) ScenarioConnectionCacheOne _ srv Calculator_new (route_common (declared_query odTrip q))
    (Some (getOrigin (declared_query odTrip q))) (Some (getDestination (declared_query odTrip q))) true true CacheOne_new) with declared_reset.
  destruct (reset srv c p _ _ true b cache) as [[c1 cache1]|e], declared_reset as [[c0 k0]|e0]; try done.
  destruct Hreset as (-> & _ & _). cbn [mbind result_bind].
  cbn [declared_query route_common]. set (time := declared_time odTrip p).
  change (departureTimeSeconds (with_trip (Some odTrip) c0)) with (departureTimeSeconds c0).
  change (arrivalTimeSeconds (with_trip (Some odTrip) c0)) with (arrivalTimeSeconds c0).
  change (isForwardCalculation (with_time time p)) with (isForwardCalculation p).
  destruct (_ && _).
  - rewrite (forwardCalculation_trip time p). destruct (forwardCalculation (with_time time p) c0) as [[[best c2] steps]|e]; [|done].
    cbn [mbind result_bind]. destruct (_ <? MAX_INT).
    + unfold prepare_reverse_pass.
      change (egressFootpaths (with_trip (Some odTrip) c2)) with (egressFootpaths c2).
      change (nodesReverseTentativeTime (with_trip (Some odTrip) c2)) with (nodesReverseTentativeTime c2).
      destruct (for_each _ (egressFootpaths c2) _) as [times|e]; [|done]. cbn [mbind result_bind].
      match goal with |- context [calculateSingleReverse srv (with_time time p) ?c3] =>
        match goal with |- context [calculateSingleReverse srv p ?c4] => change c4 with (with_trip (Some odTrip) c3) end;
        rewrite (calculateSingleReverse_trip time p (Some odTrip) c3);
        by destruct (calculateSingleReverse srv (with_time time p) c3) as [[]|] end.
    + change (forwardJourneyStep p (with_trip (Some odTrip) c2)) with (forwardJourneyStep (with_time time p) c2).
      by destruct (forwardJourneyStep (with_time time p) c2 _ _).
  - destruct (_ >? -1); [|done]. unfold prepare_reverse_query.
    change (tripsQueryOverlay (with_trip (Some odTrip) c0)) with (tripsQueryOverlay c0).
    destruct (for_each use_trip _ _) as [trips|e]; [|done]. cbn [mbind result_bind].
    match goal with |- context [calculateSingleReverse srv (with_time time p) ?c3] =>
      match goal with |- context [calculateSingleReverse srv p ?c4] => change c4 with (with_trip (Some odTrip) c3) end;
      rewrite (calculateSingleReverse_trip time p (Some odTrip) c3);
      by destruct (calculateSingleReverse srv (with_time time p) c3) as [[]|] end.
Qed.
End Trip.

(** ** The trips of a survey, one after the other *)

Section Survey.
Context {J : Type} {library : JsonLibrary J} {boost : Boost} {platform : Platform} {geo : GeoFilter} {shuffling : Shuffle}.
Context {C : Type} `{cache_laws : ScenarioConnectionCacheLaws C}.
Context (srv : Server) (stop : Node -> Prop) (parameters : RouteParameters) (now : N).
Notation td := (transitData srv).
Notation params := (OdTripLegacyParameters_new now).
Abbreviation outcome := (SingleCalculationResult + NoRoutingReason)%type.

(** A trip that can be calculated: footpaths at both ends, each to a known node, and a
    departure before 32:00. *)
Record od_ok (odTrip : OdTrip) : Prop := {
  oo_origin : originNodes odTrip <> [] /\ destinationNodes odTrip <> [];
  oo_footpaths : Forall (footpath_ok (Node_getMaxUid srv)) (originNodes odTrip ++ destinationNodes odTrip);
  oo_nodes : NoDup (ntd_node <$> originNodes odTrip) /\ NoDup (ntd_node <$> destinationNodes odTrip);
  oo_time : 0 <= od_departureTimeSeconds odTrip < 32 * 3600
}.

(** The answer to the query of a trip. *)
Definition declared_answer (odTrip : OdTrip) : calc outcome :=
  match declared_calculation srv odTrip (od_parameters parameters odTrip) with
  | Ok (Some result, _, _) => Ok (inl result)
  | Ok (None, _, _) => Throw Undefined
  | Throw (NoRoutingFound reason) => Ok (inr reason)
  | Throw e => Throw e
  end.

Context (Hhealthy : healthy (geo := geo) srv stop).
Context (Hrange : common_in_range (scenario_map td) (route_common parameters)) (Hscope : time_in_scope (route_common parameters)).

Lemma scenario_in_data : getScenario (route_common parameters) ∈ getScenarios td.
Proof using Hrange. destruct (cr_scenario _ _ Hrange) as [u Hu]. by eapply scenario_of_map. Qed.

(** The common parameters at another time. *)
Lemma with_time_in_range time : 0 <= time < 32 * 3600 ->
  common_in_range (scenario_map td) (with_time time (route_common parameters)) /\
  time_in_scope (with_time time (route_common parameters)).
Proof using Hrange Hscope.
  intros Htime. destruct Hscope as [[_ Hwait] Hwalks]. split; [|split; [split; [exact (proj2 Htime)|exact Hwait]|exact Hwalks]].
  pose proof (cr_filters _ _ Hrange) as Hfilters. destruct Hrange as [H1 H2 _ H4 H5 H6 H7 H8 H9 _].
  split; try assumption; [cbn; unfold MAX_INT; lia|]. unfold with_time. rewrite Hfilters. reflexivity.
Qed.

Lemma declared_time_ok odTrip : od_ok odTrip -> 0 <= declared_time odTrip (route_common parameters) < 32 * 3600.
Proof using Hrange Hscope.
  intros Hod. unfold declared_time. pose proof (cr_time _ _ Hrange). destruct Hscope as [[? _] _].
  destruct (isForwardCalculation _); [exact (oo_time _ Hod)|lia].
Qed.

(** The query of a trip is one that a healthy server answers. *)
Lemma declared_request_ok odTrip : od_ok odTrip ->
  @request_ok (declared_filter odTrip) ScenarioConnectionCacheOne _ srv (getScenarios td) stop
    (declared_query odTrip (od_parameters parameters odTrip)) Calculator_new CacheOne_new.
Proof using Hhealthy Hrange Hscope.
  intros Hod. pose proof (declared_time_ok odTrip Hod) as Htime. destruct Hod as [_ Hfoot [Hno Hnd] _].
  apply Forall_app in Hfoot as [Hfo Hfd]. unfold declared_query, od_parameters, RouteParameters_new. cbn [route_common].
  rewrite (common_copy _ _ Hrange). destruct (with_time_in_range _ Htime) as [Hin Hsc].
  split; cbn [route_common getOrigin getDestination]; [exact (healthy_network srv stop Hhealthy _ Hin Hsc)|reflexivity| | |done|done|done|].
  - intros s cs _ Hget. discriminate Hget.
  - split; intros pt [= <-]; done.
  - eapply Forall_impl; [exact (he_conns _ _ Hhealthy)|]. intros conn. apply ld_arrival.
Qed.

(** It has an answer, and the legs of a result are in the network. *)
Lemma declared_answer_total odTrip : od_ok odTrip ->
  exists o, declared_answer odTrip = Ok o /\
    match o with inl result => Forall (network_leg srv) (res_legs result) | inr _ => True end.
Proof using Hhealthy Hrange Hscope.
  intros Hod. pose proof (@single_total (declared_filter odTrip) ScenarioConnectionCacheOne _ _ srv (getScenarios td) stop
    (he_stops _ _ Hhealthy) _ _ _ (declared_request_ok odTrip Hod)) as Htotal.
  unfold declared_answer, declared_calculation.
  destruct (calculateSingle srv Calculator_new _ true true CacheOne_new) as [[[[res|] c] cache]|e]; [|done|].
  - destruct Htotal as (_ & Htimed & _). exists (inl res). split; [done|exact (tm_legs _ _ _ Htimed)].
  - destruct e; try done. by eexists (inr _).
Qed.

Abbreviation valid cache := (cache_valid td (getScenarios td) cache).
Abbreviation kept_filters c := (kept td (CommonParameters_copy (route_common parameters)) c).

(** The calculation of a trip gives its answer, and leaves what the next one needs. *)
Lemma od_calculation_trip odTrip c b cache o : od_ok odTrip -> (b = false -> kept_filters c) -> valid cache ->
  declared_answer odTrip = Ok o ->
  exists c' cache', od_calculation srv (od_parameters parameters odTrip) (set_odTripGlob odTrip c) b cache = Ok (o, c', cache') /\
    valid cache' /\ (match o with inl _ => false | inr _ => b end = false -> kept_filters c').
Proof using All.
  intros [[Ho Hd] _ _ _] Hkept Hcache Hans. set (q := od_parameters parameters odTrip) in *.
  set (c0 := set_odTripGlob odTrip c).
  assert (b = false -> kept_filters c0) as Hkept0 by (intros Hb; destruct (Hkept Hb); by split).
  pose proof (calculateSingle_trip srv (getScenarios td) odTrip q (he_scenarios _ _ Hhealthy) scenario_in_data Ho Hd
                c0 b cache eq_refl Hkept0 Hcache) as Hcalc.
  pose proof (reset_trip srv (getScenarios td) odTrip q (he_scenarios _ _ Hhealthy) scenario_in_data Ho Hd
                c0 b cache eq_refl Hkept0 Hcache) as Hreset.
  unfold od_calculation, declared_answer in *. fold q in Hans.
  destruct (calculateSingle srv c0 q true b cache) as [[[r c1] cache1]|e],
    (declared_calculation srv odTrip q) as [[[r0 k1] k2]|e0]; try done.
  - destruct Hcalc as (-> & Hvalid & Hk). destruct r0 as [result|]; [|done]. injection Hans as <-. by exists c1, cache1.
  - subst e0. destruct e; try done. injection Hans as <-. unfold after_odTrip_exception.
    destruct (reset srv c0 _ _ _ true b cache) as [[c1 cache1]|e1].
    + destruct declared_reset as [[k1 k2]|]; [|done]. destruct Hreset as (_ & Hvalid & Hk). by exists c1, cache1.
    + by exists c0, cache.
Qed.

(** So each trip of a survey has the answer to its own query. *)
Lemma od_calculations_total trips : Forall od_ok trips ->
  forall c b cache, (b = false -> kept_filters c) -> valid cache ->
  exists outcomes c' cache', od_calculations srv parameters trips c b cache = Ok (outcomes, c', cache') /\
    mapM (fun odTrip => o ← declared_answer odTrip; Ok (odTrip, o)) trips = Ok outcomes /\ valid cache' /\
    Forall (fun d => network_leg srv d.2) (flat_map (outcome_legs now) outcomes).
Proof using All.
  induction 1 as [|odTrip trips Hod _ IH]; intros c b cache Hkept Hcache.
  { exists [], c, cache. repeat split; [done|constructor]. }
  destruct (declared_answer_total odTrip Hod) as (o & Hans & Hlegs).
  destruct (od_calculation_trip odTrip c b cache o Hod Hkept Hcache Hans) as (c1 & cache1 & Hrun & Hvalid & Hk).
  destruct (IH c1 _ cache1 Hk Hvalid) as (outcomes & c' & cache' & Hrest & Hall & Hvalid' & Hlegs').
  exists ((odTrip, o) :: outcomes), c', cache'. cbn [od_calculations mapM]. rewrite Hrun. cbn [mbind result_bind].
  rewrite Hrest, Hans. cbn [mbind result_bind]. rewrite Hall. split_and!; [done|done|done|].
  cbn [flat_map]. apply Forall_app. split; [|exact Hlegs']. destruct o as [result|]; [|constructor].
  unfold outcome_legs. cbn [snd fst]. by apply Forall_fmap.
Qed.

(** ** The report *)

(** The data of the profiles: the lines, the paths with the connections of their trips,
    and the departures of these, before 29:00. *)
Record profiled (segments : uuid -> nat) (conn : Connection) : Prop := {
  pf_line : line_uuid (trip_line (getTrip conn)) ∈ line_uuid <$> getLines td;
  pf_path : length (path_nodesRef (trip_path (getTrip conn))) = S (segments (path_uuid (trip_path (getTrip conn))));
  pf_length : (length (trip_forward td (getTrip conn)) <= segments (path_uuid (trip_path (getTrip conn))))%nat;
  pf_times : Forall2 (fun x time => time = getDepartureTime x /\ 0 <= time < 29 * 3600)
    (trip_forward td (getTrip conn))
    (take (length (trip_forward td (getTrip conn))) (connectionDepartureTimes td (getTrip conn)))
}.

Lemma network_leg_ok segments leg : Forall (profiled segments) (connections td) -> network_leg srv leg ->
  leg_ok (line_uuid <$> getLines td) segments td leg.
Proof using Hhealthy.
  intros Hall (conn & a & b & Hconn & [Hab Hb] & ->).
  assert (conn ∈ connections td) as Hin.
  { unfold trip_forward in Hconn. rewrite (he_forward _ _ Hhealthy) in Hconn. apply list_elem_of_filter in Hconn as [_ Hconn].
    rewrite (wf_forward _ (he_data _ _ Hhealthy)), stable_sort_perm in Hconn. exact Hconn. }
  rewrite Forall_forall in Hall. destruct (Hall conn Hin) as [Hline Hpath Hlen Htimes].
  split; cbn [leg_tripOf leg_start leg_end]; [done|done|lia|]. intros k Hk. split; [lia|].
  destruct (lookup_lt_is_Some_2 (trip_forward td (getTrip conn)) (Z.to_nat k)) as [x Hx]; [lia|].
  destruct (Forall2_lookup_l _ _ _ _ _ Htimes Hx) as (time & Htime & _ & Hbound).
  exists time. split; [|exact Hbound]. by apply lookup_take_Some in Htime as [Htime _].
Qed.

(** C40: A healthy server reports a survey, for parameters in range and within the scope
    (a time before 32:00), when each trip has footpaths at both ends, to known nodes and
    once to each, and a departure before 32:00, when the trips are fewer than [2 ^ 24],
    the connections leave before 29:00 and fit their lines and paths: each trip has the answer to its own query, the one with its footpaths and its
    departure, by a new calculator; the legs of the answers make the profiles; and the
    document has one entry for each trip, in order, with its answer and its declared
    values. No sampling, no batch and no filter is in effect, and nothing that the
    calculator or the cache keeps from trip to trip makes a difference. The total of the
    travel times is to be an [int]; an empty survey gives an empty list and no status. *)
Theorem survey_answered segments c cache :
  Forall od_ok (getOdTrips td) -> Z.of_nat (length (getOdTrips td)) < 2 ^ 24 ->
  Forall (profiled segments) (connections td) -> valid cache ->
  exists outcomes st,
    mapM (fun odTrip => o ← declared_answer odTrip; Ok (odTrip, o)) (getOdTrips td) = Ok outcomes /\
    for_each (fun d => add_leg td d.1 d.2) (flat_map (outcome_legs now) outcomes) (OdProfiles_new (getLines td)) = Ok st /\
    forall time total, convertSecondsToFormattedTime (getTimeOfTrip (route_common parameters)) = Ok time ->
      total_times now outcomes 0 = Ok total ->
    exists c' cache', valid cache' /\
      odTripsRouting srv parameters params c cache =
        (text ← dump (if decide (getOdTrips td = []) then json_object [("odTrips"%string, json_array [])]
                      else report_json params (outcome_json parameters now time <$> outcomes) (with_total total st));
         Ok (text, c', cache')).
Proof using All.
  intros Htrips Hsmall Hprofiled Hcache.
  destruct (od_calculations_total _ Htrips c true cache ltac:(done) Hcache) as (outcomes & c' & cache' & Hrun & Hall & Hvalid & Hlegs).
  destruct (all_legs_is (line_uuid <$> getLines td) segments td (flat_map (outcome_legs now) outcomes) (OdProfiles_new (getLines td))) as (st & Hst & _).
  - eapply Forall_impl; [exact Hlegs|]. intros d. by apply network_leg_ok.
  - by apply demand_new.
  - exists outcomes, st. split_and!; [exact Hall|exact Hst|]. intros time total Htime Htotal. exists c', cache'.
    split; [exact Hvalid|]. by eapply survey_report.
Qed.
End Survey.
