(* ===== verification/CacheCorrect.v ===== *)
(** * A cache without mistakes makes a healthy server

    [valid_cache] says of the files what the server relies on. The data read from such
    files are ready, and the server that has them is [healthy]: with the theorem on
    healthy servers, it answers every sequence of requests. *)

From Stdlib Require Import ZArith Lia Sorted.
From stdpp Require Import base list gmap strings.
From S2P Require Import Prelude.
From S2P Require Import Data.
From S2P Require Import Attempt.
From S2P Require Import Parameters.
From S2P Require Import CacheFiles.
From S2P Require Import CacheCollections.
From S2P Require Import CachePersons.
From S2P Require Import CollectionsCorrect.
From S2P Require Import CacheNodes.
From S2P Require Import NodesCorrect.
From S2P Require Import ConnectionSet.
From S2P Require Import ConnectionCache.
From S2P Require Import TransitData.
From S2P Require Import CacheSchedules.
From S2P Require Import SchedulesCorrect.
From S2P Require Import CacheFetcher.
From S2P Require Import Calculator.
From S2P Require Import ResetCorrect.
From S2P Require Import OptimizeCorrect.
From S2P Require Import ReverseJourney.
From S2P Require Import QuerySetup.
From S2P Require Import ServerCorrect.

Local Open Scope Z_scope.

(** ** The timetable of a trip *)

(** A vehicle takes time from a node to the next, and does not leave before it arrives. *)
Record job_timed (j : job) : Prop := {
  tm_ride : forall k d a, (S k < job_nodes j)%nat ->
    nodeDepartureTimesSeconds (job_message j) !! k = Some d ->
    nodeArrivalTimesSeconds (job_message j) !! S k = Some a -> 0 <= d < a /\ a <= 2 ^ 26;
  tm_dwell : forall k a d, (S (S k) < job_nodes j)%nat ->
    nodeArrivalTimesSeconds (job_message j) !! S k = Some a ->
    nodeDepartureTimesSeconds (job_message j) !! S k = Some d -> a <= d
}.

Lemma Sorted_lookup {A} (R : relation A) l :
  (forall i x y, l !! i = Some x -> l !! S i = Some y -> R x y) -> Sorted R l.
Proof.
  induction l as [|x l IH]; intros H; constructor.
  - apply IH. intros i. exact (H (S i)).
  - destruct l as [|y l]; constructor. by apply (H 0%nat).
Qed.

Section Job.
Context (j : job) (u : uid) (Hok : job_ok j) (Htimed : job_timed j).

Lemma job_ride k conn : job_connections j u !! k = Some conn ->
  0 <= getDepartureTime conn < getArrivalTime conn /\ getArrivalTime conn <= 2 ^ 26.
Proof using Hok Htimed.
  intros Hk. apply job_connections_lookup in Hk as [Hlt Hof]; [|done].
  exact (tm_ride j Htimed k _ _ Hlt (cn_departure _ _ _ _ Hof) (cn_arrival _ _ _ _ Hof)).
Qed.

Lemma job_chain k x y : job_connections j u !! k = Some x -> job_connections j u !! S k = Some y ->
  getArrivalNode x = getDepartureNode y /\ getArrivalTime x <= getDepartureTime y.
Proof using Hok Htimed.
  intros Hx Hy. apply job_connections_lookup in Hx as [_ Hx]; [|done].
  apply job_connections_lookup in Hy as [Hlt Hy]; [|done]. split.
  - pose proof (cn_to _ _ _ _ Hx). pose proof (cn_from _ _ _ _ Hy). congruence.
  - exact (tm_dwell j Htimed k _ _ Hlt (cn_arrival _ _ _ _ Hx) (cn_departure _ _ _ _ Hy)).
Qed.

(** The connections of a trip go forward in time. *)
Lemma job_in_order :
  StronglySorted (fun a b => getDepartureTime a <= getDepartureTime b /\
                             getArrivalTime a <= getArrivalTime b /\
                             conn_trip_uuid a = conn_trip_uuid b /\
                             getSequenceInTrip a < getSequenceInTrip b) (job_connections j u).
Proof using Hok Htimed.
  apply Sorted_StronglySorted.
  - intros a b c (H1 & H2 & H3 & H4) (H5 & H6 & H7 & H8). split_and!; [lia|lia|congruence|lia].
  - apply Sorted_lookup. intros k x y Hx Hy. destruct (job_chain k x y Hx Hy) as [_ Hdwell].
    destruct (job_ride k x Hx) as [? _]. destruct (job_ride (S k) y Hy) as [? _].
    apply job_connections_lookup in Hx as [_ Hx]; [|done]. apply job_connections_lookup in Hy as [_ Hy]; [|done].
    split_and!; [lia|lia| |].
    + unfold conn_trip_uuid. by rewrite (cn_trip _ _ _ _ Hx), (cn_trip _ _ _ _ Hy).
    + rewrite (cn_sequence _ _ _ _ Hx), (cn_sequence _ _ _ _ Hy). lia.
Qed.

(** Its vectors, as the rest of the program relies on them. *)
Lemma job_trip_ok td stop :
  trip_forward td (job_trip j u) = job_connections j u ->
  trip_reverse td (job_trip j u) = rev (job_connections j u) ->
  Forall stop (path_nodesRef (job_path j)) ->
  trip_ok (trip_forward td) (trip_reverse td) stop (job_trip j u).
Proof using Hok Htimed.
  intros Hf Hr Hstop. rewrite Forall_forall in Hstop. split; rewrite ?Hf.
  - by rewrite Hr.
  - rewrite job_connections_length by done. pose proof (jb_size j Hok). lia.
  - intros k conn Hk. apply job_connections_lookup in Hk as [_ Hof]; [|done]. exact (cn_sequence _ _ _ _ Hof).
  - intros k x y Hx Hy. destruct (job_chain k x y Hx Hy) as [-> Hdwell]. done.
  - intros conn Hconn. apply list_elem_of_lookup in Hconn as [k Hk]. destruct (job_ride k conn Hk). lia.
  - intros conn Hconn. apply list_elem_of_lookup in Hconn as [k Hk].
    apply job_connections_lookup in Hk as [_ Hof]; [|done].
    split; apply Hstop; eapply list_elem_of_lookup_2; [exact (cn_from _ _ _ _ Hof)|exact (cn_to _ _ _ _ Hof)].
Qed.
End Job.

(** ** The data of jobs *)

(** Data whose trips and connections are those of jobs, sorted from nothing. *)
Record data_of_jobs (before : uid) (jobs : list job) (td : TransitData) : Prop := {
  dj_jobs : Forall job_ok jobs;
  dj_timed : Forall job_timed jobs;
  dj_trips : getTrips td ≡ₚ job_trips before jobs;
  dj_connections : connections td = all_connections before jobs;
  dj_forward : forwardConnections td = stable_sort forward_lt (connections td);
  dj_reverse : reverseConnections td = stable_sort reverse_lt (connections td);
  dj_trip_forward : forall u, default [] (tripForwardConnections td !! u) = filter (of_trip u) (forwardConnections td);
  dj_trip_reverse : forall u, default [] (tripReverseConnections td !! u) = filter (of_trip u) (reverseConnections td);
  dj_stops : Forall (fun j => Forall (fun n => n ∈ getNodes td) (path_nodesRef (job_path j))) jobs
}.

Lemma job_trips_elem before jobs t : t ∈ job_trips before jobs <->
  exists i j, jobs !! i = Some j /\ t = job_trip j (S (before + i)).
Proof.
  unfold job_trips. rewrite list_elem_of_lookup. setoid_rewrite list_lookup_imap_Some. naive_solver.
Qed.

Section Data.
Context (before : uid) (jobs : list job) (td : TransitData) (Hdata : data_of_jobs before jobs td).
Notation stop := (fun n => n ∈ getNodes td).

(** A connection of the data, and its job. *)
Lemma data_connection conn : conn ∈ connections td -> exists i j k,
  jobs !! i = Some j /\ job_ok j /\ job_timed j /\ Forall stop (path_nodesRef (job_path j)) /\
  job_connections j (S (before + i)) !! k = Some conn /\ getTrip conn = job_trip j (S (before + i)).
Proof using Hdata.
  destruct Hdata as [Hjobs Htimed _ Hconns _ _ _ _ Hstops]. rewrite Hconns. intros Hconn.
  apply all_connections_elem in Hconn as (i & j & Hi & Hconn); [|done].
  pose proof (list_elem_of_lookup_2 _ _ _ Hi) as Hj. rewrite Forall_forall in Hjobs, Htimed, Hstops.
  pose proof (job_connections_trip _ _ _ (Hjobs j Hj) Hconn) as Htrip.
  apply list_elem_of_lookup in Hconn as [k Hk]. exists i, j, k. auto 10.
Qed.

Lemma data_well_formed : well_formed td.
Proof using Hdata.
  pose proof data_connection as Hconn. destruct Hdata as [_ _ Htrips _ Hf Hr _ _ _]. split; [| |done|done].
  - rewrite Htrips. unfold job_trips. clear. revert before.
    induction jobs as [|j l IH]; intros b; [constructor|]. cbn. constructor.
    + intros Hin. apply list_elem_of_fmap in Hin as (t & Ht & Hin). apply list_elem_of_lookup in Hin as [i Hi].
      apply list_lookup_imap_Some in Hi as (j' & _ & ->). cbn in Ht. lia.
    + specialize (IH (S b)). erewrite imap_ext; [exact IH|]. intros i x _. cbn. by rewrite Nat.add_succ_r.
  - rewrite Forall_forall. intros conn Hin. destruct (Hconn conn Hin) as (i & j & k & Hi & _ & _ & _ & _ & ->).
    rewrite Htrips. apply job_trips_elem. eauto.
Qed.

Lemma data_trip_ok conn : conn ∈ connections td -> trip_ok (trip_forward td) (trip_reverse td) stop (getTrip conn).
Proof using Hdata.
  intros Hin. destruct (data_connection conn Hin) as (i & j & k & Hi & Hok & Htimed & Hstop & _ & ->).
  pose proof Hdata as [Hjobs _ _ Hconns Hf Hr Htf Htr _].
  assert (filter (of_trip (S (before + i))) (connections td) = job_connections j (S (before + i))) as Hown
    by (rewrite Hconns; by apply filter_all_connections).
  destruct (trip_vectors td (S (before + i))) as [Hvf Hvr].
  { unfold trip_in_order. rewrite Hown. by apply job_in_order. }
  apply job_trip_ok; [done|done| | |done].
  - unfold trip_forward. cbn [trip_uid job_trip Trip_new]. by rewrite Htf, Hf, Hvf, Hown.
  - unfold trip_reverse. cbn [trip_uid job_trip Trip_new]. by rewrite Htr, Hr, Hvr, Hown.
Qed.
End Data.

(** ** The server *)

(** What the program relies on of a geographic filter: footpaths to different nodes of
    the list it is given, in a time that a [float] holds. *)
Definition filter_law {geo : GeoFilter} : Prop := forall point nodes limit, 0 < limit < 65536 ->
  exists footpaths,
    getAccessibleNodesFootpathsFromPoint point nodes limit getWalkingSpeedMetersPerSecond = Ok footpaths /\
    Forall (fun f => ntd_node f ∈ (node_uid <$> nodes) /\ 0 <= ntd_time f <= 16777216) footpaths /\
    (NoDup (node_uid <$> nodes) -> NoDup (ntd_node <$> footpaths)).

Section Healthy.
Context `{files : CacheFiles, boost : Boost} {geo : GeoFilter} (cacheDirectoryPath customPath : string).
Notation message_of := (message_of cacheDirectoryPath customPath).
Notation lists_transfer := (lists_transfer cacheDirectoryPath customPath).

(** The file of a node can be read and lists the node itself, at no distance in time. *)
Record node_file_ok (u : uuid) (c : cNodeTransfers) : Prop := {
  nf_message : message_of u = Some c;
  nf_ok : transfers_ok c;
  nf_self : exists distance, lists_transfer u u 0 distance;
  nf_times : Forall (fun time => 0 <= time < 32768) (transferableNodesTravelTimes c)
}.

Context (before : uid) (base : list Node) (nodeCount : uid) (Hbase : base_ok before base nodeCount).
Context (Hfiles : forall n, n ∈ base -> exists c, node_file_ok (node_uuid n) c).
Context (td : TransitData) (Hnodes : getNodes td = with_footpaths cacheDirectoryPath customPath base).
Context (tripsBefore : uid) (jobs : list job) (Hdata : data_of_jobs tripsBefore jobs td).
Notation stop := (fun n => n ∈ getNodes td).

Lemma stop_uid_inj m n : stop m -> stop n -> node_uid m = node_uid n -> m = n.
Proof using Hbase Hnodes.
  intros Hm Hn. apply (NoDup_fmap_inj node_uid (getNodes td)); [|done|done].
  rewrite Hnodes. unfold with_footpaths. rewrite with_lists_uids. exact (bs_uids _ _ _ Hbase).
Qed.

Lemma stop_file n : stop n -> exists c, node_file_ok (node_uuid n) c.
Proof using Hfiles Hnodes.
  cbn. rewrite Hnodes. intros Hn. apply with_footpaths_elem in Hn as (b & Hb & ->). cbn. auto.
Qed.

Lemma listed_time n m time distance : stop n -> lists_transfer (node_uuid n) m time distance -> 0 <= time <= 16777216.
Proof using Hfiles Hnodes.
  intros Hn (c & j & text & Hc & _ & _ & Ht & _). destruct (stop_file n Hn) as (c' & [Hc' _ _ Htimes]).
  assert (c' = c) as -> by congruence. rewrite Forall_forall in Htimes.
  specialize (Htimes time (list_elem_of_lookup_2 _ _ _ Ht)). lia.
Qed.

Lemma stop_range n : stop n -> (node_uid n <= nodeCount)%nat.
Proof using Hbase Hnodes.
  cbn. rewrite Hnodes. intros Hn. apply with_footpaths_elem in Hn as (b & Hb & ->). cbn.
  pose proof (bs_range _ _ _ Hbase) as Hr. rewrite Forall_forall in Hr. destruct (Hr b Hb). done.
Qed.

(** The footpaths from a stop, in the terms of the files. *)
Lemma stop_transferable n f : stop n -> f ∈ transferableNodes n <->
  exists m, stop m /\ ntd_node f = node_uid m /\ lists_transfer (node_uuid n) (node_uuid m) (ntd_time f) (ntd_distance f).
Proof using Hbase Hnodes. cbn. rewrite Hnodes. intros Hn. by apply (transferable_elem _ _ _ _ _ Hbase). Qed.

Lemma stop_reverse n f : stop n -> f ∈ reverseTransferableNodes n <->
  (exists m, stop m /\ ntd_node f = node_uid m /\ lists_transfer (node_uuid m) (node_uuid n) (ntd_time f) (ntd_distance f)) \/
  (f = mkNTD (node_uid n) 0 0 /\ is_Some (message_of (node_uuid n))).
Proof using Hbase Hnodes. cbn. rewrite Hnodes. intros Hn. by apply (reverse_elem _ _ _ _ _ Hbase). Qed.

Lemma footpaths_ok n : stop n ->
  Forall (footpath_ok nodeCount) (transferableNodes n) /\ Forall (footpath_ok nodeCount) (reverseTransferableNodes n).
Proof using Hbase Hfiles Hnodes.
  intros Hn. rewrite !Forall_forall. split; intros f Hf.
  - apply stop_transferable in Hf as (m & Hm & Huid & Hlist); [|done].
    split; [rewrite Huid; by apply stop_range|by apply (listed_time n _ _ _ Hn Hlist)].
  - apply stop_reverse in Hf as [(m & Hm & Huid & Hlist)|[-> _]]; [| |done].
    + split; [rewrite Huid; by apply stop_range|by apply (listed_time m _ _ _ Hm Hlist)].
    + split; cbn; [by apply stop_range|lia].
Qed.

Lemma self_footpath n : stop n ->
  (exists f, f ∈ transferableNodes n /\ ntd_node f = node_uid n /\ ntd_time f = 0) /\
  (exists f, f ∈ reverseTransferableNodes n /\ ntd_node f = node_uid n /\ ntd_time f = 0).
Proof using Hbase Hfiles Hnodes.
  intros Hn. destruct (stop_file n Hn) as (c & Hfile). destruct (nf_self _ _ Hfile) as (d & Hself). split.
  - exists (mkNTD (node_uid n) 0 d). split; [|done]. apply stop_transferable; [done|]. by exists n.
  - exists (mkNTD (node_uid n) 0 0). split; [|done]. apply stop_reverse; [done|]. right.
    split; [done|]. rewrite (nf_message _ _ Hfile). eauto.
Qed.

(** A walk is the same from both ends. *)
Lemma walks_agree m n time : stop m -> stop n ->
  (exists f, f ∈ transferableNodes m /\ ntd_node f = node_uid n /\ ntd_time f = time) <->
  (exists g, g ∈ reverseTransferableNodes n /\ ntd_node g = node_uid m /\ ntd_time g = time).
Proof using Hbase Hfiles Hnodes.
  intros Hm Hn. split.
  - intros (f & Hf & Huid & <-). apply stop_transferable in Hf as (n' & Hn' & Huid' & Hlist); [|done].
    assert (n' = n) as -> by (apply stop_uid_inj; congruence).
    exists (mkNTD (node_uid m) (ntd_time f) (ntd_distance f)). split; [|done]. apply stop_reverse; [done|]. left. by exists m.
  - intros (g & Hg & Huid & <-). apply stop_reverse in Hg as [(m' & Hm' & Huid' & Hlist)|[-> _]]; [| |done].
    + assert (m' = m) as -> by (apply stop_uid_inj; congruence).
  exists (mkNTD (node_uid n) (ntd_time g) (ntd_distance g)). split; [|done]. apply stop_transferable; [done|]. by exists n.
    + cbn in Huid. assert (n = m) as -> by (by apply stop_uid_inj). by apply self_footpath.
Qed.

(** A connection runs between stops. *)
Lemma connection_stops conn : conn ∈ connections td -> stop (getDepartureNode conn) /\ stop (getArrivalNode conn).
Proof using Hdata.
  intros Hin. destruct (data_connection _ _ _ Hdata conn Hin) as (i & j & k & Hi & Hok & _ & Hstop & Hk & _).
  apply job_connections_lookup in Hk as [_ Hof]; [|done]. rewrite Forall_forall in Hstop.
  split; apply Hstop; eapply list_elem_of_lookup_2; [exact (cn_from _ _ _ _ Hof)|exact (cn_to _ _ _ _ Hof)].
Qed.

Notation srv := (mkServer td nodeCount (tripsBefore + length jobs)).

Lemma job_trip_range t : t ∈ getTrips td -> (trip_uid t <= tripsBefore + length jobs)%nat.
Proof using Hdata.
  rewrite (dj_trips _ _ _ Hdata). intros Ht. apply job_trips_elem in Ht as (i & j & Hi & ->).
  apply lookup_lt_Some in Hi. cbn. lia.
Qed.

Lemma data_loaded_connection conn : conn ∈ connections td -> loaded_connection srv stop conn.
Proof using Hbase Hdata Hfiles Hnodes.
  intros Hin. destruct (connection_stops conn Hin) as [Hfrom Hto].
  pose proof (data_trip_ok _ _ _ Hdata conn Hin) as Htrip.
  destruct (data_connection _ _ _ Hdata conn Hin) as (i & j & k & Hi & Hok & Htimed & _ & Hk & Hof).
  destruct (job_ride j _ Hok Htimed k conn Hk) as [Hride Harr].
  split; cbn [Node_getMaxUid Trip_getMaxUid transitData]; [done|done|by apply stop_range|by apply stop_range| | | | | |done].
  - apply job_trip_range. rewrite (dj_trips _ _ _ Hdata). apply job_trips_elem. rewrite Hof. eauto.
  - by apply footpaths_ok.
  - by apply footpaths_ok.
  - by apply self_footpath.
  - by apply self_footpath.
Qed.

Lemma data_healthy : NoDup (scenario_uuid <$> getScenarios td) -> filter_law -> healthy srv stop.
Proof using Hbase Hdata Hfiles Hnodes.
  intros Hscenarios Hfilter. split; cbn [transitData Node_getMaxUid Trip_getMaxUid].
  - exact (data_well_formed _ _ _ Hdata).
  - rewrite Forall_forall. exact data_loaded_connection.
  - rewrite Forall_forall. exact job_trip_range.
  - exact (dj_trip_forward _ _ _ Hdata).
  - exact (dj_trip_reverse _ _ _ Hdata).
  - intros x e time Hx He. apply walks_agree; by apply connection_stops.
  - exact Hscenarios.
  - intros m n Hm Hn Huid. f_equal. by apply stop_uid_inj.
  - intros point limit Hlimit. destruct (Hfilter point (getNodes td) limit Hlimit) as (footpaths & Hrun & Hall & Hnd).
    exists footpaths. split; [exact Hrun|]. split.
    + eapply Forall_impl; [exact Hall|]. cbn. intros f [Hf Ht]. apply list_elem_of_fmap in Hf as (n & Hf & Hn).
      split; [rewrite Hf; by apply stop_range|done].
    + apply Hnd. rewrite Hnodes. unfold with_footpaths. rewrite with_lists_uids. exact (bs_uids _ _ _ Hbase).
Qed.
End Healthy.
