(* ===== verification/FiltersCorrect.v ===== *)
(** * What the geographic filters give

    Both filters give footpaths to different nodes of their list, in its order, with
    times that a [float] holds: the law that the calculations rely on. The bird distance
    gives it for every platform, the map service for the responses it documents. *)

From Stdlib Require Import ZArith Lia.
From Corelib Require Import SpecFloat.
From stdpp Require Import base list strings.
From S2P Require Import Prelude.
From S2P Require Import Data.
From S2P Require Import Numbers.
From S2P Require Import Calculator.
From S2P Require Import FloatBounds.
From S2P Require Import GeoFilters.
From S2P Require Import CacheCorrect.

Local Open Scope Z_scope.

(** ** Numbers *)

Lemma int_of_fits prec E f : fits prec E false f -> E < 0 -> 0 <= prec + E <= 31 ->
  exists z, int_of f = Ok z /\ 0 <= z < 2 ^ (prec + E).
Proof.
  intros Hf HE Hbound. destruct f as [s|s| |s m e]; cbn in Hf; [|done|done|].
  { exists 0. split; [done|]. split; [lia|]. apply Z.pow_pos_nonneg; lia. }
  destruct Hf as (-> & Hm & He).
  assert (0 <= whole (Z.pos m) e < 2 ^ (prec + E)) as Hwhole.
  { unfold whole. destruct (Z.leb_spec 0 e); [lia|]. split; [apply Z.div_pos; lia|].
    apply Z.div_lt_upper_bound; [lia|]. eapply Z.lt_le_trans; [exact Hm|]. rewrite <- Z.pow_add_r by lia.
    apply Z.pow_le_mono_r; lia. }
  exists (whole (Z.pos m) e). split; [|exact Hwhole]. cbn [int_of].
  assert (2 ^ (prec + E) <= 2 ^ 31) by (apply Z.pow_le_mono_r; lia).
  unfold MIN_INT, MAX_INT. destruct (Z.leb_spec (-2147483648) (whole (Z.pos m) e)); [|lia].
  by destruct (Z.leb_spec (whole (Z.pos m) e) 2147483647); [|lia].
Qed.

(** A non-negative number that is not above a bound fits where the bound does. *)
Lemma fits_below prec E x bound : signed_as prec false x -> fits prec E false bound -> SFleb x bound = true -> fits prec E false x.
Proof.
  intros Hx Hbound Hle. destruct x as [s|s| |s m e], bound as [s'|s'| |s' m' e']; cbn in Hx, Hbound; try done;
    destruct_and?; subst; try discriminate Hle; try done; cbn.
  split_and!; [done|done|]. unfold SFleb, SFcompare in Hle. destruct (Z.compare_spec e e'); [lia|lia|discriminate].
Qed.

(** The ceiling of a number of less than [2 ^ 31]. *)
Lemma int_of_ceil_fits f : fits 24 7 false f -> exists z, int_of_ceil f = Ok z /\ 0 <= z.
Proof.
  intros Hf. destruct f as [s|s| |s m e]; cbn in Hf; [by exists 0|done|done|]. destruct Hf as (-> & Hm & He).
  cbn [int_of_ceil]. set (z := if 0 <=? e then _ else _).
  assert (0 <= z <= MAX_INT) as Hz; [|exists z; unfold MIN_INT; destruct (Z.leb_spec (-2147483648) z); [|lia];
    destruct (Z.leb_spec z MAX_INT); [by split; [|lia]|lia]].
  unfold z, MAX_INT. destruct (Z.leb_spec 0 e).
  - assert (1 <= 2 ^ e <= 2 ^ 7) by (split; [change 1 with (2 ^ 0)|]; apply Z.pow_le_mono_r; lia). nia.
  - assert (0 < 2 ^ - e) by (apply Z.pow_pos_nonneg; lia).
    pose proof (Z.div_mod (- Z.pos m) (2 ^ - e)). pose proof (Z.mod_pos_bound (- Z.pos m) (2 ^ - e)).
    change (- Z.pos m) with (Z.neg m) in *. nia.
Qed.

(** ** Footpaths to some of the nodes *)

(** A loop over some positions, each of which gives a footpath or not: those of the ones
    that are kept, in order. *)
Lemma kept_footpaths {A} (body : A -> calc (option NodeTimeDistance)) (keep : A -> bool) (P : A -> NodeTimeDistance -> Prop) (l : list A) :
  Forall (fun x => exists f, body x = Ok f /\ match f with Some g => keep x = true /\ P x g | None => keep x = false end) l ->
  exists fs, mapM body l = Ok fs /\ Forall2 P (filter (fun x => keep x = true) l) (omap id fs).
Proof.
  induction 1 as [|x l (f & Hf & HP) _ (fs & Hfs & Hall)]; [exists []; by split; [|constructor]|].
  exists (f :: fs). split; [cbn; by rewrite Hf; cbn; rewrite Hfs|]. destruct f as [g|].
  - destruct HP as [Hkeep HP]. rewrite filter_cons_True by done. cbn. by constructor.
  - by rewrite filter_cons_False by (rewrite HP; discriminate).
Qed.

(** Footpaths to some of the nodes, one each, satisfy the law. *)
Lemma sublist_law (kept nodes : list Node) footpaths : sublist kept nodes ->
  Forall2 (fun node f => ntd_node f = node_uid node /\ 0 <= ntd_time f <= 16777216) kept footpaths ->
  Forall (fun f => ntd_node f ∈ (node_uid <$> nodes) /\ 0 <= ntd_time f <= 16777216) footpaths /\
  (NoDup (node_uid <$> nodes) -> NoDup (ntd_node <$> footpaths)).
Proof.
  intros Hsub Hall.
  assert (ntd_node <$> footpaths = node_uid <$> kept) as Heq
    by (clear Hsub; induction Hall as [|node f kept footpaths (Hf & _) _ IH]; [done|by cbn; rewrite Hf, IH]).
  split.
  - apply Forall_forall. intros f Hf. apply list_elem_of_lookup in Hf as (i & Hi).
    destruct (Forall2_lookup_r _ _ _ _ _ Hall Hi) as (node & Hnode & -> & Ht). split; [|done].
    apply list_elem_of_fmap_2. eapply elem_of_sublist; [by eapply list_elem_of_lookup_2|done].
  - intros Hnd. rewrite Heq. eapply sublist_NoDup; [exact Hnd|]. by apply fmap_sublist.
Qed.

(** ** The bird distance *)

Section Bird.
Context `{libm : Libm}.

Lemma max_distance_fits limit : 0 < limit < 65536 ->
  fits 24 15 false (calculateMaxDistanceSquared limit getWalkingSpeedMetersPerSecond).
Proof.
  intros Hlimit. unfold calculateMaxDistanceSquared.
  assert (fits 24 (-7) false (float_of limit)) as H1 by (apply (integer_fits 24 128 eq_refl _ _ 16); [lia..|done|done]).
  assert (fits 24 (-23) false getWalkingSpeedMetersPerSecond) as H2 by done.
  pose proof (mul_fits 24 128 eq_refl (-7) (-23) (-5) _ _ _ _ H1 H2) as H3. cbn [xorb] in H3.
  pose proof (mul_fits 24 128 eq_refl (-5) (-5) 15 _ _ _ _ (H3 ltac:(done) ltac:(done)) (H3 ltac:(done) ltac:(done))) as H4.
  apply H4; done.
Qed.

Lemma node_distance_signed node point lengths : signed_as 24 false (calculateNodeDistanceSquared node point lengths).
Proof. unfold calculateNodeDistanceSquared. apply add_signed; [done|apply square_signed; done..]. Qed.

Lemma sqrt_small x : fits 24 15 false x -> exists z, int_of (sqrt x) = Ok z /\ 0 <= z < 2 ^ 21.
Proof.
  intros Hx. unfold sqrt. destruct sqrt_of_float.
  - apply (int_of_fits 24 (-3)); [|done|done]. apply (sqrt_fits 24 128 eq_refl 15); done.
  - apply (int_of_fits 53 (-32)); [|done|done]. apply (sqrt_fits 53 1024 eq_refl (-13)); [|done|done].
    destruct x as [s|s| |s m e]; cbn in Hx; [done|done|done|]. destruct Hx as (-> & Hm & He). cbn [to_double].
    apply (binary_round_fits 53 1024 eq_refl); [|done].
    pose proof (digits_upper (Z.pos m) 24 ltac:(done) ltac:(lia)). unfold fexp, emin. lia.
Qed.

Lemma walk_time_small distance : 0 <= distance < 2 ^ 21 ->
  exists z, int_of (SFdiv 24 128 (float_of distance) getWalkingSpeedMetersPerSecond) = Ok z /\ 0 <= z < 2 ^ 23.
Proof.
  intros Hd. apply (int_of_fits 24 (-1)); [|done|done]. apply (div_fits 24 128 eq_refl (-2)); [|done|done].
  apply (integer_fits 24 128 eq_refl _ _ 21); done.
Qed.

(** What a footpath holds. *)
Definition bird_walk (point : Point) (node : Node) (f : NodeTimeDistance) : Prop :=
  ntd_node f = node_uid node /\
  int_of (sqrt (calculateNodeDistanceSquared (node_point node) point (calculateLengthOfOneDegree point))) = Ok (ntd_distance f) /\
  int_of (SFdiv 24 128 (float_of (ntd_distance f)) getWalkingSpeedMetersPerSecond) = Ok (ntd_time f) /\
  0 <= ntd_distance f < 2 ^ 21 /\ 0 <= ntd_time f < 2 ^ 23.

(** A footpath is there exactly for the nodes within the distance. *)
Lemma bird_footpath_ok point limit node : 0 < limit < 65536 ->
  let lengths := calculateLengthOfOneDegree point in
  let maxDistance := calculateMaxDistanceSquared limit getWalkingSpeedMetersPerSecond in
  exists f, bird_footpath point lengths maxDistance getWalkingSpeedMetersPerSecond node = Ok f /\
    match f with
    | Some f => SFleb (calculateNodeDistanceSquared (node_point node) point lengths) maxDistance = true /\ bird_walk point node f
    | None => SFleb (calculateNodeDistanceSquared (node_point node) point lengths) maxDistance = false
    end.
Proof.
  intros Hlimit. cbv zeta. unfold bird_footpath, bird_walk. destruct (SFleb _ _) eqn:Hle; [|exists None; by split].
  pose proof (fits_below 24 15 _ _ (node_distance_signed _ _ _) (max_distance_fits limit Hlimit) Hle) as Hfits.
  destruct (sqrt_small _ Hfits) as (distance & Hsqrt & Hd). rewrite Hsqrt. cbn [mbind result_bind].
  destruct (walk_time_small distance Hd) as (time & Htime & Ht). rewrite Htime. cbn [mbind result_bind].
  eexists. split; [reflexivity|]. cbn [ntd_node ntd_time ntd_distance]. split; [done|]. auto.
Qed.

Lemma near_nodes_sublist point lengths maxDistance nodes : sublist (near_nodes point lengths maxDistance nodes) nodes.
Proof. apply sublist_filter. Qed.

Lemma bird_footpaths point nodes limit : 0 < limit < 65536 ->
  exists footpaths, EuclideanGeoFilter point nodes limit getWalkingSpeedMetersPerSecond = Ok footpaths /\
    Forall2 (bird_walk point)
      (near_nodes point (calculateLengthOfOneDegree point)
         (calculateMaxDistanceSquared limit getWalkingSpeedMetersPerSecond) nodes) footpaths.
Proof.
  intros Hlimit. unfold EuclideanGeoFilter, near_nodes.
  destruct (kept_footpaths
              (bird_footpath point (calculateLengthOfOneDegree point)
                 (calculateMaxDistanceSquared limit getWalkingSpeedMetersPerSecond) getWalkingSpeedMetersPerSecond)
              (fun node => SFleb (calculateNodeDistanceSquared (node_point node) point (calculateLengthOfOneDegree point))
                             (calculateMaxDistanceSquared limit getWalkingSpeedMetersPerSecond))
              (bird_walk point) nodes) as (fs & Hfs & Hall).
  { apply Forall_forall. intros node _. by apply bird_footpath_ok. }
  rewrite Hfs. cbn [mbind result_bind]. by eexists.
Qed.
End Bird.

(** ** The bird distance filter *)

Section Euclidean.
Context {libm : Libm}.

(** C36: The bird distance filter, on every platform and for a walk of less than 65536
    seconds, ends without an exception nor an undefined conversion, and gives one
    footpath for each node that is within the distance, in their order: its distance is
    the whole part of the root of the square, and its time that of the distance over the
    speed. *)
Theorem euclidean_footpaths (point : Point) (nodes : list Node) (limit : Z) : 0 < limit < 65536 ->
  exists footpaths, EuclideanGeoFilter point nodes limit getWalkingSpeedMetersPerSecond = Ok footpaths /\
    Forall2 (fun node f => ntd_node f = node_uid node /\
               int_of (sqrt (calculateNodeDistanceSquared (node_point node) point (calculateLengthOfOneDegree point))) = Ok (ntd_distance f) /\
               int_of (SFdiv 24 128 (float_of (ntd_distance f)) getWalkingSpeedMetersPerSecond) = Ok (ntd_time f) /\
               0 <= ntd_distance f < 2 ^ 21 /\ 0 <= ntd_time f < 2 ^ 23)
      (near_nodes point (calculateLengthOfOneDegree point)
         (calculateMaxDistanceSquared limit getWalkingSpeedMetersPerSecond) nodes) footpaths.
Proof. intros Hlimit. by apply bird_footpaths. Qed.

(** So it satisfies the law that the calculations rely on. *)
Lemma euclidean_filter_law : filter_law (geo := EuclideanGeoFilter).
Proof.
  intros point nodes limit Hlimit. destruct (bird_footpaths point nodes limit Hlimit) as (footpaths & Hrun & Hall).
  exists footpaths. split; [exact Hrun|]. eapply sublist_law; [apply near_nodes_sublist|].
  eapply Forall2_impl; [exact Hall|]. cbv beta. intros node f (-> & _ & _ & _ & Ht). split; [done|lia].
Qed.

End Euclidean.

(** ** The map service *)

(** A loop by position: the results of the bodies, or an error of one of them. *)
Lemma mapM_positions {A B} (body : nat -> calc B) (g : nat -> A -> B) (l : list A) : forall start,
  match mapM body (seq start (length l)) with
  | Ok out => (forall i x, l !! i = Some x -> exists y, body (start + i)%nat = Ok y) /\
      ((forall i x y, l !! i = Some x -> body (start + i)%nat = Ok y -> y = g i x) -> out = imap g l)
  | Throw e => exists i, (i < length l)%nat /\ body (start + i)%nat = Throw e
  end.
Proof.
  revert g. induction l as [|x l IH]; intros g start; [done|].
  change (seq start (length (x :: l))) with (start :: seq (S start) (length l)).
  change (mapM body (start :: seq (S start) (length l))) with
    (y ← body start; ys ← mapM body (seq (S start) (length l)); Ok (y :: ys)).
  destruct (body start) as [y|e] eqn:Hy; cbn [mbind result_bind].
  2: { exists 0%nat. rewrite Nat.add_0_r. split; [cbn; lia|done]. }
  specialize (IH (fun i => g (S i)) (S start)). destruct (mapM body _) as [ys|e]; cbn [mbind result_bind].
  - destruct IH as [Hall Heq]. split.
    + intros [|i] z Hz; [exists y; by rewrite Nat.add_0_r|]. rewrite <- Nat.add_succ_comm. by apply (Hall i z).
    + intros Hg. cbn. f_equal.
      * apply (Hg 0%nat x y eq_refl). by rewrite Nat.add_0_r.
      * apply Heq. intros i z w Hz Hw. apply (Hg (S i) z w Hz). by rewrite <- Nat.add_succ_comm.
  - destruct IH as (i & Hi & Hthrow). exists (S i). cbn. split; [lia|]. by rewrite <- Nat.add_succ_comm.
Qed.

(** The rows that the service documents: one element for the point itself and one for each
    node; an element is [null] when no walk is found, or a number, not negative and less
    than [2 ^ 30] (34 years, a million kilometres). *)
Definition row_documented (n : nat) (row : list (option spec_float)) : Prop :=
  length row = S n /\ Forall (fun v => forall x, v = Some x -> fits 53 (-23) false x) row.

(** The number of a row for the node [i], rounded up: none when it is [null]. *)
Definition row_ceil (row : list (option spec_float)) (i : nat) : option Z :=
  match row !! S i with
  | Some (Some x) => match int_of_ceil (to_float x) with Ok z => Some z | Throw _ => None end
  | _ => None
  end.

(** The footpath to the node [i], from its values. *)
Definition osrm_walk (limit : Z) (durations distances : list (option spec_float)) (i : nat) (node : Node)
    : option NodeTimeDistance :=
  time ← row_ceil durations i;
  if time <=? limit then distance ← row_ceil distances i; Some (mkNTD (node_uid node) time distance) else None.

(** A value that the filter needs is [null]: a duration, or the distance of a node whose
    time is within the limit. *)
Definition needs_null (limit : Z) (near : list Node) (durations distances : list (option spec_float)) : Prop :=
  exists i, (i < length near)%nat /\
    (durations !! S i = Some None \/
     exists time, row_ceil durations i = Some time /\ time <= limit /\ distances !! S i = Some None).

Lemma value_read x : fits 53 (-23) false x -> exists z, int_of_ceil (to_float x) = Ok z /\ 0 <= z.
Proof.
  intros Hx. apply int_of_ceil_fits. destruct x as [s|s| |s m e]; cbn in Hx; [done|done|done|].
  destruct Hx as (-> & Hm & He). apply (binary_round_fits 24 128 eq_refl); [|done].
  pose proof (digits_upper (Z.pos m) 53 ltac:(done) ltac:(lia)). unfold fexp, emin. lia.
Qed.

Lemma row_value n row i : row_documented n row -> (i < n)%nat ->
  (exists z, table_value row (S i) = Ok z /\ row_ceil row i = Some z /\ 0 <= z) \/
  (table_value row (S i) = Throw StdException /\ row_ceil row i = None /\ row !! S i = Some None).
Proof.
  intros [Hlen Hall] Hi. destruct (lookup_lt_is_Some_2 row (S i)) as [v Hv]; [lia|].
  unfold table_value, row_ceil. rewrite Hv. destruct v as [x|]; [left|by right].
  rewrite Forall_forall in Hall.
  destruct (value_read x (Hall _ (list_elem_of_lookup_2 _ _ _ Hv) x eq_refl)) as (z & -> & Hz). eauto.
Qed.

Lemma row_ceil_pos n row i z : row_documented n row -> row_ceil row i = Some z -> 0 <= z.
Proof.
  intros Hrow Hz. destruct (decide (i < n)%nat) as [Hi|Hi].
  - destruct (row_value n row i Hrow Hi) as [(z' & _ & Hz' & Hpos)|(_ & Hnone & _)]; [|congruence].
    by replace z with z' by congruence.
  - unfold row_ceil in Hz. rewrite lookup_ge_None_2 in Hz; [done|]. destruct Hrow as [-> _]. lia.
Qed.

(** The loop over a table: the footpaths of the nodes, or an exception when a value that it
    needs is null. *)
Lemma osrm_footpaths_read limit near durations distances :
  row_documented (length near) durations -> row_documented (length near) distances ->
  (osrm_footpaths limit near (mkOsrmTable (Some durations) (Some distances)) =
     Ok (omap id (imap (osrm_walk limit durations distances) near)) /\
   ~ needs_null limit near durations distances) \/
  (osrm_footpaths limit near (mkOsrmTable (Some durations) (Some distances)) = Throw StdException /\
   needs_null limit near durations distances).
Proof.
  intros Hd Hl. unfold osrm_footpaths. cbn [durations_row distances_row].
  rewrite (proj1 Hd), (proj1 Hl). cbn [Nat.ltb Nat.leb andb]. rewrite Nat.sub_succ, Nat.sub_0_r.
  assert (forall i node, near !! i = Some node ->
    (osrm_footpath limit near durations distances (1 + i) = Ok (osrm_walk limit durations distances i node) /\
     ~ (durations !! S i = Some None \/
        exists time, row_ceil durations i = Some time /\ time <= limit /\ distances !! S i = Some None)) \/
    (osrm_footpath limit near durations distances (1 + i) = Throw StdException /\
     (durations !! S i = Some None \/
      exists time, row_ceil durations i = Some time /\ time <= limit /\ distances !! S i = Some None))) as Hbody.
  { intros i node Hnode. pose proof (lookup_lt_Some _ _ _ Hnode) as Hi. change (1 + i)%nat with (S i).
    unfold osrm_footpath, osrm_walk. rewrite Nat.sub_succ, Nat.sub_0_r. apply vec_get_Ok in Hnode. rewrite Hnode.
    assert (forall row, row_documented (length near) row -> is_Some (row_ceil row i) -> row !! S i <> Some None) as Hnn
      by (intros row _ [z Hz] Hnone; unfold row_ceil in Hz; by rewrite Hnone in Hz).
    destruct (row_value _ _ _ Hd Hi) as [(time & -> & Hceil & _)|(-> & _ & Hnone)]; [|right; by auto].
    rewrite Hceil. cbn [mbind result_bind option_bind].
    destruct (Z.leb_spec time limit) as [Hle|Hgt].
    2: { left. split; [done|]. intros [Hnull|(t & Ht & Hle & _)]; [by apply (Hnn durations)|].
         assert (t = time) as -> by congruence. lia. }
    destruct (row_value _ _ _ Hl Hi) as [(distance & -> & Hceil2 & _)|(-> & _ & Hnone)]; [|right; by eauto 6].
    rewrite Hceil2. left. split; [done|]. intros [Hnull|(t & _ & _ & Hnull)]; [by apply (Hnn durations)|by apply (Hnn distances)]. }
  pose proof (mapM_positions (osrm_footpath limit near durations distances) (osrm_walk limit durations distances) near 1) as Hloop.
  destruct (mapM _ _) as [out|e]; cbn [mbind result_bind].
  - left. destruct Hloop as [Hall Heq]. rewrite Heq.
    + split; [done|]. intros (i & Hi & Hnull). destruct (lookup_lt_is_Some_2 near i Hi) as [node Hnode].
      destruct (Hbody i node Hnode) as [[_ Hno]|[Hthrow _]]; [done|].
      destruct (Hall i node Hnode) as [y Hy]. congruence.
    + intros i node y Hnode Hy. destruct (Hbody i node Hnode) as [[Hrun _]|[Hthrow _]]; congruence.
  - right. destruct Hloop as (i & Hi & Hthrow). destruct (lookup_lt_is_Some_2 near i Hi) as [node Hnode].
    destruct (Hbody i node Hnode) as [[Hrun _]|[Hrun Hnull]]; [congruence|].
    split; [congruence|by exists i].
Qed.

Section Service.
Context `{libm : Libm, service : OsrmService} (mode host port : string).

Abbreviation table_request point near := (osrm_request (host +:+ ":" +:+ port) (osrm_query mode false point near)).

Abbreviation bird_near point limit nodes :=
  (near_nodes point (calculateLengthOfOneDegree point) (calculateMaxDistanceSquared limit getWalkingSpeedMetersPerSecond) nodes).

(** What the service documents: a request that succeeds has a document, the rows of which
    have an element for each coordinate of the request, [null] when no walk is found. *)
Definition service_documented : Prop := forall point near content,
  table_request point near = Some ("200 OK"%string, content) ->
  exists table, osrm_parse content = Some table /\
    forall row, durations_row table = Some row \/ distances_row table = Some row -> row_documented (length near) row.

(** The service finds a walk to every node it is asked for: no element is [null]. *)
Definition walks_found : Prop := forall point near content table,
  table_request point near = Some ("200 OK"%string, content) -> osrm_parse content = Some table ->
  forall row, durations_row table = Some row \/ distances_row table = Some row -> Forall is_Some row.

(** The table that the filter reads: there is none when no node is near, the request fails,
    its status is not a success, or the document has not both rows. *)
Definition table_for (point : Point) (near : list Node) (durations distances : list (option spec_float)) : Prop :=
  near <> [] /\ exists content, table_request point near = Some ("200 OK"%string, content) /\
    osrm_parse content = Some (mkOsrmTable (Some durations) (Some distances)).

Abbreviation run point nodes limit :=
  (OsrmGeoFilter mode host port false point nodes limit getWalkingSpeedMetersPerSecond).

Lemma osrm_run point nodes limit : service_documented ->
  let near := bird_near point limit nodes in
  (run point nodes limit = Ok [] /\ forall durations distances, ~ table_for point near durations distances) \/
  exists durations distances, table_for point near durations distances /\
    row_documented (length near) durations /\ row_documented (length near) distances /\
    run point nodes limit = osrm_footpaths limit near (mkOsrmTable (Some durations) (Some distances)).
Proof.
  intros Hdoc. cbv zeta. unfold OsrmGeoFilter. set (near := bird_near point limit nodes).
  destruct (Nat.eqb_spec (length near) 0) as [Hnear|Hnear].
  { left. split; [done|]. intros ? ? [Hne _]. by apply nil_length_inv in Hnear. }
  assert (near <> []) as Hne by (by intros ->).
  destruct (table_request point near) as [[status content]|] eqn:Hreq.
  2:{ left. split; [done|]. unfold table_for. rewrite Hreq. intros ? ? (_ & ? & ? & _). done. }
  destruct (String.eqb_spec status "200 OK") as [->|Hstatus]; cbn [negb].
  2:{ left. split; [done|]. unfold table_for. rewrite Hreq. intros ? ? (_ & ? & ? & _). congruence. }
  destruct (Hdoc point near content Hreq) as ([[durations|] [distances|]] & Hparse & Hrows); rewrite Hparse; cbn in Hrows.
  2-4: left; split; [done|]; unfold table_for; rewrite Hreq; intros ? ? (_ & ? & ? & ?); congruence.
  right. exists durations, distances. split_and!; [|apply Hrows; auto..|done]. split; [done|]. by exists content.
Qed.

(** The footpaths of a table are those of some of the near nodes. *)
Lemma walks_of_nodes limit near durations distances : forall start, limit < 65536 ->
  (forall i z, row_ceil durations i = Some z -> 0 <= z) ->
  exists kept, sublist kept near /\
    Forall2 (fun node f => ntd_node f = node_uid node /\ 0 <= ntd_time f <= 16777216) kept
      (omap id (imap (fun i => osrm_walk limit durations distances (start + i)) near)).
Proof.
  induction near as [|node near IH]; intros start Hlimit Hpos; [exists []; by split|].
  destruct (IH (S start) Hlimit Hpos) as (kept & Hsub & Hall).
  rewrite imap_cons. cbn [omap list_omap].
  rewrite (imap_ext ((fun i => osrm_walk limit durations distances (start + i)) ∘ S)
             (fun i => osrm_walk limit durations distances (S start + i)) near)
    by (intros i x _; cbn; by rewrite Nat.add_succ_r).
  rewrite Nat.add_0_r.
  destruct (osrm_walk limit durations distances start node) as [f|] eqn:Hf; cbn [id].
  - exists (node :: kept). split; [by constructor|]. constructor; [|done].
    unfold osrm_walk in Hf. destruct (row_ceil durations start) as [time|] eqn:Ht; [|done]. cbn in Hf.
    destruct (Z.leb_spec time limit); [|done]. destruct (row_ceil distances start); [|done].
    injection Hf as <-. cbn. specialize (Hpos start time Ht). split; [done|lia].
  - exists kept. split; [by constructor|done].
Qed.

Lemma no_null row i : Forall is_Some row -> row !! i <> Some (@None spec_float).
Proof. intros Hall Hi. rewrite Forall_lookup in Hall. destruct (Hall i None Hi) as [? ?]. done. Qed.

Lemma osrm_filter_law : service_documented -> walks_found -> filter_law (geo := OsrmGeoFilter mode host port false).
Proof.
  intros Hdoc Hfound point nodes limit Hlimit.
  destruct (osrm_run point nodes limit Hdoc) as [[Hrun _]|(durations & distances & Htable & Hd & Hl & Hrun)];
    unfold getAccessibleNodesFootpathsFromPoint; rewrite Hrun.
  { exists []. split; [done|]. split; [constructor|intros _; constructor]. }
  destruct Htable as (_ & content & Hreq & Hparse).
  pose proof (Hfound _ _ _ _ Hreq Hparse durations (or_introl eq_refl)) as Hnd.
  pose proof (Hfound _ _ _ _ Hreq Hparse distances (or_intror eq_refl)) as Hnl.
  destruct (osrm_footpaths_read limit _ _ _ Hd Hl) as [[-> _]|[_ (i & _ & Hnull)]].
  - eexists. split; [done|].
    destruct (walks_of_nodes limit (bird_near point limit nodes) durations distances 0) as (kept & Hsub & Hall); [lia| |].
    + intros i z. by apply (row_ceil_pos _ _ _ _ Hd).
    + eapply sublist_law; [|exact Hall]. etransitivity; [exact Hsub|apply near_nodes_sublist].
  - exfalso. destruct Hnull as [Hnull|(_ & _ & _ & Hnull)]; [exact (no_null _ _ Hnd Hnull)|exact (no_null _ _ Hnl Hnull)].
Qed.

(** C37: The filter of the map service, for a service that answers as it documents. When
    the request fails, or the document has no table, there are no footpaths. From a
    table there is one footpath, in the order of the nodes, for each near node whose
    time, rounded up, is within the limit, with its time and its distance rounded up,
    as long as no value that the filter needs is null; the service documents that a
    value is null when it finds no walk, and then, for a duration or for the distance
    of a node within the limit, the filter ends with an exception. There is no
    undefined conversion. *)
Theorem osrm_footpaths_of_table point nodes limit : service_documented ->
  let near := bird_near point limit nodes in
  ((forall durations distances, ~ table_for point near durations distances) -> run point nodes limit = Ok []) /\
  forall durations distances, table_for point near durations distances ->
    (~ needs_null limit near durations distances ->
     run point nodes limit = Ok (omap id (imap (osrm_walk limit durations distances) near)) /\
     Forall (fun f => 0 <= ntd_time f <= limit) (omap id (imap (osrm_walk limit durations distances) near))) /\
    (needs_null limit near durations distances -> run point nodes limit = Throw StdException).
Proof.
  intros Hdoc. cbv zeta.
  destruct (osrm_run point nodes limit Hdoc) as [[Hrun Hno]|(durations & distances & Htable & Hd & Hl & Hrun)].
  { split; [done|]. intros durations distances Htable. by apply Hno in Htable. }
  split; [intros Hno; by apply Hno in Htable|]. intros durations' distances' Htable'.
  destruct Htable as (_ & content & Hreq & Hparse), Htable' as (_ & content' & Hreq' & Hparse').
  replace durations' with durations by congruence. replace distances' with distances by congruence.
  rewrite Hrun.
  destruct (osrm_footpaths_read limit _ _ _ Hd Hl) as [[-> Hnull]|[-> Hnull]]; split; try done; intros _.
  split; [done|]. apply Forall_forall. intros f Hf. apply list_elem_of_omap in Hf as (o & Ho & Hid). cbn in Hid. subst o.
  apply elem_of_lookup_imap in Ho as (i & node & Hwalk & _). symmetry in Hwalk. unfold osrm_walk in Hwalk.
  destruct (row_ceil durations i) as [time|] eqn:Ht; [|done]. cbn in Hwalk.
  destruct (Z.leb_spec time limit); [|done]. destruct (row_ceil distances i); [|done]. injection Hwalk as <-. cbn.
  split; [by apply (row_ceil_pos _ _ _ _ Hd Ht)|done].
Qed.
End Service.
