(* ===== verification/FilterDemo.v ===== *)
(** * Footpaths of a small network

    The geographic filters on three nodes near a point: a platform with the first terms
    of the series of the cosine, and a map service that gives the same walk to every
    coordinate of a request. *)

From Stdlib Require Import ZArith Lia Ascii.
From Corelib Require Import SpecFloat.
From stdpp Require Import base list strings pretty.
From S2P Require Import Prelude.
From S2P Require Import Data.
From S2P Require Import Numbers.
From S2P Require Import Calculator.
From S2P Require Import GeoFilters.
From S2P Require Import Demo.
From S2P Require Import CacheCorrect.
From S2P Require Import FiltersCorrect.

Local Open Scope Z_scope.

(** ** A platform *)

(** 1 - x^2 / 2 + x^4 / 24 - x^6 / 720. *)
Definition cos_series (x : spec_float) : spec_float :=
  let square := (x * x)%double in
  (double_of 1 - square / double_of 2 + square * square / double_of 24 - square * square * square / double_of 720)%double.

#[export] Instance demo_libm : Libm := { cos := cos_series; sqrt_of_float := true }.

Definition here (lat : N) : Point := mkPoint (decimal lat (-3)) (round_decimal true 73500 (-3)).

Definition placed_node (u : uid) (lat : N) : Node :=
  mkNode (N.of_nat u) (Z.of_nat u) "" "" "" u (here lat) [] [].

(** At the point, 556 meters and eleven kilometers to the north of it. *)
Definition placed_nodes : list Node := [placed_node 1 45500; placed_node 2 45505; placed_node 3 45600].

Lemma euclidean_footpaths_witness : exists footpaths,
  EuclideanGeoFilter (here 45500) placed_nodes 1200 getWalkingSpeedMetersPerSecond = Ok footpaths /\
  (fun f => (ntd_node f, ntd_time f, ntd_distance f)) <$> footpaths = [(1%nat, 0, 0); (2%nat, 399, 555)].
Proof.
  destruct (euclidean_footpaths (here 45500) placed_nodes 1200 ltac:(lia)) as (footpaths & Hrun & _).
  exists footpaths. split; [exact Hrun|].
  assert (match EuclideanGeoFilter (here 45500) placed_nodes 1200 getWalkingSpeedMetersPerSecond with
          | Ok l => (fun f => (ntd_node f, ntd_time f, ntd_distance f)) <$> l | Throw _ => [] end =
          [(1%nat, 0, 0); (2%nat, 399, 555)]) as H by (vm_compute; reflexivity).
  by rewrite Hrun in H.
Defined.

(** ** A map service *)

(** The coordinates of a request: one more than its semicolons. *)
Fixpoint semicolons (s : string) : nat :=
  match s with
  | EmptyString => 0
  | String c rest => (if Ascii.eqb c ";" then 1 else 0) + semicolons rest
  end%nat.

Lemma semicolons_app a b : semicolons (a +:+ b) = (semicolons a + semicolons b)%nat.
Proof.
  induction a as [|c a IH]; [done|]. change (String c a +:+ b) with (String c (a +:+ b)). cbn [semicolons].
  rewrite IH. lia.
Qed.

Lemma semicolons_digit x s : semicolons (String (pretty_N_char x) s) = semicolons s.
Proof. cbn. unfold pretty_N_char. by repeat case_match. Qed.

Lemma semicolons_go x : forall s, semicolons (pretty_N_go x s) = semicolons s.
Proof.
  induction (N.lt_wf_0 x) as [x _ IH]; intros s. destruct (decide (x = 0)%N) as [->|Hx]; [done|].
  rewrite pretty_N_go_step by lia. rewrite IH by (apply N.div_lt; lia). apply semicolons_digit.
Qed.

Lemma semicolons_pretty (z : Z) : semicolons (pretty z) = 0%nat.
Proof.
  assert (forall n : N, semicolons (pretty n) = 0%nat) as Hn
    by (intros n; unfold pretty, pretty_N; case_decide; [done|apply semicolons_go]).
  destruct z as [|p|p]; [done|exact (Hn (N.pos p))|exact (Hn (N.pos p))].
Qed.

Lemma semicolons_zeros k : semicolons (String.substring 0 k "000000") = 0%nat.
Proof. by do 7 (destruct k as [|k]; [done|]). Qed.

Lemma semicolons_number f : semicolons (to_string f) = 0%nat.
Proof.
  destruct f as [s|s| |s m e]; [by destruct s|by destruct s|done|]. unfold to_string, six_digits.
  rewrite !semicolons_app, !semicolons_pretty, semicolons_zeros. by destruct s.
Qed.

Lemma semicolons_query mode point near : semicolons mode = 0%nat ->
  semicolons (osrm_query mode false point near) = length near.
Proof.
  intros Hmode. unfold osrm_query. rewrite !semicolons_app. cbn [semicolons Ascii.eqb].
  assert (forall p, semicolons (coordinates p) = 0%nat) as Hp
    by (intros p; unfold coordinates; by rewrite !semicolons_app, !semicolons_number).
  assert (forall s, semicolons (foldl (fun s node => s +:+ ";" +:+ coordinates (node_point node)) s near) =
            (semicolons s + length near)%nat) as Hfold.
  { induction near as [|node near IH]; intros s; cbn [foldl length]; [lia|]. rewrite IH, !semicolons_app, Hp. cbn. lia. }
  rewrite Hfold, !semicolons_app, Hmode, Hp. cbn. lia.
Qed.

(** Every request succeeds, with the request as the document: one minute and eighty meters
    to each of its coordinates. *)
#[export] Instance demo_osrm : OsrmService := {
  osrm_request _ query := Some ("200 OK"%string, query);
  osrm_parse content :=
    let row x := Some (replicate (S (semicolons content)) (Some (double_of x))) in Some (mkOsrmTable (row 60) (row 80))
}.

Lemma demo_osrm_documented : service_documented "walking" "localhost" "5000".
Proof.
  intros point near content [= <-]. eexists. split; [reflexivity|]. rewrite <- (semicolons_query "walking" point near eq_refl).
  cbn [durations_row distances_row]. intros row [[= <-]|[= <-]]; (split; [apply (length_replicate (S _))|]);
    apply (Forall_replicate _ (S _)); by intros x [= <-].
Qed.

Lemma demo_walks_found : walks_found "walking" "localhost" "5000".
Proof.
  intros point near content table _ [= <-]. cbn [durations_row distances_row].
  intros row [[= <-]|[= <-]]; by apply (Forall_replicate _ (S _)).
Qed.

Lemma osrm_footpaths_of_table_witness : exists footpaths,
  OsrmGeoFilter "walking" "localhost" "5000" false (here 45500) placed_nodes 1200 getWalkingSpeedMetersPerSecond = Ok footpaths /\
  (fun f => (ntd_node f, ntd_time f, ntd_distance f)) <$> footpaths = [(1%nat, 60, 80); (2%nat, 60, 80)].
Proof.
  set (row x := replicate 3 (Some (double_of x))).
  destruct (osrm_footpaths_of_table "walking" "localhost" "5000" (here 45500) placed_nodes 1200 demo_osrm_documented)
    as [_ H].
  destruct (H (row 60) (row 80)) as [Hrun _].
  - split; [by vm_compute|]. eexists. split; [reflexivity|vm_compute; reflexivity].
  - destruct Hrun as [Hrun _].
    + intros (i & Hi & Hnull).
      assert (forall x j, row x !! j <> Some None) as Hno
        by (intros x j Hj; by apply list_elem_of_lookup_2, elem_of_replicate_inv in Hj).
      destruct Hnull as [Hnull|(_ & _ & _ & Hnull)]; exact (Hno _ _ Hnull).
    + eexists. split; [exact Hrun|]. vm_compute. reflexivity.
Defined.
