(* ===== verification/CacheLoad.v ===== *)
(** * The data of a cache without mistakes

    [valid_cache] says of the files what the server relies on. The program that starts
    on such files has its data ready, and its server is healthy. *)

From Stdlib Require Import ZArith Lia Sorted.
From stdpp Require Import base list gmap strings.
From S2P Require Import Prelude.
From S2P Require Import Data.
From S2P Require Import Attempt.
From S2P Require Import Parameters.
From S2P Require Import CacheFiles.
From S2P Require CacheCollections.
From S2P Require Import CollectionsCorrect.
From S2P Require Import ScenariosCorrect.
From S2P Require Import SurveyCorrect.
From S2P Require CacheNodes.
From S2P Require Import NodesCorrect.
From S2P Require Import ConnectionSet.
From S2P Require Import ConnectionCache.
From S2P Require Import TransitData.
From S2P Require CacheSchedules.
From S2P Require Import SchedulesCorrect.
From S2P Require Import CacheFetcher.
From S2P Require Import Calculator.
From S2P Require Import ResetCorrect.
From S2P Require Import OptimizeCorrect.
From S2P Require Import ReverseJourney.
From S2P Require Import QuerySetup.
From S2P Require Import Numbers.
From S2P Require Import ResultToV2.
From S2P Require Import HttpServer.
From S2P Require Import ServerCorrect.
From S2P Require Import CacheCorrect.

Local Open Scope Z_scope.

Section Load.
Context `{files : CacheFiles, boost : Boost} (cacheDirectoryPath customPath : string).
Notation file name := (CacheCollections.cache_file cacheDirectoryPath customPath name).
Notation clear := CacheCollections.clear.
Notation modes := CacheCollections.getModes.

(** ** The contents of the files, one after the other *)

Definition agencies_outcome : calc Z * list Agency :=
  collection_outcome parse_agency clear (agencies_file (file "agencies")) [].
Definition services_outcome : calc Z * list Service :=
  collection_outcome parse_service clear (services_file (file "services")) [].
Definition dataSources_outcome : calc Z * list DataSource :=
  collection_outcome parse_dataSource clear (dataSources_file (file "dataSources")) [].
Definition base_outcome : calc Z * (list Node * uid) :=
  collection_outcome parse_node nodes_clear (nodes_file (file "nodes")) ([], 0%nat).
Definition lines_outcome : calc Z * (list Line * uid) :=
  collection_outcome (parse_line agencies_outcome.2 modes) (fun st => ([], st.2)) (lines_file (file "lines")) ([], 0%nat).

Definition nodes_read : list Node := with_footpaths cacheDirectoryPath customPath base_outcome.2.1.

Definition paths_outcome : calc Z * list Path :=
  collection_outcome (parse_path lines_outcome.2.1 nodes_read) clear (paths_file (file "paths")) [].

Definition jobs_read : list job :=
  all_jobs cacheDirectoryPath customPath paths_outcome.2 services_outcome.2 lines_outcome.2.1.

(** A cache the server can rely on. *)
Record valid_cache : Prop := {
  vc_agencies : agencies_outcome.1 = Ok 0;
  vc_services : services_outcome.1 = Ok 0;
  vc_dataSources : dataSources_outcome.1 = Ok 0 \/ dataSources_outcome.1 = Ok (- ENOENT);
  vc_nodes : base_outcome.1 = Ok 0;
  vc_lines : lines_outcome.1 = Ok 0;
  vc_paths : paths_outcome.1 = Ok 0;
  vc_node_files : Forall (fun n => exists c, node_file_ok cacheDirectoryPath customPath (node_uuid n) c) base_outcome.2.1;
  vc_scenarios : exists items, items <> [] /\ Forall scenario_texts_ok items /\
    scenarios_file (file "scenarios") = Opened (Some (Some <$> items));
  vc_odTrips : forall c path, in_file c (odTrips_file path) -> odTrip_lists_ok c;
  vc_line_files : Forall (line_ok cacheDirectoryPath customPath paths_outcome.2 services_outcome.2) lines_outcome.2.1;
  vc_jobs : NoDup (job_uuid <$> jobs_read);
  vc_timed : Forall job_timed jobs_read;
  vc_some : jobs_read <> [];
  vc_some_agency : agencies_outcome.2 <> [];
  vc_some_service : services_outcome.2 <> [];
  vc_some_node : base_outcome.2.1 <> []
}.

(** ** The steps of the loading *)

Lemma load_step_passes ignoreMissing update rest td td' ret :
  returns update td ret td' -> 0 <= ret \/ (ignoreMissing = true /\ ret = - ENOENT) ->
  load_step ignoreMissing update rest td = rest td'.
Proof.
  intros Hrun Hret. unfold load_step. rewrite attempt_bind_eval, Hrun.
  destruct Hret as [Hret|[-> ->]]; [|done]. by destruct (Z.ltb_spec ret 0); [lia|].
Qed.

Lemma returns_zoom {S T A} (get_part : T -> S) set_part (m : attempt S A) t a s :
  returns m (get_part t) a s -> returns (zoom get_part set_part m) t a (set_part s t).
Proof. unfold returns, zoom. by intros ->. Qed.

Lemma data_ready td :
  getAgencies td <> [] -> getServices td <> [] -> getNodes td <> [] -> getLines td <> [] ->
  getPaths td <> [] -> getScenarios td <> [] -> getTrips td <> [] -> getDataStatus td = READY.
Proof.
  unfold getDataStatus. destruct (getAgencies td); [done|]. destruct (getServices td); [done|].
  destruct (getNodes td); [done|]. destruct (getLines td); [done|]. destruct (getPaths td); [done|].
  destruct (getScenarios td); [done|]. by destruct (getTrips td).
Qed.

(** An outcome that is known by its code. *)
Lemma outcome_returns {S A} (r : calc A * S) a : r.1 = Ok a -> r = (Ok a, r.2).
Proof. destruct r. cbn. by intros ->. Qed.

(** ** The loading *)

#[local] Instance cache_fetcher : DataFetcher := CacheFetcher cacheDirectoryPath customPath.

(** What is read from valid files, before the connections are sorted. *)
Record loaded_data (td : TransitData) : Prop := {
  lo_nodes : getNodes td = nodes_read;
  lo_node_uid : node_global_uid (uids td) = base_outcome.2.2;
  lo_trip_uid : trip_global_uid (uids td) = length jobs_read;
  lo_scenarios : tree_sorted scenario_uuid (getScenarios td);
  lo_jobs : data_of_jobs 0 jobs_read td;
  lo_status : getDataStatus td = READY
}.

Context (Hvalid : valid_cache).

Lemma nodes_loaded : returns (CacheNodes.getNodes cacheDirectoryPath customPath) ([], 0%nat) 0 (nodes_read, base_outcome.2.2).
Proof using Hvalid.
  pose proof (outcome_returns _ _ (vc_nodes Hvalid)) as Hbase. apply getNodes_ok.
  - unfold returns. rewrite nodes_outcome. fold base_outcome. by rewrite Hbase at 1; destruct base_outcome.2.
  - rewrite Forall_fmap. eapply Forall_impl; [exact (vc_node_files Hvalid)|]. cbn. intros n (c & [Hc Hok _ _]).
    unfold message_of in Hc. destruct (node_file _); eauto.
Qed.

Lemma base_read : base_ok 0 base_outcome.2.1 base_outcome.2.2.
Proof using Hvalid.
  pose proof nodes_loaded as H. apply getNodes_run in H as (base & Hbase & _ & Hrun).
  unfold returns in Hrun. rewrite nodes_outcome in Hrun. fold base_outcome in Hrun. by rewrite Hrun.
Qed.

Lemma scenarios_loaded services lines agencies nodes ms : exists scenarios,
  returns (CacheCollections.getScenarios cacheDirectoryPath customPath services lines agencies nodes ms) [] 0 scenarios /\
  tree_sorted scenario_uuid scenarios /\ scenarios <> [].
Proof using Hvalid.
  destruct (vc_scenarios Hvalid) as (items & Hne & Hok & Hfile). eexists.
  split; [by apply (getScenarios_run _ _ _ _ _ _ _ items)|].
  destruct items as [|c items _] using rev_ind; [done|]. rewrite foldl_app. cbn [foldl]. split.
  - apply tree_assign_sorted. clear. induction items as [|c items IH] using rev_ind; [constructor|].
    rewrite foldl_app. by apply tree_assign_sorted.
  - destruct (foldl _ _ _) as [|s l]; cbn [tree_assign]; [done|]. destruct (key_ltb _ _); [done|]. by case_decide.
Qed.

(** The schedules, from the data that have all the rest. *)
Record before_schedules (td : TransitData) : Prop := {
  be_nodes : getNodes td = nodes_read;
  be_node_uid : node_global_uid (uids td) = base_outcome.2.2;
  be_agencies : getAgencies td = agencies_outcome.2;
  be_services : getServices td = services_outcome.2;
  be_lines : getLines td = lines_outcome.2.1;
  be_paths : getPaths td = paths_outcome.2;
  be_scenarios : tree_sorted scenario_uuid (getScenarios td) /\ getScenarios td <> [];
  be_trip_uid : trip_global_uid (uids td) = 0%nat;
  be_times : tripConnectionDepartureTimes td = ∅;
  be_forward : tripForwardConnections td = ∅;
  be_reverse : tripReverseConnections td = ∅
}.

(** An update that succeeds, by a lemma on its fetcher. *)
Ltac pass_step tac :=
  erewrite load_step_passes; [ | | by left]; cycle 1; [
    try (eapply returns_bind; [apply get_ok|]); apply returns_zoom; tac | ].
Tactic Notation "pass_update" uconstr(H) := pass_step ltac:(apply H).
Tactic Notation "pass_update" uconstr(H) uconstr(side) := pass_step ltac:(apply H, side).
Tactic Notation "pass_outcome" uconstr(H) constr(code) :=
  pass_step ltac:(unfold returns; cbn; rewrite H; exact (outcome_returns _ _ code)).

Lemma load_before : exists td, before_schedules td /\
  loadAllData TransitData_empty = load_step true updateSchedules (fun td => (Ok (getDataStatus td), td)) td.
Proof using Hvalid.
  unfold loadAllData. rewrite attempt_bind_eval. cbn [modify]. unfold modify.
  erewrite load_step_passes; [|apply returns_zoom, nodes_loaded|by left].
  set (odtd := set_nodes _ _).
  assert (exists ds ret, returns (CacheCollections.getDataSources cacheDirectoryPath customPath) [] ret ds /\
            (0 <= ret \/ true = true /\ ret = - ENOENT)) as (ds & ret & Hds & Hret).
  { exists dataSources_outcome.2. destruct (vc_dataSources Hvalid) as [H|H]; apply outcome_returns in H;
      (eexists; split; [unfold returns; rewrite getDataSources_outcome; exact H|auto]). lia. }
  erewrite load_step_passes; [|apply returns_zoom, Hds|exact Hret].
  pass_update getPersons_outcome.
  pass_update (getOdTrips_outcome cacheDirectoryPath customPath) (vc_odTrips Hvalid).
  set (persons := foldl _ [] _). set (odTrips := foldl _ _ _). clearbody persons odTrips.
  pass_outcome getAgencies_outcome (vc_agencies Hvalid).
  pass_outcome getServices_outcome (vc_services Hvalid).
  pass_outcome getLines_outcome (vc_lines Hvalid).
  pass_outcome getPaths_outcome (vc_paths Hvalid).
  match goal with |- context [load_step true updateScenarios _ ?td] =>
    destruct (scenarios_loaded (getServices td) (getLines td) (getAgencies td) (getNodes td) (getModes td))
      as (scenarios & Hrun & Hscenarios) end.
  pass_update Hrun.
  eexists. split; [|reflexivity]. by split.
Qed.

(** A job of the files: its objects are among those that are loaded. *)
Lemma job_read j : j ∈ jobs_read ->
  job_ok j /\ job_line j ∈ lines_outcome.2.1 /\ job_path j ∈ paths_outcome.2.
Proof using Hvalid. intros Hj. by apply (all_jobs_elem _ _ _ _ _ j (vc_line_files Hvalid)). Qed.

(** The nodes of the paths are the ones that are loaded. *)
Lemma path_nodes p : p ∈ paths_outcome.2 -> Forall (fun n => n ∈ nodes_read) (path_nodesRef p).
Proof using Hvalid.
  pose proof (outcome_returns _ _ (vc_paths Hvalid)) as Hrun. revert p. rewrite <- Forall_forall.
  unfold paths_outcome, collection_outcome in Hrun |- *. destruct (paths_file _) as [errno|[l|]]; [constructor| |constructor].
  destruct (read_all _ l _) as [ret m] eqn:Hm. cbn.
  refine (read_all_inv _ (Forall (fun p => Forall (fun n => n ∈ nodes_read) (path_nodesRef p))) _ _ _ _ _ Hm _); [|constructor].
  intros c f s Hf Hs. unfold parse_path in Hf.
  apply bind_Some in Hf as (u & _ & Hf). apply bind_Some in Hf as (nodesRef & Hnodes & Hf).
  repeat (apply bind_Some in Hf as (? & _ & Hf)). injection Hf as <-.
  assert (Forall (fun n => n ∈ nodes_read) nodesRef) as Hrefs.
  { apply mapM_Some in Hnodes. induction Hnodes as [|text n texts ns Hn _ IH]; constructor; [|done].
    unfold find_text in Hn. apply bind_Some in Hn as (v & _ & Hn). by apply tree_find_Some in Hn as [Hn _]. }
  rewrite Forall_forall in Hs |- *. intros p Hp. by apply tree_emplace_in in Hp as [->|Hp]; [|apply Hs].
Qed.

Lemma load_run : exists td, returns loadAllData TransitData_empty READY td /\ loaded_data td.
Proof using Hvalid.
  destruct load_before as (td & [Hnodes Hnode_uid Hag Hse Hli Hpa [Hsorted Hsome] Huid Htimes Hf Hr] & Hload).
  destruct (getSchedules_run cacheDirectoryPath customPath paths_outcome.2 services_outcome.2 lines_outcome.2.1
              (get_schedules td)) as (st & Hrun & Hst).
  { exact (vc_line_files Hvalid). }
  { exact (vc_jobs Hvalid). }
  { intros u _. cbn. rewrite Htimes. apply lookup_empty. }
  fold jobs_read in Hst. cbn [get_schedules sch_trip_uid] in Hst. destruct Hst as [_ Htrips Hconns Hcount _ _].
  cbn [get_schedules sch_trip_uid] in Htrips, Hconns, Hcount. rewrite Huid in Htrips, Hconns, Hcount.
  exists (generateForwardAndReverseConnections (set_schedules st td)).2.
  assert (getDataStatus (generateForwardAndReverseConnections (set_schedules st td)).2 = READY) as Hready.
  { destruct jobs_read as [|j l] eqn:Hjobs; [by destruct (vc_some Hvalid)|].
    assert (j ∈ jobs_read) as Hj by (rewrite Hjobs; constructor). destruct (job_read j Hj) as (_ & Hline & Hpath).
    apply data_ready; cbn.
    - rewrite Hag. exact (vc_some_agency Hvalid).
    - rewrite Hse. exact (vc_some_service Hvalid).
    - rewrite Hnodes. intros Hnil. by apply fmap_nil_inv, (vc_some_node Hvalid) in Hnil.
    - rewrite Hli. by destruct lines_outcome.2.1; [apply elem_of_nil in Hline|].
    - rewrite Hpa. by destruct paths_outcome.2; [apply elem_of_nil in Hpath|].
    - done.
    - intros Hnil. rewrite Hnil in Htrips. by apply Permutation_nil in Htrips. }
  split.
  - unfold returns. rewrite Hload. erewrite load_step_passes; [by rewrite Hready| |by left].
    unfold updateSchedules. eapply returns_bind; [apply get_ok|]. eapply returns_bind.
    { apply returns_zoom. rewrite Hli, Hpa, Hse. exact Hrun. }
    reflexivity.
  - split; [done|done| | done| |done].
    + cbn. by rewrite Hcount.
    + split; cbn.
      * rewrite Forall_forall. intros j Hj. by apply job_read.
      * exact (vc_timed Hvalid).
      * done.
      * done.
      * done.
      * done.
      * intros u. by rewrite push_trip_connections_lookup, Hf.
      * intros u. by rewrite push_trip_connections_lookup, Hr.
      * rewrite Forall_forall, Hnodes. intros j Hj. apply path_nodes. by apply job_read.
Qed.

(** ** The server at the start *)

Notation server td := (mkServer td (node_global_uid (uids td)) (trip_global_uid (uids td))).
Notation stop td := (fun n => n ∈ getNodes td).

Lemma start_healthy {geo : GeoFilter} td : loaded_data td -> filter_law -> healthy (server td) (stop td).
Proof using Hvalid.
  intros [Hnodes Hnode_uid Htrip_uid Hscenarios Hjobs _] Hfilter. rewrite Hnode_uid, Htrip_uid.
  refine (data_healthy cacheDirectoryPath customPath 0 base_outcome.2.1 _ base_read _ td Hnodes 0 jobs_read Hjobs _ Hfilter).
  - apply Forall_forall. exact (vc_node_files Hvalid).
  - by apply tree_sorted_NoDup.
Qed.

Lemma start_run cacheAllScenarios : exists td cache,
  TransitData_new cacheAllScenarios = Ok (td, cache) /\ loaded_data td /\ cache_valid td (getScenarios td) cache.
Proof using Hvalid.
  destruct load_run as (td & Hrun & Hdata). unfold TransitData_new. rewrite Hrun. eexists td, _.
  split; [reflexivity|]. split; [done|]. intros s cs _ Hget. destruct cacheAllScenarios; [|discriminate].
  change (CacheAll_get (scenario_uuid s) CacheAll_new = Some cs) in Hget. unfold CacheAll_get in Hget. cbn [connectionSets CacheAll_new] in Hget.
  by rewrite lookup_empty in Hget.
Qed.

(** C31: The program that starts on a cache without mistakes has its data: the status is
    [READY], the trips and the connections are those of the files of the lines, and the
    server is [healthy], that is the loaded data have what the calculations rely on. *)
Theorem cache_loads_healthy {geo : GeoFilter} cacheAllScenarios :
  filter_law ->
  exists td cache, TransitData_new cacheAllScenarios = Ok (td, cache) /\ getDataStatus td = READY /\
    getTrips td ≡ₚ job_trips 0 jobs_read /\ connections td = all_connections 0 jobs_read /\
    getNodes td = nodes_read /\ cache_valid td (getScenarios td) cache /\ healthy (server td) (stop td).
Proof using Hvalid.
  intros Hfilter. destruct (start_run cacheAllScenarios) as (td & cache & Hrun & Hdata & Hcache).
  exists td, cache. pose proof (start_healthy td Hdata Hfilter). destruct Hdata as [? ? ? ? [] ?]. auto 10.
Qed.

(** A server that was started on a cache without mistakes answers every sequence
    of requests: from the messages in the files to the text of the responses, nothing the
    program does on the way throws, loops or is undefined. *)
Theorem cached_server_answers {J} {library : JsonLibrary J} {library_laws : JsonLibraryLaws J}
    {platform : Platform} {geo : GeoFilter} cacheAllScenarios :
  filter_law ->
  exists td cache, TransitData_new cacheAllScenarios = Ok (td, cache) /\ getDataStatus td = READY /\
    forall requests, Forall (in_scope (server td)) requests ->
    exists responses cache', serve (server td) (getDataStatus td) requests cache = Ok (responses, cache') /\
      Forall2 (answered (server td)) requests responses.
Proof using Hvalid.
  intros Hfilter. destruct (start_run cacheAllScenarios) as (td & cache & Hrun & Hdata & Hcache).
  exists td, cache. split; [exact Hrun|]. split; [exact (lo_status _ Hdata)|]. intros requests Hscope.
  pose proof (start_healthy td Hdata Hfilter) as Hhealthy. rewrite (lo_status _ Hdata).
  destruct (requests_answered (server td) (stop td) Hhealthy requests cache Hcache Hscope)
    as (responses & cache' & Hserve & _ & Hall). eauto.
Qed.
End Load.
