(* ===== verification/StartUpCorrect.v ===== *)
(** * What the start of the program gives

    The options that the command line sets, and the program from its arguments to the
    answers of its server. *)

From Stdlib Require Import ZArith Lia.
From stdpp Require Import base list gmap strings.
From S2P Require Import Prelude.
From S2P Require Import Data.
From S2P Require Import Parameters.
From S2P Require Import ConnectionCache.
From S2P Require Import TransitData.
From S2P Require Import CacheFiles.
From S2P Require Import CacheFetcher.
From S2P Require Import Calculator.
From S2P Require Import Numbers.
From S2P Require Import ResultToV2.
From S2P Require Import HttpServer.
From S2P Require Import ServerCorrect.
From S2P Require Import CacheCorrect.
From S2P Require Import CacheLoad.
From S2P Require Import GeoFilters.
From S2P Require Import FiltersCorrect.
From S2P Require Import StartUp.

Local Open Scope Z_scope.

(** ** The options *)

Definition same_type (a b : OptionValue) : Prop :=
  match a, b with
  | OptionInt _, OptionInt _ | OptionBool _, OptionBool _ | OptionString _, OptionString _ => True
  | _, _ => False
  end.

(** What Boost documents of a map it has stored: under the first name of an option with
    a default there is a value of its type, and there is nothing under another name. *)
Record stored (vm : variables_map) : Prop := {
  stored_value d default : d ∈ options -> option_default d = Some default ->
    exists name value, head (option_names d) = Some name /\ vm !! name = Some value /\ same_type value default;
  stored_key name : is_Some (vm !! name) -> exists d, d ∈ options /\ head (option_names d) = Some name
}.

Definition int_at (vm : variables_map) (name : string) : Z :=
  match vm !! name with Some (OptionInt z) => z | _ => 0 end.
Definition bool_at (vm : variables_map) (name : string) : bool :=
  match vm !! name with Some (OptionBool b) => b | _ => false end.
Definition string_at (vm : variables_map) (name : string) : string :=
  match vm !! name with Some (OptionString s) => s | _ => EmptyString end.

(** The options that a stored map sets. *)
Definition options_of (vm : variables_map) : ProgramOptions :=
  mkProgramOptions (string_at vm "cachePath") (int_at vm "port") (int_at vm "debug" =? 1)
    (bool_at vm "cacheAllConnectionSets") (bool_at vm "useEuclideanDistance") (int_at vm "threads")
    (string_at vm "dataFetcher") (string_at vm "osrmPort") (string_at vm "osrmCyclingPort") (string_at vm "osrmDrivingPort")
    (string_at vm "osrmHost") (string_at vm "osrmCyclingHost") (string_at vm "osrmDrivingHost").

Section Options.
Context (vm : variables_map) (Hvm : stored vm).

Lemma value_at i d name default : options !! i = Some d -> option_names d !! 0%nat = Some name ->
  option_default d = Some default -> exists value, vm !! name = Some value /\ same_type value default.
Proof using Hvm.
  intros Hi Hname Hdefault. destruct (stored_value _ Hvm d default) as (name' & value & Hhead & Hvalue & Htype); [by eapply list_elem_of_lookup_2|done|].
  exists value. split; [|done]. destruct (option_names d); [done|]. cbn in Hname, Hhead. congruence.
Qed.

Lemma no_value_at name : Forall (fun d => head (option_names d) <> Some name) options -> vm !! name = None.
Proof using Hvm.
  intros Hall. destruct (vm !! name) as [v|] eqn:Hv; [|done].
  destruct (stored_key _ Hvm name) as (d & Hd & Hname); [by rewrite Hv|].
  rewrite Forall_forall in Hall. by destruct (Hall d Hd).
Qed.

(** The values of each type. *)
Lemma int_option i name default : options !! i = Some (mkOption [name] (Some (OptionInt default))) ->
  vm !! name = Some (OptionInt (int_at vm name)).
Proof using Hvm.
  intros Hi. destruct (value_at i _ name _ Hi eq_refl eq_refl) as ([] & Hv & Ht); try done. unfold int_at. by rewrite Hv.
Qed.

Lemma bool_option i name default : options !! i = Some (mkOption [name] (Some (OptionBool default))) ->
  vm !! name = Some (OptionBool (bool_at vm name)).
Proof using Hvm.
  intros Hi. destruct (value_at i _ name _ Hi eq_refl eq_refl) as ([] & Hv & Ht); try done. unfold bool_at. by rewrite Hv.
Qed.

Lemma string_option i name names default : options !! i = Some (mkOption (name :: names) (Some (OptionString default))) ->
  vm !! name = Some (OptionString (string_at vm name)).
Proof using Hvm.
  intros Hi. destruct (value_at i _ name _ Hi eq_refl eq_refl) as ([] & Hv & Ht); try done. unfold string_at. by rewrite Hv.
Qed.

Ltac not_a_key := apply no_value_at; apply (bool_decide_unpack _); vm_compute; reflexivity.

(** From a map that Boost has stored, the options are those of the command line,
    each with the value of its type, the walking port and host under the key of the
    option whatever the name that was given; with the help option there are none. *)
Lemma parseOptions_stored : parseOptions vm = Ok (if decide (is_Some (vm !! "help"%string)) then None else Some (options_of vm)).
Proof using Hvm.
  unfold parseOptions, count, as_int, as_bool, as_string. destruct (vm !! "help"%string) eqn:Hhelp.
  { by rewrite decide_True by eauto. }
  rewrite decide_False by (by intros [? ?]). cbn [negb Nat.eqb].
  unfold read_option, count.
  rewrite (int_option 1 "port" _ eq_refl), (int_option 2 "debug" _ eq_refl), (string_option 3 "dataFetcher" _ _ eq_refl),
    (string_option 4 "cachePath" _ _ eq_refl), (bool_option 5 "cacheAllConnectionSets" _ eq_refl),
    (bool_option 6 "useEuclideanDistance" _ eq_refl), (int_option 7 "threads" _ eq_refl),
    (string_option 9 "osrmCyclingPort" _ _ eq_refl), (string_option 10 "osrmDrivingPort" _ _ eq_refl),
    (string_option 12 "osrmCyclingHost" _ _ eq_refl), (string_option 13 "osrmDrivingHost" _ _ eq_refl).
  assert (vm !! "osrmWalkPort"%string = None) as -> by not_a_key.
  assert (vm !! "osrmWalkingPort"%string = None) as -> by not_a_key.
  assert (vm !! "osrmWalkHost"%string = None) as -> by not_a_key.
  assert (vm !! "osrmWalkingHost"%string = None) as -> by not_a_key.
  rewrite (string_option 8 "osrmPort" _ _ eq_refl), (string_option 11 "osrmHost" _ _ eq_refl).
  reflexivity.
Qed.
End Options.

(** ** The program *)

Section Program.
Context `{line : CommandLine, files : CacheFiles, boost : Boost, libm : Libm, service : OsrmService}.
Context {J : Type} {library : JsonLibrary J} {library_laws : JsonLibraryLaws J} {platform : Platform}.

Lemma main_filter_law vm :
  bool_at vm "useEuclideanDistance" = true \/
    service_documented "walking" (string_at vm "osrmHost") (string_at vm "osrmPort") /\
    walks_found "walking" (string_at vm "osrmHost") (string_at vm "osrmPort") ->
  filter_law (geo := main_filter (options_of vm)).
Proof using Type.
  intros Hfilter. unfold main_filter. cbn [useEuclideanDistance options_of osrmWalkingHost osrmWalkingPort].
  destruct (bool_at vm "useEuclideanDistance"); [apply euclidean_filter_law|].
  apply osrm_filter_law; by destruct Hfilter as [|[? ?]].
Qed.

(** C30: The program, from its arguments to its answers. With the help option it ends
    with the code 0, with a data fetcher that is not the cache with -2. With a cache
    without mistakes, and with the bird distance, or a map service that answers as it
    documents and finds a walk to every node it is asked for (no [null]), it listens on
    the port and with the threads of its options, its data are ready, and every sequence
    of requests within the scope ([in_scope]: times before 32:00, minimal waiting times
    below 32768 seconds, walks below 65536 seconds) is answered. *)
Theorem program_answers args vm :
  parse_command_line options args = Ok vm -> stored vm ->
  (is_Some (vm !! "help"%string) -> main args = Ok (Exited 0)) /\
  (vm !! "help"%string = None -> string_at vm "dataFetcher" <> "cache"%string -> main args = Ok (Exited (-2))) /\
  (vm !! "help"%string = None -> string_at vm "dataFetcher" = "cache"%string ->
   valid_cache (string_at vm "cachePath") "" ->
   bool_at vm "useEuclideanDistance" = true \/
     service_documented "walking" (string_at vm "osrmHost") (string_at vm "osrmPort") /\
     walks_found "walking" (string_at vm "osrmHost") (string_at vm "osrmPort") ->
   exists td cache,
     main args = Ok (Serving (mkListening (int_at vm "port") (int_at vm "threads") READY td cache (main_filter (options_of vm)))) /\
     let geo : GeoFilter := main_filter (options_of vm) in
     let srv := mkServer td (node_global_uid (uids td)) (trip_global_uid (uids td)) in
     forall requests, Forall (in_scope srv) requests ->
     exists responses cache', serve srv READY requests cache = Ok (responses, cache') /\
       Forall2 (answered srv) requests responses).
Proof using Type.
  intros Hparse Hvm. unfold main. rewrite Hparse. cbn [mbind result_bind]. rewrite (parseOptions_stored vm Hvm). cbn [mbind result_bind].
  split; [intros Hhelp; by rewrite decide_True|]. split; intros Hhelp; (rewrite decide_False by (rewrite Hhelp; by intros [? ?])).
  - intros Hfetcher. cbn [options_of dataFetcherShortname]. by destruct (String.eqb_spec (string_at vm "dataFetcher") "cache").
  - intros Hfetcher Hvalid Hfilter. cbn [options_of dataFetcherShortname cachePath cacheAllConnectionSets port numberOfThreads].
    rewrite Hfetcher. cbn [String.eqb].
    destruct (cached_server_answers (string_at vm "cachePath") "" Hvalid (geo := main_filter (options_of vm))
                (bool_at vm "cacheAllConnectionSets") (main_filter_law vm Hfilter)) as (td & cache & Hrun & Hready & Hans).
    change (CacheFetcher (string_at vm "cachePath") "") with (cache_fetcher (string_at vm "cachePath") "").
    rewrite Hrun. cbn [mbind result_bind]. exists td, cache. rewrite Hready in *. split; [reflexivity|exact Hans].
Qed.
End Program.
