(* ===== verification/ServerDemo.v ===== *)
(** * Requests to a server of the small timetable

    An implementation of the library of JSON documents, with its laws, and the server of
    [Demo], which is healthy: the theorems on documents and on the server are
    instantiated with them. *)

From Stdlib Require Import ZArith Lia Sorted.
From Corelib Require Import SpecFloat.
From stdpp Require Import base list gmap strings pretty.
From S2P Require Import Prelude.
From S2P Require Import Data.
From S2P Require Import Attempt.
From S2P Require Import RoutingResult.
From S2P Require Import ConnectionSet.
From S2P Require Import ConnectionCache.
From S2P Require Import TransitData.
From S2P Require Import Calculator.
From S2P Require Import Demo.
From S2P Require Import ResetCorrect.
From S2P Require Import OptimizeCorrect.
From S2P Require Import ReverseJourney.
From S2P Require Import Calculation.
From S2P Require Import QuerySetup.
From S2P Require Import QueryCorrect.
From S2P Require Import AccessibilityCorrect.
From S2P Require Import Numbers.
From S2P Require Import Parameters.
From S2P Require Import RequestDemo.
From S2P Require Import Combinations.
From S2P Require Import Alternatives.
From S2P Require Import AlternativesCorrect.
From S2P Require Import ResultToV2.
From S2P Require Import HttpServer.
From S2P Require Import ServerCorrect.
From S2P Require Import ServerTransparent.

Local Open Scope Z_scope.

(** ** The library of documents *)

Inductive json :=
| JNull
| JInt (z : Z)
| JDouble (d : spec_float)
| JString (s : string)
| JArray (items : list json)
| JObject (fields : list (string * json)).

Fixpoint assoc_set {A} (key : string) (value : A) (l : list (string * A)) : list (string * A) :=
  match l with
  | [] => [(key, value)]
  | (k, v) :: l' => if String.eqb k key then (key, value) :: l' else (k, v) :: assoc_set key value l'
  end.

Fixpoint assoc_get {A} (key : string) (l : list (string * A)) : option A :=
  match l with
  | [] => None
  | (k, v) :: l' => if String.eqb k key then Some v else assoc_get key l'
  end.

(** A double is printed by its mantissa and its exponent. *)
Definition print_double (d : spec_float) : string :=
  match d with
  | S754_finite s m e => (if s then "-" else "") +:+ pretty (Z.pos m) +:+ "p" +:+ pretty e
  | S754_zero _ => "0"
  | _ => "null"
  end.

Fixpoint print_json (j : json) : string :=
  match j with
  | JNull => "null"
  | JInt z => pretty z
  | JDouble d => print_double d
  | JString s => quoted s
  | JArray items => "[" +:+ String.concat ", " (List.map print_json items) +:+ "]"
  | JObject fields =>
      "{" +:+ String.concat ", " (List.map (fun f => quoted f.1 +:+ ": " +:+ print_json f.2) fields) +:+ "}"
  end.

#[export] Instance demo_json : JsonLibrary json := {
  json_null := JNull;
  json_int := JInt;
  json_double := JDouble;
  json_string := JString;
  json_array := JArray;
  json_set key value o :=
    match o with JNull => JObject [(key, value)] | JObject l => JObject (assoc_set key value l) | _ => o end;
  json_push_back x o := match o with JNull => JArray [x] | JArray l => JArray (l ++ [x]) | _ => o end;
  json_dump j := Some (print_json j)
}.

Lemma assoc_get_set {A} key (value : A) l : assoc_get key (assoc_set key value l) = Some value.
Proof.
  induction l as [|[k v] l IH]; cbn; [by rewrite String.eqb_refl|].
  destruct (String.eqb_spec k key) as [->|Hne]; cbn; [by rewrite String.eqb_refl|].
  destruct (String.eqb_spec k key); [done|exact IH].
Qed.

Lemma assoc_get_set_ne {A} key key' (value : A) l :
  key <> key' -> assoc_get key (assoc_set key' value l) = assoc_get key l.
Proof.
  intros Hne. induction l as [|[k v] l IH]; cbn.
  - destruct (String.eqb_spec key' key); [congruence|reflexivity].
  - destruct (String.eqb_spec k key') as [->|]; cbn; [|by rewrite IH].
    destruct (String.eqb_spec key' key); [congruence|reflexivity].
Qed.

#[export] Instance demo_json_laws : JsonLibraryLaws json.
Proof.
  refine {|
    json_get key o := match o with JObject l => assoc_get key l | _ => None end;
    json_items o := match o with JArray l => l | _ => [] end;
    json_is_object o := match o with JNull | JObject _ => True | _ => False end
  |}; try reflexivity; try exact I.
  - intros key value [] Ho; (exact I || exact Ho).
  - intros key value [| | | | |l] Ho; try done; cbn; [by rewrite String.eqb_refl|apply assoc_get_set].
  - intros key key' value [| | | | |l] Ho Hne; try done; cbn.
    + destruct (String.eqb_spec key' key); [congruence|reflexivity].
    + by apply assoc_get_set_ne.
Defined.

(** ** The summary of the two routes of the timetable *)

Definition demo_alternatives : AlternativesResult :=
  match demo_search with Ok (result, _, _) => result | Throw _ => mkAlternativesResult 0 [] end.

Lemma summary_counts_boardings_witness :
  exists answer entries,
    json_get "result" (summary_alternatives demo_alternatives demo_route) = Some answer /\
    json_get "nbRoutes" answer = Some (JInt 2) /\
    json_get "lines" answer = Some (JArray (line_summary_json <$> entries)) /\
    (fun e => (trip_line_uuid (summary_trip e), summary_count e)) <$> entries = [(1%N, 2); (2%N, 1)].
Proof.
  destruct (summary_counts_boardings demo_alternatives demo_route)
    as (answer & entries & _ & Hanswer & Hroutes & Hlines & _).
  exists answer, [mkLineSummary trip_1 2; mkLineSummary trip_2 1].
  vm_compute in Hanswer. injection Hanswer as <-. split_and!; vm_compute; reflexivity.
Defined.

(** ** The healthy server *)

Lemma demo_healthy : healthy demo_server stop_known.
Proof.
  destruct (demo_network_ok true 0) as [[Hdata _ _ _] Hback Htrips Hf Hr Hwalks].
  split; try assumption.
  - rewrite Forall_forall in Hback |- *. intros conn Hin. pose proof (bd_trip _ _ _ _ (Hback conn Hin)) as Htrip.
    repeat (apply elem_of_cons in Hin as [-> | Hin]); [..|by apply elem_of_nil in Hin];
      (split; [cbn; lia..| | |eexists; split; [left|split; reflexivity]|eexists; split; [left|split; reflexivity]|exact Htrip]);
      repeat (apply Forall_cons_2; [split; cbn; lia|]); apply Forall_nil_2.
  - apply NoDup_singleton.
  - exact stop_known_uuid.
  - intros point limit _. cbn. unfold getAccessibleNodesFootpathsFromPoint, demo_filter.
    destruct (longitude point) as [[]|[]| |]; (eexists; split; [reflexivity|]; split; [repeat constructor; cbn; lia|apply NoDup_singleton]).
Qed.

Definition demo_fields : list (string * string) := route_request demo_route "-73.5,45.25" "-73.5,45.25".

Definition demo_requests : list request :=
  [RouteRequest demo_fields; SummaryRequest (("origin", "here") :: demo_fields)%string;
   AccessibilityRequest (place_request demo_access "-73.5,45.25"); OtherRequest].

(** A route with alternatives, a request with a point that cannot be read, an
    accessibility map, and a request for something else. *)
Lemma every_request_answered_witness :
  exists responses cache', serve demo_server READY demo_requests no_cache = Ok (responses, cache') /\
    Forall2 (answered demo_server) demo_requests responses /\
    responses !! 1%nat = Some (http_response "400 OK" (query_error "INVALID_ORIGIN")).
Proof.
  assert (createRouteODParameter demo_fields (scenario_map demo_data) = Ok demo_route) as Hroute by (vm_compute; reflexivity).
  assert (createAccessibilityParameter (place_request demo_access "-73.5,45.25") (scenario_map demo_data) = Ok demo_access)
    as Haccess by (vm_compute; reflexivity).
  assert (createRouteODParameter (("origin", "here") :: demo_fields)%string (scenario_map demo_data) = Throw INVALID_ORIGIN)
    as Hbad by (vm_compute; reflexivity).
  destruct (every_request_answered (C := AnyScenarioConnectionCache) demo_server stop_known demo_healthy demo_requests no_cache)
    as (responses & cache' & Hrun & _ & Hall).
  - apply demo_cache_valid.
  - repeat (apply Forall_cons_2; [|]); [intros q Hq..|exact I|apply Forall_nil_2].
    + pose proof (eq_trans (eq_sym Hq) Hroute) as [= ->]. split_and!; vm_compute; reflexivity.
    + pose proof (eq_trans (eq_sym Hq) Hbad) as [=].
    + pose proof (eq_trans (eq_sym Hq) Haccess) as [= ->]. split_and!; vm_compute; reflexivity.
  - exists responses, cache'. split_and!; [exact Hrun|exact Hall|].
    unfold demo_requests in Hall. apply Forall2_cons_inv_l in Hall as (r1 & l1 & _ & Hall & ->).
    apply Forall2_cons_inv_l in Hall as (r2 & l2 & Hans & _ & ->).
    unfold answered in Hans. change (transitData demo_server) with demo_data in Hans.
    rewrite Hbad in Hans. cbn in Hans. rewrite Hans. reflexivity.
Defined.

(** The cache of all scenarios, after a query of the scenario. *)
Definition used_cache : ScenarioConnectionCacheAll :=
  CacheAll_set (scenario_uuid demo_scenario) (computeConnectionsForScenario demo_data demo_scenario) CacheAll_new.

Lemma answers_independent_of_cache_witness :
  ('(responses, _) ← serve demo_server READY demo_requests used_cache; Ok responses) =
  mapM (fresh_response demo_server READY) demo_requests.
Proof.
  apply answers_independent_of_cache.
  - apply NoDup_singleton.
  - intros s cs Hs Hget. change (getScenarios demo_data) with [demo_scenario] in Hs. apply list_elem_of_singleton in Hs as ->.
    change (CacheAll_get (scenario_uuid demo_scenario) used_cache = Some cs) in Hget.
    unfold CacheAll_get, used_cache, CacheAll_set in Hget. cbn [connectionSets] in Hget.
    rewrite lookup_insert_eq in Hget. by injection Hget as <-.
Defined.

(** ** An update of the data *)

#[local] Instance demo_fetcher (path : string) : DataFetcher := {
  fetcher_getModes := [];
  fetcher_getNodes := mret 0;
  fetcher_getDataSources := mret 0;
  fetcher_getPersons _ := mret 0;
  fetcher_getOdTrips _ _ _ := mret 0;
  fetcher_getAgencies := mret 0;
  fetcher_getServices := mret 0;
  fetcher_getLines _ _ := _ ← modify (fun st => ([], st.2)); mret (-5);
  fetcher_getPaths _ _ := throw OutOfRange;
  fetcher_getScenarios _ _ _ _ _ := mret 0;
  fetcher_getSchedules _ _ _ := mret 0
}.

(** The second name is unknown, yet it is reported; an error code goes unnoticed, an
    exception leaves the handler with the data half updated. *)
Lemma updateCache_outcome_witness :
  updateCache demo_fetcher [("names", "lines,cats"); ("path", "new")]%string demo_data =
    (Ok (http_response STATUS_200
          (json_fields [("status", quoted "success"); ("cache_names", quoted "lines,cats");
                        ("custom_cache_path", quoted "new")]%string)),
     set_lines ([], 2%nat) demo_data) /\
  updateCache demo_fetcher [("names", "cats"); ("path", "new")]%string demo_data = (Throw Undefined, demo_data) /\
  updateCache demo_fetcher [("names", "all"); ("path", "new")]%string demo_data =
    (Throw OutOfRange, set_paths (getPaths demo_data) (set_lines ([], 2%nat) demo_data)).
Proof.
  split_and!;
    [rewrite (updateCache_outcome demo_fetcher ["lines"; "cats"]%string "new" demo_data)
    |rewrite (updateCache_outcome demo_fetcher ["cats"]%string "new" demo_data)
    |rewrite (updateCache_outcome demo_fetcher ["all"]%string "new" demo_data)];
    first [done | reflexivity | repeat constructor].
Defined.
