(* ===== verification/SurveyDemo.v ===== *)
(** * A survey of the small timetable

    Two trips of a survey on the network of [Demo]: one that takes trip 1, the walk and
    trip 2, and one that starts at the end of the line. *)

From Stdlib Require Import ZArith Lia.
From Corelib Require Import SpecFloat.
From stdpp Require Import base list gmap strings.
From S2P Require Import Prelude.
From S2P Require Import Data.
From S2P Require Import Numbers.
From S2P Require Import RoutingResult.
From S2P Require Import ConnectionCache.
From S2P Require Import TransitData.
From S2P Require Import Calculator.
From S2P Require Import GeoFilters.
From S2P Require Import Parameters.
From S2P Require Import ResultToV2.
From S2P Require Import OdTripsRouting.
From S2P Require Import OdTripsCorrect.
From S2P Require Import SurveyReport.
From S2P Require Import HttpServer.
From S2P Require Import ServerCorrect.
From S2P Require Import SurveyQuery.
From S2P Require Import Demo.
From S2P Require Import ReverseJourney.
From S2P Require Import RequestDemo.
From S2P Require Import ServerDemo.

Local Open Scope Z_scope.

Definition demo_odTrip (n : N) (origin : list NodeTimeDistance) (factor : spec_float) : OdTrip :=
  mkOdTrip n (Z.of_N n) "trip" (mkDataSource 1 "" "" "") None 28200 31500 5000 2000 900 factor "transit" "home" "work"
    origin [mkNTD 4 240 300] demo_origin demo_destination.

Definition demo_odTrips : list OdTrip :=
  [demo_odTrip 1 [mkNTD 1 300 380] (SFdiv 24 128 (float_of 5) (float_of 2)); demo_odTrip 2 [mkNTD 4 60 80] (float_of 1)].

Definition demo_survey : TransitData :=
  mkTransitData (getModes demo_data) (getDataSources demo_data) (getPersons demo_data) demo_odTrips (getAgencies demo_data)
    (getServices demo_data) (getNodes demo_data) (getLines demo_data) (getPaths demo_data) (getScenarios demo_data)
    (getTrips demo_data) (connections demo_data) (forwardConnections demo_data) (reverseConnections demo_data)
    (tripForwardConnections demo_data) (tripReverseConnections demo_data)
    {[ 1%nat := [28800; 29460; 0]; 2%nat := [30000; 0] ]} (pathTripsRef demo_data) (uids demo_data).

Definition survey_server : Server := mkServer demo_survey 4 2.

Definition survey_parameters : RouteParameters :=
  mkRouteParameters (demo_parameters true 28200 60 3600) demo_origin demo_destination false.

#[export] Instance demo_shuffle : Shuffle := fun _ l => l.

(** ** Profiles *)

Definition demo_segments (u : uuid) : nat := if N.eqb u 1 then 2 else 1.

Definition factor_1 : spec_float := SFdiv 24 128 (float_of 5) (float_of 2).
Definition factor_2 : spec_float := float_of 1.

(** Two rides on trip 1, the second from B only, and one on trip 2. *)
Definition demo_legs : list (spec_float * Leg) :=
  [(factor_1, mkLeg trip_1 0 1); (factor_2, mkLeg trip_1 1 1); (factor_1, mkLeg trip_2 0 0)].

Lemma demo_legs_ok : Forall (fun d => leg_ok (line_uuid <$> getLines demo_survey) demo_segments demo_survey d.2) demo_legs.
Proof.
  assert (forall leg : Leg, (line_uuid (trip_line (leg_tripOf leg)) ∈ (line_uuid <$> getLines demo_survey)) ->
            length (path_nodesRef (trip_path (leg_tripOf leg))) = S (demo_segments (path_uuid (trip_path (leg_tripOf leg)))) ->
            0 <= leg_start leg ->
            Forall (fun k => (Z.to_nat k < demo_segments (path_uuid (trip_path (leg_tripOf leg))))%nat /\
              exists dep, connectionDepartureTimes demo_survey (leg_tripOf leg) !! Z.to_nat k = Some dep /\ 0 <= dep < 29 * 3600)
              (leg_connections leg) ->
            leg_ok (line_uuid <$> getLines demo_survey) demo_segments demo_survey leg) as H.
  { intros leg H1 H2 H3 H4. split; try done. intros k Hk. rewrite Forall_forall in H4. apply H4, elem_of_seqZ. lia. }
  repeat (apply Forall_cons_2; [apply H; [apply (bool_decide_unpack _); vm_compute; exact I|reflexivity|done|]|]); [..|apply Forall_nil_2];
    (match goal with |- Forall _ ?l => let x := eval vm_compute in l in change l with x end);
    repeat (apply Forall_cons_2; [split; [apply Nat.ltb_lt; vm_compute; reflexivity|eexists; split; [vm_compute; reflexivity|lia]]|]); apply Forall_nil_2.
Qed.

Lemma demand_profiles_witness : exists st,
  for_each (fun d => add_leg demo_survey d.1 d.2) demo_legs (OdProfiles_new (getLines demo_survey)) = Ok st /\
  lineProfiles st !! 1%N = Some (float_sum [factor_1; factor_2]) /\
  pathTotalProfiles st !! 1%N = Some [float_sum [factor_1]; float_sum [factor_1; factor_2]] /\
  SFltb (maximumSegmentTotalDemand st) (float_sum [factor_1; factor_2]) = false.
Proof.
  destruct (demand_profiles demo_survey demo_segments demo_legs demo_legs_ok) as (st & Hrun & Hlines & _ & Hpaths & Hmax & _).
  exists st. split; [exact Hrun|]. split.
  { rewrite Hlines. assert ((line_uuid <$> getLines demo_survey) = [1%N; 2%N]) as -> by (vm_compute; reflexivity).
    vm_compute. reflexivity. }
  destruct (Hpaths 1%N) as (totals & profile & Ht & _ & Hn & _ & Hv & _).
  { exists (factor_1, mkLeg trip_1 0 1). split; [apply list_elem_of_here|vm_compute; reflexivity]. }
  cbn in Hn. destruct totals as [|x [|y [|]]]; try discriminate Hn.
  pose proof (Hv 0%nat x eq_refl) as Hx. pose proof (Hv 1%nat y eq_refl) as Hy. vm_compute in Hx, Hy.
  assert (pathTotalProfiles st !! 1%N = Some [float_sum [factor_1]; float_sum [factor_1; factor_2]]) as Htotals
    by (rewrite Ht, Hx, Hy; vm_compute; reflexivity).
  split; [exact Htotals|]. eapply Hmax; [exact Htotals|]. apply list_elem_of_further, list_elem_of_here.
Defined.

(** ** The report *)

Definition demo_calculations : calc (list (OdTrip * (SingleCalculationResult + NoRoutingReason)) * Calculator * ScenarioConnectionCacheOne) :=
  od_calculations survey_server survey_parameters demo_odTrips Calculator_new true CacheOne_new.

Definition demo_outcomes : list (OdTrip * (SingleCalculationResult + NoRoutingReason)) :=
  match demo_calculations with Ok (outcomes, _, _) => outcomes | Throw _ => [] end.

Definition demo_profiles : OdProfiles :=
  match for_each (fun d => add_leg demo_survey d.1 d.2) (flat_map (outcome_legs 0) demo_outcomes) (OdProfiles_new (getLines demo_survey)) with
  | Ok st => st
  | Throw _ => OdProfiles_new []
  end.

(** The server of [Demo] with this survey is healthy. *)
Lemma survey_healthy : healthy survey_server stop_known.
Proof.
  destruct demo_healthy as [[] Hconns Htrips Hf Hr Hwalks Hs Hstops Hfilter].
  split; try assumption; [by split|]. eapply Forall_impl; [exact Hconns|]. intros conn [L1 L2 L3 L4 L5 L6 L7 L8 L9 [T1 T2 T3 T4 T5 T6]].
  split; try assumption. by split.
Qed.

Lemma demo_odTrips_ok : Forall (od_ok survey_server) demo_odTrips.
Proof.
  repeat (apply Forall_cons_2; [split; [by split|repeat constructor; cbn; lia|split; apply NoDup_singleton|cbn; lia]|]); apply Forall_nil_2.
Qed.

Lemma demo_profiled : Forall (profiled survey_server demo_segments) (connections demo_survey).
Proof.
  repeat (apply Forall_cons_2;
    [split; [apply (bool_decide_unpack _); vm_compute; exact I|reflexivity|apply Nat.leb_le; reflexivity|];
     repeat (apply Forall2_cons_2; [split; [reflexivity|lia]|]); apply Forall2_nil_2|]); apply Forall_nil_2.
Qed.

Lemma survey_in_range : common_in_range (scenario_map demo_survey) (route_common survey_parameters).
Proof. split; try (cbn; unfold MAX_INT; lia); [by exists (scenario_uuid demo_scenario)|done|reflexivity]. Qed.

(** The first trip has a journey of 40 minutes, which counts for two and a half; the
    second starts at the end of the line. *)
Lemma survey_answered_witness : exists text c' cache',
  odTripsRouting survey_server survey_parameters (OdTripLegacyParameters_new 0) Calculator_new CacheOne_new = Ok (text, c', cache') /\
  Ok text = dump (report_json (OdTripLegacyParameters_new 0) (outcome_json survey_parameters 0 "07:50" <$> demo_outcomes)
                    (with_total 6000 demo_profiles)) /\
  Exists (fun x => x.2 = inr NO_SERVICE_FROM_ORIGIN) demo_outcomes.
Proof.
  destruct (survey_answered (C := ScenarioConnectionCacheOne) survey_server stop_known survey_parameters 0 survey_healthy
              survey_in_range ltac:(split_and!; reflexivity) demo_segments Calculator_new CacheOne_new demo_odTrips_ok
              eq_refl demo_profiled ltac:(intros s cs _ Hget; discriminate Hget)) as (outcomes & st & Hall & Hst & Hrun).
  assert (outcomes = demo_outcomes) as ->.
  { assert (mapM (fun odTrip => o ← declared_answer survey_server survey_parameters odTrip; Ok (odTrip, o)) demo_odTrips = Ok demo_outcomes)
      as Hout by (vm_compute; reflexivity).
    exact (f_equal (fun r => match r with Ok l => l | Throw _ => [] end) (eq_trans (eq_sym Hall) Hout)). }
  assert (st = demo_profiles) as ->
    by exact (eq_sym (f_equal (fun r => match r with Ok s => s | Throw _ => OdProfiles_new [] end) Hst)).
  destruct (Hrun "07:50"%string 6000) as (c' & cache' & _ & Hreport); [vm_compute; reflexivity|vm_compute; reflexivity|].
  rewrite decide_False in Hreport by discriminate. eexists _, c', cache'. split; [exact Hreport|]. split; [reflexivity|].
  apply Exists_exists. destruct demo_outcomes as [|x [|y l]] eqn:Hout; [vm_compute in Hout; discriminate Hout..|].
  exists y. split; [apply list_elem_of_further, list_elem_of_here|]. vm_compute in Hout. by injection Hout as _ <- _.
Defined.
