(* ===== verification/CacheDemo.v ===== *)
(** * A cache of the small timetable

    Files from which the network of [Demo] is read. *)

From Stdlib Require Import ZArith Lia.
From Corelib Require Import SpecFloat.
From stdpp Require Import base list gmap strings.
From S2P Require Import Prelude.
From S2P Require Import Data.
From S2P Require Import Attempt.
From S2P Require Import ConnectionCache.
From S2P Require Import Parameters.
From S2P Require Import CacheFiles.
From S2P Require Import TransitData.
From S2P Require Import CollectionsCorrect.
From S2P Require Import ScenariosCorrect.
From S2P Require Import SurveyCorrect.
From S2P Require Import NodesCorrect.
From S2P Require Import SchedulesCorrect.
From S2P Require Import CacheFetcher.
From S2P Require Import Calculator.
From S2P Require Import Demo.
From S2P Require Import RequestDemo.
From S2P Require Import HttpServer.
From S2P Require Import ServerCorrect.
From S2P Require Import CacheCorrect.
From S2P Require Import CacheLoad.
From S2P Require Import GeoFilters.
From S2P Require Import FiltersCorrect.
From S2P Require Import FilterDemo.
From S2P Require Import ServerDemo.

Local Open Scope Z_scope.

Definition u (n : N) : string := uuid_to_string n.

(** The nodes A to D, the third and the fourth before the others. *)
Definition c_node (n : N) (name : string) : cNode := mk_cNode (u n) (Z.of_N n) name name name 0 0.

Definition c_nodes : reader_list cNode :=
  Some <$> [c_node 1 "A"; c_node 2 "B"; c_node 3 "C"; c_node 4 "D"]%string.

Definition c_transfers (path : string) : opened cNodeTransfers :=
  let file n := "nodes/node_" +:+ u n +:+ ".capnpbin" in
  if String.eqb path (file 1%N) then Opened (Some (mk_cNodeTransfers [u 1] [0] [0]))
  else if String.eqb path (file 2%N) then Opened (Some (mk_cNodeTransfers [u 2; u 3; u 9] [0; 120; 60] [0; 150; 70]))
  else if String.eqb path (file 3%N) then Opened (Some (mk_cNodeTransfers [u 3; u 2] [0; 120] [0; 150]))
  else if String.eqb path (file 4%N) then Opened (Some (mk_cNodeTransfers [u 4] [0] [0]))
  else OpenFailed 2.

Definition c_line (n : N) : cLine := mk_cLine (u n) "L" "bus" (u 1) "L" "Line" 0.

Definition c_path (n : N) (nodes : list N) : cPath := mk_cPath (u n) "P" "out" (u n) "{}" (u <$> nodes).

Definition c_trip (n : N) (arrivals departures : list Z) : cTrip :=
  mk_cTrip (u n) (u n) arrivals departures (replicate (length arrivals) 1) (replicate (length arrivals) 1) (-1) (-1).

Definition c_schedules (path : string) : opened (reader_list cSchedule) :=
  let file n := "lines/line_" +:+ u n +:+ ".capnpbin" in
  let schedule trip := Opened (Some [Some (mk_cSchedule (u 1) [Some (mk_cPeriod [Some trip])])]) in
  if String.eqb path (file 1%N) then schedule (c_trip 1 [28800; 29400; 31200] [28800; 29460; 31200])
  else if String.eqb path (file 2%N) then schedule (c_trip 2 [30000; 30600] [30000; 30600])
  else OpenFailed 2.

(** A survey in one file of persons and two of trips; the second trip of the first file
    has no uuid, and the third is lost with it. *)
Definition c_person : cPerson :=
  mk_cPerson (u 1) (u 1) 1 (binary_normalize 24 128 2 0 false) 30 1 1 AG3034 Gender_FEMALE RETIRED "P".

Definition c_odTrip (text : string) : cOdTrip :=
  mk_cOdTrip text (u 1) (u 1) 7 (binary_normalize 24 128 1 0 false) 28000 31000 5000 2000 900 TRANSIT HOME WORK_USUAL
    45500000 (-73500000) 45600000 (-73600000) [u 1] [60] [80] [u 4; u 3] [90; 300] [100; 380] "T".

Definition c_survey (name : string) : string := "dataSources/" +:+ u 1 +:+ "/" +:+ name.

Definition c_odTrips (path : string) : opened (reader_list cOdTrip) :=
  if String.eqb path (c_survey "odTrips.capnpbin.0") then
    Opened (Some [Some (c_odTrip (u 1)); Some (c_odTrip "no uuid"); Some (c_odTrip (u 2))])
  else if String.eqb path (c_survey "odTrips.capnpbin.1") then Opened (Some [Some (c_odTrip (u 3))])
  else OpenFailed 2.

#[export] Instance demo_files : CacheFiles := {
  agencies_file _ := Opened (Some [Some (mk_cAgency (u 1) "AG" "Agency" "AG" "")]);
  services_file _ := Opened (Some [Some (mk_cService (u 1) "week" "week" 1 1 1 1 1 0 0 "" "" [] [] "")]);
  lines_file _ := Opened (Some [Some (c_line 1); Some (c_line 2)]);
  paths_file _ := Opened (Some [Some (c_path 1 [1; 2; 4]%N); Some (c_path 2 [3; 4]%N)]);
  scenarios_file _ :=
    Opened (Some [Some (mk_cScenario (u 1) "scenario" [u 1; u 7] [] [] [] [] [] [] [] [] "")]);
  dataSources_file _ := Opened (Some [Some (mk_cDataSource (u 1) DataSource_OD_TRIPS "survey")]);
  persons_file path := if String.eqb path (c_survey "persons.capnpbin") then Opened (Some [Some c_person]) else OpenFailed 2;
  odTrips_file := c_odTrips;
  nodes_file _ := Opened (Some c_nodes);
  node_file := c_transfers;
  line_file := c_schedules;
  text_file path := if String.eqb path (c_survey "odTrips.capnpbin.count") then Some "2"%string else None;
  json_parse _ := Some (fun _ _ => Some None);
  date_from_string _ := None
}.

(** ** The contents of the files *)

Definition the_lines : list Line := Eval vm_compute in (lines_outcome "" "").2.1.
Definition the_paths : list Path := Eval vm_compute in (paths_outcome "" "").2.
Definition the_services : list Service := Eval vm_compute in (services_outcome "" "").2.
Definition the_jobs : list job := Eval vm_compute in jobs_read "" "".

(** Reduce an outcome that is known. *)
Ltac compute_file :=
  match goal with |- context [line_file ?path] =>
    let x := eval vm_compute in (line_file path) in change (line_file path) with x end; cbv beta iota.

(** A schedule of one period and one trip. *)
Ltac schedule_of_one_trip :=
  split;
    [apply Forall_cons_2; [|apply Forall_nil_2]; eexists; split; [reflexivity|];
       apply Forall_cons_2; [eexists; reflexivity|apply Forall_nil_2]
    |eexists; vm_compute; reflexivity
    |intros service c Hc; apply list_elem_of_singleton in Hc as ->;
       eexists; split; [vm_compute; reflexivity|split; cbn; lia]].

Lemma demo_lines_ok : Forall (line_ok "" "" the_paths the_services) the_lines.
Proof.
  apply Forall_cons_2; [|apply Forall_cons_2; [|apply Forall_nil_2]]; unfold line_ok; compute_file;
    (apply Forall_cons_2; [|apply Forall_nil_2]); (eexists; split; [reflexivity|]); schedule_of_one_trip.
Qed.

Lemma demo_jobs_timed : Forall job_timed the_jobs.
Proof.
  repeat (apply Forall_cons_2; [|]); [..|apply Forall_nil_2]; split; cbn;
    intros [|[|k]] x y Hk Hx Hy; cbn in Hk, Hx, Hy; simplify_eq; lia.
Qed.

Lemma demo_node_files : Forall (fun n => exists c, node_file_ok "" "" (node_uuid n) c) (base_outcome "" "").2.1.
Proof.
  change (base_outcome "" "").2.1 with (ltac:(let x := eval vm_compute in (base_outcome "" "").2.1 in exact x)).
  repeat (apply Forall_cons_2; [|]); [..|apply Forall_nil_2]; (eexists; split; [vm_compute; reflexivity| | |]);
    try (split; [repeat (apply Forall_cons_2; [eexists; vm_compute; reflexivity|]); apply Forall_nil_2|cbn; lia..]);
    try (repeat (apply Forall_cons_2; [lia|]); apply Forall_nil_2);
    (eexists _, _, 0%nat, _; split_and!; vm_compute; reflexivity).
Qed.

Lemma demo_odTrip_lists c path : in_file c (odTrips_file path) -> odTrip_lists_ok c.
Proof.
  cbn. unfold c_odTrips. destruct (String.eqb _ _); [|destruct (String.eqb _ _); [|done]]; intros Hc; cbn in Hc;
    repeat (apply elem_of_cons in Hc as [[= ->]|Hc]); try (by apply elem_of_nil in Hc); split; cbn; lia.
Qed.

Lemma demo_cache_file_valid : valid_cache "" "".
Proof.
  split; try (vm_compute; reflexivity); try (vm_compute; discriminate).
  - left. vm_compute. reflexivity.
  - exact demo_node_files.
  - eexists [_]. split_and!; [discriminate| |reflexivity]. apply Forall_cons_2; [|apply Forall_nil_2].
    split; try (eexists; vm_compute; reflexivity);
      repeat (apply Forall_cons_2; [eexists; vm_compute; reflexivity|]); apply Forall_nil_2.
  - exact demo_odTrip_lists.
  - exact demo_lines_ok.
  - change (job_uuid <$> jobs_read "" "") with (ltac:(let x := eval vm_compute in (job_uuid <$> jobs_read "" "") in exact x)).
    by apply (bool_decide_unpack _).
  - exact demo_jobs_timed.
Qed.

(** ** The server of these files *)

(** A map service that gives a footpath to the first node. *)
#[local] Instance first_node_filter : GeoFilter := fun point nodes limit speed =>
  Ok match nodes with [] => [] | n :: _ => [mkNTD (node_uid n) 60 80] end.

Lemma first_node_law : filter_law (geo := first_node_filter).
Proof.
  intros point [|n nodes] limit _; eexists; (split; [reflexivity|]); cbn; (split; [|intros _]).
  - constructor.
  - constructor.
  - apply Forall_cons_2; [|apply Forall_nil_2]. cbn. split; [constructor|lia].
  - apply NoDup_singleton.
Qed.

(** The start on the files of the small timetable: two trips, three connections. *)
Lemma cache_loads_healthy_witness : exists td cache,
  TransitData_new (fetcher := cache_fetcher "" "") false = Ok (td, cache) /\ getDataStatus td = READY /\
  length (connections td) = 3%nat /\
  healthy (geo := first_node_filter) (mkServer td (node_global_uid (uids td)) (trip_global_uid (uids td)))
    (fun n => n ∈ getNodes td).
Proof.
  destruct (cache_loads_healthy "" "" demo_cache_file_valid false first_node_law)
    as (td & cache & Hrun & Hready & _ & Hconns & _ & _ & Hhealthy).
  exists td, cache. split_and!; [exact Hrun|exact Hready| |exact Hhealthy].
  rewrite Hconns. vm_compute. reflexivity.
Defined.

(** A route and an accessibility map from the first node, on this server. *)
Definition cache_requests : list request :=
  [RouteRequest demo_fields; AccessibilityRequest (place_request demo_access "-73.5,45.25"); OtherRequest].

Definition cache_data : TransitData :=
  match TransitData_new (fetcher := cache_fetcher "" "") true with Ok (td, _) => td | Throw _ => TransitData_empty end.

Definition in_time (p : CommonParameters) : bool :=
  (getTimeOfTrip p <? 32 * 3600) && (getMinWaitingTimeSeconds p <? 32768) &&
  (getMaxAccessWalkingTravelTimeSeconds p <? 65536) && (getMaxEgressWalkingTravelTimeSeconds p <? 65536).

Lemma in_time_scope p : in_time p = true -> time_in_scope p.
Proof. unfold in_time, time_in_scope. rewrite !andb_true_iff, !Z.ltb_lt. tauto. Qed.

Abbreviation cache_server := (mkServer cache_data (node_global_uid (uids cache_data)) (trip_global_uid (uids cache_data))).

Lemma cache_data_ready : getDataStatus cache_data = READY.
Proof. vm_compute. reflexivity. Qed.

Lemma cache_route_in_time :
  match createRouteODParameter demo_fields (scenario_map (transitData cache_server)) with
  | Ok q => in_time (route_common q) | Throw _ => true end = true.
Proof. vm_compute. reflexivity. Qed.

Lemma cache_place_in_time :
  match createAccessibilityParameter (place_request demo_access "-73.5,45.25") (scenario_map (transitData cache_server)) with
  | Ok q => in_time (access_common q) | Throw _ => true end = true.
Proof. vm_compute. reflexivity. Qed.

Lemma cache_requests_in_scope : Forall (in_scope cache_server) cache_requests.
Proof.
  pose proof cache_route_in_time as Hroute. pose proof cache_place_in_time as Hplace.
  repeat (apply Forall_cons_2; [|]); [intros q Hq..|exact I|apply Forall_nil_2].
  - rewrite Hq in Hroute. by apply in_time_scope.
  - rewrite Hq in Hplace. by apply in_time_scope.
Qed.

#[local] Existing Instance EuclideanGeoFilter | 0.

(** They are answered, with the bird distance. *)
Lemma cached_server_answers_witness : exists cache responses cache',
  TransitData_new (fetcher := cache_fetcher "" "") true = Ok (cache_data, cache) /\
  serve cache_server READY cache_requests cache = Ok (responses, cache') /\
  Forall2 (answered cache_server) cache_requests responses.
Proof.
  destruct (cached_server_answers "" "" demo_cache_file_valid true euclidean_filter_law) as (td & cache & Hrun & _ & Hans).
  assert (td = cache_data) as -> by (unfold cache_data; by rewrite Hrun).
  destruct (Hans cache_requests cache_requests_in_scope) as (responses & cache' & Hserve & Hall).
  exists cache, responses, cache'. rewrite cache_data_ready in Hserve. by split_and!.
Defined.

(** ** The fetchers on these files *)

(** The nodes of the file: B lists C at two minutes, and C is reached back from B. *)
Lemma getNodes_footpaths_witness : exists nodes cnt,
  returns (CacheNodes.getNodes "" "") ([], 0%nat) 0 (nodes, cnt) /\ cnt = 4%nat /\
  exists b c, b ∈ nodes /\ c ∈ nodes /\ node_uuid b = 2%N /\ node_uuid c = 3%N /\
    mkNTD (node_uid c) 120 150 ∈ transferableNodes b /\
    lists_transfer "" "" (node_uuid b) (node_uuid c) 120 150.
Proof.
  pose proof (nodes_loaded "" "" demo_cache_file_valid) as Hrun.
  pose proof (getNodes_footpaths "" "" _ _ _ Hrun) as (_ & _ & _ & Hout & _).
  exists (nodes_read "" ""), (base_outcome "" "").2.2. split; [exact Hrun|]. split; [vm_compute; reflexivity|].
  assert (exists b c, nodes_read "" "" !! 1%nat = Some b /\ nodes_read "" "" !! 2%nat = Some c /\
    node_uuid b = 2%N /\ node_uuid c = 3%N /\ transferableNodes b !! 1%nat = Some (mkNTD (node_uid c) 120 150))
    as (b & c & Hb & Hc & Hub & Huc & Hbc) by (eexists _, _; split_and!; vm_compute; reflexivity).
  apply list_elem_of_lookup_2 in Hb, Hc, Hbc. exists b, c. split_and!; [exact Hb|exact Hc|exact Hub|exact Huc|exact Hbc|].
  apply (Hout b _ Hb) in Hbc as (n & Hn & Huid & Hlist). cbn in Huid, Hlist.
  assert (n = c) as ->; [|exact Hlist].
  pose proof (base_read "" "" demo_cache_file_valid) as Hbase.
  apply (NoDup_fmap_inj node_uid (nodes_read "" "")); [|exact Hn|exact Hc|symmetry; exact Huid].
  unfold nodes_read, with_footpaths. rewrite with_lists_uids. exact (bs_uids _ _ _ Hbase).
Defined.

(** The two trips of the files, with their three connections. *)
Lemma getSchedules_connections_witness : exists st',
  returns (CacheSchedules.getSchedules "" "" the_lines the_paths the_services)
    (mkSchedules [] [] ∅ ∅ 0) 0 st' /\
  sch_connections st' = all_connections 0 the_jobs /\ length (sch_connections st') = 3%nat /\
  sch_departureTimes st' !! 1%nat = Some [28800; 29460; 0].
Proof.
  destruct (getSchedules_connections "" "" the_paths the_services the_lines (mkSchedules [] [] ∅ ∅ 0))
    as (st' & Hrun & _ & _ & Hconns & _ & Hjobs).
  - exact demo_lines_ok.
  - exact (vc_jobs _ _ demo_cache_file_valid).
  - intros u _. apply lookup_empty.
  - exists st'. split_and!; [exact Hrun|exact Hconns| |].
    + rewrite Hconns. vm_compute. reflexivity.
    + destruct the_jobs as [|j l] eqn:Hj; [discriminate|].
      assert (all_jobs "" "" the_paths the_services the_lines !! 0%nat = Some j) as Hlook
        by (change (the_jobs !! 0%nat = Some j); by rewrite Hj).
      destruct (Hjobs 0%nat j Hlook) as (_ & _ & Ht). cbn [sch_trip_uid] in Ht.
      etransitivity; [exact Ht|]. injection Hj as <- _. reflexivity.
Defined.

Definition the_dataSources : list DataSource := Eval vm_compute in (dataSources_outcome "" "").2.

(** One person, and the trips before the mistake in the first file and of the second one. *)
Lemma survey_read_witness : exists code code' persons trips,
  CachePersons.getPersons "" "" the_dataSources [] = (Ok code, persons) /\
  CachePersons.getOdTrips "" "" the_dataSources persons (nodes_read "" "") [] = (Ok code', trips) /\
  person_uuid <$> persons = [1%N] /\ od_uuid <$> trips = [1%N; 3%N].
Proof.
  destruct (survey_read "" "" the_dataSources
              (CachePersons.getPersons "" "" the_dataSources []).2 (nodes_read "" "")) as (Hpersons & Htrips & _).
  destruct (Hpersons []) as (code & Hp & _). destruct (Htrips demo_odTrip_lists []) as (code' & Ht & _).
  exists code, code'. eexists _, _. split_and!.
  - exact (outcome_returns _ _ (f_equal fst Hp)).
  - exact Ht.
  - vm_compute. reflexivity.
  - vm_compute. reflexivity.
Defined.
