(* ===== verification/StartUpDemo.v ===== *)
(** * The program on the small cache

    A command line of the form [--name=value] for each option, and the program that it
    starts on the files of [CacheDemo]. *)

From Stdlib Require Import ZArith Lia.
From stdpp Require Import base list gmap strings.
From S2P Require Import Prelude.
From S2P Require Import Data.
From S2P Require Import Numbers.
From S2P Require Import Parameters.
From S2P Require Import ConnectionCache.
From S2P Require Import TransitData.
From S2P Require Import CacheFetcher.
From S2P Require Import Calculator.
From S2P Require Import GeoFilters.
From S2P Require Import FilterDemo.
From S2P Require Import RequestDemo.
From S2P Require Import HttpServer.
From S2P Require Import ServerCorrect.
From S2P Require Import ServerDemo.
From S2P Require Import CacheLoad.
From S2P Require Import CacheDemo.
From S2P Require Import StartUp.
From S2P Require Import StartUpCorrect.

Local Open Scope Z_scope.

(** ** A command line *)

Definition option_key (d : OptionDescription) : string := default EmptyString (head (option_names d)).

Definition default_values (l : list OptionDescription) : variables_map :=
  list_to_map (omap (fun d => (fun v => (option_key d, v)) <$> option_default d) l).

Definition read_value (like : option OptionValue) (text : string) : calc OptionValue :=
  match like with
  | Some (OptionInt _) => match stoi text with Ok z => Ok (OptionInt z) | Throw _ => Throw StdException end
  | Some (OptionBool _) =>
      if String.eqb text "1" then Ok (OptionBool true)
      else if String.eqb text "0" then Ok (OptionBool false) else Throw StdException
  | Some (OptionString _) => Ok (OptionString text)
  | None => if String.eqb text "" then Ok (OptionString "") else Throw StdException
  end.

Definition read_argument (l : list OptionDescription) (vm : variables_map) (arg : string) : calc variables_map :=
  match split "=" arg with
  | [name; text] =>
      match list_find (fun d => existsb (fun n => String.eqb name ("--" +:+ n)) (option_names d) = true) l with
      | Some (_, d) => value ← read_value (option_default d) text; Ok (<[option_key d := value]> vm)
      | None => Throw StdException
      end
  | _ => Throw StdException
  end.

#[export] Instance demo_line : CommandLine := fun l args =>
  foldl (fun vm arg => vm ← vm; read_argument l vm arg) (Ok (default_values l)) args.

Definition demo_args : list string := ["--cachePath="; "--useEuclideanDistance=1"; "--threads=2"; "--cacheAllConnectionSets=1"; "--osrmWalkPort=5001"]%string.

(** ** The map it stores *)

Definition demo_values : list (string * OptionValue) :=
  Eval vm_compute in match parse_command_line options demo_args with Ok vm => map_to_list vm | Throw _ => [] end.

Lemma demo_parse : parse_command_line options demo_args = Ok (list_to_map demo_values).
Proof. vm_compute. reflexivity. Qed.

Lemma demo_stored : stored (list_to_map demo_values).
Proof.
  split.
  - intros d default Hd. unfold options in Hd.
    repeat (apply elem_of_cons in Hd as [->|Hd]; [intros [= <-]; eexists _, _; split_and!; vm_compute; reflexivity|]).
    by apply elem_of_nil in Hd.
  - intros name [value Hvalue]. apply elem_of_list_to_map_2 in Hvalue. unfold demo_values in Hvalue.
    repeat (apply elem_of_cons in Hvalue as [[= -> _]|Hvalue]; [by apply Exists_exists; apply (bool_decide_unpack _); vm_compute|]).
    by apply elem_of_nil in Hvalue.
Qed.

Lemma demo_transitData :
  match main demo_args with Ok (Serving l) => main_transitData l | _ => TransitData_empty end = cache_data.
Proof. vm_compute. reflexivity. Qed.

#[local] Existing Instance EuclideanGeoFilter | 0.

(** The program that this command line starts answers the requests of [CacheDemo]. *)
Lemma program_answers_witness : exists l responses cache',
  main demo_args = Ok (Serving l) /\ listening_port l = 4000 /\ thread_pool_size l = 2 /\
  serve cache_server READY cache_requests (main_cache l) = Ok (responses, cache') /\
  Forall2 (answered cache_server) cache_requests responses.
Proof.
  destruct (program_answers demo_args _ demo_parse demo_stored) as (_ & _ & Hrun).
  destruct (Hrun eq_refl eq_refl demo_cache_file_valid (or_introl eq_refl)) as (td & cache & Hmain & Hans).
  assert (td = cache_data) as -> by (pose proof demo_transitData as Htd; by rewrite Hmain in Htd).
  destruct (Hans cache_requests cache_requests_in_scope) as (responses & cache' & Hserve & Hall).
  eexists _, responses, cache'. split_and!; [exact Hmain|reflexivity|reflexivity|exact Hserve|exact Hall].
Defined.
